(* ===== verification/_CoqProject ===== *)
-Q . S2P
Prelude.v
StateMachine.v
Lifecycle.v
Barcode.v
Rounding.v
Numeric.v
Oee.v
Analytics.v
Schema.v
Sql.v
Cascade.v
Integrity.v
Sample.v
Ingest.v
Simulator.v
Metrics.v
Sync.v
Delivery.v
Protocol.v
Moves.v
Orders.v
Dnc.v
Exec.v
Trace.v
Qms.v
Cmms.v
Auth.v
Master.v
Mapping.v
Erp.v
Process.v
Diagnostics.v
Agent.v
Concurrency.v
Isolation.v
Replication.v
System.v
Server.v
Wellformed.v
Programs.v
Interleaving.v
Wire.v
Reply.v
Routing.v
Extract.v
Http.v
CloudHttp.v
Secrecy.v
Readback.v
