(* ===== verification/Prelude.v ===== *)
(** * ElectronIx MES: verification development

    ElectronIx MES is a manufacturing execution system: an edge server per plant
    ([crates/mes-edge]) over a PostgreSQL database ([crates/mes-db]), a library of pure
    domain rules ([crates/mes-core]), a bridge to the daemon that sends programs to machine
    tools ([crates/mes-dnc-bridge]), connectors to ERP systems ([crates/mes-erp]), redacted
    diagnostics ([crates/mes-diagnostics]), and a cloud service that plants synchronise with
    and whose copilot answers questions about them ([crates/mes-cloud], [crates/mes-sync],
    [crates/mes-agent-tools]). This development models the rules, the repositories and the
    endpoints as Rocq functions and proves what they promise.

    ** How the parts interact

    Devices post signals to the edge ([ingest.rs]); a recompute reads the cycle pulses back,
    runs the state machine ([state_machine.rs]) and replaces the derived machine states and
    downtime events, which OEE and downtime reports read ([repo_oee.rs],
    [repo_analytics.rs]) and usage-based maintenance counts ([repo_cmms.rs]). Planners create
    and release work orders ([orders.rs]), operators execute them ([exec.rs]); completing an
    operation schedules the transfer of the next operation's program ([dnc.rs]). Inspections
    raise NCRs and holds ([qms.rs]), holds block the issue of material ([trace.rs]). Created
    orders enter the outbox and travel to the cloud, remote orders travel back
    ([repo_sync.rs]). Users sign in for a token ([auth_routes.rs]); planners administer the
    plant ([master.rs]) and its ERP connections, through which orders come in and stock and
    procurement requests go out ([erp.rs]). On the cloud, agents see the orders of their own
    org through read-only tools ([agent.rs], [copilot.rs], [tools.rs]). Everything arrives
    over HTTP ([http.rs] and the [routes] of the modules), many requests at a time.

    ** Files

    - [Prelude]: results, the state-and-error monad [M], [evolves] (what a computation does
      to the state, on every branch), record update, the list operations that queries
      are made of, sorting, and the tactics and hints shared by the other files.
    - [StateMachine]: [mes-core/src/state_machine.rs].
    - [Lifecycle]: the enumerations of [mes-core] ([work_order.rs], [dnc.rs], [cmms.rs],
      [qms.rs], [analytics.rs]) and the role rules ([roles.rs]), one [Module] per
      enumeration, with the interfaces [WireEnum] and [Lifecycle] they implement.
    - [Barcode]: [mes-core/src/barcode.rs].
    - [Rounding]: what IEEE 754 binary64 (the Standard Library's [SpecFloat]) rounds products
      and quotients to.
    - [Numeric], [Oee], [Analytics]: [mes-core/src/oee.rs] and the Pareto of
      [analytics.rs] over an interface [Num] of numbers with two instances, binary64 and
      exact rationals; the theorems about OEE are about binary64.
    - [Schema]: the tables of [mes-db/migrations] (a [table] type, a row record per table,
      unique and foreign keys, INTEGER ranges), the database as a function from tables to
      lists of rows, and the state [World] of the server: database, clock, identifier
      source, published events, DNC client, connection faults.
    - [Sql]: statements, constraint checks, transactions with rollback, repository and API
      errors ([RepoError], [map_sqlx], [repo_err]), the audit log; the interface [Env]
      holds what is outside the sources (the ULID source, the server's messages). The
      lemmas on [evolves], [atomic], [grows] and [reads] carry the proofs about what a
      handler may change, the rules for [returns] those about when it goes through.
    - [Cascade]: deletes with the schema's cascades and [SET NULL], updates of unique columns.
    - [Integrity]: what the schema promises of the stored data ([schema_ok]), that every
      statement keeps it, and the automation ([typed]) that carries this to handlers.
    - [Moves]: tables of rows that follow a lifecycle, that updates move rows legally, and
      that rows are rewritten only by moving.
    - [Ingest]: [mes-edge/src/ingest.rs], [process.rs], [mes-db/src/repo_ingest.rs].
    - [Simulator]: [mes-ingest/src/sim.rs].
    - [Metrics]: [mes-db/src/repo_oee.rs], [repo_analytics.rs], [mes-edge/src/analytics.rs].
    - [Sync]: [mes-db/src/repo_sync.rs], [mes-cloud/src/sync.rs], and how serde reads structs
      and scalars; SHA-256 and the texts of decoding errors are the interface [SyncEnv], the
      text form of decimals and times [WireText].
    - [Delivery]: a plant that polls the cloud for its commands, over [Sync]. The polling is
      that of the documented protocol; no such client is among the sources.
    - [Protocol]: [mes-dnc-bridge/src/protocol.rs]; the text of JSON is the interface
      [SerdeJson].
    - [Orders]: [mes-db/src/repo_orders.rs], [mes-edge/src/orders.rs].
    - [Dnc]: [mes-db/src/repo_dnc.rs], [mes-edge/src/dnc.rs], [mes-dnc-bridge].
    - [Exec]: [mes-edge/src/exec.rs].
    - [Trace]: [mes-db/src/repo_trace.rs], [mes-edge/src/trace.rs].
    - [Qms]: [mes-db/src/repo_qms.rs], [mes-edge/src/qms.rs].
    - [Cmms]: [mes-db/src/repo_cmms.rs], [mes-edge/src/cmms.rs]; the server's interval and
      NUMERIC arithmetic is the interface [CmmsEnv].
    - [Auth]: [mes-edge/src/auth.rs], [auth_routes.rs], [extract.rs]; password hashing and
      token signing are the interface [Crypto], with their laws in [CryptoLaws].
    - [Master]: [mes-edge/src/master.rs] and the CRUD of [mes-db/src/repo.rs].
    - [Mapping]: ordered maps and the field mapping of [mes-erp/src/mapping.rs].
    - [Erp]: [mes-erp/src/crypto.rs], [push.rs], [mes-db/src/repo_erp.rs],
      [mes-edge/src/erp.rs]; the cipher, base64 and the ERP's replies are [ErpEnv], with
      [ErpLaws].
    - [Process]: [config.rs], [http.rs] and [lib.rs] of both servers, [mes-edge/src/ws.rs].
    - [Diagnostics]: [mes-diagnostics], [mes-edge/src/diagnostics.rs].
    - [Agent]: [mes-agent-tools], [mes-cloud/src/copilot.rs], [agent.rs]; the model is the
      interface [LlmBackend], with the two backends of the sources as instances.
    - [System]: every writing request of the shop floor as one transition system.
    - [Server]: every writing request of both servers as one transition system, and that the
      schema is kept ([reachable_typed]); [Wellformed]: what the program, not the schema,
      means the rows of each table to be, kept by every request.
    - [Concurrency]: requests that run at the same time, statement by statement, under READ
      COMMITTED; [Isolation]: a rely-guarantee logic for them; [Replication]: pushes of
      several plants at once; [Programs]: the endpoints of the shop floor statement by
      statement; [Interleaving]: any number of them at once.
    - [Wire]: the request types of [mes-client] as JSON, written and read (interface [Wire],
      an instance per type); [Reply]: the answers and the live events (interface [Reply]).
    - [Routing], [Extract]: route tables, axum's choice among them (interface [Axum], with
      [AxumLaws]), the extractors and answers both servers share.
    - [Http]: the edge from the request that arrives to the handler and back;
      [CloudHttp]: the cloud, likewise, and its boot; [Secrecy]: what answers do not tell;
      [Readback]: that a client reads what it wrote.
    - [Sample]: the concrete plant that examples and instantiations are evaluated on.

    A repository function or handler is a Rocq function of the same name in the monad [M];
    where an endpoint has the name of the repository function it calls, it carries the suffix
    [_endpoint]. A row stands for the DTO made from it.

    ** What the theorems show

    A theorem about a handler covers every branch: what a success has changed, that an error
    leaves the database alone (or what it may leave behind), and, on a healthy connection,
    conditions under which the call does succeed.

    - The timeline. [compute_states] and the planned-stop overlay are exact at every instant
      (C1, C2), and so are shift splitting and downtime events ([split_at_boundaries_correct],
      [downtime_events_exact]); a recompute stores that timeline and leaves everything else
      alone (C14), and is idempotent ([recompute_states_idempotent]); ingestion stores exactly
      the signals of enabled sources (C15).
    - The whole. Whatever sequence of requests either server is sent, the stored rows stay what
      the program takes them to be, word by word and stamp by stamp (C3), and keep the type the
      schema gives them ([reachable_typed]); on the shop floor rows move along their lifecycles,
      at most one automatic reorder is open per part and totals equal the sums of counts (C4).
    - Concurrency. Any number of requests of the shop floor, interleaved statement by statement
      and cut off anywhere, keep what is locked or guarded consistent, and no maintenance step
      and no disposition happens twice (C5); one that nobody disturbs does what its handler does
      ([undisturbed_as_handled]); overlapping pushes have the effect of some order of their
      entries (C19). What the code does not guard is shown to go wrong
      ([order_transitions_race], [overlapping_issues_miss_reorder],
      [overlapping_drafts_lose_one], [overlapping_recomputes_double]).
    - The ports. Whom each server lets in, endpoint by endpoint, and what a role can bring about
      whatever it sends (C7, C12); that a request sent as the clients send it reaches its
      handler, is read as what was sent and answered with the handler's outcome (C8, C11; the
      sending side, [http_of] and [api], is a specification, written from the route tables,
      since [mes-client] has types only); and that nothing that arrives does anything else (C10,
      C11), so that what holds of the requests of the model holds behind the ports. What a
      client wrote is what it reads, to the last field of the JSON (C9). No sequence of GET
      requests tells stored hashes, badges or tokens apart (C13).
    - Orders and execution. Creation is atomic and queues what it created (C23), transitions
      follow the lifecycle (C22), counts and totals move together (C21), starting and completing
      operations change what they should and never depend on the DNC daemon (C24,
      [start_op_exact]); splitting downtime conserves it ([split_downtime_conserves]).
    - Quality and traceability. A failed inspection holds what it inspected, a disposition
      releases it, material is issued only when not held (C25, C26; [disposition_ncr_exact],
      [rework_restores], [hold_released_restores]); traces are the consumption closure up to the
      query's depth bound (C27).
    - DNC. A transfer is recorded once the daemon has accepted it, and its completion event ends
      that very transfer (C6); program resolution, daemon events and review of revisions
      ([resolve_next_transfer_correct], [daemon_event_exact], [transition_revision_exact]); the
      line protocol loses nothing ([protocol_roundtrip]).
    - Maintenance. The stock is its ledger and reorders are raised once (C28); orders follow
      their lifecycle and the due list is exact ([transition_maintenance_exact],
      [pm_due_exact]).
    - Synchronisation. Replays change nothing, an interrupted batch leaves exactly what its
      entries before the failure leave and can be retried (C17, C18), commands reach a plant
      that keeps polling (C20), pushes are authenticated and tagged ([push_scoped]);
      [ack_then_pull], [create_remote_work_order_atomic].
    - Master data. A delete removes the closure of what depends on the row or is refused (C29),
      an update assigns what it names or reports the clash ([update_outcome]), every success
      leaves one audit entry (C30); only administrators and planners may ([master_refusal]).
    - Authentication. Who signs in gets a token that identifies them (C31), all refusals look
      alike (C32), a created user can sign in ([created_user_signs_in]).
    - ERP. The field mapping round-trips (C33), an import makes orders by the mapping of its
      connection, as far as its records allow, and keeps them (C34), requests count as sent only
      when the ERP took them (C35), a stored token is decrypted for its own connection only
      ([connection_token_roundtrip]).
    - Diagnostics. Redaction is an allowlist at every depth and idempotent (C36), the buffer is
      the end of the redacted history ([ring_refines]), what is shipped is determined by the
      redacted report and only with consent (C37); [reports_survive], [send_endpoint_outcome].
    - Agents. Tenants are isolated (C16), the tool loop ends within eight turns (C38), agents
      only read ([agents_read_only]), the status tool's answer is exact ([get_wo_status_exact]);
      [blocks_roundtrip].
    - Figures. The agreement of the Rust and SQL paths and the bounds of OEE with its degenerate
      inputs, both in binary64 (C39, C40), per-shift OEE and the Pareto over exact numbers
      ([oee_by_shift_exact], [pareto_correct]).
    - Domain enumerations and processes. No lifecycle can loop, text forms are exact, the
      barcode codec is exact ([lifecycles_bounded], [wire_forms_exact], [barcode_exact]);
      readiness, boot, the live stream and the pulse generator ([readiness_exact],
      [edge_boot_outcome], [cloud_boot_outcome], [forward_exact], [ws_event_to_json_inj],
      [cycle_run_exact]).

    Examples in the component files evaluate behaviours worth knowing:
    [Ingest.recompute_loses_straddling_part], [Metrics.overnight_shift_missed],
    [Metrics.oee_paths_differ_on_unknown], [Sync.ack_across_plants],
    [Sync.push_takes_over_order], [Exec.start_op_ignores_order_status],
    [Trace.serial_of_held_lot_issued], [Trace.trace_rows_explode],
    [Qms.ncr_number_collides], [Master.delete_in_use], [Mapping.mapping_collision],
    [Interleaving.order_transitions_race], [Interleaving.overlapping_issues_miss_reorder],
    [Interleaving.overlapping_drafts_lose_one], [Interleaving.overlapping_recomputes_double],
    [Http.users_listed_by_role].

    ** Modelling choices

    Time is in microseconds, the resolution of [TIMESTAMPTZ]; decimals count units of
    [10^-28], the finest scale of [rust_decimal]; an [INTEGER] column rejects what is out of
    32 bits. The clock stands still during a request. Any statement may be lost to the
    connection, as the list of faults of the [World] decides; a lost COMMIT is taken as a
    rollback. In the component files a handler runs alone; [Concurrency] interleaves the
    statements of handlers under READ COMMITTED, with a statement that waits taken to run
    when its wait is over and without the locks of foreign keys; a subquery in the values of
    an INSERT is read before the row is written, with time for others in between. Text is
    ordered bytewise, days are UTC days. A request over HTTP is its method, the segments of
    its path, the pairs of its query, its authorization and the JSON of its body, an answer
    its status and the JSON of its body; numbers in JSON are 64-bit integers or floats,
    decimals and times come as text. Overflow errors of float8 and NUMERIC are not
    represented. Rows carry the columns that are read or written by the code modelled.

    Recursion is structural throughout. Fuel occurs twice: the depth of the trace queries, 64,
    is the bound the query itself states; [cycle_run] takes a number of rounds, and its
    theorem says how many suffice, and when none does.

    ** Not modelled

    Sockets, the HTTP and WebSocket framing, panic hooks and tracing are I/O. The plain text
    of the refusals axum itself makes is left out (their status is not), and the content of
    the OpenAPI document, which macros generate, is a parameter. The desktop application is
    TypeScript and a Tauri shell. The choice of a route and percent-encoding (axum), the text
    form of JSON, decimals, times and floats, Argon2, JWT, XChaCha20-Poly1305, base64,
    SHA-256, the model's service and GitHub are parameters with the laws the code relies on.
    Under [Concurrency] a statement deletes from tables only that nothing refers to, as
    others need the locks of foreign keys: master data and ERP connections are modelled one
    request at a time. *)

From Stdlib Require Export ZArith Lia Permutation Sorted.
From stdpp Require Export base tactics option list strings gmap sets numbers.

Declare Scope mes_scope.
Delimit Scope mes_scope with mes.
Open Scope Z_scope.

(** ** Time

    Instants ([DateTime<Utc>], [TIMESTAMPTZ]) and spans ([Duration]) are counted in
    microseconds, the resolution at which the database stores them. *)

Abbreviation DateTime := Z (only parsing).
Abbreviation Duration := Z (only parsing).

Definition seconds (n : Z) : Duration := n * 1000000.
Definition days (n : Z) : Duration := n * 86400000000.

(** Fixed-point decimals: a [rust_decimal::Decimal] or a [NUMERIC] is counted in
    units of [10^-28], the finest scale a [Decimal] can carry, so that addition and
    comparison are those of [Z]. *)
Abbreviation Decimal := Z (only parsing).

(** The 32-bit range of an [INTEGER] column and of Rust's [i32]. *)
Definition in_i32 (n : Z) : bool := (-2147483648 <=? n) && (n <=? 2147483647).

(** ** Results and the state-and-error monad

    A fallible, stateful call is a function from a state to a result and the state it
    leaves behind. An error keeps the effects made before it: only [transaction]
    (below, in [Sql]) undoes them. *)

Inductive Result (A E : Type) : Type :=
  | Ok (a : A)
  | Err (e : E).
Arguments Ok {A E} a.
Arguments Err {A E} e.

Definition is_ok {A E} (r : Result A E) : bool :=
  match r with Ok _ => true | Err _ => false end.

Definition M (S E A : Type) : Type := S → Result A E * S.

#[global] Instance M_ret {S E} : MRet (M S E) := λ A a s, (Ok a, s).
#[global] Instance M_bind {S E} : MBind (M S E) := λ A B f m s,
  match m s with
  | (Ok a, s') => f a s'
  | (Err e, s') => (Err e, s')
  end.

Definition throw {S E A} (e : E) : M S E A := λ s, (Err e, s).
Definition gets {S E A} (f : S → A) : M S E A := λ s, (Ok (f s), s).
Definition modify {S E} (f : S → S) : M S E unit := λ s, (Ok tt, f s).

(** Rust's [.map_err(f)]. *)
Definition map_err {S E F A} (f : E → F) (m : M S E A) : M S F A := λ s,
  match m s with
  | (Ok a, s') => (Ok a, s')
  | (Err e, s') => (Err (f e), s')
  end.

(** Rust's [.ok_or(e)?] on an [Option]. *)
Definition ok_or {S E A} (o : option A) (e : E) : M S E A :=
  match o with Some a => mret a | None => throw e end.

(** [if cond { return Err(e) }]. *)
Definition throw_if {S E} (b : bool) (e : E) : M S E unit :=
  if b then throw e else mret tt.

(** A call whose outcome the caller looks at. *)
Definition attempt {S E F A} (m : M S E A) : M S F (Result A E) := λ s,
  (Ok (m s).1, (m s).2).

(** A best-effort call: the error is logged and dropped, the state kept. *)
Definition best_effort {S E F A} (m : M S E A) : M S F unit := λ s,
  (Ok tt, (m s).2).

(** A [for] loop over a slice, left to right, stopping at the first error. *)
Fixpoint mapM_list {S E A B} (f : A → M S E B) (l : list A) : M S E (list B) :=
  match l with
  | [] => mret []
  | x :: l' => y ← f x; ys ← mapM_list f l'; mret (y :: ys)
  end.

Fixpoint forM_ {S E A} (l : list A) (f : A → M S E unit) : M S E unit :=
  match l with
  | [] => mret tt
  | x :: l' => f x ;; forM_ l' f
  end.

Definition result {S E A} (m : M S E A) (s : S) : Result A E := (m s).1.
Definition state_after {S E A} (m : M S E A) (s : S) : S := (m s).2.

(** The outcome of a call whose result is known. *)
Lemma outcome {A B} (p : A * B) a : p.1 = a → p = (a, p.2).
Proof. destruct p. simpl. by intros ->. Qed.

(** ** Evolution of the state under a call

    [evolves R m] says that [m], whatever it returns, leads from a state to an
    [R]-related one. For a preorder [R] the property composes, so that a handler's
    proof reduces to the calls in it that write. *)

Definition evolves {S E A} (R : relation S) (m : M S E A) : Prop :=
  ∀ s, R s (state_after m s).

Create HintDb evolves.

Section evolves.
Context {S : Type} (R : relation S) `{!PreOrder R}.

Lemma evolves_pure {E A} (r : Result A E) : evolves R (λ s : S, (r, s)).
Proof. intros s. reflexivity. Qed.

Lemma evolves_run {E A} (m : M S E A) s r s' : evolves R m → m s = (r, s') → R s s'.
Proof. intros Hm H. specialize (Hm s). unfold state_after in Hm. by rewrite H in Hm. Qed.

Lemma evolves_ret {E A} (a : A) : evolves R (mret a : M S E A).
Proof. intros s. reflexivity. Qed.

Lemma evolves_throw {E A} (e : E) : evolves R (throw e : M S E A).
Proof. intros s. reflexivity. Qed.

Lemma evolves_gets {E A} (f : S → A) : evolves R (gets f : M S E A).
Proof. intros s. reflexivity. Qed.

Lemma evolves_bind {E A B} (m : M S E A) (k : A → M S E B) :
  evolves R m → (∀ a, evolves R (k a)) → evolves R (m ≫= k).
Proof.
  intros Hm Hk s. specialize (Hm s). unfold state_after, mbind, M_bind in *.
  destruct (m s) as [[a|e] s']; simpl in *; [|done].
  etrans; [exact Hm|apply Hk].
Qed.

Lemma evolves_map_err {E F A} (f : E → F) (m : M S E A) :
  evolves R m → evolves R (map_err f m).
Proof.
  intros Hm s. specialize (Hm s). unfold state_after, map_err in *.
  by destruct (m s) as [[]].
Qed.

Lemma evolves_best_effort {E F A} (m : M S E A) :
  evolves R m → evolves R (best_effort m : M S F unit).
Proof. intros Hm s. exact (Hm s). Qed.

Lemma evolves_attempt {E F A} (m : M S E A) :
  evolves R m → evolves R (attempt m : M S F (Result A E)).
Proof. intros Hm s. exact (Hm s). Qed.

Lemma evolves_ok_or {E A} (o : option A) (e : E) : evolves R (ok_or o e : M S E A).
Proof. destruct o; [apply evolves_ret|apply evolves_throw]. Qed.

Lemma evolves_throw_if {E} (b : bool) (e : E) : evolves R (throw_if b e : M S E unit).
Proof. destruct b; [apply evolves_throw|apply evolves_ret]. Qed.

Lemma evolves_forM {E A} (l : list A) (f : A → M S E unit) :
  (∀ a, evolves R (f a)) → evolves R (forM_ l f).
Proof.
  intros Hf. induction l as [|x l IH]; simpl; [apply evolves_ret|].
  by apply evolves_bind.
Qed.

Lemma evolves_mapM {E A B} (f : A → M S E B) (l : list A) :
  (∀ a, evolves R (f a)) → evolves R (mapM_list f l).
Proof.
  intros Hf. induction l as [|x l IH]; simpl; [apply evolves_ret|].
  apply evolves_bind; [done|]. intros y. apply evolves_bind; [done|].
  intros ys. apply evolves_ret.
Qed.
End evolves.

#[export] Hint Resolve evolves_pure evolves_ret evolves_throw evolves_gets
  evolves_map_err evolves_best_effort evolves_attempt evolves_ok_or evolves_throw_if
  evolves_forM evolves_mapM evolves_bind : evolves.
#[export] Hint Extern 1 (evolves _ (match ?x with _ => _ end)) =>
  destruct x : evolves.
#[export] Hint Extern 3 (∀ _, evolves _ _) => intros : evolves.
#[export] Hint Extern 0 (PreOrder _) => typeclasses eauto : evolves.

(** Composes the rules above along a handler's body, leaving the calls the database
    does not know. *)
Ltac evolve := eauto 40 with evolves.

(** ** Tactics *)

(** Runs a monadic program symbolically: unfolds the combinators and splits on every
    test in the goal. *)
Ltac munfold :=
  unfold mbind, M_bind, mret, M_ret, throw, gets, modify, map_err, ok_or, throw_if,
    best_effort, result, state_after in *; simpl in *.

Ltac msplit := repeat (case_match; simplify_eq/=).

Ltac mrun := munfold; msplit.

(** Decides a closed proposition by evaluating it. *)
Ltac evaluate_prop := apply (bool_decide_unpack _); vm_compute; exact I.

(** Turns boolean tests in the context into propositions. *)
Ltac bool_to_prop :=
  repeat match goal with
  | H : _ && _ = true |- _ => apply andb_true_iff in H as [? ?]
  | H : _ || _ = false |- _ => apply orb_false_iff in H as [? ?]
  | H : negb _ = true |- _ => apply negb_true_iff in H
  | H : negb _ = false |- _ => apply negb_false_iff in H
  | H : (_ <=? _)%Z = true |- _ => apply Z.leb_le in H
  | H : (_ <=? _)%Z = false |- _ => apply Z.leb_gt in H
  | H : (_ <? _)%Z = true |- _ => apply Z.ltb_lt in H
  | H : (_ <? _)%Z = false |- _ => apply Z.ltb_ge in H
  | H : (_ =? _)%Z = true |- _ => apply Z.eqb_eq in H
  | H : (_ =? _)%Z = false |- _ => apply Z.eqb_neq in H
  | H : String.eqb _ _ = true |- _ => apply String.eqb_eq in H
  | H : String.eqb _ _ = false |- _ => apply String.eqb_neq in H
  | H : bool_decide _ = true |- _ => apply bool_decide_eq_true in H
  | H : bool_decide _ = false |- _ => apply bool_decide_eq_false in H
  end.

(** ** Strings *)

(** [str::strip_prefix]. *)
Fixpoint strip_prefix (p s : string) : option string :=
  match p, s with
  | EmptyString, _ => Some s
  | String a p', String b s' => if Ascii.eqb a b then strip_prefix p' s' else None
  | _, _ => None
  end.

Lemma strip_prefix_Some p s t : strip_prefix p s = Some t ↔ s = String.append p t.
Proof.
  revert s. induction p as [|a p IH]; intros s; simpl; [naive_solver|].
  destruct s as [|b s]; [split; [discriminate|discriminate]|].
  destruct (Ascii.eqb_spec a b) as [->|Hne].
  - rewrite IH. split; intros H; [by rewrite H|by injection H].
  - split; [done|]. by intros [= E].
Qed.

(** ** Record update

    [r <| f := v |>] is the record [r] with field [f] set to [v]. A record type gives its
    fields once, as an [Eta] instance; the updater of a field is found by replacing its
    projection in that expansion. *)

Class Eta (R : Type) := eta_expand : R → R.
Class Update {R T : Type} (proj : R → T) := update_field : (T → T) → R → R.
Arguments update_field {R T} proj {_} _ _ /.

Ltac derive_update proj inst :=
  let f := fresh "f" in let r := fresh "r" in
  intros f r;
  let body := eval cbv [inst] in (inst r) in
  let body := eval cbv beta in body in
  let p := eval pattern (proj r) in body in
  lazymatch p with ?ctx ?x => let b := eval cbv beta in (ctx (f x)) in exact b end.

#[export] Hint Extern 1 (@Update ?R ?T ?proj) =>
  let inst := constr:(ltac:(typeclasses eauto) : Eta R) in
  lazymatch inst with (?i : _) => derive_update proj i | ?i => derive_update proj i end
  : typeclass_instances.

Notation "r <| p := v |>" := (update_field p (λ _, v) r)
  (at level 8, left associativity, p at level 9, v at level 200,
   format "r  <| p  :=  v |>") : mes_scope.
Open Scope mes_scope.

(** ** Lists as tables

    The relational operations used by the queries, over rows in storage order. *)

Section rows.
Context {A : Type}.

(** [SELECT ... WHERE p] *)
Definition select (p : A → bool) (l : list A) : list A := List.filter p l.

(** [... LIMIT 1] / [fetch_optional] *)
Definition first_where (p : A → bool) (l : list A) : option A := head (select p l).

(** [UPDATE ... SET f WHERE p] *)
Definition update_rows (p : A → bool) (f : A → A) (l : list A) : list A :=
  map (λ r, if p r then f r else r) l.

(** [DELETE ... WHERE p] *)
Definition delete_rows (p : A → bool) (l : list A) : list A :=
  select (λ r, negb (p r)) l.

(** [EXISTS (... WHERE p)] *)
Definition exists_row (p : A → bool) (l : list A) : bool := existsb p l.

(** [SUM(f)] with [COALESCE(_, 0)] *)
Definition sum_rows (f : A → Z) (l : list A) : Z := foldr (λ r acc, f r + acc) 0 l.

Lemma elem_of_select p l x : x ∈ select p l ↔ p x = true ∧ x ∈ l.
Proof. rewrite !list_elem_of_In. unfold select. rewrite filter_In. tauto. Qed.

Lemma select_app p l k : select p (l ++ k) = select p l ++ select p k.
Proof. apply filter_app. Qed.

Lemma select_select p q l : select p (select q l) = select (λ x, q x && p x) l.
Proof.
  induction l as [|x l IH]; simpl; [done|].
  destruct (q x); simpl; [destruct (p x); simpl; by rewrite IH|done].
Qed.

Lemma select_ext p q l : (∀ x, x ∈ l → p x = q x) → select p l = select q l.
Proof.
  intros H. apply filter_ext_in. intros x Hx. apply H. by apply list_elem_of_In.
Qed.

Lemma select_all p l : (∀ x, x ∈ l → p x = true) → select p l = l.
Proof.
  induction l as [|x l IH]; simpl; intros H; [done|].
  rewrite H by set_solver. f_equal. apply IH. set_solver.
Qed.

Lemma select_none p l : (∀ x, x ∈ l → p x = false) → select p l = [].
Proof.
  induction l as [|x l IH]; simpl; intros H; [done|].
  rewrite H by set_solver. apply IH. set_solver.
Qed.

Lemma first_where_Some p l x : first_where p l = Some x → p x = true ∧ x ∈ l.
Proof.
  unfold first_where. intros H. apply elem_of_select.
  destruct (select p l); simplify_eq/=. set_solver.
Qed.

Lemma first_where_None p l : first_where p l = None → ∀ x, x ∈ l → p x = false.
Proof.
  unfold first_where. intros H x Hx. destruct (p x) eqn:E; [|done].
  assert (x ∈ select p l) by (by apply elem_of_select).
  destruct (select p l); simplify_eq/=. set_solver.
Qed.

Lemma first_where_exists p l x :
  x ∈ l → p x = true → ∃ y, first_where p l = Some y.
Proof.
  intros Hx Hp. destruct (first_where p l) as [y|] eqn:E; [by exists y|].
  pose proof (first_where_None p l E x Hx). congruence.
Qed.

Lemma head_elem (l : list A) x : head l = Some x → x ∈ l.
Proof. destruct l; intros; simplify_eq/=. left. Qed.

Lemma exists_row_true p l : exists_row p l = true ↔ ∃ x, x ∈ l ∧ p x = true.
Proof.
  unfold exists_row. rewrite existsb_exists.
  split; intros (x & Hx & Hp); exists x; by rewrite list_elem_of_In in *.
Qed.

Lemma exists_row_false p l : exists_row p l = false ↔ ∀ x, x ∈ l → p x = false.
Proof.
  rewrite <- not_true_iff_false, exists_row_true. split.
  - intros H x Hx. apply not_true_iff_false. naive_solver.
  - intros H (x & Hx & Hp). specialize (H _ Hx). congruence.
Qed.

Lemma elem_of_update_rows p f l x :
  x ∈ update_rows p f l ↔ ∃ y, y ∈ l ∧ x = if p y then f y else y.
Proof. unfold update_rows. rewrite list_elem_of_fmap. firstorder eauto. Qed.

Lemma elem_of_delete_rows p l x : x ∈ delete_rows p l ↔ x ∈ l ∧ p x = false.
Proof. unfold delete_rows. rewrite elem_of_select, negb_true_iff. tauto. Qed.

Lemma length_update_rows p f l : length (update_rows p f l) = length l.
Proof. apply length_map. Qed.

Lemma update_rows_none p f l : (∀ x, x ∈ l → p x = false) → update_rows p f l = l.
Proof.
  induction l as [|x l IH]; simpl; intros H; [done|].
  rewrite H by set_solver. f_equal. apply IH. set_solver.
Qed.

Lemma update_rows_app p f l k :
  update_rows p f (l ++ k) = update_rows p f l ++ update_rows p f k.
Proof. apply map_app. Qed.

Lemma lookup_update_rows p f l i x :
  l !! i = Some x → update_rows p f l !! i = Some (if p x then f x else x).
Proof. intros H. unfold update_rows. by rewrite list_lookup_fmap, H. Qed.

Lemma sum_rows_cons f x l : sum_rows f (x :: l) = f x + sum_rows f l.
Proof. done. Qed.

Lemma sum_rows_app f l k : sum_rows f (l ++ k) = sum_rows f l + sum_rows f k.
Proof. induction l as [|x l IH]; simpl; lia. Qed.

Lemma sum_rows_nonneg f l : (∀ x, x ∈ l → 0 <= f x) → 0 <= sum_rows f l.
Proof.
  induction l as [|x l IH]; simpl; intros H; [lia|].
  pose proof (H x ltac:(set_solver)). specialize (IH ltac:(set_solver)). lia.
Qed.

Lemma sum_rows_perm f l k : l ≡ₚ k → sum_rows f l = sum_rows f k.
Proof. induction 1; simpl; lia. Qed.
End rows.

(** [UPDATE ... RETURNING] of the first row it matched. *)
Lemma head_map_select {A B} (p : A → bool) (f : A → B) l b :
  head (map f (select p l)) = Some b → ∃ a, first_where p l = Some a ∧ b = f a.
Proof. unfold first_where. destruct (select p l); simpl; intros; simplify_eq. eauto. Qed.

Create Rewrite HintDb rows.
#[export] Hint Rewrite @elem_of_select @elem_of_update_rows @elem_of_delete_rows
  @select_app @sum_rows_app : rows.

(** ** Stable sorting

    [slice::sort_by] is a stable sort, and [ORDER BY] is modelled as one over the rows in
    storage order; ties keep the order in which they are stored. *)

Section sort.
Context {A : Type} (le : A → A → bool).

Fixpoint insert_sorted (x : A) (l : list A) : list A :=
  match l with
  | [] => [x]
  | y :: l' => if le x y then x :: y :: l' else y :: insert_sorted x l'
  end.

Definition sort_by (l : list A) : list A := foldr insert_sorted [] l.

Lemma insert_sorted_perm x l : insert_sorted x l ≡ₚ x :: l.
Proof.
  induction l as [|y l IH]; simpl; [done|]. case_match; [done|].
  rewrite IH. apply Permutation_swap.
Qed.

Lemma sort_by_perm l : sort_by l ≡ₚ l.
Proof.
  induction l as [|x l IH]; simpl; [done|]. by rewrite insert_sorted_perm, IH.
Qed.

Lemma elem_of_sort_by l x : x ∈ sort_by l ↔ x ∈ l.
Proof. by rewrite sort_by_perm. Qed.

Hypothesis le_total : ∀ x y, le x y = false → le y x = true.
Hypothesis le_trans : ∀ x y z, le x y = true → le y z = true → le x z = true.

Lemma insert_sorted_sorted x l :
  StronglySorted (λ a b, le a b = true) l →
  StronglySorted (λ a b, le a b = true) (insert_sorted x l).
Proof.
  induction 1 as [|y l Hl IH Hy]; simpl; [repeat constructor|].
  destruct (le x y) eqn:E.
  - constructor; [by constructor|]. constructor; [done|].
    eapply Forall_impl; [|exact Hy]. intros z Hz. by eapply le_trans.
  - constructor; [done|]. rewrite insert_sorted_perm. constructor; [|done].
    by apply le_total.
Qed.

Lemma sort_by_sorted l : StronglySorted (λ a b, le a b = true) (sort_by l).
Proof.
  induction l; simpl; [constructor|]. by apply insert_sorted_sorted.
Qed.
End sort.

(** Ascending [ORDER BY key] on an integer or timestamp key. *)
Definition order_by {A} (key : A → Z) : list A → list A :=
  sort_by (λ a b, key a <=? key b).

(** Sorting goes by the keys alone. *)
Lemma sort_by_map {A B} (f : A → B) (le : B → B → bool) l :
  sort_by le (map f l) = map f (sort_by (λ a b, le (f a) (f b)) l).
Proof.
  assert (∀ x l, insert_sorted le (f x) (map f l) =
    map f (insert_sorted (λ a b, le (f a) (f b)) x l)) as Hi.
  { intros x k. induction k as [|y k IH]; simpl; [done|]. case_match; [done|].
    simpl. by rewrite IH. }
  induction l as [|x l IH]; simpl; [done|]. by rewrite IH, Hi.
Qed.

(** [ORDER BY key DESC]. *)
Definition order_by_desc {A} (key : A → Z) : list A → list A :=
  sort_by (λ a b, key b <=? key a).

Lemma StronglySorted_impl {A} (R R' : relation A) l :
  (∀ x y, R x y → R' x y) → StronglySorted R l → StronglySorted R' l.
Proof.
  intros H. induction 1; constructor; [done|]. eapply Forall_impl; [|done]. eauto.
Qed.

Lemma order_by_sorted {A} (key : A → Z) l :
  StronglySorted (λ a b, key a <= key b) (order_by key l).
Proof.
  eapply StronglySorted_impl; [|apply sort_by_sorted]; simpl; intros; bool_to_prop;
    try apply Z.leb_le; lia.
Qed.

Lemma order_by_desc_sorted {A} (key : A → Z) l :
  StronglySorted (λ a b, key b <= key a) (order_by_desc key l).
Proof.
  eapply StronglySorted_impl; [|apply sort_by_sorted]; simpl; intros; bool_to_prop;
    try apply Z.leb_le; lia.
Qed.

(** The first element of a sorted list is a least one. *)
Lemma sorted_head {A} (R : relation A) l x y :
  (∀ z, R z z) → StronglySorted R l → head l = Some x → y ∈ l → R x y.
Proof.
  intros Hr Hs Hx Hy. inversion Hs as [|a k _ Ha]; simplify_eq/=.
  apply elem_of_cons in Hy as [->|Hy]; [done|]. rewrite Forall_forall in Ha.
  by apply Ha, list_elem_of_In.
Qed.

(** A sort by several keys is sorted by the first. *)
Lemma sort_by_first_key {A} (le : A → A → bool) (key : A → Z) l :
  (∀ x y, le x y = true → key x <= key y) → (∀ x y, le x y = false → key y <= key x) →
  StronglySorted (λ a b, key a <= key b) (sort_by le l).
Proof.
  intros Ht Hf. induction l as [|x l IH]; simpl; [constructor|].
  induction IH as [|y k Hk IH' Hy]; simpl; [repeat constructor|].
  destruct (le x y) eqn:E.
  - apply Ht in E. constructor; [by constructor|]. constructor; [done|].
    eapply Forall_impl; [|exact Hy]. simpl. lia.
  - apply Hf in E. constructor; [done|]. rewrite insert_sorted_perm. by constructor.
Qed.
