(* ===== verification/StateMachine.v ===== *)
(** * The machine state machine ([crates/mes-core/src/state_machine.rs])

    The engine that turns a stream of cycle pulses into a timeline of machine states: the
    debouncer, the pulse walk [compute_states], the planned-stop overlay
    [apply_planned_stops], the shift split [split_at_boundaries] and the downtime
    derivation [downtime_events]. Each transformation is proved against a pointwise
    reading of the timeline: it covers its window without gap or overlap ([tiles]) and
    gives every instant the state the rules prescribe ([state_at]).

    A [Vec] under construction is kept newest first, so that [push] is [::] and
    [last_mut] is the head; the finished vector is its [rev]. *)

From S2P Require Import Prelude.

(** ** Data *)

Inductive MachineState := Running | MicroStop | Down | PlannedStop.

#[export] Instance MachineState_eq_dec : EqDecision MachineState.
Proof. solve_decision. Defined.

Definition is_stop (s : MachineState) : bool :=
  match s with Running => false | _ => true end.

Record StateConfig := mkStateConfig {
  micro_stop_after : Duration;
  down_after : Duration;
  debounce_after : Duration
}.

Definition StateConfig_default : StateConfig := {|
  micro_stop_after := seconds 60;
  down_after := seconds 300;
  debounce_after := seconds 2
|}.

Record StateInterval := mkInterval {
  iv_state : MachineState;
  iv_start : DateTime;
  iv_end : DateTime
}.

#[export] Instance StateInterval_eq_dec : EqDecision StateInterval.
Proof. solve_decision. Defined.

Definition iv_duration (iv : StateInterval) : Duration := iv_end iv - iv_start iv.

Record PlannedInterval := mkPlanned { pl_start : DateTime; pl_end : DateTime }.

Record DowntimeEvent := mkDowntimeEvent {
  dt_id : string;
  dt_state : MachineState;
  dt_start : DateTime;
  dt_end : DateTime
}.

(** ** Operations *)

Definition classify_stop (cfg : StateConfig) (span : Duration) : MachineState :=
  if span <=? down_after cfg then MicroStop else Down.

Definition push_running (out : list StateInterval) (start end_ : DateTime) :
    list StateInterval :=
  if start <? end_ then mkInterval Running start end_ :: out else out.

Definition debounce_step (min_gap : Duration) (kept : list DateTime) (p : DateTime) :
    list DateTime :=
  match kept with
  | last :: _ =>
      if p - last <? min_gap then kept
      else if p <? last then kept
      else p :: kept
  | [] => [p]
  end.

Definition debounce (pulses : list DateTime) (min_gap : Duration) : list DateTime :=
  rev (foldl (debounce_step min_gap) [] pulses).

(** The loop over the pulses after the first: returns the vector, [run_start], [last]. *)
Fixpoint walk_pulses (cfg : StateConfig) (pulses : list DateTime)
    (out : list StateInterval) (run_start last : DateTime) :
    list StateInterval * DateTime * DateTime :=
  match pulses with
  | [] => (out, run_start, last)
  | p :: pulses' =>
      let gap := p - last in
      if gap <=? micro_stop_after cfg then walk_pulses cfg pulses' out run_start p
      else
        let out := push_running out run_start last in
        let out := mkInterval (classify_stop cfg gap) last p :: out in
        walk_pulses cfg pulses' out p p
  end.

Definition compute_states (cfg : StateConfig) (pulses : list DateTime)
    (window_start window_end : DateTime) : list StateInterval :=
  if window_end <=? window_start then []
  else
    match debounce pulses (debounce_after cfg) with
    | [] =>
        [mkInterval (classify_stop cfg (window_end - window_start))
           window_start window_end]
    | first :: rest =>
        let '(out, run_start) :=
          if first - window_start <=? micro_stop_after cfg then ([], window_start)
          else ([mkInterval (classify_stop cfg (first - window_start))
                   window_start first], first) in
        let '(out, run_start, last) := walk_pulses cfg rest out run_start first in
        rev (if window_end - last <=? micro_stop_after cfg
             then push_running out run_start window_end
             else
               let out := push_running out run_start last in
               mkInterval (classify_stop cfg (window_end - last)) last window_end :: out)
    end.

(** The planned overlaps clipped to an interval, sorted by start. *)
Definition planned_cuts (iv : StateInterval) (planned : list PlannedInterval) :
    list (DateTime * DateTime) :=
  sort_by (λ a b, a.1 <=? b.1)
    (omap (λ p,
       let s := Z.max (pl_start p) (iv_start iv) in
       let e := Z.min (pl_end p) (iv_end iv) in
       if s <? e then Some (s, e) else None) planned).

(** One pass of the loop over the cuts of an interval in state [st]. *)
Definition cut_step (st : MachineState) (acc : list StateInterval * DateTime)
    (cut : DateTime * DateTime) : list StateInterval * DateTime :=
  let '(out, cursor) := acc in
  let '(s, e) := cut in
  let out := if cursor <? s then mkInterval st cursor s :: out else out in
  match out with
  | last :: out' =>
      if bool_decide (iv_state last = PlannedStop) && (Z.max s cursor <=? iv_end last)
      then
        let last := mkInterval (iv_state last) (iv_start last) (Z.max (iv_end last) e) in
        (last :: out', iv_end last)
      else (mkInterval PlannedStop (Z.max cursor s) e :: out, e)
  | [] => (mkInterval PlannedStop (Z.max cursor s) e :: out, e)
  end.

(** One pass of the loop over the intervals. *)
Definition overlay_interval (planned : list PlannedInterval)
    (out : list StateInterval) (iv : StateInterval) : list StateInterval :=
  let '(out, cursor) :=
    foldl (cut_step (iv_state iv)) (out, iv_start iv) (planned_cuts iv planned) in
  if cursor <? iv_end iv then mkInterval (iv_state iv) cursor (iv_end iv) :: out else out.

Definition apply_planned_stops (intervals : list StateInterval)
    (planned : list PlannedInterval) : list StateInterval :=
  rev (foldl (overlay_interval planned) [] intervals).

(** The boundaries strictly inside an interval, sorted. *)
Definition inner_boundaries (iv : StateInterval) (boundaries : list DateTime) :
    list DateTime :=
  sort_by Z.leb (select (λ b, (iv_start iv <? b) && (b <? iv_end iv)) boundaries).

Definition split_interval (boundaries : list DateTime)
    (out : list StateInterval) (iv : StateInterval) : list StateInterval :=
  let '(out, cursor) :=
    foldl (λ '(out, cursor) b, (mkInterval (iv_state iv) cursor b :: out, b))
      (out, iv_start iv) (inner_boundaries iv boundaries) in
  mkInterval (iv_state iv) cursor (iv_end iv) :: out.

Definition split_at_boundaries (intervals : list StateInterval)
    (boundaries : list DateTime) : list StateInterval :=
  rev (foldl (split_interval boundaries) [] intervals).

(** [ids] supplies the identifiers [new_id()] hands out, from the [n]-th on. *)
Definition downtime_events (ids : nat → string) (n : nat)
    (intervals : list StateInterval) : list DowntimeEvent :=
  imap (λ k iv, mkDowntimeEvent (ids (n + k)%nat) (iv_state iv) (iv_start iv) (iv_end iv))
    (select (λ iv, is_stop (iv_state iv) && negb (bool_decide (iv_state iv = PlannedStop)))
       intervals).

(** ** Reading a timeline

    [tiles s e l]: the intervals of [l] are non-empty and follow one another from [s] to
    [e] without gap or overlap. [state_at l t]: the state of the interval that holds the
    instant [t]. *)

Fixpoint tiles (s e : DateTime) (l : list StateInterval) : Prop :=
  match l with
  | [] => s = e
  | iv :: l' => iv_start iv = s ∧ s < iv_end iv ∧ tiles (iv_end iv) e l'
  end.

Definition holds (t : DateTime) (iv : StateInterval) : bool :=
  (iv_start iv <=? t) && (t <? iv_end iv).

Definition state_at (l : list StateInterval) (t : DateTime) : option MachineState :=
  iv_state <$> first_where (holds t) l.

(** The rule for a stretch with no pulse inside it, from [a] to [b]. *)
Definition span_state (cfg : StateConfig) (a b : DateTime) : MachineState :=
  if b - a <=? micro_stop_after cfg then Running else classify_stop cfg (b - a).

(** The state of instant [t], given the last kept pulse [prev] at or before the pulses
    still ahead: the rule applied between the two kept pulses around [t]. *)
Fixpoint state_between (cfg : StateConfig) (prev : DateTime) (pulses : list DateTime)
    (window_end t : DateTime) : MachineState :=
  match pulses with
  | [] => span_state cfg prev window_end
  | p :: ps =>
      if t <? p then span_state cfg prev p else state_between cfg p ps window_end t
  end.

(** The specification of [compute_states]: the window's edges count as pulses, and a
    window without pulses is one stop. *)
Definition pulse_state (cfg : StateConfig) (pulses : list DateTime)
    (window_start window_end t : DateTime) : MachineState :=
  match debounce pulses (debounce_after cfg) with
  | [] => classify_stop cfg (window_end - window_start)
  | kept => state_between cfg window_start kept window_end t
  end.

Definition planned_at (planned : list PlannedInterval) (t : DateTime) : bool :=
  exists_row (λ p, (pl_start p <=? t) && (t <? pl_end p)) planned.

(** ** Timelines: generic lemmas *)

Lemma state_at_nil t : state_at [] t = None.
Proof. done. Qed.

Lemma state_at_cons iv l t :
  state_at (iv :: l) t = if holds t iv then Some (iv_state iv) else state_at l t.
Proof. unfold state_at, first_where. simpl. by destruct (holds t iv). Qed.

Lemma tiles_le s e l : tiles s e l → s <= e.
Proof.
  revert s. induction l as [|iv l IH]; intros s; simpl; [lia|].
  intros (_ & ? & H). apply IH in H. lia.
Qed.

Lemma tiles_app s m e l k : tiles s m l → tiles m e k → tiles s e (l ++ k).
Proof.
  revert s. induction l as [|iv l IH]; intros s; simpl; [by intros ->|]. naive_solver.
Qed.

Lemma state_at_app s m l k t :
  tiles s m l → s <= t →
  state_at (l ++ k) t = if t <? m then state_at l t else state_at k t.
Proof.
  revert s. induction l as [|iv l IH]; intros s; cbn [tiles app].
  - intros -> ?. rewrite (proj2 (Z.ltb_ge _ _)) by lia. done.
  - intros (<- & Hlt & Hl) Ht. rewrite !state_at_cons. unfold holds.
    rewrite (proj2 (Z.leb_le _ _)) by done. simpl.
    pose proof (tiles_le _ _ _ Hl). destruct (t <? iv_end iv) eqn:E; bool_to_prop.
    + by rewrite (proj2 (Z.ltb_lt _ _)) by lia.
    + by apply (IH (iv_end iv)).
Qed.

(** [timeline f s c out]: the vector [out] under construction tiles [s, c) and gives
    every instant in it the state [f] prescribes. *)
Definition timeline (f : DateTime → MachineState) (s c : DateTime)
    (out : list StateInterval) : Prop :=
  tiles s c (rev out) ∧ ∀ t, s <= t < c → state_at (rev out) t = Some (f t).

Lemma timeline_nil f s : timeline f s s [].
Proof. split; [done|]. intros; lia. Qed.

Lemma timeline_push f s c e st out :
  timeline f s c out → c < e → (∀ t, c <= t < e → f t = st) →
  timeline f s e (mkInterval st c e :: out).
Proof.
  intros [Ht Hs] Hce Hf. split; simpl.
  - eapply tiles_app; [exact Ht|]. by simpl.
  - intros t Hin. rewrite (state_at_app _ _ _ _ _ Ht) by lia.
    destruct (t <? c) eqn:E; bool_to_prop; [apply Hs; lia|].
    rewrite state_at_cons. unfold holds; simpl.
    rewrite (proj2 (Z.leb_le _ _)), (proj2 (Z.ltb_lt _ _)) by lia. simpl.
    by rewrite Hf by lia.
Qed.

Lemma timeline_le f s c out : timeline f s c out → s <= c.
Proof. intros [H _]. by eapply tiles_le. Qed.

(** The head of the vector ends where the vector does. *)
Lemma timeline_head f s c iv out :
  timeline f s c (iv :: out) →
  iv_end iv = c ∧ iv_start iv < c ∧ timeline f s (iv_start iv) out ∧
  ∀ t, iv_start iv <= t < c → f t = iv_state iv.
Proof.
  intros [Ht Hs]. simpl in *.
  assert (∃ m, tiles s m (rev out) ∧ tiles m c [iv]) as (m & Hm & <- & Hlt & Hend).
  { clear Hs. revert s Ht. induction (rev out) as [|jv l IH]; intros s; simpl.
    - intros (? & ? & ?). by exists s.
    - intros (? & ? & H). apply IH in H. naive_solver. }
  simpl in Hend. subst c. pose proof (tiles_le _ _ _ Hm). split; [done|].
  split; [done|]. split; [split; [done|]|].
  - intros t Hin. specialize (Hs t ltac:(lia)).
    rewrite (state_at_app _ _ _ _ _ Hm) in Hs by lia.
    by rewrite (proj2 (Z.ltb_lt _ _)) in Hs by lia.
  - intros t Hin. specialize (Hs t ltac:(lia)).
    rewrite (state_at_app _ _ _ _ _ Hm) in Hs by lia.
    rewrite (proj2 (Z.ltb_ge _ _)) in Hs by lia.
    rewrite state_at_cons in Hs. unfold holds in Hs.
    rewrite (proj2 (Z.leb_le _ _)), (proj2 (Z.ltb_lt _ _)) in Hs by lia. by simplify_eq/=.
Qed.

(** Lengthening the last interval ([last.end = ...]). *)
Lemma timeline_extend f s c e iv out :
  timeline f s c (iv :: out) → c <= e →
  (∀ t, c <= t < e → f t = iv_state iv) →
  timeline f s e (mkInterval (iv_state iv) (iv_start iv) e :: out).
Proof.
  intros H Hle Hf. apply timeline_head in H as (Hend & Hlt & Hout & Hst).
  apply timeline_push; [done|lia|]. intros t Ht.
  destruct (Z.lt_ge_cases t c); [apply Hst|apply Hf]; lia.
Qed.

Lemma timeline_ext f g s c out :
  (∀ t, s <= t < c → f t = g t) → timeline f s c out → timeline g s c out.
Proof.
  intros Hfg [H1 H2]. split; [done|]. intros t Ht. rewrite H2, Hfg; [done|lia..].
Qed.

Lemma timeline_push_running f s c e out :
  timeline f s c out → c <= e → (∀ t, c <= t < e → f t = Running) →
  timeline f s e (push_running out c e).
Proof.
  intros H Hle Hf. unfold push_running. destruct (c <? e) eqn:E; bool_to_prop.
  - by apply timeline_push.
  - by replace e with c by lia.
Qed.

(** ** Debouncing *)

(** The kept pulses, newest first, descend, and each is a pulse of the input. *)
Lemma debounce_foldl min_gap pulses kept :
  StronglySorted (λ a b, b <= a) kept →
  StronglySorted (λ a b, b <= a) (foldl (debounce_step min_gap) kept pulses) ∧
  ∀ p, p ∈ foldl (debounce_step min_gap) kept pulses → p ∈ kept ∨ p ∈ pulses.
Proof.
  revert kept. induction pulses as [|q pulses IH]; simpl; intros kept Hk.
  { naive_solver. }
  assert (StronglySorted (λ a b, b <= a) (debounce_step min_gap kept q) ∧
          ∀ p, p ∈ debounce_step min_gap kept q → p ∈ kept ∨ p = q) as [Hs Hin].
  { unfold debounce_step. destruct kept as [|l kept]; [split; [repeat constructor|set_solver]|].
    destruct (q - l <? min_gap); [naive_solver|].
    destruct (q <? l) eqn:E; [naive_solver|]. bool_to_prop. split; [|set_solver].
    constructor; [done|]. inversion Hk; subst. constructor; [done|].
    eapply Forall_impl; [|done]. simpl; lia. }
  apply IH in Hs as [Hs Hin']. split; [done|]. intros p Hp.
  rewrite elem_of_cons. apply Hin' in Hp as [Hp|]; [|auto]. apply Hin in Hp. tauto.
Qed.

Lemma StronglySorted_snoc {A} (R : relation A) l x :
  StronglySorted R l → Forall (λ y, R y x) l → StronglySorted R (l ++ [x]).
Proof.
  induction 1 as [|y l Hl IH Hy]; simpl; intros Hx; [repeat constructor|].
  inversion Hx; subst. constructor; [by apply IH|]. apply Forall_app. by repeat constructor.
Qed.

Lemma debounce_sorted pulses min_gap : StronglySorted Z.le (debounce pulses min_gap).
Proof.
  unfold debounce. destruct (debounce_foldl min_gap pulses []) as [Hs _]; [constructor|].
  induction Hs as [|p l Hl IH Hp]; simpl; [constructor|].
  apply StronglySorted_snoc; [done|]. apply Forall_rev. done.
Qed.

Lemma debounce_incl pulses min_gap p : p ∈ debounce pulses min_gap → p ∈ pulses.
Proof.
  unfold debounce. rewrite list_elem_of_In, <- in_rev, <- list_elem_of_In. intros Hp.
  destruct (debounce_foldl min_gap pulses []) as [_ Hin]; [constructor|].
  apply Hin in Hp. set_solver.
Qed.

(** ** The pulse walk *)

Section compute.
Context (cfg : StateConfig) (window_end : DateTime) (f : DateTime → MachineState).
Hypothesis micro_nonneg : 0 <= micro_stop_after cfg.

(** The last statements of [compute_states], after the loop. *)
Lemma finish_timeline s out run_start last :
  timeline f s run_start out → run_start <= last <= window_end →
  (∀ t, run_start <= t < last → f t = Running) →
  (∀ t, last <= t < window_end → f t = span_state cfg last window_end) →
  timeline f s window_end
    (if window_end - last <=? micro_stop_after cfg
     then push_running out run_start window_end
     else mkInterval (classify_stop cfg (window_end - last)) last window_end ::
            push_running out run_start last).
Proof.
  intros Hout Hle Hrun Hspan. unfold span_state in Hspan.
  destruct (window_end - last <=? micro_stop_after cfg) eqn:E; bool_to_prop.
  - apply timeline_push_running; [done|lia|]. intros t Ht.
    destruct (Z.lt_ge_cases t last); [apply Hrun|apply Hspan]; lia.
  - apply timeline_push; [apply timeline_push_running|lia|]; [done|lia|done|done].
Qed.

Lemma walk_timeline s pulses out run_start last :
  timeline f s run_start out → run_start <= last <= window_end →
  StronglySorted Z.le (last :: pulses) → (∀ p, p ∈ pulses → p <= window_end) →
  (∀ t, run_start <= t < last → f t = Running) →
  (∀ t, last <= t < window_end → f t = state_between cfg last pulses window_end t) →
  let '(out', run_start', last') := walk_pulses cfg pulses out run_start last in
  timeline f s run_start' out' ∧ run_start' <= last' <= window_end ∧
  (∀ t, run_start' <= t < last' → f t = Running) ∧
  (∀ t, last' <= t < window_end → f t = span_state cfg last' window_end).
Proof.
  revert out run_start last.
  induction pulses as [|p pulses IH]; intros out run_start last Hout Hle Hs Hp Hrun Hf.
  { simpl. auto. }
  simpl. inversion Hs as [|? ? Hs' Hlp]; subst. inversion Hlp; subst.
  assert (p <= window_end) by (apply Hp; set_solver).
  assert (∀ t, last <= t < p → f t = span_state cfg last p) as Hgap.
  { intros t Ht. rewrite Hf by lia. simpl. by rewrite (proj2 (Z.ltb_lt _ _)) by lia. }
  assert (∀ t, p <= t < window_end → f t = state_between cfg p pulses window_end t) as Hrest.
  { intros t Ht. rewrite Hf by lia. simpl. by rewrite (proj2 (Z.ltb_ge _ _)) by lia. }
  unfold span_state in Hgap.
  destruct (p - last <=? micro_stop_after cfg) eqn:E; bool_to_prop.
  - apply IH; [done|lia|done|set_solver| |done]. intros t Ht.
    destruct (Z.lt_ge_cases t last); [apply Hrun|apply Hgap]; lia.
  - apply IH; [|lia|done|set_solver|intros; lia|done].
    apply timeline_push; [apply timeline_push_running|lia|]; [done|lia|done|done].
Qed.
End compute.

Lemma compute_states_timeline cfg pulses ws we :
  0 <= micro_stop_after cfg → ws < we → (∀ p, p ∈ pulses → ws <= p <= we) →
  tiles ws we (compute_states cfg pulses ws we) ∧
  ∀ t, ws <= t < we →
    state_at (compute_states cfg pulses ws we) t = Some (pulse_state cfg pulses ws we t).
Proof.
  intros Hm Hw Hp. set (f := pulse_state cfg pulses ws we).
  assert (∃ out, compute_states cfg pulses ws we = rev out ∧ timeline f ws we out)
    as (out & -> & Ht & Hs); [|done].
  unfold compute_states. rewrite (proj2 (Z.leb_gt _ _)) by lia.
  destruct (debounce pulses (debounce_after cfg)) as [|first rest] eqn:Hd.
  { eexists [_]. split; [done|]. apply timeline_push; [apply timeline_nil|done|].
    intros t _. unfold f, pulse_state. by rewrite Hd. }
  pose proof (debounce_sorted pulses (debounce_after cfg)) as Hsorted. rewrite Hd in Hsorted.
  assert (∀ p, p ∈ first :: rest → ws <= p <= we) as Hin.
  { intros p Hpp. apply Hp. eapply debounce_incl. by rewrite Hd. }
  assert (∀ t, f t = state_between cfg ws (first :: rest) we t) as Hf.
  { intros t. unfold f, pulse_state. by rewrite Hd. }
  pose proof (Hin first ltac:(set_solver)).
  assert (∀ out run_start, timeline f ws run_start out → run_start <= first →
    (∀ t, run_start <= t < first → f t = Running) →
    let '(out', run_start', last') := walk_pulses cfg rest out run_start first in
    timeline f ws we
      (if we - last' <=? micro_stop_after cfg then push_running out' run_start' we
       else mkInterval (classify_stop cfg (we - last')) last' we ::
              push_running out' run_start' last')) as Hwalk.
  { intros out run_start Hout Hle Hrun.
    pose proof (walk_timeline cfg we f ltac:(lia) ws rest out run_start first Hout
      ltac:(lia) Hsorted ltac:(set_solver) Hrun) as Hk.
    destruct (walk_pulses cfg rest out run_start first) as [[out' rs'] last'].
    destruct Hk as (H1 & H2 & H3 & H4).
    { intros t Ht. rewrite Hf. simpl. by rewrite (proj2 (Z.ltb_ge _ _)) by lia. }
    by apply finish_timeline. }
  assert (∀ t, ws <= t < first → f t = span_state cfg ws first) as Hlead.
  { intros t Ht. rewrite Hf. simpl. by rewrite (proj2 (Z.ltb_lt _ _)) by lia. }
  unfold span_state in Hlead.
  destruct (first - ws <=? micro_stop_after cfg) eqn:E; bool_to_prop.
  - specialize (Hwalk [] ws (timeline_nil _ _) ltac:(lia) Hlead).
    destruct (walk_pulses _ _ _ _ _) as [[out' rs'] last']. eauto.
  - specialize (Hwalk [mkInterval (classify_stop cfg (first - ws)) ws first] first).
    destruct (walk_pulses _ _ _ _ _) as [[out' rs'] last']. eexists. split; [done|].
    apply Hwalk; [|lia|intros; lia].
    apply timeline_push; [apply timeline_nil|lia|done].
Qed.

(** ** The planned-stop overlay *)

Definition in_cut (t : DateTime) (c : DateTime * DateTime) : bool :=
  (c.1 <=? t) && (t <? c.2).

Lemma in_cut_true t c : in_cut t c = true ↔ c.1 <= t < c.2.
Proof. unfold in_cut. rewrite andb_true_iff, Z.leb_le, Z.ltb_lt. lia. Qed.

(** What the loop over the cuts of one interval maintains. *)
Record cut_inv (f : DateTime → MachineState) (s : DateTime) (iv : StateInterval)
    (cuts : list (DateTime * DateTime)) (out : list StateInterval) (cursor : DateTime) :
    Prop := {
  ci_timeline : timeline f s cursor out;
  ci_range : iv_start iv <= cursor <= iv_end iv;
  ci_last : cursor = iv_start iv ∨ ∃ l out', out = l :: out' ∧ iv_state l = PlannedStop;
  ci_cuts : ∀ c, c ∈ cuts → iv_start iv <= c.1 ∧ c.1 < c.2 ∧ c.2 <= iv_end iv;
  ci_sorted : StronglySorted (λ a b, a.1 <= b.1) cuts;
  ci_ahead : ∀ t, cursor <= t < iv_end iv →
    f t = if exists_row (in_cut t) cuts then PlannedStop else iv_state iv
}.

(** The three consequences of the loop invariant for the first remaining cut: the gap
    before it carries the interval's own state, the cut itself is planned, and past it
    only the later cuts matter. *)
Lemma cut_gap f s iv cs ce cuts out cursor :
  cut_inv f s iv ((cs, ce) :: cuts) out cursor →
  timeline f s (Z.max cs cursor)
    (if cursor <? cs then mkInterval (iv_state iv) cursor cs :: out else out).
Proof.
  intros [Ht Hr _ Hc Hs Ha].
  pose proof (Hc (cs, ce) ltac:(set_solver)) as (Hc1 & Hc2 & Hc3). simpl in Hc1, Hc2, Hc3.
  inversion Hs as [|? ? Hs' Hmin]; subst. rewrite Forall_forall in Hmin.
  destruct (cursor <? cs) eqn:E; bool_to_prop.
  - replace (Z.max cs cursor) with cs by lia. apply timeline_push; [done|lia|].
    intros t Ht'. rewrite Ha by lia.
    rewrite (proj2 (exists_row_false _ ((cs, ce) :: cuts))); [done|]. intros c Hin.
    apply not_true_iff_false. rewrite in_cut_true. apply elem_of_cons in Hin as [->|Hin].
    + simpl; lia.
    + apply list_elem_of_In, Hmin in Hin. simpl in Hin. lia.
  - by replace (Z.max cs cursor) with cursor by lia.
Qed.

Lemma cut_planned f s iv cs ce cuts out cursor t :
  cut_inv f s iv ((cs, ce) :: cuts) out cursor →
  Z.max cs cursor <= t < ce → f t = PlannedStop.
Proof.
  intros [_ Hr _ Hc _ Ha] Ht.
  pose proof (Hc (cs, ce) ltac:(set_solver)) as (Hc1 & Hc2 & Hc3). simpl in Hc1, Hc2, Hc3.
  rewrite Ha by lia. simpl. rewrite (proj2 (in_cut_true t (cs, ce))); [done|simpl; lia].
Qed.

Lemma cut_ahead f s iv cs ce cuts out cursor cursor' t :
  cut_inv f s iv ((cs, ce) :: cuts) out cursor →
  ce <= cursor' → cursor <= cursor' → cursor' <= t < iv_end iv →
  f t = if exists_row (in_cut t) cuts then PlannedStop else iv_state iv.
Proof.
  intros [_ _ _ _ _ Ha] ? ? Ht. rewrite Ha by lia. simpl.
  assert (in_cut t (cs, ce) = false) as ->; [|done].
  apply not_true_iff_false. rewrite in_cut_true. simpl; lia.
Qed.

Lemma cut_step_inv f s iv c cuts out cursor :
  cut_inv f s iv (c :: cuts) out cursor →
  let '(out', cursor') := cut_step (iv_state iv) (out, cursor) c in
  cut_inv f s iv cuts out' cursor'.
Proof.
  destruct c as [cs ce]. intros Hinv. pose proof Hinv as [Ht Hr Hl Hc Hs Ha]. unfold cut_step.
  pose proof (Hc (cs, ce) ltac:(set_solver)) as (Hc1 & Hc2 & Hc3).
  simpl in Hc1, Hc2, Hc3.
  inversion Hs; subst.
  set (out1 := if cursor <? cs then mkInterval (iv_state iv) cursor cs :: out else out).
  set (m := Z.max cs cursor).
  pose proof (cut_gap _ _ _ _ _ _ _ _ Hinv) as Ht1. fold out1 m in Ht1.
  pose proof (λ t, cut_planned _ _ _ _ _ _ _ _ t Hinv) as Hplan. fold m in Hplan.
  pose proof (λ cursor' H1 H2 t, cut_ahead _ _ _ _ _ _ _ _ cursor' t Hinv H1 H2) as Hahead.
  destruct out1 as [|l out'] eqn:Eo.
  { assert (cursor = iv_start iv ∧ cs <= cursor) as [-> ?].
    { revert Eo. unfold out1. destruct (cursor <? cs) eqn:E; [done|]. bool_to_prop.
      intros ->. destruct Hl as [|(? & ? & ? & ?)]; [lia|done]. }
    constructor; [|simpl; lia|right; by eexists _, _|set_solver|done|].
    - apply timeline_push; [|unfold m in *; lia|].
      + by replace (Z.max (iv_start iv) cs) with m by (unfold m; lia).
      + intros t Ht'. apply Hplan. unfold m. lia.
    - apply Hahead; lia. }
  pose proof (timeline_head _ _ _ _ _ Ht1) as (Hend & _).
  rewrite Hend, (proj2 (Z.leb_le _ _)), andb_true_r by (unfold m; lia).
  case_bool_decide as Epl.
  - constructor; simpl; [| |right; by eexists _, _|set_solver|done|].
    + apply (timeline_extend f s m); [done|lia|]. intros t Ht'. rewrite Epl.
      destruct (Z.max_spec m ce) as [[? ?]|[? ?]]; [apply Hplan|]; lia.
    + unfold m. lia.
    + apply Hahead; unfold m; lia.
  - assert (m < ce).
    { unfold m. destruct Hl as [->|(l' & o & -> & Hpl)]; [lia|].
      revert Eo. unfold out1. destruct (cursor <? cs) eqn:E; bool_to_prop; [lia|].
      intros [= -> ->]. done. }
    constructor; [|lia|right; by eexists _, _|set_solver|done|].
    + replace (Z.max cursor cs) with m by (unfold m; lia).
      by apply timeline_push.
    + apply Hahead; unfold m in *; lia.
Qed.

Lemma cut_loop_inv f s iv cuts out cursor :
  cut_inv f s iv cuts out cursor →
  let '(out', cursor') := foldl (cut_step (iv_state iv)) (out, cursor) cuts in
  cut_inv f s iv [] out' cursor'.
Proof.
  revert out cursor. induction cuts as [|c cuts IH]; intros out cursor H; [done|].
  apply cut_step_inv in H. cbn [foldl].
  destruct (cut_step (iv_state iv) (out, cursor) c) as [out' cursor']. by apply IH.
Qed.

Lemma planned_cuts_spec iv planned c :
  c ∈ planned_cuts iv planned ↔
  ∃ p, p ∈ planned ∧ c.1 = Z.max (pl_start p) (iv_start iv) ∧
       c.2 = Z.min (pl_end p) (iv_end iv) ∧ c.1 < c.2.
Proof.
  unfold planned_cuts. rewrite elem_of_sort_by, list_elem_of_omap. split.
  - intros (p & Hp & E). case_match eqn:Hlt; simplify_eq. bool_to_prop. eauto.
  - intros (p & Hp & E1 & E2 & Hlt). exists p. destruct c as [a b]; simpl in *; subst.
    by rewrite (proj2 (Z.ltb_lt _ _)).
Qed.

Lemma planned_cuts_sorted iv planned :
  StronglySorted (λ a b, a.1 <= b.1) (planned_cuts iv planned).
Proof. apply (order_by_sorted fst). Qed.

Lemma planned_cuts_at iv planned t :
  iv_start iv <= t < iv_end iv →
  exists_row (in_cut t) (planned_cuts iv planned) = planned_at planned t.
Proof.
  intros Ht. apply eq_true_iff_eq. unfold planned_at. rewrite !exists_row_true.
  setoid_rewrite in_cut_true. setoid_rewrite planned_cuts_spec.
  setoid_rewrite andb_true_iff. setoid_rewrite Z.leb_le. setoid_rewrite Z.ltb_lt. split.
  - intros ((a & b) & (p & Hp & E1 & E2 & ?) & ?). simpl in *. subst. exists p.
    split; [done|lia].
  - intros (p & Hp & ?).
    exists (Z.max (pl_start p) (iv_start iv), Z.min (pl_end p) (iv_end iv)). simpl.
    split; [|lia]. exists p. split; [done|lia].
Qed.

Lemma overlay_interval_timeline f s planned out iv :
  timeline f s (iv_start iv) out → iv_start iv < iv_end iv →
  (∀ t, iv_start iv <= t < iv_end iv →
     f t = if planned_at planned t then PlannedStop else iv_state iv) →
  timeline f s (iv_end iv) (overlay_interval planned out iv).
Proof.
  intros Ht Hlt Hf. unfold overlay_interval.
  pose proof (cut_loop_inv f s iv (planned_cuts iv planned) out (iv_start iv)) as H.
  destruct (foldl _ _ _) as [out' cursor]. destruct H as [H1 H2 _ _ _ H3].
  { constructor; [done|lia|by left| |apply planned_cuts_sorted|].
    - intros c (p & _ & ? & ? & ?)%planned_cuts_spec. lia.
    - intros t Ht'. by rewrite planned_cuts_at, Hf. }
  destruct (cursor <? iv_end iv) eqn:E; bool_to_prop.
  - by apply timeline_push.
  - by replace (iv_end iv) with cursor by lia.
Qed.

Lemma overlay_timeline f planned s m e ivs out :
  timeline f s m out → tiles m e ivs →
  (∀ t, m <= t < e → Some (f t) =
     if planned_at planned t then Some PlannedStop else state_at ivs t) →
  timeline f s e (foldl (overlay_interval planned) out ivs).
Proof.
  revert m out. induction ivs as [|iv ivs IH]; cbn [tiles foldl]; intros m out Ht.
  { by intros <-. }
  intros (<- & Hlt & Htiles) Hf. pose proof (tiles_le _ _ _ Htiles).
  apply (IH (iv_end iv)); [|done|].
  - apply overlay_interval_timeline; [done..|]. intros t Ht'.
    apply (inj Some). rewrite Hf by lia. rewrite state_at_cons. unfold holds.
    rewrite (proj2 (Z.leb_le _ _)), (proj2 (Z.ltb_lt _ _)) by lia. by destruct (planned_at _ _).
  - intros t Ht'. rewrite Hf by lia. rewrite state_at_cons. unfold holds.
    rewrite (proj2 (Z.ltb_ge _ _)), andb_false_r by lia. done.
Qed.

Lemma state_at_tiles s e l t : tiles s e l → s <= t < e → ∃ st, state_at l t = Some st.
Proof.
  revert s. induction l as [|iv l IH]; intros s; cbn [tiles]; [lia|].
  intros (<- & Hlt & Hl) Ht. rewrite state_at_cons. unfold holds.
  rewrite (proj2 (Z.leb_le _ _)) by lia. simpl.
  destruct (t <? iv_end iv) eqn:E; bool_to_prop; [eauto|]. eapply IH; [done|lia].
Qed.

Lemma tiles_bounds s e l iv :
  tiles s e l → iv ∈ l → s <= iv_start iv ∧ iv_start iv < iv_end iv ∧ iv_end iv <= e.
Proof.
  revert s. induction l as [|jv l IH]; intros s; cbn [tiles]; [by intros _ ?%elem_of_nil|].
  intros (<- & Hlt & Hl) [->|Hin]%elem_of_cons.
  - pose proof (tiles_le _ _ _ Hl). lia.
  - specialize (IH _ Hl Hin). lia.
Qed.

Lemma apply_planned_stops_timeline intervals planned s e :
  tiles s e intervals →
  tiles s e (apply_planned_stops intervals planned) ∧
  ∀ t, s <= t < e →
    state_at (apply_planned_stops intervals planned) t =
    if planned_at planned t then Some PlannedStop else state_at intervals t.
Proof.
  intros Ht.
  set (f := λ t, if planned_at planned t then PlannedStop
                 else default Running (state_at intervals t)).
  assert (∀ t, s <= t < e → Some (f t) =
    if planned_at planned t then Some PlannedStop else state_at intervals t) as Hf.
  { intros t Hin. unfold f. destruct (planned_at planned t); [done|].
    by destruct (state_at_tiles _ _ _ _ Ht Hin) as [st ->]. }
  destruct (overlay_timeline f planned s s e intervals [] (timeline_nil f s) Ht Hf)
    as [H1 H2].
  split; [done|]. intros t Hin. rewrite <- Hf by done. by apply H2.
Qed.

(** Exactly one interval of a tiling holds an instant inside it. *)
Lemma tiles_holds_one s e l t st :
  tiles s e l → state_at l t = Some st → map iv_state (select (holds t) l) = [st].
Proof.
  revert s. induction l as [|iv l IH]; intros s; cbn [tiles]; [by rewrite state_at_nil|].
  intros (<- & Hlt & Hl). rewrite state_at_cons. simpl. destruct (holds t iv) eqn:E.
  - intros [= <-]. simpl. f_equal. rewrite select_none; [done|].
    intros jv Hj. apply not_true_iff_false. intros Hh.
    destruct (tiles_bounds _ _ _ _ Hl Hj) as [Hb _]. unfold holds in *. bool_to_prop. lia.
  - by eapply IH.
Qed.

(** ** The shift split *)

Lemma split_loop_timeline f s st bs out cursor e :
  timeline f s cursor out → StronglySorted Z.lt (cursor :: bs) → (∀ b, b ∈ bs → b < e) →
  cursor < e → (∀ t, cursor <= t < e → f t = st) →
  let '(out', cursor') :=
    foldl (λ '(out, cursor) b, (mkInterval st cursor b :: out, b)) (out, cursor) bs in
  timeline f s e (mkInterval st cursor' e :: out').
Proof.
  revert out cursor. induction bs as [|b bs IH]; intros out cursor Ht Hs Hb Hlt Hf.
  { by apply timeline_push. }
  cbn [foldl]. inversion Hs as [|? ? Hs' Hall]; subst. inversion Hall; subst.
  pose proof (Hb b ltac:(set_solver)).
  apply IH; [|done|set_solver|lia|]; [apply timeline_push; [done|lia|]|]; intros; apply Hf; lia.
Qed.

Lemma inner_boundaries_spec iv bs b :
  b ∈ inner_boundaries iv bs ↔ b ∈ bs ∧ iv_start iv < b < iv_end iv.
Proof.
  unfold inner_boundaries. rewrite elem_of_sort_by, elem_of_select, andb_true_iff,
    !Z.ltb_lt. tauto.
Qed.

Lemma StronglySorted_le_lt (l : list Z) :
  StronglySorted Z.le l → NoDup l → StronglySorted Z.lt l.
Proof.
  induction 1 as [|x l Hl IH Hx]; intros Hnd; constructor; inversion Hnd; subst; [auto|].
  rewrite Forall_forall in *. intros y Hy. specialize (Hx y Hy).
  assert (x ≠ y); [|lia]. intros ->. by apply list_elem_of_In in Hy.
Qed.

Lemma inner_boundaries_sorted iv bs :
  NoDup bs → StronglySorted Z.lt (iv_start iv :: inner_boundaries iv bs).
Proof.
  intros Hnd. constructor.
  - apply StronglySorted_le_lt.
    + eapply StronglySorted_impl; [|apply sort_by_sorted];
        intros *; rewrite ?Z.leb_le, ?Z.leb_gt; lia.
    + unfold inner_boundaries. rewrite sort_by_perm.
      apply NoDup_ListNoDup, List.NoDup_filter. by apply NoDup_ListNoDup.
  - apply Forall_forall. intros b Hb. apply list_elem_of_In, inner_boundaries_spec in Hb. lia.
Qed.

Lemma split_interval_timeline f s bs out iv :
  NoDup bs → timeline f s (iv_start iv) out → iv_start iv < iv_end iv →
  (∀ t, iv_start iv <= t < iv_end iv → f t = iv_state iv) →
  timeline f s (iv_end iv) (split_interval bs out iv).
Proof.
  intros Hnd Ht Hlt Hf. unfold split_interval.
  pose proof (split_loop_timeline f s (iv_state iv) (inner_boundaries iv bs) out
    (iv_start iv) (iv_end iv) Ht (inner_boundaries_sorted iv bs Hnd)) as H.
  destruct (foldl _ _ _) as [out' cursor]. apply H; [|done..].
  intros b Hb%inner_boundaries_spec. lia.
Qed.

(** Pushed pieces end and start at consecutive inner boundaries. *)
Definition straddles (b : DateTime) (iv : StateInterval) : bool :=
  (iv_start iv <? b) && (b <? iv_end iv).

Lemma split_loop_straddles b st bs out cursor e :
  StronglySorted Z.le (cursor :: bs) → (∀ c, c ∈ bs → c < e) →
  (cursor < b < e → b ∈ bs) → (∀ iv, iv ∈ out → straddles b iv = false) →
  let '(out', cursor') :=
    foldl (λ '(out, cursor) c, (mkInterval st cursor c :: out, c)) (out, cursor) bs in
  ∀ iv, iv ∈ mkInterval st cursor' e :: out' → straddles b iv = false.
Proof.
  revert out cursor. induction bs as [|c bs IH]; intros out cursor Hs He Hb Hout.
  - simpl. intros iv [->|Hiv]%elem_of_cons; [|by apply Hout].
    apply not_true_iff_false. unfold straddles; simpl.
    rewrite andb_true_iff, !Z.ltb_lt. intros H. apply Hb in H. by apply not_elem_of_nil in H.
  - cbn [foldl]. inversion Hs as [|? ? Hs' Hall]; subst. inversion Hall; subst.
    inversion Hs' as [|? ? _ Hc]; subst. rewrite Forall_forall in Hc.
    pose proof (He c ltac:(set_solver)).
    apply IH; [done|set_solver| |].
    + intros Hb'. assert (b ∈ c :: bs) as [->|]%elem_of_cons by (apply Hb; lia); [lia|done].
    + intros iv [->|Hiv]%elem_of_cons; [|by apply Hout].
      apply not_true_iff_false. unfold straddles; simpl.
      rewrite andb_true_iff, !Z.ltb_lt. intros Hb'.
      assert (b ∈ c :: bs) as [->|Hin]%elem_of_cons by (apply Hb; lia); [lia|].
      apply list_elem_of_In, Hc in Hin. lia.
Qed.

Lemma split_foldl_straddles b bs ivs out :
  b ∈ bs → (∀ iv, iv ∈ ivs → iv_start iv < iv_end iv) →
  (∀ iv, iv ∈ out → straddles b iv = false) →
  ∀ iv, iv ∈ foldl (split_interval bs) out ivs → straddles b iv = false.
Proof.
  intros Hb. revert out. induction ivs as [|jv ivs IH]; intros out Hpos Hout; [done|].
  cbn [foldl]. apply IH; [set_solver|]. unfold split_interval.
  pose proof (split_loop_straddles b (iv_state jv) (inner_boundaries jv bs) out
    (iv_start jv) (iv_end jv)) as H.
  destruct (foldl _ _ _) as [out' cursor]. apply H; [| | |done].
  - constructor.
    + eapply StronglySorted_impl; [|apply sort_by_sorted];
        intros *; rewrite ?Z.leb_le, ?Z.leb_gt; lia.
    + apply Forall_forall. intros c Hc.
      apply list_elem_of_In, inner_boundaries_spec in Hc. lia.
  - intros c Hc%inner_boundaries_spec. lia.
  - intros Hin. by apply inner_boundaries_spec.
Qed.

Lemma split_foldl f bs s m e ivs out :
  NoDup bs → timeline f s m out → tiles m e ivs →
  (∀ t, m <= t < e → Some (f t) = state_at ivs t) →
  timeline f s e (foldl (split_interval bs) out ivs).
Proof.
  intros Hnd. revert m out.
  induction ivs as [|iv ivs IH]; cbn [tiles foldl]; intros m out Ht.
  { by intros <-. }
  intros (<- & Hlt & Htiles) Hf. pose proof (tiles_le _ _ _ Htiles).
  apply (IH (iv_end iv)); [|done|].
  - apply split_interval_timeline; [done..|]. intros t Ht'. apply (inj Some).
    rewrite Hf by lia. rewrite state_at_cons. unfold holds.
    by rewrite (proj2 (Z.leb_le _ _)), (proj2 (Z.ltb_lt _ _)) by lia.
  - intros t Ht'. rewrite Hf by lia. rewrite state_at_cons. unfold holds.
    by rewrite (proj2 (Z.ltb_ge _ _)), andb_false_r by lia.
Qed.

(** ** Time accounting *)

Definition time_in (p : MachineState → bool) (l : list StateInterval) : Duration :=
  sum_rows iv_duration (select (λ iv, p (iv_state iv)) l).

Lemma tiles_total s e l : tiles s e l → sum_rows iv_duration l = e - s.
Proof.
  revert s. induction l as [|iv l IH]; intros s; simpl; [lia|].
  intros (<- & _ & H%IH). unfold iv_duration in *. lia.
Qed.

Lemma time_in_split p l : time_in p l + time_in (λ s, negb (p s)) l = sum_rows iv_duration l.
Proof.
  unfold time_in. induction l as [|iv l IH]; simpl; [done|].
  destruct (p (iv_state iv)); simpl; lia.
Qed.

Lemma tiles_positive s e l iv : tiles s e l → iv ∈ l → iv_start iv < iv_end iv.
Proof. intros Ht Hin. by destruct (tiles_bounds _ _ _ _ Ht Hin) as (_ & ? & _). Qed.

(** In a tiling an instant is held by at most the interval [state_at] finds. *)
Lemma state_at_elem s e l iv t :
  tiles s e l → iv ∈ l → holds t iv = true → state_at l t = Some (iv_state iv).
Proof.
  revert s. induction l as [|jv l IH]; intros s; cbn [tiles]; [set_solver|].
  intros (<- & Hlt & Hl) Hin Hh. rewrite state_at_cons.
  apply elem_of_cons in Hin as [->|Hin]; [by rewrite Hh|].
  assert (holds t jv = false) as ->; [|by eapply IH].
  apply not_true_iff_false. unfold holds in *. bool_to_prop.
  rewrite andb_true_iff, Z.leb_le, Z.ltb_lt.
  destruct (tiles_bounds _ _ _ _ Hl Hin). lia.
Qed.

Definition unplanned_stop (s : MachineState) : bool :=
  is_stop s && negb (bool_decide (s = PlannedStop)).

Definition dt_duration (d : DowntimeEvent) : Duration := dt_end d - dt_start d.

(** The downtime event of a stop interval. *)
Lemma elem_of_downtime_events ids n l d :
  d ∈ downtime_events ids n l →
  ∃ iv, iv ∈ l ∧ unplanned_stop (iv_state iv) = true ∧
    dt_state d = iv_state iv ∧ dt_start d = iv_start iv ∧ dt_end d = iv_end iv.
Proof.
  unfold downtime_events. rewrite elem_of_lookup_imap.
  intros (k & iv & -> & Hk). apply list_elem_of_lookup_2, elem_of_select in Hk as [? ?].
  exists iv. done.
Qed.

Lemma downtime_events_elem ids n l iv :
  iv ∈ l → unplanned_stop (iv_state iv) = true →
  ∃ d, d ∈ downtime_events ids n l ∧
    dt_state d = iv_state iv ∧ dt_start d = iv_start iv ∧ dt_end d = iv_end iv.
Proof.
  intros Hin Hst. unfold downtime_events.
  assert (iv ∈ select (λ iv, unplanned_stop (iv_state iv)) l) as Hs
    by (by apply elem_of_select).
  apply list_elem_of_lookup_1 in Hs as (k & Hk). eexists. rewrite elem_of_lookup_imap.
  split; [by eexists _, _|done].
Qed.

Lemma downtime_events_total ids n l :
  sum_rows dt_duration (downtime_events ids n l) = time_in unplanned_stop l.
Proof.
  unfold downtime_events, time_in. fold unplanned_stop.
  change (λ iv, is_stop (iv_state iv) && negb (bool_decide (iv_state iv = PlannedStop)))
    with (λ iv, unplanned_stop (iv_state iv)).
  generalize (select (λ iv, unplanned_stop (iv_state iv)) l) as k. intros k. revert n.
  induction k as [|iv k IH]; intros n; [done|].
  rewrite imap_cons, !sum_rows_cons, <- (IH (S n)). f_equal.
  f_equal. apply imap_ext. intros i x _. simpl. do 2 f_equal. lia.
Qed.

(** ** Properties *)

(** C1. [compute_states] is correct at every instant: over a non-empty window holding the
    pulses, its intervals cover the window exactly, without gap or overlap, and each
    instant gets the state the rules give the stretch between the two kept pulses around
    it (Running up to [micro_stop_after], then MicroStop up to [down_after], then Down),
    the window's edges counting as pulses and a window without pulses being one stop. *)
Theorem compute_states_correct (cfg : StateConfig) (pulses : list DateTime)
    (window_start window_end : DateTime) :
  0 <= micro_stop_after cfg → window_start < window_end →
  Forall (λ p, window_start <= p <= window_end) pulses →
  tiles window_start window_end (compute_states cfg pulses window_start window_end) ∧
  ∀ t, window_start <= t < window_end →
    state_at (compute_states cfg pulses window_start window_end) t =
    Some (pulse_state cfg pulses window_start window_end t).
Proof.
  intros Hm Hw Hp. apply compute_states_timeline; [done..|].
  intros p Hin. rewrite Forall_forall in Hp. by apply Hp, list_elem_of_In.
Qed.

(** The scripted hour of the module's tests, one pulse per minute: run, micro-stop, down,
    run. *)
Definition scripted_pulses : list DateTime :=
  map seconds ((λ k, 60 * k) <$> (seqZ 0 21 ++ seqZ 23 18 ++ seqZ 50 11)).

Example scripted_hour :
  compute_states StateConfig_default scripted_pulses 0 (seconds 3600) =
  [ mkInterval Running 0 (seconds 1200);
    mkInterval MicroStop (seconds 1200) (seconds 1380);
    mkInterval Running (seconds 1380) (seconds 2400);
    mkInterval Down (seconds 2400) (seconds 3000);
    mkInterval Running (seconds 3000) (seconds 3600) ].
Proof. vm_compute. reflexivity. Qed.

Lemma compute_states_correct_witness :
  state_at (compute_states StateConfig_default scripted_pulses 0 (seconds 3600))
    (seconds 2500) = Some Down.
Proof.
  refine (eq_trans (proj2 (compute_states_correct StateConfig_default scripted_pulses 0
    (seconds 3600) _ _ _) (seconds 2500) _) _).
  - vm_compute. discriminate.
  - vm_compute. reflexivity.
  - evaluate_prop.
  - vm_compute. split; [discriminate|reflexivity].
  - vm_compute. reflexivity.
Defined.

(** C2. [apply_planned_stops] overlays and does nothing else: it keeps the tiling of the
    timeline, turns exactly the instants covered by some planned stop (clipped, unsorted,
    overlapping or nested ones included) into PlannedStop, and leaves the state of every
    other instant as it was. *)
Theorem apply_planned_stops_correct (intervals : list StateInterval)
    (planned : list PlannedInterval) (s e : DateTime) :
  tiles s e intervals →
  tiles s e (apply_planned_stops intervals planned) ∧
  ∀ t, s <= t < e →
    state_at (apply_planned_stops intervals planned) t =
    if planned_at planned t then Some PlannedStop else state_at intervals t.
Proof.
  apply apply_planned_stops_timeline.
Qed.

Lemma apply_planned_stops_correct_witness :
  tiles 0 30 [mkInterval Running 0 20; mkInterval Down 20 30] ∧
  apply_planned_stops [mkInterval Running 0 20; mkInterval Down 20 30]
    [mkPlanned 15 25; mkPlanned 5 8; mkPlanned 6 7] =
  [ mkInterval Running 0 5; mkInterval PlannedStop 5 8; mkInterval Running 8 15;
    mkInterval PlannedStop 15 25; mkInterval Down 25 30 ] ∧
  state_at (apply_planned_stops [mkInterval Running 0 20; mkInterval Down 20 30]
    [mkPlanned 15 25; mkPlanned 5 8; mkPlanned 6 7]) 22 = Some PlannedStop.
Proof.
  split; [vm_compute; auto|]. split; [vm_compute; reflexivity|].
  refine (eq_trans (proj2 (apply_planned_stops_correct _ _ 0 30 _) 22 _) _).
  - vm_compute. auto.
  - lia.
  - vm_compute. reflexivity.
Defined.

(** [split_at_boundaries] only cuts: on distinct boundaries the result still tiles the
    window, every instant keeps its state, and no interval straddles a boundary, so that
    every per-shift sum is over whole intervals. *)
Theorem split_at_boundaries_correct (intervals : list StateInterval)
    (boundaries : list DateTime) (s e : DateTime) :
  tiles s e intervals → NoDup boundaries →
  tiles s e (split_at_boundaries intervals boundaries) ∧
  (∀ t, s <= t < e →
     state_at (split_at_boundaries intervals boundaries) t = state_at intervals t) ∧
  (∀ b iv, b ∈ boundaries → iv ∈ split_at_boundaries intervals boundaries →
     straddles b iv = false).
Proof.
  intros Ht Hnd. set (f := λ t, default Running (state_at intervals t)).
  assert (∀ t, s <= t < e → Some (f t) = state_at intervals t) as Hf.
  { intros t Hin. unfold f. by destruct (state_at_tiles _ _ _ _ Ht Hin) as [st ->]. }
  destruct (split_foldl f boundaries s s e intervals [] Hnd (timeline_nil f s) Ht Hf)
    as [H1 H2].
  split; [done|]. split; [intros t Hin; rewrite <- Hf by done; by apply H2|].
  intros b iv Hb Hiv. unfold split_at_boundaries in Hiv.
  rewrite list_elem_of_In, <- in_rev, <- list_elem_of_In in Hiv. revert iv Hiv.
  apply split_foldl_straddles; [done| |set_solver].
  intros iv Hiv. eapply tiles_positive; [exact Ht|done].
Qed.

Lemma split_at_boundaries_correct_witness :
  split_at_boundaries [mkInterval Running 0 20; mkInterval Down 20 30] [20; 25; 10] =
  [ mkInterval Running 0 10; mkInterval Running 10 20; mkInterval Down 20 25;
    mkInterval Down 25 30 ] ∧
  tiles 0 30 (split_at_boundaries [mkInterval Running 0 20; mkInterval Down 20 30]
    [20; 25; 10]).
Proof.
  split; [vm_compute; reflexivity|].
  refine (proj1 (split_at_boundaries_correct _ _ 0 30 _ _)).
  - vm_compute. auto.
  - evaluate_prop.
Defined.

(** [downtime_events] reports exactly the unplanned stops of a timeline: an instant is
    inside an event iff the machine is in MicroStop or Down there, the event carries the
    state the timeline has there, and the total downtime reported is the window less the
    running and planned-stop time. *)
Theorem downtime_events_exact (ids : nat → string) (n : nat)
    (intervals : list StateInterval) (s e : DateTime) :
  tiles s e intervals →
  (∀ t st, unplanned_stop st = true →
     (∃ d, d ∈ downtime_events ids n intervals ∧ dt_state d = st ∧
           dt_start d <= t < dt_end d) ↔
     state_at intervals t = Some st) ∧
  (∀ d, d ∈ downtime_events ids n intervals → unplanned_stop (dt_state d) = true) ∧
  sum_rows dt_duration (downtime_events ids n intervals) =
    (e - s) - time_in (λ st, negb (unplanned_stop st)) intervals.
Proof.
  intros Ht. split; [|split].
  - intros t st Hst. split.
    + intros (d & Hd & <- & Hin). apply elem_of_downtime_events in Hd as
        (iv & Hiv & _ & -> & E1 & E2).
      apply (state_at_elem s e); [done..|]. unfold holds.
      rewrite andb_true_iff, Z.leb_le, Z.ltb_lt. lia.
    + unfold state_at. intros Hs. apply fmap_Some in Hs as (iv & Hfind & ->).
      apply first_where_Some in Hfind as [Hh Hiv]. unfold holds in Hh. bool_to_prop.
      destruct (downtime_events_elem ids n _ _ Hiv Hst) as (d & Hd & ? & E1 & E2).
      exists d. rewrite E1, E2. auto.
  - intros d Hd. apply elem_of_downtime_events in Hd as (iv & _ & ? & -> & _). done.
  - rewrite downtime_events_total. pose proof (time_in_split unplanned_stop intervals).
    rewrite (tiles_total _ _ _ Ht) in *. lia.
Qed.

Lemma downtime_events_exact_witness :
  sum_rows dt_duration (downtime_events (λ _, "id") 0
    [mkInterval Running 0 20; mkInterval Down 20 30; mkInterval PlannedStop 30 35]) = 10.
Proof.
  refine (eq_trans (proj2 (proj2 (downtime_events_exact _ _ _ 0 35 _))) _).
  - vm_compute. repeat split.
  - vm_compute. reflexivity.
Defined.
