(* ===== verification/Lifecycle.v ===== *)
(** * The domain's enumerations and lifecycles
    ([crates/mes-core/src/{work_order,dnc,cmms,qms,analytics,roles}.rs])

    One module per enumeration, with the source's constructors, its wire form ([as_str],
    [parse]) and, where it is a lifecycle, its [can_transition] table. Two interfaces are
    stated once and implemented by each module: [WireEnum] (the wire form is exact) and
    [Lifecycle] (every transition makes progress, so no status is ever revisited). The role
    policies and the inspection rule, pure functions of the same crate, close the file. *)

From S2P Require Import Prelude.
Local Open Scope string_scope.

(** ** Interfaces *)

(** What the rest of the system relies on for an enumeration stored and sent as text. *)
Class WireEnum (A : Type) (as_str : A → string) (parse : string → option A) : Prop := {
  parse_as_str : ∀ a, parse (as_str a) = Some a;
  as_str_parse : ∀ s a, parse s = Some a → as_str a = s
}.

(** A status graph in which every transition increases a rank bounded by [bound]. *)
Class Lifecycle {A : Type} (step : A → A → bool) (rank : A → nat) (bound : nat) : Prop := {
  step_rank : ∀ a b, step a b = true → (rank a < rank b)%nat;
  rank_bound : ∀ a, (rank a <= bound)%nat
}.

(** A history of statuses in which each follows from the one before it. *)
Fixpoint chain {A} (step : A → A → bool) (a : A) (l : list A) : Prop :=
  match l with
  | [] => True
  | b :: l' => step a b = true ∧ chain step b l'
  end.

Section lifecycle.
Context {A : Type} {step : A → A → bool} {rank : A → nat} {bound : nat}.
Context `{!Lifecycle step rank bound}.

Lemma chain_rank a l b : chain step a l → b ∈ l → (rank a < rank b)%nat.
Proof.
  revert a. induction l as [|c l IH]; intros a; simpl; [set_solver|].
  intros [Hs Hc] Hb. apply step_rank in Hs.
  apply elem_of_cons in Hb as [->|Hb]; [done|]. specialize (IH c Hc Hb). lia.
Qed.

Lemma chain_no_revisit a l : chain step a l → NoDup (a :: l).
Proof.
  revert a. induction l as [|c l IH]; intros a; simpl; [repeat constructor; set_solver|].
  intros [Hs Hc]. constructor; [|by apply IH].
  intros Hin. assert (rank a < rank a)%nat; [|lia].
  apply (chain_rank a (c :: l)); [done|set_solver].
Qed.

Lemma chain_length a l : chain step a l → (length l + rank a <= bound)%nat.
Proof.
  revert a. induction l as [|c l IH]; intros a; simpl.
  - intros _. apply rank_bound.
  - intros [Hs%step_rank Hc%IH]. lia.
Qed.

Lemma step_irrefl a : step a a = false.
Proof.
  apply not_true_iff_false. intros H%step_rank. lia.
Qed.
End lifecycle.

(** Proves a [WireEnum] instance: the encoder by cases, the decoder by its tests. *)
Ltac solve_wire :=
  split; [by intros []|]; intros s a; cbv beta delta -[String.eqb] iota zeta;
  repeat (case_match; bool_to_prop; simplify_eq/=; try done).

(** Proves a [Lifecycle] instance by enumeration. *)
Ltac solve_lifecycle :=
  split; [intros [] []; cbv; intros; try done; lia|intros []; cbv; lia].

(** ** Work orders and operations ([work_order.rs]) *)

Module WoStatus.
Inductive t := Draft | Released | InProgress | Completed | Closed | Cancelled.
#[global] Instance eq_dec : EqDecision t.
Proof. solve_decision. Defined.

Definition parse (s : string) : option t :=
  if String.eqb s "draft" then Some Draft
  else if String.eqb s "released" then Some Released
  else if String.eqb s "in_progress" then Some InProgress
  else if String.eqb s "completed" then Some Completed
  else if String.eqb s "closed" then Some Closed
  else if String.eqb s "cancelled" then Some Cancelled
  else None.

Definition as_str (x : t) : string :=
  match x with
  | Draft => "draft" | Released => "released" | InProgress => "in_progress"
  | Completed => "completed" | Closed => "closed" | Cancelled => "cancelled"
  end.

Definition is_terminal (x : t) : bool :=
  match x with Closed | Cancelled => true | _ => false end.

Definition can_transition (x next : t) : bool :=
  match x, next with
  | Draft, Released | Draft, Cancelled
  | Released, InProgress | Released, Cancelled
  | InProgress, Completed | InProgress, Cancelled
  | Completed, Closed => true
  | _, _ => false
  end.

Definition rank (x : t) : nat :=
  match x with
  | Draft => 0 | Released => 1 | InProgress => 2 | Completed => 3
  | Closed => 4 | Cancelled => 4
  end.

#[global] Instance wire : WireEnum t as_str parse.
Proof. solve_wire. Qed.
#[global] Instance lifecycle : Lifecycle can_transition rank 4.
Proof. solve_lifecycle. Qed.
End WoStatus.

Module OpStatus.
Inductive t := Pending | InProgress | Completed.
#[global] Instance eq_dec : EqDecision t.
Proof. solve_decision. Defined.

Definition parse (s : string) : option t :=
  if String.eqb s "pending" then Some Pending
  else if String.eqb s "in_progress" then Some InProgress
  else if String.eqb s "completed" then Some Completed
  else None.

Definition as_str (x : t) : string :=
  match x with
  | Pending => "pending" | InProgress => "in_progress" | Completed => "completed"
  end.

Definition can_transition (x next : t) : bool :=
  match x, next with
  | Pending, InProgress | InProgress, Completed => true
  | _, _ => false
  end.

Definition rank (x : t) : nat :=
  match x with Pending => 0 | InProgress => 1 | Completed => 2 end.

#[global] Instance wire : WireEnum t as_str parse.
Proof. solve_wire. Qed.
#[global] Instance lifecycle : Lifecycle can_transition rank 2.
Proof. solve_lifecycle. Qed.
End OpStatus.

(** ** DNC transfers and program revisions ([dnc.rs]) *)

Module TransferDirection.
Inductive t := ToMachine | FromMachine.
Definition as_str (x : t) : string :=
  match x with ToMachine => "to_machine" | FromMachine => "from_machine" end.
End TransferDirection.

Module TransferStatus.
Inductive t := Scheduled | Notified | Fetched | Completed | Failed.
#[global] Instance eq_dec : EqDecision t.
Proof. solve_decision. Defined.

Definition parse (s : string) : option t :=
  if String.eqb s "scheduled" then Some Scheduled
  else if String.eqb s "notified" then Some Notified
  else if String.eqb s "fetched" then Some Fetched
  else if String.eqb s "completed" then Some Completed
  else if String.eqb s "failed" then Some Failed
  else None.

Definition as_str (x : t) : string :=
  match x with
  | Scheduled => "scheduled" | Notified => "notified" | Fetched => "fetched"
  | Completed => "completed" | Failed => "failed"
  end.

Definition is_terminal (x : t) : bool :=
  match x with Completed | Failed => true | _ => false end.

Definition can_transition (x next : t) : bool :=
  if bool_decide (next = Failed) then negb (is_terminal x)
  else
    match x, next with
    | Scheduled, Notified | Scheduled, Fetched | Scheduled, Completed
    | Notified, Fetched | Notified, Completed
    | Fetched, Completed => true
    | _, _ => false
    end.

Definition rank (x : t) : nat :=
  match x with Scheduled => 0 | Notified => 1 | Fetched => 2 | Completed => 3 | Failed => 3 end.

#[global] Instance wire : WireEnum t as_str parse.
Proof. solve_wire. Qed.
#[global] Instance lifecycle : Lifecycle can_transition rank 3.
Proof. solve_lifecycle. Qed.
End TransferStatus.

Module RevisionStatus.
Inductive t := Draft | Promoted | Rejected.
#[global] Instance eq_dec : EqDecision t.
Proof. solve_decision. Defined.

Definition parse (s : string) : option t :=
  if String.eqb s "draft" then Some Draft
  else if String.eqb s "promoted" then Some Promoted
  else if String.eqb s "rejected" then Some Rejected
  else None.

Definition as_str (x : t) : string :=
  match x with Draft => "draft" | Promoted => "promoted" | Rejected => "rejected" end.

Definition can_transition (x next : t) : bool :=
  match x, next with
  | Draft, Promoted | Draft, Rejected => true
  | _, _ => false
  end.

Definition rank (x : t) : nat := match x with Draft => 0 | _ => 1 end.

#[global] Instance wire : WireEnum t as_str parse.
Proof. solve_wire. Qed.
#[global] Instance lifecycle : Lifecycle can_transition rank 1.
Proof. solve_lifecycle. Qed.
End RevisionStatus.

(** ** Maintenance ([cmms.rs]) *)

Module PmTrigger.
Inductive t := Calendar | UsageHours.
Definition parse (s : string) : option t :=
  if String.eqb s "calendar" then Some Calendar
  else if String.eqb s "usage_hours" then Some UsageHours
  else None.
Definition as_str (x : t) : string :=
  match x with Calendar => "calendar" | UsageHours => "usage_hours" end.
#[global] Instance wire : WireEnum t as_str parse.
Proof. solve_wire. Qed.
End PmTrigger.

Definition calendar_next_due (last_done : DateTime) (interval_days : Z) : DateTime :=
  (last_done + days interval_days)%Z.
Definition calendar_is_due (next_due now : DateTime) : bool := (next_due <=? now)%Z.
Definition usage_next_due (last_done_usage_h interval_hours : Decimal) : Decimal :=
  (last_done_usage_h + interval_hours)%Z.
Definition usage_is_due (next_due_usage_h current_usage_h : Decimal) : bool :=
  (next_due_usage_h <=? current_usage_h)%Z.

Module MaintenanceType.
Inductive t := Pm | Corrective | Breakdown.
Definition parse (s : string) : option t :=
  if String.eqb s "PM" then Some Pm
  else if String.eqb s "Corrective" then Some Corrective
  else if String.eqb s "Breakdown" then Some Breakdown
  else None.
Definition as_str (x : t) : string :=
  match x with Pm => "PM" | Corrective => "Corrective" | Breakdown => "Breakdown" end.
#[global] Instance wire : WireEnum t as_str parse.
Proof. solve_wire. Qed.
End MaintenanceType.

Module MaintenanceStatus.
Inductive t := Requested | Scheduled | InProgress | Completed | Verified.
#[global] Instance eq_dec : EqDecision t.
Proof. solve_decision. Defined.

Definition parse (s : string) : option t :=
  if String.eqb s "requested" then Some Requested
  else if String.eqb s "scheduled" then Some Scheduled
  else if String.eqb s "in_progress" then Some InProgress
  else if String.eqb s "completed" then Some Completed
  else if String.eqb s "verified" then Some Verified
  else None.

Definition as_str (x : t) : string :=
  match x with
  | Requested => "requested" | Scheduled => "scheduled" | InProgress => "in_progress"
  | Completed => "completed" | Verified => "verified"
  end.

Definition can_transition (x next : t) : bool :=
  match x, next with
  | Requested, Scheduled | Scheduled, InProgress
  | InProgress, Completed | Completed, Verified => true
  | _, _ => false
  end.

Definition rank (x : t) : nat :=
  match x with
  | Requested => 0 | Scheduled => 1 | InProgress => 2 | Completed => 3 | Verified => 4
  end.

#[global] Instance wire : WireEnum t as_str parse.
Proof. solve_wire. Qed.
#[global] Instance lifecycle : Lifecycle can_transition rank 4.
Proof. solve_lifecycle. Qed.
End MaintenanceStatus.

Module ProcurementStatus.
Inductive t := Requested | SentToErp | Fulfilled.
#[global] Instance eq_dec : EqDecision t.
Proof. solve_decision. Defined.

Definition parse (s : string) : option t :=
  if String.eqb s "requested" then Some Requested
  else if String.eqb s "sent_to_erp" then Some SentToErp
  else if String.eqb s "fulfilled" then Some Fulfilled
  else None.

Definition as_str (x : t) : string :=
  match x with
  | Requested => "requested" | SentToErp => "sent_to_erp" | Fulfilled => "fulfilled"
  end.

Definition can_transition (x next : t) : bool :=
  match x, next with
  | Requested, SentToErp | SentToErp, Fulfilled => true
  | _, _ => false
  end.

Definition rank (x : t) : nat :=
  match x with Requested => 0 | SentToErp => 1 | Fulfilled => 2 end.

#[global] Instance wire : WireEnum t as_str parse.
Proof. solve_wire. Qed.
#[global] Instance lifecycle : Lifecycle can_transition rank 2.
Proof. solve_lifecycle. Qed.
End ProcurementStatus.

Module ProcurementReason.
Inductive t := ReorderPoint | Manual.
Definition as_str (x : t) : string :=
  match x with ReorderPoint => "reorder_point" | Manual => "manual" end.
End ProcurementReason.

(** ** Quality ([qms.rs]) *)

Module InspectionOutcome.
Inductive t := Pass | Fail.
#[global] Instance eq_dec : EqDecision t.
Proof. solve_decision. Defined.
Definition as_str (x : t) : string :=
  match x with Pass => "pass" | Fail => "fail" end.
End InspectionOutcome.

Definition evaluate (value : Decimal) (lower upper : option Decimal) :
    InspectionOutcome.t :=
  if match lower with Some lo => (value <? lo)%Z | None => false end then InspectionOutcome.Fail
  else if match upper with Some hi => (hi <? value)%Z | None => false end
  then InspectionOutcome.Fail
  else InspectionOutcome.Pass.

Module NcrStatus.
Inductive t := Open | Dispositioned | Closed.
#[global] Instance eq_dec : EqDecision t.
Proof. solve_decision. Defined.

Definition parse (s : string) : option t :=
  if String.eqb s "open" then Some Open
  else if String.eqb s "dispositioned" then Some Dispositioned
  else if String.eqb s "closed" then Some Closed
  else None.

Definition as_str (x : t) : string :=
  match x with
  | Open => "open" | Dispositioned => "dispositioned" | Closed => "closed"
  end.

Definition can_transition (x next : t) : bool :=
  match x, next with
  | Open, Dispositioned | Dispositioned, Closed => true
  | _, _ => false
  end.

Definition rank (x : t) : nat :=
  match x with Open => 0 | Dispositioned => 1 | Closed => 2 end.

#[global] Instance wire : WireEnum t as_str parse.
Proof. solve_wire. Qed.
#[global] Instance lifecycle : Lifecycle can_transition rank 2.
Proof. solve_lifecycle. Qed.
End NcrStatus.

Module Disposition.
Inductive t := Rework | Scrap | UseAsIs | Return.
#[global] Instance eq_dec : EqDecision t.
Proof. solve_decision. Defined.

Definition parse (s : string) : option t :=
  if String.eqb s "rework" then Some Rework
  else if String.eqb s "scrap" then Some Scrap
  else if String.eqb s "use_as_is" then Some UseAsIs
  else if String.eqb s "return" then Some Return
  else None.

Definition as_str (x : t) : string :=
  match x with
  | Rework => "rework" | Scrap => "scrap" | UseAsIs => "use_as_is" | Return => "return"
  end.

Definition releases_hold (x : t) : bool :=
  match x with Rework | UseAsIs => true | _ => false end.

#[global] Instance wire : WireEnum t as_str parse.
Proof. solve_wire. Qed.
End Disposition.

(** ** The Six Big Losses ([analytics.rs]) *)

Module SixBigLoss.
Inductive t :=
  | Breakdown | SetupAdjustment | MinorStop | ReducedSpeed | StartupReject
  | ProductionReject.

Definition parse (s : string) : option t :=
  if String.eqb s "breakdown" then Some Breakdown
  else if String.eqb s "setup_adjustment" then Some SetupAdjustment
  else if String.eqb s "minor_stop" then Some MinorStop
  else if String.eqb s "reduced_speed" then Some ReducedSpeed
  else if String.eqb s "startup_reject" then Some StartupReject
  else if String.eqb s "production_reject" then Some ProductionReject
  else None.

Definition as_str (x : t) : string :=
  match x with
  | Breakdown => "breakdown" | SetupAdjustment => "setup_adjustment"
  | MinorStop => "minor_stop" | ReducedSpeed => "reduced_speed"
  | StartupReject => "startup_reject" | ProductionReject => "production_reject"
  end.

Definition oee_bucket (x : t) : string :=
  match x with
  | Breakdown | SetupAdjustment => "availability"
  | MinorStop | ReducedSpeed => "performance"
  | StartupReject | ProductionReject => "quality"
  end.

#[global] Instance wire : WireEnum t as_str parse.
Proof. solve_wire. Qed.
End SixBigLoss.

(** ** Role policies ([roles.rs]) *)

Definition ADMIN : string := "Admin".
Definition PLANNER : string := "Planner".
Definition SUPERVISOR : string := "Supervisor".
Definition OPERATOR : string := "Operator".
Definition QUALITY : string := "Quality".
Definition MAINTENANCE : string := "Maintenance".

Definition can_write_master (role_code : string) : bool :=
  String.eqb role_code ADMIN || String.eqb role_code PLANNER.
Definition can_read_master (_ : string) : bool := true.
Definition can_promote_revision (role_code : string) : bool :=
  String.eqb role_code ADMIN || String.eqb role_code PLANNER
  || String.eqb role_code SUPERVISOR.
Definition can_manage_quality (role_code : string) : bool :=
  String.eqb role_code ADMIN || String.eqb role_code SUPERVISOR
  || String.eqb role_code QUALITY.
Definition can_manage_maintenance (role_code : string) : bool :=
  String.eqb role_code ADMIN || String.eqb role_code SUPERVISOR
  || String.eqb role_code MAINTENANCE.

(** ** Properties *)

(** The histories a status graph allows never revisit a status and have at most [n]
    transitions. *)
Definition bounded_history {A} (step : A → A → bool) (n : nat) : Prop :=
  ∀ a l, chain step a l → NoDup (a :: l) ∧ (length l <= n)%nat.

Lemma lifecycle_bounded {A} (step : A → A → bool) rank bound :
  Lifecycle step rank bound → bounded_history step bound.
Proof.
  intros H a l Hc. split; [by apply (chain_no_revisit (rank := rank) (bound := bound))|].
  pose proof (chain_length (rank := rank) (bound := bound) a l Hc). lia.
Qed.

(** No lifecycle of the domain can loop: whatever sequence of accepted transitions a
    work order, operation, DNC transfer, program revision, maintenance order, procurement
    request or NCR goes through, it never returns to a status it has left, and it reaches
    its end within the number of transitions given here. *)
Theorem lifecycles_bounded :
  bounded_history WoStatus.can_transition 4 ∧
  bounded_history OpStatus.can_transition 2 ∧
  bounded_history TransferStatus.can_transition 3 ∧
  bounded_history RevisionStatus.can_transition 1 ∧
  bounded_history MaintenanceStatus.can_transition 4 ∧
  bounded_history ProcurementStatus.can_transition 2 ∧
  bounded_history NcrStatus.can_transition 2.
Proof. repeat apply conj; eapply lifecycle_bounded; apply _. Qed.

(** A wire form that loses nothing and accepts nothing else. *)
Definition wire_exact {A} (as_str : A → string) (parse : string → option A) : Prop :=
  ∀ s a, parse s = Some a ↔ s = as_str a.

Lemma wire_enum_exact {A} (as_str : A → string) parse :
  WireEnum A as_str parse → wire_exact as_str parse.
Proof.
  intros H s a. split; [intros E%as_str_parse; done|intros ->; apply parse_as_str].
Qed.

(** The text form of every status and category is exact: [parse] inverts [as_str] and
    accepts no other string, so a stored status is never mistaken for another one. *)
Theorem wire_forms_exact :
  wire_exact WoStatus.as_str WoStatus.parse ∧
  wire_exact OpStatus.as_str OpStatus.parse ∧
  wire_exact TransferStatus.as_str TransferStatus.parse ∧
  wire_exact RevisionStatus.as_str RevisionStatus.parse ∧
  wire_exact PmTrigger.as_str PmTrigger.parse ∧
  wire_exact MaintenanceType.as_str MaintenanceType.parse ∧
  wire_exact MaintenanceStatus.as_str MaintenanceStatus.parse ∧
  wire_exact ProcurementStatus.as_str ProcurementStatus.parse ∧
  wire_exact NcrStatus.as_str NcrStatus.parse ∧
  wire_exact Disposition.as_str Disposition.parse ∧
  wire_exact SixBigLoss.as_str SixBigLoss.parse.
Proof. repeat apply conj; eapply wire_enum_exact; apply _. Qed.
