(* ===== verification/Barcode.v ===== *)
(** * Barcodes ([crates/mes-core/src/barcode.rs])

    The [EMX1|<type>|<id>] codec: [encode] formats, [parse] splits on the first two pipes
    ([str::splitn]) and validates. *)

From Stdlib Require Import Ascii.
From S2P Require Import Prelude.
Local Open Scope string_scope.

Definition TYPE_LOT : string := "LOT".
Definition TYPE_SERIAL : string := "SER".
Definition PREFIX : string := "EMX1".

Definition pipe : Ascii.ascii := "|"%char.

Definition encode (type_code id : string) : string :=
  PREFIX ++ "|" ++ type_code ++ "|" ++ id.

(** The text before the first separator, and the text after it if there is one. *)
Fixpoint split_once (sep : Ascii.ascii) (s : string) : string * option string :=
  match s with
  | EmptyString => ("", None)
  | String c s' =>
      if Ascii.eqb c sep then ("", Some s')
      else let '(before, after) := split_once sep s' in (String c before, after)
  end.

(** [str::splitn(n, sep)]: at most [n] pieces, the last one holding the rest. *)
Fixpoint splitn (n : nat) (sep : Ascii.ascii) (s : string) : list string :=
  match n with
  | O => []
  | S O => [s]
  | S n' =>
      match split_once sep s with
      | (before, Some after) => before :: splitn n' sep after
      | (before, None) => [before]
      end
  end.

Definition parse (code : string) : option (string * string) :=
  match splitn 3 pipe code with
  | prefix :: type_code :: id :: _ =>
      if negb (String.eqb prefix PREFIX) || String.eqb type_code "" || String.eqb id ""
      then None
      else Some (type_code, id)
  | _ => None
  end.

(** ** Lemmas *)

Fixpoint has_char (sep : Ascii.ascii) (s : string) : bool :=
  match s with
  | EmptyString => false
  | String c s' => Ascii.eqb c sep || has_char sep s'
  end.

Lemma split_once_app sep a b :
  has_char sep a = false → split_once sep (a ++ String sep b) = (a, Some b).
Proof.
  induction a as [|c a IH]; simpl; [by rewrite Ascii.eqb_refl|].
  destruct (Ascii.eqb c sep); [done|]. simpl. intros H. by rewrite IH.
Qed.

Lemma split_once_Some sep s a b :
  split_once sep s = (a, Some b) → s = a ++ String sep b ∧ has_char sep a = false.
Proof.
  revert a. induction s as [|c s IH]; intros a; simpl; [done|].
  destruct (Ascii.eqb c sep) eqn:E.
  - apply Ascii.eqb_eq in E as ->. by intros [= <- <-].
  - destruct (split_once sep s) as [a' o] eqn:Es. intros [= <- ->].
    destruct (IH a' eq_refl) as [-> ?]. simpl. by rewrite E.
Qed.

Lemma split_once_None sep s a : split_once sep s = (a, None) → has_char sep s = false.
Proof.
  revert a. induction s as [|c s IH]; intros a; simpl; [done|].
  destruct (Ascii.eqb c sep); [done|].
  destruct (split_once sep s) as [a' o]. intros [= <- ->]. by eapply IH.
Qed.

(** ** Properties *)

(** The barcode codec is exact: [parse] returns a pair precisely on the strings
    [encode] produces from a non-empty type code without a pipe and a non-empty id, and
    returns that very pair; the id itself may contain pipes. *)
Theorem barcode_exact (code type_code id : string) :
  parse code = Some (type_code, id) ↔
  code = encode type_code id ∧ type_code ≠ "" ∧ id ≠ "" ∧ has_char pipe type_code = false.
Proof.
  split.
  - unfold parse, splitn.
    destruct (split_once pipe code) as [p [rest|]] eqn:E1; [|done].
    destruct (split_once pipe rest) as [ty [i|]] eqn:E2; [|done].
    destruct (_ || _) eqn:Etest; [done|]. intros [= -> ->]. bool_to_prop.
    apply split_once_Some in E1 as [-> _]. apply split_once_Some in E2 as [-> ?].
    subst p. done.
  - intros (-> & Ht & Hi & Hp). unfold parse, splitn.
    change (encode type_code id)
      with (PREFIX ++ String pipe (type_code ++ String pipe id)).
    rewrite (split_once_app pipe PREFIX) by reflexivity.
    rewrite split_once_app by done.
    rewrite (proj2 (String.eqb_neq _ _) Ht), (proj2 (String.eqb_neq _ _) Hi). done.
Qed.
