(* ===== verification/Rounding.v ===== *)
(** * Rounding in binary64

    What the executable IEEE-754 arithmetic of the Standard Library rounds to: a product or
    a quotient of positive numbers that does not exceed a number of the format is not rounded
    above it, and results are again numbers of the format. *)

From Stdlib Require Import SpecFloat.
From S2P Require Import Prelude.

Abbreviation prec := 53 (only parsing).
Abbreviation emax := 1024 (only parsing).
Abbreviation fexp := (SpecFloat.fexp 53 1024).
Abbreviation round_aux := (binary_round_aux 53 1024).
Abbreviation valid := (valid_binary 53 1024).

(** ** Digits *)

Lemma digits2_log2 m : Z.pos (digits2_pos m) = Z.log2 (Z.pos m) + 1.
Proof.
  induction m as [m IH|m IH|]; simpl digits2_pos; [..|done]; rewrite Pos2Z.inj_succ, IH.
  - rewrite (Pos2Z.inj_xI m), Z.log2_succ_double by lia. lia.
  - rewrite (Pos2Z.inj_xO m), Z.log2_double by lia. lia.
Qed.

Lemma Zdigits2_log2 m : 0 < m → Zdigits2 m = Z.log2 m + 1.
Proof. destruct m; [lia| |lia]. intros _. apply digits2_log2. Qed.

Lemma fexp_eq e : fexp e = Z.max (e - 53) (-1074).
Proof. done. Qed.

Lemma fexp_mono a b : a <= b → fexp a <= fexp b.
Proof. rewrite !fexp_eq. lia. Qed.

(** ** Shifts

    A record stands for a number between its mantissa and the next; [top] is the least
    integer that is not below it. *)

Definition inexact (x : shr_record) : Z := if shr_r x || shr_s x then 1 else 0.
Definition top (x : shr_record) : Z := shr_m x + inexact x.

Lemma shr_1_m x : 0 <= shr_m x → shr_m (shr_1 x) = shr_m x / 2 ∧ 0 <= shr_m (shr_1 x).
Proof.
  destruct x as [[|[p|p|]|p] r s]; cbn [shr_m shr_1]; intros H; try lia; (split; [|lia]).
  - done.
  - apply (Z.div_unique _ _ _ 1); lia.
  - apply (Z.div_unique _ _ _ 0); lia.
  - done.
Qed.

Lemma shr_1_top x k : 0 <= shr_m x → top x <= 2 * k → top (shr_1 x) <= k.
Proof.
  unfold top, inexact. destruct x as [[|[p|p|]|p] r s]; simpl; intros H; try lia;
    destruct r, s; simpl; lia.
Qed.

Lemma iter_pos_iter {A} (f : A → A) n x : SpecFloat.iter_pos f n x = Pos.iter f x n.
Proof.
  revert x. induction n as [n IH|n IH|]; intros x; simpl; [..|done].
  - rewrite !IH, <- !Pos.iter_swap. done.
  - by rewrite !IH.
Qed.

Lemma shifted n x k :
  0 <= shr_m x →
  let y := Pos.iter shr_1 x n in
  shr_m y = shr_m x / 2 ^ Z.pos n ∧ 0 <= shr_m y ∧ (top x <= k * 2 ^ Z.pos n → top y <= k).
Proof.
  revert k. induction n as [|n IH] using Pos.peano_ind; intros k Hx; cbv zeta.
  - simpl Pos.iter. rewrite Z.pow_1_r. destruct (shr_1_m x Hx) as [E H]. split_and!; [done..|].
    intros Ht. apply shr_1_top; lia.
  - rewrite Pos.iter_succ, Pos2Z.inj_succ, Z.pow_succ_r by lia.
    destruct (IH (2 * k) Hx) as (E & H & Ht). destruct (shr_1_m _ H) as [E1 H1].
    split_and!; [|done|].
    + rewrite E1, E, Z.div_div, Z.mul_comm by lia. done.
    + intros Hk. apply shr_1_top; [done|]. apply Ht. lia.
Qed.

Definition carry (l : location) : Z := match l with loc_Exact => 0 | _ => 1 end.

Lemma top_of_loc m l : top (shr_record_of_loc m l) = m + carry l.
Proof. by destruct l as [|[]]. Qed.

Lemma shr_m_of_loc m l : shr_m (shr_record_of_loc m l) = m.
Proof. by destruct l as [|[]]. Qed.

Lemma shr_fexp_spec m e l y e' :
  0 <= m → shr_fexp 53 1024 m e l = (y, e') →
  e' = Z.max e (fexp (Zdigits2 m + e)) ∧ 0 <= shr_m y ∧ shr_m y = m / 2 ^ (e' - e) ∧
  ∀ k, m + carry l <= k * 2 ^ (e' - e) → top y <= k.
Proof.
  intros Hm. unfold shr_fexp, shr.
  destruct (fexp (Zdigits2 m + e) - e) as [|n|n] eqn:En; intros [= <- <-].
  - rewrite shr_m_of_loc, top_of_loc, Z.sub_diag, Z.pow_0_r, Z.div_1_r. split_and!; lia.
  - rewrite iter_pos_iter. replace (e + Z.pos n - e) with (Z.pos n) by lia.
    assert (0 <= shr_m (shr_record_of_loc m l)) as H0 by (by rewrite shr_m_of_loc).
    destruct (shifted n _ 0 H0) as (E & H1 & _). rewrite shr_m_of_loc in E.
    split_and!; [lia|done|done|]. intros k Hk. apply (shifted n _ k H0). by rewrite top_of_loc.
  - rewrite shr_m_of_loc, top_of_loc, Z.sub_diag, Z.pow_0_r, Z.div_1_r. split_and!; lia.
Qed.

Lemma round_between y :
  shr_m y <= round_nearest_even (shr_m y) (loc_of_shr_record y) <= top y.
Proof.
  unfold top, inexact. destruct y as [m [] []]; simpl; try lia. destruct (Z.even m); lia.
Qed.

Lemma digits_pow2 x n : 0 < x → 0 <= n → Zdigits2 (x * 2 ^ n) = Zdigits2 x + n.
Proof. intros. rewrite !Zdigits2_log2, Z.log2_mul_pow2 by lia. lia. Qed.

Lemma digits_mono a b : 0 <= a → a <= b → Zdigits2 a <= Zdigits2 b.
Proof.
  intros Ha Hab. destruct (decide (a = 0)) as [->|].
  - destruct b; simpl; lia.
  - rewrite !Zdigits2_log2 by lia. pose proof (Z.log2_le_mono a b Hab). lia.
Qed.

Lemma digits_shifted m n :
  0 <= n → 0 < m / 2 ^ n → Zdigits2 (m / 2 ^ n) = Zdigits2 m - n.
Proof.
  intros Hn H. assert (0 < m) as Hm.
  { destruct (Z.le_gt_cases m 0); [|done]. pose proof (Z.div_le_upper_bound m (2 ^ n) 0). lia. }
  rewrite !Zdigits2_log2 by done. rewrite <- Z.shiftr_div_pow2 in * by done.
  rewrite Z.log2_shiftr by done. assert (n <= Z.log2 m); [|lia].
  destruct (Z.le_gt_cases n (Z.log2 m)); [done|]. rewrite Z.shiftr_eq_0 in H by lia. lia.
Qed.

(** A record that stays within a number of the format stays within it when it is shifted to
    the exponent of the format. *)
Lemma shr_below m e l X E y e' :
  0 <= m → 0 < X → e <= E → fexp (Zdigits2 X + E) = E → m + carry l <= X * 2 ^ (E - e) →
  shr_fexp 53 1024 m e l = (y, e') →
  e <= e' <= E ∧ 0 <= shr_m y ∧ top y <= X * 2 ^ (E - e').
Proof.
  intros Hm HX He HE Hle Hs. apply shr_fexp_spec in Hs as (Ee & Hy & _ & Ht); [|done].
  assert (0 <= carry l) by (destruct l; simpl; lia).
  assert (fexp (Zdigits2 m + e) <= E).
  { rewrite <- HE. apply fexp_mono. pose proof (digits_mono m (X * 2 ^ (E - e)) Hm) as Hd.
    rewrite digits_pow2 in Hd by lia. lia. }
  split_and!; [lia..|]. apply Ht. rewrite <- Z.mul_assoc, <- Z.pow_add_r by lia.
  by replace (E - e' + (e' - e)) with (E - e) by lia.
Qed.

(** *** Rounding *)

Lemma round_below m e l X E :
  0 <= m → 0 < X → e <= E → E <= 971 → fexp (Zdigits2 X + E) = E →
  m + carry l <= X * 2 ^ (E - e) →
  round_aux false m e l = S754_zero false ∨
  ∃ p e', round_aux false m e l = S754_finite false p e' ∧
    e' <= E ∧ Z.pos p <= X * 2 ^ (E - e').
Proof.
  intros Hm HX He H971 HE Hle. unfold binary_round_aux.
  destruct (shr_fexp 53 1024 m e l) as [y e1] eqn:E1.
  apply (shr_below m e l X E) in E1 as (He1 & Hy1 & Ht1); [|done..].
  pose proof (round_between y) as Hr.
  set (M := round_nearest_even _ _) in *. cbv beta iota.
  destruct (shr_fexp 53 1024 M e1 loc_Exact) as [z e2] eqn:E2.
  apply (shr_below M e1 loc_Exact X E) in E2 as (He2 & Hy2 & Ht2); [|simpl; lia..].
  assert (shr_m z <= top z) by (unfold top, inexact; case_match; lia).
  destruct (shr_m z) as [|p|p]; [by left| |lia]. right. exists p, e2.
  rewrite (proj2 (Z.leb_le _ _)) by lia. split_and!; [done|lia..].
Qed.

Lemma round_valid s m e l :
  0 <= m → e <= fexp (Zdigits2 m + e) → valid (round_aux s m e l) = true.
Proof.
  intros Hm He. unfold binary_round_aux.
  destruct (shr_fexp 53 1024 m e l) as [y e1] eqn:E1.
  apply shr_fexp_spec in E1 as (He1 & Hy1 & Ey1 & _); [|done]. rewrite Z.max_r in He1 by done.
  pose proof (round_between y) as Hr.
  set (M := round_nearest_even _ _) in *. cbv beta iota.
  destruct (shr_fexp 53 1024 M e1 loc_Exact) as [z e2] eqn:E2.
  apply shr_fexp_spec in E2 as (He2 & Hy2 & Ey2 & _); [|lia].
  assert (e1 <= fexp (Zdigits2 M + e1)) as Hcan.
  { destruct (Z.eq_dec (shr_m y) 0) as [E0|E0].
    - assert (e1 <= -1074) as H1; [|pose proof (fexp_eq (Zdigits2 M + e1)); lia].
      assert (Zdigits2 m + e <= e1); [|rewrite fexp_eq in He1; lia].
      destruct (decide (m = 0)) as [->|]; [simpl; lia|].
      rewrite Zdigits2_log2 by lia. rewrite E0 in Ey1. symmetry in Ey1.
      apply Z.div_small_iff in Ey1 as [|]; [|lia..].
      assert (Z.log2 m < e1 - e); [|lia]. apply Z.log2_lt_pow2; lia.
    - pose proof (digits_mono (shr_m y) M Hy1 ltac:(lia)) as Hd.
      rewrite Ey1, digits_shifted in Hd by lia.
      rewrite He1 at 1. apply fexp_mono. lia. }
  rewrite Z.max_r in He2 by done.
  destruct (shr_m z) as [|p|p] eqn:Ez; [done| |lia]. destruct (Z.leb_spec e2 (1024 - 53)); [|done].
  simpl. unfold bounded, canonical_mantissa. rewrite (proj2 (Z.leb_le _ _)), andb_true_r by done.
  apply Z.eqb_eq. change (Z.pos (digits2_pos p)) with (Zdigits2 (Z.pos p)).
  rewrite Ey2, digits_shifted by lia. transitivity (fexp (Zdigits2 M + e1)); [f_equal; lia|done].
Qed.

(** ** The order

    Numbers of the format are compared by exponent first. [within m e X E] is the order of
    the values m 2^e <= X 2^E where the exponents are ordered too, as they are for numbers of
    the format. *)

Definition one : spec_float := S754_finite false (2 ^ 52) (-52).

Definition finite (x : spec_float) : bool :=
  match x with S754_zero _ | S754_finite _ _ _ => true | _ => false end.

(** A number of the format, neither negative nor infinite. *)
Definition amount (x : spec_float) : Prop :=
  valid x = true ∧ finite x = true ∧ SFleb (S754_zero false) x = true.

Definition within (m e X E : Z) : Prop := e <= E ∧ m <= X * 2 ^ (E - e).

Lemma amount_cases x :
  amount x → (∃ s, x = S754_zero s) ∨
  ∃ m e, x = S754_finite false m e ∧ bounded 53 1024 m e = true.
Proof. intros (V & F & N). destruct x as [s| | |[] m e]; try done; eauto. Qed.

Lemma bounded_exp m e :
  bounded 53 1024 m e = true → fexp (Zdigits2 (Z.pos m) + e) = e ∧ e <= 971.
Proof.
  unfold bounded, canonical_mantissa. rewrite andb_true_iff, Z.leb_le. intros [H1 H2].
  split; [|lia]. by apply Z.eqb_eq in H1.
Qed.

Lemma below_pow2_digits x : 0 <= x → x < 2 ^ Zdigits2 x.
Proof.
  intros H. destruct (decide (x = 0)) as [->|]; [simpl; lia|]. rewrite Zdigits2_log2 by lia.
  apply Z.log2_spec. lia.
Qed.

Lemma digits_below_pow2 x k : 0 <= k → x < 2 ^ k → Zdigits2 x <= k ∨ x < 0.
Proof.
  intros Hk H. destruct (Z.lt_trichotomy x 0) as [|[->|]]; [by right|left; simpl; lia|].
  left. rewrite Zdigits2_log2 by lia. apply Z.log2_lt_pow2 in H; lia.
Qed.

Lemma leb_within m e X E :
  bounded 53 1024 m e = true → bounded 53 1024 X E = true →
  SFleb (S754_finite false m e) (S754_finite false X E) = true → within (Z.pos m) e (Z.pos X) E.
Proof.
  intros [Hm _]%bounded_exp [HX _]%bounded_exp. unfold SFleb, SFcompare, within.
  destruct (Z.compare_spec e E) as [->|He|]; [..|done]; intros H.
  - rewrite Z.sub_diag, Z.pow_0_r. split; [lia|]. change (Pos.compare_cont Eq m X) with (m ?= X)%positive in H.
    destruct (Pos.compare_spec m X); try done; lia.
  - split; [lia|]. rewrite fexp_eq in Hm, HX.
    pose proof (below_pow2_digits (Z.pos m)) as Bm. rewrite (Zdigits2_log2 (Z.pos X)) in HX by lia.
    pose proof (Z.log2_spec (Z.pos X)) as BX.
    apply Z.le_trans with (2 ^ 52 * 2 ^ 1).
    + apply Z.le_trans with (2 ^ Zdigits2 (Z.pos m)); [lia|]. rewrite <- Z.pow_add_r by lia.
      apply Z.pow_le_mono_r; lia.
    + apply Z.mul_le_mono_nonneg; [lia| |lia|apply Z.pow_le_mono_r; lia].
      replace 52 with (Z.log2 (Z.pos X)) by lia. lia.
Qed.

Lemma within_leb m e X E :
  within (Z.pos m) e (Z.pos X) E → SFleb (S754_finite false m e) (S754_finite false X E) = true.
Proof.
  unfold within, SFleb, SFcompare. intros [He H].
  destruct (Z.compare_spec e E) as [->|He'|]; [|done|lia].
  rewrite Z.sub_diag, Z.pow_0_r, Z.mul_1_r in H.
  change (Pos.compare_cont Eq m X) with (m ?= X)%positive. by destruct (Pos.compare_spec m X); [| |lia].
Qed.

Lemma leb_ltb x y : SFleb x y = true → SFltb y x = false.
Proof.
  unfold SFleb, SFltb. destruct x as [|[]| |[] m e], y as [|[]| |[] n f]; unfold SFcompare; try done;
    rewrite (Z.compare_antisym e); destruct (e ?= f); try done; cbn [CompOpp];
    change (Pos.compare_cont Eq m n) with (m ?= n)%positive;
    change (Pos.compare_cont Eq n m) with (n ?= m)%positive;
    rewrite (Pos.compare_antisym m); by destruct (m ?= n)%positive.
Qed.

Lemma leb_trans x y z :
  amount x → amount y → amount z → SFleb x y = true → SFleb y z = true → SFleb x z = true.
Proof.
  intros [[s ->]|(m & e & -> & Bm)]%amount_cases [[s' ->]|(n & f & -> & Bn)]%amount_cases
    [[s'' ->]|(o & g & -> & Bo)]%amount_cases; try done.
  intros [H1 H2]%leb_within [H3 H4]%leb_within; [|done..]. apply within_leb. split; [lia|].
  replace (g - e) with (g - f + (f - e)) by lia. rewrite Z.pow_add_r, Z.mul_assoc by lia.
  etransitivity; [done|]. apply Z.mul_le_mono_nonneg_r; lia.
Qed.

(** ** Products and quotients *)

Lemma digits_div m n : 0 <= m → 0 < n → Zdigits2 m <= Zdigits2 n + Zdigits2 (m / n).
Proof.
  intros Hm Hn. pose proof (below_pow2_digits n) as Bn.
  pose proof (Z.div_pos m n Hm Hn) as Hq. pose proof (below_pow2_digits (m / n) Hq) as Bq.
  assert (∀ x, 0 <= x → 0 <= Zdigits2 x) as Hd by (intros []; simpl; lia).
  destruct (digits_below_pow2 m (Zdigits2 n + Zdigits2 (m / n))) as [|]; [..|done|lia].
  { pose proof (Hd n). pose proof (Hd (m / n)). lia. }
  rewrite Z.pow_add_r by (apply Hd; lia).
  apply Z.lt_le_trans with (n * (m / n + 1)).
  - pose proof (Z.mul_succ_div_gt m n Hn). lia.
  - apply Z.mul_le_mono_nonneg; lia.
Qed.

Lemma digits_mul m n :
  0 < m → 0 < n → Zdigits2 m + Zdigits2 n - 1 <= Zdigits2 (m * n).
Proof.
  intros Hm Hn. rewrite !Zdigits2_log2 by lia. pose proof (Z.log2_mul_below m n). lia.
Qed.

Lemma bounded_mul m e n f :
  bounded 53 1024 m e = true → bounded 53 1024 n f = true →
  e + f <= fexp (Zdigits2 (Z.pos (m * n)) + (e + f)).
Proof.
  intros [H1 _]%bounded_exp [H2 _]%bounded_exp. rewrite fexp_eq in *.
  pose proof (digits_mul (Z.pos m) (Z.pos n) ltac:(lia) ltac:(lia)) as H.
  rewrite <- Pos2Z.inj_mul in H. revert H1 H2 H. simpl Zdigits2. lia.
Qed.

(** The quotient before it is rounded: its mantissa, exponent and remainder. *)
Lemma div_core m e n f q g l :
  SFdiv_core_binary 53 1024 (Z.pos m) e (Z.pos n) f = (q, g, l) →
  0 <= q ∧ g <= fexp (Zdigits2 q + g) ∧
  g <= fexp (Zdigits2 (Z.pos m) + e - (Zdigits2 (Z.pos n) + f)) ∧
  ∀ k, Z.pos m * 2 ^ (e - f - g) <= Z.pos n * k → q + carry l <= k.
Proof.
  unfold SFdiv_core_binary. set (h := Z.min _ _). set (s := e - f - h).
  assert (0 <= s) as Hs by lia.
  assert (match s with 0 => Z.pos m | Z.pos _ => Z.shiftl (Z.pos m) s | Z.neg _ => 0 end
    = Z.pos m * 2 ^ s) as ->.
  { destruct s as [|s|]; [rewrite Z.pow_0_r; lia|by rewrite Z.shiftl_mul_pow2|lia]. }
  pose proof (Z_div_mod (Z.pos m * 2 ^ s) (Z.pos n)) as D.
  destruct (Z.div_eucl _ _) as [a r] eqn:Ed. destruct D as [D1 D2]; [lia|].
  intros [= <- <- <-]. fold s.
  assert (0 < 2 ^ s) by lia.
  assert (Z.pos m * 2 ^ s / Z.pos n = a) as Ea by (symmetry; apply (Z.div_unique _ _ _ r); lia).
  assert (0 <= a) by (rewrite <- Ea; apply Z.div_pos; lia).
  split_and!; [done| |lia|].
  - transitivity (fexp (Zdigits2 (Z.pos m) + e - (Zdigits2 (Z.pos n) + f))); [lia|].
    apply fexp_mono. pose proof (digits_div (Z.pos m * 2 ^ s) (Z.pos n)) as Hd.
    rewrite Ea, digits_pow2 in Hd by lia. lia.
  - intros k Hk. assert (0 <= r) by lia.
    assert (carry (new_location (Z.pos n) r) = if decide (r = 0) then 0 else 1) as ->.
    { unfold new_location, new_location_even, new_location_odd.
      destruct r; simpl; repeat case_match; simplify_eq; done || lia. }
    case_decide; nia.
Qed.

Lemma amount_one : amount one.
Proof. by split_and!. Qed.

Lemma bounded_one m e :
  bounded 53 1024 m e = true → SFleb (S754_finite false m e) one = true →
  e <= -52 ∧ Z.pos m <= 2 ^ (- e).
Proof.
  intros B H. apply leb_within in H as [He H]; [|done..]. split; [done|].
  change (Z.pos (2 ^ 52)) with (2 ^ 52) in H. rewrite <- Z.pow_add_r in H by lia.
  by replace (52 + (-52 - e)) with (- e) in H by lia.
Qed.

(** What [round_below] gives, as an order between numbers. *)
Lemma rounded_leb m e l X E :
  0 <= m → e <= E → bounded 53 1024 X E = true → m + carry l <= Z.pos X * 2 ^ (E - e) →
  e <= fexp (Zdigits2 m + e) →
  amount (round_aux false m e l) ∧ SFleb (round_aux false m e l) (S754_finite false X E) = true.
Proof.
  intros Hm He [HX1 HX2]%bounded_exp Hle Hv. pose proof (round_valid false m e l Hm Hv) as V.
  destruct (round_below m e l (Z.pos X) E) as [Hz|(p & e' & Hp & H1 & H2)]; [done..| |].
  - by rewrite Hz.
  - rewrite Hp in *. split; [done|]. by apply within_leb.
Qed.

(** Rounding a number that is not negative gives a number that is not negative, if not
    infinity. *)
Lemma round_nonneg m e l :
  0 <= m → e <= fexp (Zdigits2 m + e) →
  amount (round_aux false m e l) ∨ round_aux false m e l = S754_infinity false.
Proof.
  intros Hm He. pose proof (round_valid false m e l Hm He) as V. revert V.
  unfold binary_round_aux. destruct (shr_fexp 53 1024 m e l) as [y e1] eqn:E1.
  apply shr_fexp_spec in E1 as (_ & Hy & _); [|done]. pose proof (round_between y).
  destruct (shr_fexp 53 1024 _ e1 loc_Exact) as [z e2] eqn:E2.
  apply shr_fexp_spec in E2 as (_ & Hz & _); [|lia].
  destruct (shr_m z); [by left| |lia]. case_match; [by left|by right].
Qed.

Lemma mul_comm x y : SFmul 53 1024 x y = SFmul 53 1024 y x.
Proof.
  destruct x, y; simpl; try done; rewrite xorb_comm; [done..|].
  by rewrite Pos.mul_comm, Z.add_comm.
Qed.

(** A factor of at most one does not increase a number. *)
Lemma mul_below x y :
  amount x → amount y → SFleb y one = true →
  amount (SFmul 53 1024 x y) ∧ SFleb (SFmul 53 1024 x y) x = true.
Proof.
  intros [[s ->]|(m & e & -> & Bm)]%amount_cases [[s' ->]|(n & f & -> & Bn)]%amount_cases; [done..|].
  intros [Hf Hn]%bounded_one; [|done]. simpl SFmul. apply rounded_leb; [lia..|done| |].
  - simpl carry. replace (e - (e + f)) with (- f) by lia. nia.
  - by apply bounded_mul.
Qed.

Lemma mul_nonneg x y :
  amount x → amount y → amount (SFmul 53 1024 x y) ∨ SFmul 53 1024 x y = S754_infinity false.
Proof.
  intros [[s ->]|(m & e & -> & Bm)]%amount_cases [[s' ->]|(n & f & -> & Bn)]%amount_cases;
    [by left..|]. apply round_nonneg; [lia|]. by apply bounded_mul.
Qed.

Lemma div_nonneg x y :
  amount x → amount y → SFltb (S754_zero false) y = true →
  amount (SFdiv 53 1024 x y) ∨ SFdiv 53 1024 x y = S754_infinity false.
Proof.
  intros [[s ->]|(m & e & -> & Bm)]%amount_cases [[s' ->]|(n & f & -> & Bn)]%amount_cases Hy;
    [done|by left|done|]. unfold SFdiv. destruct (SFdiv_core_binary _ _ _ _ _ _) as [[q g] l] eqn:D.
  apply div_core in D as (Hq & Hg & _). by apply round_nonneg.
Qed.

(** A quotient by a number that is not smaller does not exceed one. *)
Lemma div_below x y :
  amount x → amount y → SFltb (S754_zero false) y = true → SFleb x y = true →
  amount (SFdiv 53 1024 x y) ∧ SFleb (SFdiv 53 1024 x y) one = true.
Proof.
  intros [[s ->]|(m & e & -> & Bm)]%amount_cases [[s' ->]|(n & f & -> & Bn)]%amount_cases Hy;
    [done|done|done|]. intros [Hef Hmn]%leb_within; [|done..].
  unfold SFdiv. destruct (SFdiv_core_binary _ _ _ _ _ _) as [[q g] l] eqn:D.
  apply div_core in D as (Hq & Hg & Hd & Hk).
  assert (g <= -53) as Hg53.
  { pose proof (digits_mono (Z.pos m) _ ltac:(lia) Hmn) as H. rewrite digits_pow2 in H by lia.
    rewrite (fexp_eq (_ - _)) in Hd. lia. }
  apply rounded_leb; [done|lia|done| |done]. apply Hk.
  change (Z.pos (2 ^ 52)) with (2 ^ 52). rewrite <- Z.pow_add_r by lia.
  replace (52 + (-52 - g)) with (f - e + (e - f - g)) by lia.
  destruct (Z.le_gt_cases 0 (e - f - g)).
  - rewrite Z.pow_add_r, Z.mul_assoc by lia. apply Z.mul_le_mono_nonneg_r; lia.
  - rewrite (Z.pow_neg_r _ (e - f - g)) by lia. lia.
Qed.
