(* ===== verification/Numeric.v ===== *)
(** * Floating-point numbers as an interface

    The OEE and Pareto figures are [f64]. The formulas are written once over the interface
    [Num] of the operations they use, with two instances: [spec_float], the Standard
    Library's executable IEEE-754 binary64 arithmetic, in which the figures can be evaluated
    bit for bit and in which the theorems about OEE are stated ([Rounding] has the lemmas),
    and [Q], for the laws of the Pareto shares that hold of exact numbers. *)

From Stdlib Require Import QArith SpecFloat.
From S2P Require Import Prelude.

Class Num (F : Type) := {
  of_int : Z → F;                (** [n as f64] *)
  of_ratio : Z → positive → F;   (** [NUMERIC::float8]: the value nearest to [n / d] *)
  num_add : F → F → F;
  num_sub : F → F → F;
  num_mul : F → F → F;
  num_div : F → F → F;
  num_lt : F → F → bool          (** [a < b], false when either is NaN *)
}.

Declare Scope num_scope.
Delimit Scope num_scope with num.
Infix "+" := num_add : num_scope.
Infix "-" := num_sub : num_scope.
Infix "*" := num_mul : num_scope.
Infix "/" := num_div : num_scope.
Infix "<?" := num_lt : num_scope.

(** [x.min(1.0)] in Rust and [LEAST(x, 1.0)] in SQL: both give 1 on NaN. *)
Definition min_one `{Num F} (x : F) : F :=
  if (x <? of_int 1)%num then x else of_int 1.

(** IEEE-754 binary64, rounding to nearest even. *)
#[global] Instance num_binary64 : Num spec_float := {
  of_int n := binary_normalize 53 1024 n 0 false;
  of_ratio n d :=
    match n with
    | Z0 => S754_zero false
    | Zpos p => SFdiv 53 1024 (S754_finite false p 0) (S754_finite false d 0)
    | Zneg p => SFdiv 53 1024 (S754_finite true p 0) (S754_finite false d 0)
    end;
  num_add := SFadd 53 1024;
  num_sub := SFsub 53 1024;
  num_mul := SFmul 53 1024;
  num_div := SFdiv 53 1024;
  num_lt := SFltb
}.

(** Exact rationals. *)
#[global] Instance num_Q : Num Q := {
  of_int := inject_Z;
  of_ratio n d := n # d;
  num_add := Qplus;
  num_sub := Qminus;
  num_mul := Qmult;
  num_div := Qdiv;
  num_lt a b := negb (Qle_bool b a)
}.
