(* ===== verification/Oee.v ===== *)
(** * The OEE engine ([crates/mes-core/src/oee.rs])

    Availability x Performance x Quality over any [Num]: the formulas as written, and their
    bounds in binary64, rounding and overflow included. *)

From Stdlib Require Import SpecFloat.
From S2P Require Import Prelude Rounding Numeric.

Section oee.
Context {F : Type} `{!Num F}.

Record OeeInputs := mkOeeInputs {
  planned_production_s : F;
  run_s : F;
  ideal_cycle_s : F;
  total_count : F;
  good_count : F
}.

Record OeeResult := mkOeeResult {
  availability : F;
  performance : F;
  quality : F;
  oee : F
}.

Definition ratio (num den : F) : F :=
  if (of_int 0 <? den)%num then (num / den)%num else of_int 0.

Definition compute (i : OeeInputs) : OeeResult :=
  let availability := ratio (run_s i) (planned_production_s i) in
  let performance := min_one (ratio (ideal_cycle_s i * total_count i)%num (run_s i)) in
  let quality := ratio (good_count i) (total_count i) in
  mkOeeResult availability performance quality (availability * performance * quality)%num.
End oee.
Arguments OeeInputs : clear implicits.
Arguments OeeResult : clear implicits.

(** ** Binary64 lemmas *)

Local Notation "x ≤f y" := (SFleb x y = true) (at level 70).
Local Notation "x <f y" := (SFltb x y = true) (at level 70).
Local Abbreviation zero := (S754_zero false).

(** A number between 0 and 1. *)
Definition fraction (x : spec_float) : Prop := amount x ∧ x ≤f one.

Lemma fraction_zero : fraction zero.
Proof. done. Qed.

Lemma ratio_f64 (n d : spec_float) : ratio n d = if SFltb zero d then SFdiv 53 1024 n d else zero.
Proof. done. Qed.

Lemma ratio_guard (n d : spec_float) : SFltb zero d = false → ratio n d = zero.
Proof. rewrite ratio_f64. by intros ->. Qed.

Lemma ratio_fraction (n d : spec_float) : amount n → amount d → n ≤f d → fraction (ratio n d).
Proof.
  intros Hn Hd H. rewrite ratio_f64. destruct (SFltb zero d) eqn:E; [|apply fraction_zero].
  by apply div_below.
Qed.

(** The capped quotient is a fraction even where the product or the quotient overflows. *)
Lemma min_one_fraction x : amount x ∨ x = S754_infinity false → fraction (min_one x).
Proof.
  intros H. unfold min_one. change (of_int 1) with one. destruct (num_lt x one) eqn:E; [|done].
  change (num_lt x one) with (SFltb x one) in E. destruct H as [H| ->]; [|done].
  split; [done|]. unfold SFltb in E. unfold SFleb. by destruct (SFcompare x one) as [[]|].
Qed.

Lemma min_one_cap x : one ≤f x → min_one x = one.
Proof.
  intros H. unfold min_one. change (of_int 1) with one. change (num_lt x one) with (SFltb x one).
  by rewrite leb_ltb.
Qed.

Lemma capped_fraction (n d : spec_float) :
  amount n ∨ n = S754_infinity false → amount d → fraction (min_one (ratio n d)).
Proof.
  intros Hn Hd. apply min_one_fraction. rewrite ratio_f64.
  destruct (SFltb zero d) eqn:E; [|by left]. destruct Hn as [Hn| ->].
  - by apply div_nonneg.
  - right. destruct Hd as (_ & Hf & _). by destruct d as [| | |[]].
Qed.

Lemma fraction_mul x y :
  fraction x → fraction y →
  fraction (SFmul 53 1024 x y) ∧ SFmul 53 1024 x y ≤f x ∧ SFmul 53 1024 x y ≤f y.
Proof.
  intros [Hx Hx1] [Hy Hy1]. destruct (mul_below x y Hx Hy Hy1) as [H Hle].
  split_and!; [split; [done|]|done|].
  - by apply (leb_trans _ x); [| |apply amount_one| |].
  - rewrite mul_comm. by apply mul_below.
Qed.

(** ** Properties *)

(** C40. In the program's own arithmetic, IEEE-754 binary64: on physically consistent inputs
    (numbers that are neither negative, infinite nor NaN, running no longer than the planned
    production time, good pieces among the total) every OEE factor and the OEE itself are
    numbers between 0 and 1, never NaN or an infinity even where the intermediate product
    overflows, and the rounded OEE exceeds none of its factors. A factor whose denominator is
    not positive is exactly 0, and so is the OEE then; the performance factor is exactly 1
    where the pieces made at the ideal cycle would have taken longer than the run. *)
Theorem oee_bounds (i : OeeInputs spec_float) :
  amount (planned_production_s i) → amount (run_s i) → amount (ideal_cycle_s i) →
  amount (total_count i) → amount (good_count i) →
  run_s i ≤f planned_production_s i → good_count i ≤f total_count i →
  let r := compute i in
  fraction (availability r) ∧ fraction (performance r) ∧ fraction (quality r) ∧
  fraction (oee r) ∧
  oee r ≤f availability r ∧ oee r ≤f performance r ∧ oee r ≤f quality r ∧
  (SFltb zero (planned_production_s i) = false → availability r = zero) ∧
  (SFltb zero (run_s i) = false → performance r = zero) ∧
  (SFltb zero (total_count i) = false → quality r = zero) ∧
  (availability r = zero ∨ performance r = zero ∨ quality r = zero → oee r ≤f zero) ∧
  (zero <f run_s i →
     one ≤f num_div (num_mul (ideal_cycle_s i) (total_count i)) (run_s i) →
     performance r = one).
Proof.
  intros HP HR HI HT HG HRP HGT r.
  assert (fraction (availability r)) as FA by by apply ratio_fraction.
  assert (fraction (quality r)) as FQ by by apply ratio_fraction.
  assert (fraction (performance r)) as FP by by apply capped_fraction; [apply mul_nonneg|].
  destruct (fraction_mul _ _ FA FP) as (FAP & HA & HPf).
  destruct (fraction_mul _ _ FAP FQ) as (FO & HO & HQ).
  change (SFmul 53 1024 (SFmul 53 1024 (availability r) (performance r)) (quality r))
    with (oee r) in *.
  assert (oee r ≤f availability r) as LA by (by apply (leb_trans _ _ _ (proj1 FO) (proj1 FAP)); [apply FA| |]).
  assert (oee r ≤f performance r) as LP by (by apply (leb_trans _ _ _ (proj1 FO) (proj1 FAP)); [apply FP| |]).
  split_and!; try done; try apply ratio_guard.
  - intros H. subst r. simpl. by rewrite ratio_guard.
  - intros [E|[E|E]]; by rewrite <- E at 1.
  - intros H1 H2. subst r. cbn [performance compute]. rewrite ratio_f64, H1. apply min_one_cap, H2.
Qed.

(** The golden day of the module's tests, in binary64: within 1e-9 of 0.8, 0.75, 0.9 and
    0.54. *)
Definition golden_f64 : OeeInputs spec_float :=
  mkOeeInputs (of_int 27000) (of_int 21600) (of_int 20) (of_int 810) (of_int 729).

Definition close_f64 (x : spec_float) (num den : Z) : bool :=
  let target := num_div (of_int num) (of_int den) in
  let eps := num_div (of_int 1) (of_int 1000000000) in
  num_lt (SFabs (num_sub x target)) eps.

Example golden_day_f64 :
  let r := compute golden_f64 in
  close_f64 (availability r) 4 5 && close_f64 (performance r) 3 4 &&
  close_f64 (quality r) 9 10 && close_f64 (oee r) 54 100 = true.
Proof. vm_compute. reflexivity. Qed.

Lemma oee_bounds_witness :
  fraction (oee (compute golden_f64)) ∧
  quality (compute (mkOeeInputs (of_int 0) (of_int 0) (of_int 20) (of_int 0) (of_int 0))) = zero.
Proof.
  split.
  - refine (proj1 (proj2 (proj2 (proj2 (oee_bounds golden_f64 _ _ _ _ _ _ _))))); by vm_compute.
  - refine (proj1 (proj2 (proj2 (proj2 (proj2 (proj2 (proj2 (proj2 (proj2 (proj2
      (oee_bounds _ _ _ _ _ _ _ _)))))))))) _); by vm_compute.
Defined.
