(* ===== verification/Analytics.v ===== *)
(** * The Pareto engine ([crates/mes-core/src/analytics.rs])

    Ranking, share and running cumulative share of downtime categories. *)

From Stdlib Require Import QArith SpecFloat Lqa.
From S2P Require Import Prelude Numeric.
Open Scope Z_scope.

(** [i64] addition in a release build wraps around. *)
Definition wrap_i64 (n : Z) : Z := (n + 2 ^ 63) mod 2 ^ 64 - 2 ^ 63.

Record ParetoInput := mkParetoInput {
  pi_key : string;
  pi_label : string;
  pi_seconds : Z
}.

Section pareto.
Context {F : Type} `{!Num F}.

Record ParetoRow := mkParetoRow {
  pr_key : string;
  pr_label : string;
  pr_seconds : Z;
  pct : F;
  cumulative_pct : F
}.

(** [b.seconds.cmp(&a.seconds).then_with(|| a.key.cmp(&b.key))] is not [Greater]. *)
Definition pareto_le (a b : ParetoInput) : bool :=
  if pi_seconds b <? pi_seconds a then true
  else if pi_seconds a <? pi_seconds b then false
  else bool_decide (String.le (pi_key a) (pi_key b)).

Definition share (part total : Z) : F := (of_int part * of_int 100 / of_int total)%num.

Fixpoint pareto_rows (total running : Z) (l : list ParetoInput) : list ParetoRow :=
  match l with
  | [] => []
  | i :: l' =>
      let running := wrap_i64 (running + pi_seconds i) in
      {| pct := share (pi_seconds i) total;
         cumulative_pct := share running total;
         pr_key := pi_key i;
         pr_label := pi_label i;
         pr_seconds := pi_seconds i |} :: pareto_rows total running l'
  end.

Definition pareto (inputs : list ParetoInput) : list ParetoRow :=
  let inputs := sort_by pareto_le (select (λ i, 0 <? pi_seconds i) inputs) in
  let total := foldl (λ acc i, wrap_i64 (acc + pi_seconds i)) 0 inputs in
  if total =? 0 then [] else pareto_rows total 0 inputs.
End pareto.
Arguments ParetoRow : clear implicits.

(** ** Lemmas *)

Lemma wrap_i64_id n : - 2 ^ 63 <= n < 2 ^ 63 → wrap_i64 n = n.
Proof. intros H. unfold wrap_i64. rewrite Z.mod_small by lia. lia. Qed.

Lemma pareto_le_total a b : pareto_le a b = false → pareto_le b a = true.
Proof.
  unfold pareto_le. intros H. repeat case_match; bool_to_prop; try lia; try done.
  apply bool_decide_eq_true. destruct (total String.le (pi_key a) (pi_key b)); done.
Qed.

Lemma pareto_le_trans a b c :
  pareto_le a b = true → pareto_le b c = true → pareto_le a c = true.
Proof.
  unfold pareto_le. intros H1 H2. repeat case_match; bool_to_prop; try lia; try done.
  apply bool_decide_eq_true. by etrans.
Qed.

(** The input a row was made from. *)
Definition row_input {F} (r : ParetoRow F) : ParetoInput :=
  mkParetoInput (pr_key r) (pr_label r) (pr_seconds r).

Lemma pareto_rows_inputs {F} `{!Num F} total running l :
  map row_input (pareto_rows total running l) = l.
Proof.
  revert running. induction l as [|[] l IH]; intros running; simpl; [done|]. by rewrite IH.
Qed.

Definition total_seconds (l : list ParetoInput) : Z := sum_rows pi_seconds l.

Lemma fold_total l acc :
  (∀ i, i ∈ l → 0 < pi_seconds i) → 0 <= acc → acc + total_seconds l < 2 ^ 63 →
  foldl (λ acc i, wrap_i64 (acc + pi_seconds i)) acc l = acc + total_seconds l.
Proof.
  revert acc. unfold total_seconds. induction l as [|i l IH]; simpl; intros acc Hpos Hacc Hb;
    [lia|].
  assert (0 < pi_seconds i) by (apply Hpos; left).
  assert (∀ j, j ∈ l → 0 < pi_seconds j) as Hl by (intros j Hj; apply Hpos; by right).
  assert (0 <= sum_rows pi_seconds l).
  { apply sum_rows_nonneg. intros j Hj. specialize (Hl j Hj). lia. }
  rewrite wrap_i64_id by lia. rewrite IH; [lia|done|lia|lia].
Qed.

Lemma pareto_rows_lookup {F} `{!Num F} total running l n r :
  (∀ i, i ∈ l → 0 < pi_seconds i) → 0 <= running → running + total_seconds l < 2 ^ 63 →
  pareto_rows total running l !! n = Some r →
  pct r = share (pr_seconds r) total ∧
  cumulative_pct r = share (running + total_seconds (take (S n) l)) total.
Proof.
  revert running n. unfold total_seconds.
  induction l as [|i l IH]; simpl; intros running n Hpos Hr Hb; [done|].
  assert (0 < pi_seconds i) by (apply Hpos; left).
  assert (∀ j, j ∈ l → 0 < pi_seconds j) as Hl by (intros j Hj; apply Hpos; by right).
  assert (0 <= sum_rows pi_seconds l).
  { apply sum_rows_nonneg. intros j Hj. specialize (Hl j Hj). lia. }
  destruct n as [|n]; simpl.
  - intros [= <-]. simpl. rewrite wrap_i64_id by lia.
    split; [done|]. f_equal. lia.
  - rewrite wrap_i64_id by lia. intros H'. apply IH in H' as [-> ->]; [|done|lia|lia].
    split; [done|]. f_equal. lia.
Qed.

Lemma sum_rows_take_bounds (l : list ParetoInput) n :
  (∀ i, i ∈ l → 0 < pi_seconds i) → 0 <= total_seconds (take n l) <= total_seconds l.
Proof.
  intros Hpos. unfold total_seconds.
  assert (∀ k, (∀ i, i ∈ k → i ∈ l) → 0 <= sum_rows pi_seconds k) as Hnn.
  { intros k Hk. apply sum_rows_nonneg. intros i Hi. specialize (Hpos i (Hk i Hi)). lia. }
  assert (sum_rows pi_seconds l = sum_rows pi_seconds (take n l ++ drop n l)) as ->.
  { by rewrite take_drop. }
  rewrite sum_rows_app. split.
  - apply Hnn. intros i. apply subseteq_take.
  - assert (0 <= sum_rows pi_seconds (drop n l)); [|lia].
    apply Hnn. intros i. apply subseteq_drop.
Qed.

Lemma share_total n : 0 < n → (share (F := Q) n n == 100)%Q.
Proof.
  intros Hn. unfold share. simpl. rewrite Qmult_comm. apply Qdiv_mult_l.
  intros H0. unfold Qeq in H0. simpl in H0. lia.
Qed.

(** ** Properties *)

(** The Pareto chart ranks exactly the categories with a positive duration, longest
    first and by key among equals; the share of a row is its duration over the total, the
    cumulative share that of all the rows up to it, and the last row's cumulative share is
    exactly 100 percent (exact arithmetic, for totals an [i64] can hold). *)
Theorem pareto_correct (inputs : list ParetoInput) :
  let positive := select (λ i, 0 <? pi_seconds i) inputs in
  let rows := pareto (F := Q) inputs in
  total_seconds positive < 2 ^ 63 →
  map row_input rows ≡ₚ positive ∧
  StronglySorted (λ a b, pareto_le a b = true) (map row_input rows) ∧
  (∀ n r, rows !! n = Some r →
     pct r = share (pr_seconds r) (total_seconds positive) ∧
     cumulative_pct r =
       share (total_seconds (take (S n) (map row_input rows))) (total_seconds positive)) ∧
  (∀ r, list.last rows = Some r → (cumulative_pct r == 100)%Q).
Proof.
  intros positive rows Hb.
  set (sorted := sort_by pareto_le positive).
  assert (sorted ≡ₚ positive) as Hperm by apply sort_by_perm.
  assert (∀ i, i ∈ sorted → 0 < pi_seconds i) as Hpos.
  { intros i. rewrite Hperm. unfold positive. rewrite elem_of_select, Z.ltb_lt. tauto. }
  assert (total_seconds sorted = total_seconds positive) as Htot.
  { by apply sum_rows_perm. }
  assert (foldl (λ acc i, wrap_i64 (acc + pi_seconds i)) 0 sorted
          = total_seconds positive) as Hfold.
  { rewrite fold_total by (done || lia). lia. }
  assert (rows = pareto_rows (total_seconds positive) 0 sorted) as Hrows.
  { unfold rows, pareto. fold positive sorted. rewrite Hfold.
    case_match eqn:E; [|done]. bool_to_prop.
    destruct sorted as [|i l] eqn:Es; [done|].
    pose proof (sum_rows_take_bounds _ 1 Hpos) as Hs. rewrite Htot, E in Hs.
    specialize (Hpos i ltac:(left)). unfold total_seconds in Hs. simpl in Hs. lia. }
  assert (map row_input rows = sorted) as Hin by (rewrite Hrows; apply pareto_rows_inputs).
  assert (∀ n r, rows !! n = Some r →
     pct r = share (pr_seconds r) (total_seconds positive) ∧
     cumulative_pct r =
       share (total_seconds (take (S n) (map row_input rows))) (total_seconds positive))
    as Hshare.
  { intros n r. rewrite Hin, Hrows. intros Hr.
    apply pareto_rows_lookup in Hr; [exact Hr|done|lia|lia]. }
  split; [by rewrite Hin|]. split.
  { rewrite Hin. apply sort_by_sorted; [apply pareto_le_total|apply pareto_le_trans]. }
  split; [exact Hshare|]. intros r. rewrite last_lookup. intros Hr. pose proof (lookup_lt_Some _ _ _ Hr) as Hlt.
  apply Hshare in Hr as [_ ->]. rewrite Hin.
  assert (length rows = length sorted) as Hlen by (by rewrite <- Hin, length_map).
  rewrite take_ge by (rewrite <- Hlen; lia). rewrite Htot.
  assert (0 < total_seconds positive) as Hp.
  { rewrite <- Htot. destruct sorted as [|i l]; [simpl in *; lia|].
    pose proof (sum_rows_take_bounds _ 1 Hpos) as Hs. specialize (Hpos i ltac:(left)).
    unfold total_seconds in *. simpl in *. lia. }
  by apply share_total.
Qed.

Definition losses : list ParetoInput :=
  [mkParetoInput "b" "Setup" 30; mkParetoInput "a" "Breakdown" 50;
   mkParetoInput "z" "None" 0; mkParetoInput "c" "Tooling" 20].

Lemma pareto_correct_witness :
  map row_input (pareto (F := Q) losses)
    ≡ₚ select (λ i, 0 <? pi_seconds i) losses ∧
  map pr_key (pareto (F := Q) losses) = ["a"; "b"; "c"]%string.
Proof.
  split; [|vm_compute; reflexivity].
  refine (proj1 (pareto_correct losses _)). vm_compute. reflexivity.
Defined.
