(* ===== verification/Schema.v ===== *)
(** * The database and the world a request runs in

    The relational schema of [crates/mes-db/migrations]: a row type per table with the
    columns the repositories read or write, the tables as an enumeration, the uniqueness
    and foreign-key constraints of each, and the state shared by the handlers: database,
    clock, identifier source, event bus, daemon connection. Columns of timestamps that no
    code reads back are left out, and so are the tables no code touches ([boms]). *)

From Stdlib Require Import SpecFloat FunctionalExtensionality.
From S2P Require Import Prelude.

(** ** Values *)

(** [serde_json::Value]. Decimals and instants keep their type instead of their textual
    form. A number is an integer of 64 bits or a float. *)
Inductive Json :=
  | JNull
  | JBool (b : bool)
  | JInt (n : Z)
  | JFloat (x : spec_float)      (** a number with a fraction or an exponent *)
  | JDecimal (d : Decimal)
  | JTime (t : DateTime)
  | JStr (s : string)
  | JArr (l : list Json)
  | JObj (fields : list (string * Json)).

(** [Option<T>] serialises to null or to the value. *)
Definition JOpt {A} (f : A → Json) (o : option A) : Json :=
  match o with Some a => f a | None => JNull end.

(** Induction on values, through arrays and objects. *)
Section json_induction.
Context (P : Json → Prop).
Hypothesis (Hnull : P JNull) (Hbool : ∀ b, P (JBool b)) (Hint : ∀ n, P (JInt n))
  (Hfloat : ∀ x, P (JFloat x))
  (Hdec : ∀ d, P (JDecimal d)) (Htime : ∀ t, P (JTime t)) (Hstr : ∀ s, P (JStr s))
  (Harr : ∀ l, Forall P l → P (JArr l))
  (Hobj : ∀ fields, Forall (λ f, P f.2) fields → P (JObj fields)).

Fixpoint json_induction (v : Json) : P v :=
  match v with
  | JNull => Hnull
  | JBool b => Hbool b
  | JInt n => Hint n
  | JFloat x => Hfloat x
  | JDecimal d => Hdec d
  | JTime t => Htime t
  | JStr s => Hstr s
  | JArr l => Harr l ((fix go l : Forall P l :=
      match l with
      | [] => Forall_nil_2 P
      | x :: l' => Forall_cons_2 P x l' (json_induction x) (go l')
      end) l)
  | JObj fields => Hobj fields ((fix go l : Forall (λ f, P f.2) l :=
      match l with
      | [] => Forall_nil_2 _
      | f :: l' => Forall_cons_2 _ f l' (json_induction f.2) (go l')
      end) fields)
  end.
End json_induction.

(** ** Rows *)

Record RoleRow := mkRoleRow {
  rl_code : string; rl_label : string
}.

Record UserRow := mkUserRow {
  us_id : string; us_username : string; us_display_name : string; us_role_code : string;
  us_password_hash : option string; us_pin_hash : option string;
  us_badge_id : option string; us_active : bool; us_created_at : DateTime;
  us_updated_at : DateTime
}.

Record AuditRow := mkAuditRow {
  au_id : string; au_actor_id : option string; au_action : string; au_entity : string;
  au_entity_id : option string; au_detail : option Json; au_created_at : DateTime
}.

Record SiteRow := mkSiteRow {
  si_id : string; si_code : string; si_name : string; si_timezone : string;
  si_created_at : DateTime; si_updated_at : DateTime
}.

Record AreaRow := mkAreaRow {
  ar_id : string; ar_site_id : string; ar_code : string; ar_name : string;
  ar_created_at : DateTime; ar_updated_at : DateTime
}.

Record WorkCenterRow := mkWorkCenterRow {
  wc_id : string; wc_area_id : string; wc_code : string; wc_name : string;
  wc_external_ref : option string; wc_ideal_cycle_seconds : option Decimal;
  wc_created_at : DateTime; wc_updated_at : DateTime
}.

Record ShiftRow := mkShiftRow {
  sh_id : string; sh_site_id : string; sh_name : string; sh_start_time : Duration;
  sh_end_time : Duration
}.

Record PlannedStopRow := mkPlannedStopRow {
  ps_id : string; ps_work_center_id : string; ps_reason : string; ps_starts_at : DateTime;
  ps_ends_at : DateTime
}.

Record PartRow := mkPartRow {
  pt_id : string; pt_code : string; pt_name : string; pt_uom : string;
  pt_created_at : DateTime; pt_updated_at : DateTime
}.

Record RoutingRow := mkRoutingRow {
  rt_id : string; rt_part_id : string; rt_version : string; rt_active : bool
}.

Record RoutingOpRow := mkRoutingOpRow {
  ro_id : string; ro_routing_id : string; ro_op_no : Z; ro_name : string;
  ro_work_center_id : option string
}.

Record ProgramRow := mkProgramRow {
  pg_id : string; pg_routing_op_id : option string; pg_part_id : option string;
  pg_program_identifier : string; pg_target_machine : option string;
  pg_created_at : DateTime; pg_updated_at : DateTime
}.

Record SignalSourceRow := mkSignalSourceRow {
  ss_id : string; ss_work_center_id : string; ss_source_key : string; ss_kind : string;
  ss_enabled : bool
}.

Record MachineEventRow := mkMachineEventRow {
  me_id : string; me_ts : DateTime; me_work_center_id : string;
  me_source_id : option string; me_event_type : string; me_payload : option Json
}.

Record ProductionCountRow := mkProductionCountRow {
  pc_id : string; pc_ts : DateTime; pc_work_center_id : string;
  pc_source_id : option string; pc_good : Z; pc_scrap : Z;
  pc_wo_operation_id : option string; pc_scrap_reason_id : option string
}.

Record MachineStateRow := mkMachineStateRow {
  ms_id : string; ms_work_center_id : string; ms_state : string; ms_start_ts : DateTime;
  ms_end_ts : DateTime
}.

Record DowntimeReasonRow := mkDowntimeReasonRow {
  dr_id : string; dr_code : string; dr_label : string; dr_parent_id : option string;
  dr_six_big_loss : option string
}.

Record ScrapReasonRow := mkScrapReasonRow {
  sr_id : string; sr_code : string; sr_label : string; sr_six_big_loss : option string
}.

Record DowntimeRow := mkDowntimeRow {
  de_id : string; de_work_center_id : string; de_state : string; de_start_ts : DateTime;
  de_end_ts : DateTime; de_reason_id : option string; de_classified_by : option string;
  de_classified_at : option DateTime
}.

Record WorkOrderRow := mkWorkOrderRow {
  wo_id : string; wo_wo_number : string; wo_part_id : string;
  wo_routing_id : option string; wo_qty_ordered : Decimal; wo_priority : Z;
  wo_status : string; wo_planned_start : option DateTime; wo_planned_end : option DateTime;
  wo_created_at : DateTime; wo_updated_at : DateTime; wo_plant_id : option string
}.

Record WoOperationRow := mkWoOperationRow {
  op_id : string; op_work_order_id : string; op_routing_op_id : option string;
  op_op_no : Z; op_work_center_id : option string; op_status : string; op_qty_good : Z;
  op_qty_scrap : Z; op_started_at : option DateTime; op_completed_at : option DateTime;
  op_created_at : DateTime; op_updated_at : DateTime
}.

Record TransferRow := mkTransferRow {
  tr_id : string; tr_wo_operation_id : option string; tr_program_id : string;
  tr_direction : string; tr_status : string; tr_dnc_daemon_ref : option string;
  tr_triggered_at : DateTime; tr_completed_at : option DateTime; tr_created_at : DateTime;
  tr_updated_at : DateTime
}.

Record RevisionRow := mkRevisionRow {
  rv_id : string; rv_program_id : string; rv_revision_no : Z; rv_source : string;
  rv_content_ref : option string; rv_status : string; rv_submitted_by : option string;
  rv_submitted_at : DateTime; rv_promoted_by : option string;
  rv_promoted_at : option DateTime; rv_created_at : DateTime; rv_updated_at : DateTime
}.

Record LotRow := mkLotRow {
  lt_id : string; lt_lot_no : string; lt_part_id : string; lt_qty : Decimal;
  lt_uom : string; lt_created_at : DateTime; lt_updated_at : DateTime
}.

Record SerialRow := mkSerialRow {
  sl_id : string; sl_serial_no : string; sl_part_id : string; sl_lot_id : option string;
  sl_created_at : DateTime; sl_updated_at : DateTime
}.

Record GenealogyRow := mkGenealogyRow {
  gn_id : string; gn_parent_type : string; gn_parent_id : string; gn_child_type : string;
  gn_child_id : string; gn_qty : option Decimal; gn_created_at : DateTime
}.

Record MaterialTxnRow := mkMaterialTxnRow {
  mt_id : string; mt_lot_id : option string; mt_serial_id : option string;
  mt_txn_type : string; mt_qty : Decimal; mt_wo_operation_id : option string;
  mt_ts : DateTime; mt_user_id : option string
}.

Record HoldRow := mkHoldRow {
  hd_id : string; hd_entity_type : string; hd_entity_id : string;
  hd_reason : option string; hd_status : string; hd_created_by : option string;
  hd_released_by : option string; hd_created_at : DateTime;
  hd_released_at : option DateTime; hd_ncr_id : option string
}.

Record PlanRow := mkPlanRow {
  pl_id : string; pl_part_id : string; pl_code : string; pl_name : string;
  pl_created_at : DateTime; pl_updated_at : DateTime
}.

Record CharRow := mkCharRow {
  ch_id : string; ch_plan_id : string; ch_name : string; ch_uom : option string;
  ch_nominal : option Decimal; ch_lower_limit : option Decimal;
  ch_upper_limit : option Decimal
}.

Record ResultRow := mkResultRow {
  rs_id : string; rs_characteristic_id : string; rs_lot_id : option string;
  rs_serial_id : option string; rs_wo_operation_id : option string;
  rs_measured_value : Decimal; rs_result : string; rs_inspected_by : option string;
  rs_created_at : DateTime
}.

Record NcrRow := mkNcrRow {
  nc_id : string; nc_ncr_no : string; nc_inspection_result_id : option string;
  nc_lot_id : option string; nc_serial_id : option string; nc_part_id : option string;
  nc_status : string; nc_disposition : option string; nc_reason : option string;
  nc_dispositioned_by : option string; nc_dispositioned_at : option DateTime;
  nc_created_at : DateTime; nc_updated_at : DateTime
}.

Record PmRow := mkPmRow {
  pm_id : string; pm_work_center_id : string; pm_name : string; pm_trigger_type : string;
  pm_interval_value : Decimal; pm_last_done_at : option DateTime;
  pm_next_due_at : option DateTime; pm_last_done_usage_h : option Decimal;
  pm_next_due_usage_h : option Decimal; pm_checklist_ref : option string;
  pm_enabled : bool; pm_created_at : DateTime; pm_updated_at : DateTime
}.

Record MwoRow := mkMwoRow {
  mw_id : string; mw_work_center_id : string; mw_pm_schedule_id : option string;
  mw_wo_type : string; mw_status : string; mw_technician_id : option string;
  mw_failure_code : option string; mw_notes : option string; mw_opened_at : DateTime;
  mw_scheduled_at : option DateTime; mw_started_at : option DateTime;
  mw_closed_at : option DateTime; mw_verified_at : option DateTime;
  mw_created_at : DateTime; mw_updated_at : DateTime
}.

Record SpareRow := mkSpareRow {
  sp_id : string; sp_code : string; sp_name : string; sp_uom : string;
  sp_reorder_point : Decimal; sp_reorder_qty : Decimal
}.

Record SpareTxnRow := mkSpareTxnRow {
  st_id : string; st_spare_part_id : string; st_maintenance_wo_id : option string;
  st_txn_type : string; st_qty : Decimal; st_ts : DateTime; st_user_id : option string
}.

Record ProcRow := mkProcRow {
  pr_id : string; pr_spare_part_id : string; pr_qty_requested : Decimal;
  pr_reason : string; pr_status : string; pr_erp_reference : option string;
  pr_pushed_at : option DateTime; pr_created_at : DateTime; pr_updated_at : DateTime
}.

Record OutboxRow := mkOutboxRow {
  ob_id : string; ob_aggregate : string; ob_entity_id : string; ob_op : string;
  ob_payload : Json; ob_destination : option string; ob_created_at : DateTime;
  ob_synced_at : option DateTime
}.

Record AppliedRow := mkAppliedRow {
  ap_id : string; ap_applied_at : DateTime
}.

Record OrgRow := mkOrgRow {
  og_id : string; og_code : string; og_name : string; og_created_at : DateTime;
  og_updated_at : DateTime
}.

Record PlantRow := mkPlantRow {
  pn_id : string; pn_org_id : string; pn_code : string; pn_name : string;
  pn_enrollment_token_hash : option string; pn_enrolled_at : option DateTime;
  pn_last_sync_at : option DateTime; pn_created_at : DateTime; pn_updated_at : DateTime
}.


Record ErpConnRow := mkErpConnRow {
  ec_id : string; ec_site_id : option string; ec_name : string; ec_endpoint_url : string;
  ec_auth_token_enc : option string; ec_field_mapping : Json; ec_direction : string;
  ec_enabled : bool; ec_created_at : DateTime; ec_updated_at : DateTime
}.

Record ErpLogRow := mkErpLogRow {
  el_id : string; el_connection_id : option string; el_direction : string;
  el_entity : string; el_record_count : Z; el_status : string; el_detail : option string;
  el_ts : DateTime
}.

Record CopilotRow := mkCopilotRow {
  cm_id : string; cm_org_id : option string; cm_role : string; cm_content : string;
  cm_tool_calls : option Json; cm_ts : DateTime
}.

#[global] Instance eta_WorkCenterRow : Eta WorkCenterRow := λ r,
  mkWorkCenterRow (wc_id r) (wc_area_id r) (wc_code r) (wc_name r) (wc_external_ref r)
    (wc_ideal_cycle_seconds r) (wc_created_at r) (wc_updated_at r).

#[global] Instance eta_DowntimeRow : Eta DowntimeRow := λ r,
  mkDowntimeRow (de_id r) (de_work_center_id r) (de_state r) (de_start_ts r) (de_end_ts r)
    (de_reason_id r) (de_classified_by r) (de_classified_at r).

#[global] Instance eta_WorkOrderRow : Eta WorkOrderRow := λ r,
  mkWorkOrderRow (wo_id r) (wo_wo_number r) (wo_part_id r) (wo_routing_id r)
    (wo_qty_ordered r) (wo_priority r) (wo_status r) (wo_planned_start r)
    (wo_planned_end r) (wo_created_at r) (wo_updated_at r) (wo_plant_id r).

#[global] Instance eta_WoOperationRow : Eta WoOperationRow := λ r,
  mkWoOperationRow (op_id r) (op_work_order_id r) (op_routing_op_id r) (op_op_no r)
    (op_work_center_id r) (op_status r) (op_qty_good r) (op_qty_scrap r) (op_started_at r)
    (op_completed_at r) (op_created_at r) (op_updated_at r).

#[global] Instance eta_TransferRow : Eta TransferRow := λ r,
  mkTransferRow (tr_id r) (tr_wo_operation_id r) (tr_program_id r) (tr_direction r)
    (tr_status r) (tr_dnc_daemon_ref r) (tr_triggered_at r) (tr_completed_at r)
    (tr_created_at r) (tr_updated_at r).

#[global] Instance eta_RevisionRow : Eta RevisionRow := λ r,
  mkRevisionRow (rv_id r) (rv_program_id r) (rv_revision_no r) (rv_source r)
    (rv_content_ref r) (rv_status r) (rv_submitted_by r) (rv_submitted_at r)
    (rv_promoted_by r) (rv_promoted_at r) (rv_created_at r) (rv_updated_at r).

#[global] Instance eta_HoldRow : Eta HoldRow := λ r,
  mkHoldRow (hd_id r) (hd_entity_type r) (hd_entity_id r) (hd_reason r) (hd_status r)
    (hd_created_by r) (hd_released_by r) (hd_created_at r) (hd_released_at r) (hd_ncr_id r).

#[global] Instance eta_NcrRow : Eta NcrRow := λ r,
  mkNcrRow (nc_id r) (nc_ncr_no r) (nc_inspection_result_id r) (nc_lot_id r)
    (nc_serial_id r) (nc_part_id r) (nc_status r) (nc_disposition r) (nc_reason r)
    (nc_dispositioned_by r) (nc_dispositioned_at r) (nc_created_at r) (nc_updated_at r).

#[global] Instance eta_MwoRow : Eta MwoRow := λ r,
  mkMwoRow (mw_id r) (mw_work_center_id r) (mw_pm_schedule_id r) (mw_wo_type r)
    (mw_status r) (mw_technician_id r) (mw_failure_code r) (mw_notes r) (mw_opened_at r)
    (mw_scheduled_at r) (mw_started_at r) (mw_closed_at r) (mw_verified_at r)
    (mw_created_at r) (mw_updated_at r).

#[global] Instance eta_OutboxRow : Eta OutboxRow := λ r,
  mkOutboxRow (ob_id r) (ob_aggregate r) (ob_entity_id r) (ob_op r) (ob_payload r)
    (ob_destination r) (ob_created_at r) (ob_synced_at r).

#[global] Instance eta_PlantRow : Eta PlantRow := λ r,
  mkPlantRow (pn_id r) (pn_org_id r) (pn_code r) (pn_name r) (pn_enrollment_token_hash r)
    (pn_enrolled_at r) (pn_last_sync_at r) (pn_created_at r) (pn_updated_at r).

#[global] Instance eta_SiteRow : Eta SiteRow := λ r,
  mkSiteRow (si_id r) (si_code r) (si_name r) (si_timezone r) (si_created_at r)
    (si_updated_at r).

#[global] Instance eta_AreaRow : Eta AreaRow := λ r,
  mkAreaRow (ar_id r) (ar_site_id r) (ar_code r) (ar_name r) (ar_created_at r)
    (ar_updated_at r).

#[global] Instance eta_PartRow : Eta PartRow := λ r,
  mkPartRow (pt_id r) (pt_code r) (pt_name r) (pt_uom r) (pt_created_at r)
    (pt_updated_at r).

#[global] Instance eta_ErpConnRow : Eta ErpConnRow := λ r,
  mkErpConnRow (ec_id r) (ec_site_id r) (ec_name r) (ec_endpoint_url r)
    (ec_auth_token_enc r) (ec_field_mapping r) (ec_direction r) (ec_enabled r)
    (ec_created_at r) (ec_updated_at r).

#[global] Instance eta_ProcRow : Eta ProcRow := λ r,
  mkProcRow (pr_id r) (pr_spare_part_id r) (pr_qty_requested r) (pr_reason r) (pr_status r)
    (pr_erp_reference r) (pr_pushed_at r) (pr_created_at r) (pr_updated_at r).

(** ** Tables

    A database gives every table its rows, in storage order. *)

Inductive table :=
  | Roles | Users | Audit_log | Sites | Areas | Work_centers | Shifts | Planned_stops
  | Parts | Routings | Routing_ops | Programs | Signal_sources | Machine_events
  | Production_counts | Machine_states | Downtime_reasons | Scrap_reasons
  | Downtime_events | Work_orders | Wo_operations | Dnc_transfer_events
  | Program_revisions | Lots | Serials | Genealogy | Material_txns | Holds
  | Inspection_plans | Characteristics | Inspection_results | Ncrs | Pm_schedules
  | Maintenance_work_orders | Spare_parts | Spare_txns | Procurement_requests | Outbox
  | Applied_entries | Orgs | Plants | Erp_connections | Erp_sync_log | Copilot_messages.

Definition row (t : table) : Type :=
  match t with
  | Roles => RoleRow
  | Users => UserRow
  | Audit_log => AuditRow
  | Sites => SiteRow
  | Areas => AreaRow
  | Work_centers => WorkCenterRow
  | Shifts => ShiftRow
  | Planned_stops => PlannedStopRow
  | Parts => PartRow
  | Routings => RoutingRow
  | Routing_ops => RoutingOpRow
  | Programs => ProgramRow
  | Signal_sources => SignalSourceRow
  | Machine_events => MachineEventRow
  | Production_counts => ProductionCountRow
  | Machine_states => MachineStateRow
  | Downtime_reasons => DowntimeReasonRow
  | Scrap_reasons => ScrapReasonRow
  | Downtime_events => DowntimeRow
  | Work_orders => WorkOrderRow
  | Wo_operations => WoOperationRow
  | Dnc_transfer_events => TransferRow
  | Program_revisions => RevisionRow
  | Lots => LotRow
  | Serials => SerialRow
  | Genealogy => GenealogyRow
  | Material_txns => MaterialTxnRow
  | Holds => HoldRow
  | Inspection_plans => PlanRow
  | Characteristics => CharRow
  | Inspection_results => ResultRow
  | Ncrs => NcrRow
  | Pm_schedules => PmRow
  | Maintenance_work_orders => MwoRow
  | Spare_parts => SpareRow
  | Spare_txns => SpareTxnRow
  | Procurement_requests => ProcRow
  | Outbox => OutboxRow
  | Applied_entries => AppliedRow
  | Orgs => OrgRow
  | Plants => PlantRow
  | Erp_connections => ErpConnRow
  | Erp_sync_log => ErpLogRow
  | Copilot_messages => CopilotRow
  end.

Definition key (t : table) : row t → string :=
  match t with
  | Roles => rl_code
  | Users => us_id
  | Audit_log => au_id
  | Sites => si_id
  | Areas => ar_id
  | Work_centers => wc_id
  | Shifts => sh_id
  | Planned_stops => ps_id
  | Parts => pt_id
  | Routings => rt_id
  | Routing_ops => ro_id
  | Programs => pg_id
  | Signal_sources => ss_id
  | Machine_events => me_id
  | Production_counts => pc_id
  | Machine_states => ms_id
  | Downtime_reasons => dr_id
  | Scrap_reasons => sr_id
  | Downtime_events => de_id
  | Work_orders => wo_id
  | Wo_operations => op_id
  | Dnc_transfer_events => tr_id
  | Program_revisions => rv_id
  | Lots => lt_id
  | Serials => sl_id
  | Genealogy => gn_id
  | Material_txns => mt_id
  | Holds => hd_id
  | Inspection_plans => pl_id
  | Characteristics => ch_id
  | Inspection_results => rs_id
  | Ncrs => nc_id
  | Pm_schedules => pm_id
  | Maintenance_work_orders => mw_id
  | Spare_parts => sp_id
  | Spare_txns => st_id
  | Procurement_requests => pr_id
  | Outbox => ob_id
  | Applied_entries => ap_id
  | Orgs => og_id
  | Plants => pn_id
  | Erp_connections => ec_id
  | Erp_sync_log => el_id
  | Copilot_messages => cm_id
  end.

#[global] Instance table_eq_dec : EqDecision table.
Proof. solve_decision. Defined.

Definition Db : Type := ∀ t : table, list (row t).

Definition empty_db : Db := λ _, [].

(** Replaces the rows of table [t]. *)
Definition set_table (t : table) (rows : list (row t)) (db : Db) : Db := λ t',
  match decide (t = t') with
  | left e => eq_rect t (λ t, list (row t)) rows t' e
  | right _ => db t'
  end.

Lemma set_table_eq t rows db : set_table t rows db t = rows.
Proof.
  unfold set_table. destruct (decide (t = t)) as [e|]; [|done].
  by rewrite (Eqdep_dec.UIP_dec table_eq_dec e eq_refl).
Qed.

Lemma set_table_ne t t' rows db : t ≠ t' → set_table t rows db t' = db t'.
Proof. intros H. unfold set_table. by destruct (decide (t = t')). Qed.

(** Writing back the rows a table has changes nothing. *)
Lemma set_table_id t db : set_table t (db t) db = db.
Proof.
  apply functional_extensionality_dep. intros t'. destruct (decide (t = t')) as [<-|Hne].
  - apply set_table_eq.
  - by apply set_table_ne.
Qed.

(** ** Constraints *)

Definition same {R K} `{EqDecision K} (f : R → K) (a b : R) : bool :=
  bool_decide (f a = f b).

(** A unique column that admits NULL: two NULLs do not conflict. *)
Definition same_some {R K} `{EqDecision K} (f : R → option K) (a b : R) : bool :=
  match f a, f b with Some x, Some y => bool_decide (x = y) | _, _ => false end.

(** [uq_procurement_open_reorder]: one open automatic request per spare part. *)
Definition is_open_reorder (r : ProcRow) : bool :=
  String.eqb (pr_status r) "requested" && String.eqb (pr_reason r) "reorder_point".

Definition open_reorder_conflict (a b : ProcRow) : bool :=
  is_open_reorder a && is_open_reorder b && same pr_spare_part_id a b.

Definition opt_ref (t : table) (o : option string) : list (table * string) :=
  match o with Some id => [(t, id)] | None => [] end.

(** The uniqueness constraints of a table, primary key first. *)
Definition uniques (t : table) : list (row t → row t → bool) :=
  match t with
  | Roles => [same rl_code]
  | Users => [same us_id; same us_username; same_some us_badge_id]
  | Audit_log => [same au_id]
  | Sites => [same si_id; same si_code]
  | Areas => [same ar_id; same (λ r, (ar_site_id r, ar_code r))]
  | Work_centers => [same wc_id; same (λ r, (wc_area_id r, wc_code r))]
  | Shifts => [same sh_id; same (λ r, (sh_site_id r, sh_name r))]
  | Planned_stops => [same ps_id]
  | Parts => [same pt_id; same pt_code]
  | Routings => [same rt_id; same (λ r, (rt_part_id r, rt_version r))]
  | Routing_ops => [same ro_id; same (λ r, (ro_routing_id r, ro_op_no r))]
  | Programs => [same pg_id]
  | Signal_sources => [same ss_id; same ss_source_key]
  | Machine_events => [same (λ r, (me_ts r, me_id r))]
  | Production_counts => [same (λ r, (pc_ts r, pc_id r))]
  | Machine_states => [same ms_id]
  | Downtime_reasons => [same dr_id; same dr_code]
  | Scrap_reasons => [same sr_id; same sr_code]
  | Downtime_events => [same de_id]
  | Work_orders => [same wo_id; same wo_wo_number]
  | Wo_operations => [same op_id; same (λ r, (op_work_order_id r, op_op_no r))]
  | Dnc_transfer_events => [same tr_id]
  | Program_revisions => [same rv_id; same (λ r, (rv_program_id r, rv_revision_no r))]
  | Lots => [same lt_id; same lt_lot_no]
  | Serials => [same sl_id; same sl_serial_no]
  | Genealogy => [same gn_id; same (λ r, (gn_parent_type r, gn_parent_id r, gn_child_type r, gn_child_id r))]
  | Material_txns => [same mt_id]
  | Holds => [same hd_id]
  | Inspection_plans => [same pl_id; same (λ r, (pl_part_id r, pl_code r))]
  | Characteristics => [same ch_id]
  | Inspection_results => [same rs_id]
  | Ncrs => [same nc_id; same nc_ncr_no]
  | Pm_schedules => [same pm_id]
  | Maintenance_work_orders => [same mw_id]
  | Spare_parts => [same sp_id; same sp_code]
  | Spare_txns => [same st_id]
  | Procurement_requests => [same pr_id; open_reorder_conflict]
  | Outbox => [same ob_id]
  | Applied_entries => [same ap_id]
  | Orgs => [same og_id; same og_code]
  | Plants => [same pn_id; same (λ r, (pn_org_id r, pn_code r))]
  | Erp_connections => [same ec_id]
  | Erp_sync_log => [same el_id]
  | Copilot_messages => [same cm_id]
  end.

(** The foreign keys of a row. *)
Definition references (t : table) : row t → list (table * string) :=
  match t with
  | Roles => λ _, []
  | Users => λ r, [(Roles, us_role_code r)]
  | Audit_log => λ r, opt_ref Users (au_actor_id r)
  | Sites => λ _, []
  | Areas => λ r, [(Sites, ar_site_id r)]
  | Work_centers => λ r, [(Areas, wc_area_id r)]
  | Shifts => λ r, [(Sites, sh_site_id r)]
  | Planned_stops => λ r, [(Work_centers, ps_work_center_id r)]
  | Parts => λ _, []
  | Routings => λ r, [(Parts, rt_part_id r)]
  | Routing_ops => λ r, 
      [(Routings, ro_routing_id r)] ++
      opt_ref Work_centers (ro_work_center_id r)
  | Programs => λ r, 
      opt_ref Routing_ops (pg_routing_op_id r) ++
      opt_ref Parts (pg_part_id r)
  | Signal_sources => λ r, [(Work_centers, ss_work_center_id r)]
  | Machine_events => λ r, 
      [(Work_centers, me_work_center_id r)] ++
      opt_ref Signal_sources (me_source_id r)
  | Production_counts => λ r, 
      [(Work_centers, pc_work_center_id r)] ++
      opt_ref Signal_sources (pc_source_id r) ++
      opt_ref Wo_operations (pc_wo_operation_id r) ++
      opt_ref Scrap_reasons (pc_scrap_reason_id r)
  | Machine_states => λ r, [(Work_centers, ms_work_center_id r)]
  | Downtime_reasons => λ r, opt_ref Downtime_reasons (dr_parent_id r)
  | Scrap_reasons => λ _, []
  | Downtime_events => λ r, 
      [(Work_centers, de_work_center_id r)] ++
      opt_ref Downtime_reasons (de_reason_id r) ++
      opt_ref Users (de_classified_by r)
  | Work_orders => λ r, [(Parts, wo_part_id r)] ++ opt_ref Routings (wo_routing_id r)
  | Wo_operations => λ r, 
      [(Work_orders, op_work_order_id r)] ++
      opt_ref Routing_ops (op_routing_op_id r) ++
      opt_ref Work_centers (op_work_center_id r)
  | Dnc_transfer_events => λ r, 
      opt_ref Wo_operations (tr_wo_operation_id r) ++
      [(Programs, tr_program_id r)]
  | Program_revisions => λ r, 
      [(Programs, rv_program_id r)] ++
      opt_ref Users (rv_submitted_by r) ++
      opt_ref Users (rv_promoted_by r)
  | Lots => λ r, [(Parts, lt_part_id r)]
  | Serials => λ r, [(Parts, sl_part_id r)] ++ opt_ref Lots (sl_lot_id r)
  | Genealogy => λ _, []
  | Material_txns => λ r, 
      opt_ref Lots (mt_lot_id r) ++
      opt_ref Serials (mt_serial_id r) ++
      opt_ref Wo_operations (mt_wo_operation_id r) ++
      opt_ref Users (mt_user_id r)
  | Holds => λ r, 
      opt_ref Users (hd_created_by r) ++
      opt_ref Users (hd_released_by r) ++
      opt_ref Ncrs (hd_ncr_id r)
  | Inspection_plans => λ r, [(Parts, pl_part_id r)]
  | Characteristics => λ r, [(Inspection_plans, ch_plan_id r)]
  | Inspection_results => λ r, 
      [(Characteristics, rs_characteristic_id r)] ++
      opt_ref Lots (rs_lot_id r) ++
      opt_ref Serials (rs_serial_id r) ++
      opt_ref Wo_operations (rs_wo_operation_id r) ++
      opt_ref Users (rs_inspected_by r)
  | Ncrs => λ r, 
      opt_ref Inspection_results (nc_inspection_result_id r) ++
      opt_ref Lots (nc_lot_id r) ++
      opt_ref Serials (nc_serial_id r) ++
      opt_ref Parts (nc_part_id r) ++
      opt_ref Users (nc_dispositioned_by r)
  | Pm_schedules => λ r, [(Work_centers, pm_work_center_id r)]
  | Maintenance_work_orders => λ r, 
      [(Work_centers, mw_work_center_id r)] ++
      opt_ref Pm_schedules (mw_pm_schedule_id r) ++
      opt_ref Users (mw_technician_id r)
  | Spare_parts => λ _, []
  | Spare_txns => λ r, 
      [(Spare_parts, st_spare_part_id r)] ++
      opt_ref Maintenance_work_orders (st_maintenance_wo_id r) ++
      opt_ref Users (st_user_id r)
  | Procurement_requests => λ r, [(Spare_parts, pr_spare_part_id r)]
  | Outbox => λ _, []
  | Applied_entries => λ _, []
  | Orgs => λ _, []
  | Plants => λ r, [(Orgs, pn_org_id r)]
  | Erp_connections => λ r, opt_ref Sites (ec_site_id r)
  | Erp_sync_log => λ r, opt_ref Erp_connections (el_connection_id r)
  | Copilot_messages => λ r, opt_ref Orgs (cm_org_id r)
  end.

(** The foreign keys declared [ON DELETE CASCADE]. *)
Definition cascades (t : table) : row t → list (table * string) :=
  match t with
  | Areas => λ r, [(Sites, ar_site_id r)]
  | Work_centers => λ r, [(Areas, wc_area_id r)]
  | Shifts => λ r, [(Sites, sh_site_id r)]
  | Planned_stops => λ r, [(Work_centers, ps_work_center_id r)]
  | Routings => λ r, [(Parts, rt_part_id r)]
  | Routing_ops => λ r, [(Routings, ro_routing_id r)]
  | Programs => λ r,
      opt_ref Routing_ops (pg_routing_op_id r) ++ opt_ref Parts (pg_part_id r)
  | Signal_sources => λ r, [(Work_centers, ss_work_center_id r)]
  | Machine_events => λ r, [(Work_centers, me_work_center_id r)]
  | Production_counts => λ r, [(Work_centers, pc_work_center_id r)]
  | Machine_states => λ r, [(Work_centers, ms_work_center_id r)]
  | Downtime_events => λ r, [(Work_centers, de_work_center_id r)]
  | Wo_operations => λ r, [(Work_orders, op_work_order_id r)]
  | Inspection_plans => λ r, [(Parts, pl_part_id r)]
  | Characteristics => λ r, [(Inspection_plans, ch_plan_id r)]
  | Pm_schedules => λ r, [(Work_centers, pm_work_center_id r)]
  | Maintenance_work_orders => λ r, [(Work_centers, mw_work_center_id r)]
  | Spare_txns => λ r, [(Spare_parts, st_spare_part_id r)]
  | Procurement_requests => λ r, [(Spare_parts, pr_spare_part_id r)]
  | Plants => λ r, [(Orgs, pn_org_id r)]
  | Erp_connections => λ r, opt_ref Sites (ec_site_id r)
  | Erp_sync_log => λ r, opt_ref Erp_connections (el_connection_id r)
  | Copilot_messages => λ r, opt_ref Orgs (cm_org_id r)
  | _ => λ _, []
  end.

(** The foreign keys declared [ON DELETE SET NULL], reset where they name a row that is
    [gone]. *)
Definition detach (gone : table → string → bool) (t : table) : row t → row t :=
  match t with
  | Dnc_transfer_events => λ r,
      match tr_wo_operation_id r with
      | Some id => if gone Wo_operations id then r <| tr_wo_operation_id := None |> else r
      | None => r
      end
  | _ => λ r, r
  end.

(** The INTEGER columns of a row hold 32-bit values. *)
Definition in_range (t : table) : row t → bool :=
  match t with
  | Routing_ops => λ r, in_i32 (ro_op_no r)
  | Production_counts => λ r, in_i32 (pc_good r) && in_i32 (pc_scrap r)
  | Work_orders => λ r, in_i32 (wo_priority r)
  | Wo_operations => λ r,
      in_i32 (op_op_no r) && in_i32 (op_qty_good r) && in_i32 (op_qty_scrap r)
  | Program_revisions => λ r, in_i32 (rv_revision_no r)
  | Erp_sync_log => λ r, in_i32 (el_record_count r)
  | _ => λ _, true
  end.

(** ** The world *)

(** Commands to the dnc-daemon ([crates/mes-dnc-bridge/src/protocol.rs]). *)
Inductive DncCommand := SendProgram (program : string) (machine : option string).

(** Its events. *)
Inductive DncEvent :=
  | TransferCompleted (reference : string)
  | TransferFailed (reference error : string)
  | ProgramReceived (program : string) (content_ref : option string).

(** The three implementations of the [DncDaemon] trait with their state. The outcomes of
    the TCP client's next connections ([None]: delivered) come from the network. *)
Inductive DncDaemon :=
  | VirtualDaemon (sent : list DncCommand) (counter : Z)
  | DisconnectedDaemon
  | TcpDncClient (outcomes : list (option string)) (counter : Z).

(** Live events ([crates/mes-client/src/ws.rs]). *)
Inductive WsEvent :=
  | WorkOrderStatusChanged (work_order_id status : string)
  | OperationStarted (work_order_id wo_operation_id : string)
  | OperationCompleted (work_order_id wo_operation_id : string)
  | CountRecorded (wo_operation_id : string) (good scrap : Z)
  | DowntimeClassified (downtime_event_id reason_id : string)
  | DncTransferScheduled (transfer_id program_id program_identifier : string)
      (wo_operation_id : option string)
  | DncTransferCompleted (transfer_id : string)
  | ProgramRevisionDrafted (revision_id program_id : string)
  | OeeSnapshot (work_center_id : string) (availability performance quality oee : spec_float)
  | NcrRaised (ncr_id ncr_no : string) (lot_id : option string).

(** A POST to an ERP endpoint ([ErpClient::post_json]): the address, the bearer token, the
    body. *)
Record Post := mkPost { po_url : string; po_token : option string; po_body : Json }.

(** The state a request handler acts on. [w_faults] is the fate of the coming statements:
    [true] is a statement lost to the connection; an exhausted list is a healthy database. *)
Record World := mkWorld {
  w_db : Db;
  w_pool : bool;                 (** [AppState.pool] is [Some] *)
  w_now : DateTime;              (** the clock; it stands still during a request *)
  w_next : nat;                  (** how many identifiers have been drawn *)
  w_faults : list bool;
  w_events : list WsEvent;       (** everything published, oldest first *)
  w_dnc : DncDaemon;
  w_random : nat;                (** how often the system's random source was read *)
  w_posts : list Post            (** everything sent to ERP endpoints, oldest first *)
}.

#[global] Instance eta_World : Eta World := λ w,
  mkWorld (w_db w) (w_pool w) (w_now w) (w_next w) (w_faults w) (w_events w) (w_dnc w)
    (w_random w) (w_posts w).
