(* ===== verification/Sql.v ===== *)
(** * Statements, transactions and errors

    What the repositories use of [sqlx] and PostgreSQL: single statements that check the
    constraints of the schema, transactions that roll back on an error, and the error types
    that carry a failure from a statement to the HTTP response
    ([crates/mes-db/src/repo.rs], [crates/mes-edge/src/api.rs]).

    A statement may also be lost to the connection, at any point the world decides, so that
    what is proved of a call holds for every such interruption. *)

From S2P Require Import Prelude Schema.

(** ** Errors *)

Inductive SqlError :=
  | RowNotFound
  | UniqueViolation (t : table) (constraint : nat)      (** SQLSTATE 23505 *)
  | ForeignKeyViolation (t : table) (target : table)    (** SQLSTATE 23503 *)
  | OutOfRange                                          (** SQLSTATE 22003 *)
  | InvalidLimit                                        (** SQLSTATE 2201W *)
  | Io.

Inductive RepoError :=
  | NotFound
  | Conflict (m : string)
  | InvalidReference (m : string)
  | DbError (e : SqlError).

Record ApiErr := mkApiErr { status : Z; code : string; message : string }.

(** What lies outside the sources: [ulid] is the sequence of identifiers
    [mes_core::new_id] draws from the ulid crate, [pg_message] the server's error texts. *)
Class Env := {
  ulid : nat → string;
  pg_message : SqlError → string
}.

(** ** Statements *)

Section statements.
Abbreviation Sql := (M World SqlError).

(** The world after one more statement has been sent. *)
Definition tick (w : World) : World := w <| w_faults := tail (w_faults w) |>.

(** Runs one statement against the database, unless it is lost. *)
Definition statement {A} (f : Db → Result (A * Db) SqlError) : Sql A := λ w,
  if default false (head (w_faults w)) then (Err Io, tick w)
  else match f (w_db w) with
       | Ok (a, db) => (Ok a, (tick w) <| w_db := db |>)
       | Err e => (Err e, tick w)
       end.

(** A read-only statement. *)
Definition query {A} (f : Db → A) : Sql A := statement (λ db, Ok (f db, db)).

(** The rows of one table that satisfy a condition. *)
Definition fetch (t : table) (p : row t → bool) : Sql (list (row t)) :=
  query (λ db, select p (db t)).

Definition fetch_optional {A} (m : Sql (list A)) : Sql (option A) :=
  rows ← m; mret (head rows).

Definition fetch_one {A} (m : Sql (list A)) : Sql A :=
  rows ← m; ok_or (head rows) RowNotFound.

(** *** Constraint checks *)

Fixpoint violated {R} (n : nat) (cs : list (R → R → bool)) (r : R) (rows : list R) :
    option nat :=
  match cs with
  | [] => None
  | c :: cs' => if exists_row (c r) rows then Some n else violated (S n) cs' r rows
  end.

Definition key_exists (db : Db) (t : table) (id : string) : bool :=
  exists_row (λ r, String.eqb (key t r) id) (db t).

Fixpoint dangling (db : Db) (refs : list (table * string)) : option table :=
  match refs with
  | [] => None
  | (t, id) :: refs' => if key_exists db t id then dangling db refs' else Some t
  end.

Definition check_row (t : table) (r : row t) (db : Db) : option SqlError :=
  if negb (in_range t r) then Some OutOfRange
  else match violated 0 (uniques t) r (db t) with
       | Some n => Some (UniqueViolation t n)
       | None =>
           match dangling (set_table t (db t ++ [r]) db) (references t r) with
           | Some t' => Some (ForeignKeyViolation t t')
           | None => None
           end
       end.

(** *** Writes *)

(** [INSERT ... RETURNING]. *)
Definition insert (t : table) (r : row t) : Sql (row t) := statement (λ db,
  match check_row t r db with
  | Some e => Err e
  | None => Ok (r, set_table t (db t ++ [r]) db)
  end).

(** [INSERT ... ON CONFLICT (arbiter) DO NOTHING RETURNING]. *)
Definition insert_or_ignore (t : table) (arbiter : row t → row t → bool) (r : row t) :
    Sql (option (row t)) := statement (λ db,
  if exists_row (arbiter r) (db t) then Ok (None, db)
  else match check_row t r db with
       | Some e => Err e
       | None => Ok (Some r, set_table t (db t ++ [r]) db)
       end).

(** The foreign keys an update sets: those of the new row the old one did not have. *)
Definition new_references (t : table) (old new : row t) : list (table * string) :=
  List.filter (λ x, negb (bool_decide (x ∈ references t old))) (references t new).

Fixpoint check_update (t : table) (f : row t → row t) (db : Db) (rows : list (row t)) :
    option SqlError :=
  match rows with
  | [] => None
  | r :: rows' =>
      if negb (in_range t (f r)) then Some OutOfRange
      else match dangling db (new_references t r (f r)) with
           | Some t' => Some (ForeignKeyViolation t t')
           | None => check_update t f db rows'
           end
  end.

(** [UPDATE ... SET f WHERE p RETURNING], for an [f] that sets no unique column. *)
Definition update (t : table) (p : row t → bool) (f : row t → row t) :
    Sql (list (row t)) := statement (λ db,
  match check_update t f db (select p (db t)) with
  | Some e => Err e
  | None => Ok (map f (select p (db t)), set_table t (update_rows p f (db t)) db)
  end).

(** [INSERT ... ON CONFLICT (primary key) DO UPDATE SET merge]. *)
Definition upsert (t : table) (r : row t) (merge : row t → row t) : Sql unit :=
  statement (λ db,
    match first_where (λ o, String.eqb (key t o) (key t r)) (db t) with
    | None =>
        match check_row t r db with
        | Some e => Err e
        | None => Ok (tt, set_table t (db t ++ [r]) db)
        end
    | Some old =>
        let same_id o := String.eqb (key t o) (key t r) in
        if negb (in_range t (merge old)) then Err OutOfRange
        else match violated 0 (uniques t) (merge old) (delete_rows same_id (db t)) with
             | Some n => Err (UniqueViolation t n)
             | None =>
                 match dangling db (new_references t old (merge old)) with
                 | Some t' => Err (ForeignKeyViolation t t')
                 | None => Ok (tt, set_table t (update_rows same_id merge (db t)) db)
                 end
             end
    end).

(** [... ORDER BY ... LIMIT n]. *)
Definition query_limit {A} (limit : Z) (f : Db → list A) : Sql (list A) := statement (λ db,
  if limit <? 0 then Err InvalidLimit else Ok (take (Z.to_nat limit) (f db), db)).

(** [DELETE ... WHERE p], on a table no foreign key refers to. *)
Definition delete (t : table) (p : row t → bool) : Sql unit := statement (λ db,
  Ok (tt, set_table t (delete_rows p (db t)) db)).

Definition by_id (t : table) (id : string) (r : row t) : bool := String.eqb (key t r) id.

(** *** Transactions *)

Definition begin_ : Sql unit := query (λ _, tt).
Definition commit : Sql unit := query (λ _, tt).

Definition enclosed {E A} (lift : SqlError → E) (m : M World E A) : M World E A :=
  map_err lift begin_ ;; a ← m; map_err lift commit ;; mret a.

(** [begin; m; commit]; any error leaves the database as it was. *)
Definition transaction {E A} (lift : SqlError → E) (m : M World E A) : M World E A := λ w,
  match enclosed lift m w with
  | (Ok a, w') => (Ok a, w')
  | (Err e, w') => (Err e, w' <| w_db := w_db w |>)
  end.
End statements.

(** ** Identifiers, events, error translation *)

Section translation.
Context {env : Env}.

(** [mes_core::new_id()] ([nid], [new_id] in the repositories). *)
Definition new_id {E} : M World E string := λ w,
  (Ok (ulid (w_next w)), w <| w_next := S (w_next w) |>).

(** A read of the system's random source ([OsRng], [getrandom]), as the number of the
    read. *)
Definition draw_random {E} : M World E nat := λ w,
  (Ok (w_random w), w <| w_random := S (w_random w) |>).

(** [AppState::publish]. *)
Definition publish {E} (ev : WsEvent) : M World E unit := λ w,
  (Ok tt, w <| w_events := w_events w ++ [ev] |>).

(** [map_sqlx] of the repositories other than those below. *)
Definition map_sqlx (e : SqlError) : RepoError :=
  match e with
  | RowNotFound => NotFound
  | UniqueViolation _ _ => Conflict (pg_message e)
  | ForeignKeyViolation _ _ => InvalidReference (pg_message e)
  | _ => DbError e
  end.

(** [map_sqlx] of the ingest and OEE repositories. *)
Definition map_sqlx_plain (e : SqlError) : RepoError :=
  match e with
  | RowNotFound => NotFound
  | other => DbError other
  end.

Definition err (status : Z) (code msg : string) : ApiErr := mkApiErr status code msg.

Definition repo_err (e : RepoError) : ApiErr :=
  match e with
  | NotFound => err 404 "not_found" "resource not found"
  | Conflict m => err 409 "conflict" m
  | InvalidReference m => err 400 "invalid_reference" m
  | DbError _ => err 500 "internal" "database error"
  end.

Definition require_pool : M World ApiErr unit := λ w,
  if w_pool w then (Ok tt, w) else (Err (err 503 "unavailable" "database not configured"), w).

(** [SELECT ... WHERE id = $1], [.fetch_optional(..).ok_or(NotFound)]. *)
Definition get_by_id (t : table) (id : string) : M World RepoError (row t) :=
  row ← map_err map_sqlx (fetch_optional (fetch t (by_id t id)));
  ok_or row NotFound.

(** [UPDATE ... WHERE id = $1 RETURNING ...], not found when no row matches. *)
Definition update_by_id (t : table) (id : string) (f : row t → row t) : M World RepoError (row t) :=
  row ← map_err map_sqlx (fetch_optional (update t (by_id t id) f));
  ok_or row NotFound.

Definition insert_audit (actor_id : option string) (action entity : string)
    (entity_id : option string) (detail : option Json) : M World RepoError string :=
  id ← new_id;
  now ← gets w_now;
  map_err map_sqlx (insert Audit_log
    (mkAuditRow id actor_id action entity entity_id detail now)) ;;
  mret id.

Definition audit {E} (actor_id : option string) (action entity : string)
    (entity_id : option string) (detail : option Json) : M World E unit :=
  best_effort (insert_audit actor_id action entity entity_id detail).
End translation.

(** The caller a request is authenticated as ([crates/mes-edge/src/extract.rs]). *)
Record AuthUser := mkAuthUser { user_id : string; role : string }.

(** ** Inversion: what a call that returned [Ok] has done *)

Section inversion.
Context {E : Type}.

Lemma bind_Ok {S A B} (m : M S E A) (k : A → M S E B) s b s' :
  (m ≫= k) s = (Ok b, s') → ∃ a s1, m s = (Ok a, s1) ∧ k a s1 = (Ok b, s').
Proof. unfold mbind, M_bind. destruct (m s) as [[a|e] s1]; naive_solver. Qed.

Lemma ret_Ok {S A} (a b : A) (s s' : S) :
  (mret a : M S E A) s = (Ok b, s') → b = a ∧ s' = s.
Proof. by intros [= <- <-]. Qed.

Lemma gets_Ok {S A} (f : S → A) b (s s' : S) :
  (gets f : M S E A) s = (Ok b, s') → b = f s ∧ s' = s.
Proof. by intros [= <- <-]. Qed.

Lemma throw_Ok {S A} (e : E) (b : A) (s s' : S) :
  (throw e : M S E A) s = (Ok b, s') → False.
Proof. discriminate. Qed.

Lemma ok_or_Ok {S A} (o : option A) (e : E) b (s s' : S) :
  (ok_or o e : M S E A) s = (Ok b, s') → o = Some b ∧ s' = s.
Proof. destruct o; simpl; [by intros [= <- <-]|discriminate]. Qed.

Lemma throw_if_Ok {S} (b : bool) (e : E) u (s s' : S) :
  (throw_if b e : M S E unit) s = (Ok u, s') → b = false ∧ s' = s.
Proof. destruct b; [discriminate|by intros [= <- <-]]. Qed.

Lemma map_err_Ok {S F A} (f : F → E) (m : M S F A) a (s s' : S) :
  map_err f m s = (Ok a, s') → m s = (Ok a, s').
Proof. unfold map_err. destruct (m s) as [[]]; naive_solver. Qed.

Lemma best_effort_Ok {S F A} (m : M S F A) u (s s' : S) :
  (best_effort m : M S E unit) s = (Ok u, s') → s' = (m s).2.
Proof. by intros [= <- <-]. Qed.
End inversion.

Lemma tick_db (w : World) : (tick w) <| w_db := w_db w |> = tick w.
Proof. by destruct w. Qed.

Lemma statement_Ok {A} (f : Db → Result (A * Db) SqlError) a w w' :
  statement f w = (Ok a, w') →
  ∃ db, f (w_db w) = Ok (a, db) ∧ w' = (tick w) <| w_db := db |>.
Proof. unfold statement. intros. msplit. eauto. Qed.

Lemma statement_Err {A} (f : Db → Result (A * Db) SqlError) e w w' :
  statement f w = (Err e, w') → w' = tick w.
Proof. unfold statement. intros. by msplit. Qed.

Lemma query_Ok {A} (f : Db → A) a w w' :
  query f w = (Ok a, w') → a = f (w_db w) ∧ w' = tick w.
Proof. intros (db & [= <- <-] & ->)%statement_Ok. by rewrite tick_db. Qed.

Lemma fetch_Ok t p a w w' :
  fetch t p w = (Ok a, w') → a = select p (w_db w t) ∧ w' = tick w.
Proof. apply query_Ok. Qed.

Lemma fetch_optional_Ok {A} (m : M World SqlError (list A)) o w w' :
  fetch_optional m w = (Ok o, w') → ∃ rows, m w = (Ok rows, w') ∧ o = head rows.
Proof. intros (rows & w1 & Hm & [-> ->]%ret_Ok)%bind_Ok. eauto. Qed.

Lemma fetch_one_Ok {A} (m : M World SqlError (list A)) a w w' :
  fetch_one m w = (Ok a, w') → ∃ rows, m w = (Ok rows, w') ∧ head rows = Some a.
Proof. intros (rows & w1 & Hm & [? ->]%ok_or_Ok)%bind_Ok. eauto. Qed.

Lemma insert_Ok t r a w w' :
  insert t r w = (Ok a, w') →
  a = r ∧ check_row t r (w_db w) = None ∧
  w' = (tick w) <| w_db := set_table t (w_db w t ++ [r]) (w_db w) |>.
Proof. intros (db & Hf & ->)%statement_Ok. case_match; by simplify_eq. Qed.

Lemma insert_or_ignore_Ok t c r o w w' :
  insert_or_ignore t c r w = (Ok o, w') →
  (exists_row (c r) (w_db w t) = true ∧ o = None ∧ w' = tick w) ∨
  (exists_row (c r) (w_db w t) = false ∧ o = Some r ∧ check_row t r (w_db w) = None ∧
   w' = (tick w) <| w_db := set_table t (w_db w t ++ [r]) (w_db w) |>).
Proof.
  intros (db & Hf & ->)%statement_Ok. destruct (exists_row _ _) eqn:?; simplify_eq.
  - left. by rewrite tick_db.
  - right. case_match; by simplify_eq.
Qed.

Lemma update_Ok t p f rows w w' :
  update t p f w = (Ok rows, w') →
  rows = map f (select p (w_db w t)) ∧ check_update t f (w_db w) (select p (w_db w t)) = None ∧
  w' = (tick w) <| w_db := set_table t (update_rows p f (w_db w t)) (w_db w) |>.
Proof. intros (db & Hf & ->)%statement_Ok. case_match; by simplify_eq. Qed.

Lemma delete_Ok t p u w w' :
  delete t p w = (Ok u, w') →
  w' = (tick w) <| w_db := set_table t (delete_rows p (w_db w t)) (w_db w) |>.
Proof. intros (db & Hf & ->)%statement_Ok. by simplify_eq. Qed.

Lemma upsert_Ok t r merge u w w' :
  upsert t r merge w = (Ok u, w') →
  let same_id o := String.eqb (key t o) (key t r) in
  (first_where same_id (w_db w t) = None ∧ check_row t r (w_db w) = None ∧
   w' = (tick w) <| w_db := set_table t (w_db w t ++ [r]) (w_db w) |>) ∨
  (∃ old, first_where same_id (w_db w t) = Some old ∧
   w' = (tick w) <| w_db := set_table t (update_rows same_id merge (w_db w t)) (w_db w) |>).
Proof.
  intros (db & Hf & ->)%statement_Ok. cbv zeta in *.
  destruct (first_where _ _) as [old|] eqn:E; [right; exists old|left];
    repeat case_match; simplify_eq; by split_and!.
Qed.

Lemma query_limit_Ok {A} limit (f : Db → list A) rows w w' :
  query_limit limit f w = (Ok rows, w') →
  0 <= limit ∧ rows = take (Z.to_nat limit) (f (w_db w)) ∧ w' = tick w.
Proof.
  intros (db & Hf & ->)%statement_Ok. case_match; simplify_eq. bool_to_prop.
  by rewrite tick_db.
Qed.

Lemma begin_Ok u w w' : begin_ w = (Ok u, w') → w' = tick w.
Proof. by intros [_ ->]%query_Ok. Qed.

Lemma transaction_Ok {E A} (lift : SqlError → E) (m : M World E A) a w w' :
  transaction lift m w = (Ok a, w') →
  ∃ w1, m (tick w) = (Ok a, w1) ∧ w' = tick w1.
Proof.
  unfold transaction. destruct (enclosed lift m w) as [[a'|e] w1] eqn:H; [|discriminate].
  intros [= <- <-].
  apply bind_Ok in H as ([] & w2 & H1%map_err_Ok%begin_Ok & H). subst.
  apply bind_Ok in H as (a0 & w2 & Hm & H).
  apply bind_Ok in H as ([] & w3 & H1%map_err_Ok%begin_Ok & [-> ->]%ret_Ok). subst. eauto.
Qed.

(** A transaction that fails leaves no trace in the database. *)
Lemma transaction_Err {E A} (lift : SqlError → E) (m : M World E A) e w w' :
  transaction lift m w = (Err e, w') → w_db w' = w_db w.
Proof. unfold transaction. intros. by msplit. Qed.

Section inversion_env.
Context {env : Env} {E : Type}.

Lemma new_id_Ok id w w' :
  (new_id : M World E string) w = (Ok id, w') →
  id = ulid (w_next w) ∧ w' = w <| w_next := S (w_next w) |>.
Proof. by intros [= <- <-]. Qed.

Lemma publish_Ok ev u w w' :
  (publish ev : M World E unit) w = (Ok u, w') →
  w' = w <| w_events := w_events w ++ [ev] |>.
Proof. by intros [= <- <-]. Qed.

Lemma require_pool_Ok u w w' :
  require_pool w = (Ok u, w') → w_pool w = true ∧ w' = w.
Proof. unfold require_pool. destruct (w_pool w); [by intros [= <- <-]|discriminate]. Qed.
End inversion_env.

Lemma get_by_id_Ok {env : Env} t id r w w' :
  get_by_id t id w = (Ok r, w') →
  first_where (by_id t id) (w_db w t) = Some r ∧ w' = tick w.
Proof.
  unfold get_by_id. intros (o & w1 & H%map_err_Ok & [E ->]%ok_or_Ok)%bind_Ok.
  apply fetch_optional_Ok in H as (rows & [-> ->]%fetch_Ok & ->). done.
Qed.

Lemma update_by_id_Ok {env : Env} t id f r w w' :
  update_by_id t id f w = (Ok r, w') →
  (∃ old, first_where (by_id t id) (w_db w t) = Some old ∧ r = f old) ∧
  check_update t f (w_db w) (select (by_id t id) (w_db w t)) = None ∧
  w' = (tick w) <| w_db := set_table t (update_rows (by_id t id) f (w_db w t)) (w_db w) |>.
Proof.
  unfold update_by_id. intros (o & w1 & H%map_err_Ok & [E ->]%ok_or_Ok)%bind_Ok.
  apply fetch_optional_Ok in H as (rows & (-> & Hc & ->)%update_Ok & ->).
  split_and!; [|done..]. unfold first_where.
  destruct (select (by_id t id) (w_db w t)) as [|old l]; simplify_eq/=. eauto.
Qed.

(** Inverts every call that is known to have returned [Ok], writing the states it went
    through in terms of the first. *)
Ltac minv_step :=
  match goal with
  | H : ?c = (Ok _, _) |- _ =>
      lazymatch c with
      | mbind _ _ _ =>
          let a := fresh "a" in let w := fresh "w" in let H1 := fresh "H" in
          apply bind_Ok in H as (a & w & H1 & H); cbv beta in H
      | mret _ _ => apply ret_Ok in H as [? ?]; subst
      | gets _ _ => apply gets_Ok in H as [? ?]; subst
      | throw _ _ => by apply throw_Ok in H
      | ok_or _ _ _ => apply ok_or_Ok in H as [? ?]; subst
      | throw_if _ _ _ => apply throw_if_Ok in H as [? ?]; subst
      | map_err _ _ _ => apply map_err_Ok in H
      | best_effort _ _ => apply best_effort_Ok in H; subst
      | query _ _ => apply query_Ok in H as [? ?]; subst
      | fetch ?t ?p _ => apply (fetch_Ok t p) in H as [? ?]; subst
      | fetch_optional _ _ => apply fetch_optional_Ok in H as (? & H & ?); subst
      | fetch_one _ _ => apply fetch_one_Ok in H as (? & H & ?); subst
      | insert ?t ?r _ => apply (insert_Ok t r) in H as (? & ? & ?); subst
      | query_limit _ _ _ => apply query_limit_Ok in H as (? & ? & ?); subst
      | update ?t ?p ?f _ => apply (update_Ok t p f) in H as (? & ? & ?); subst
      | delete ?t ?p _ => apply (delete_Ok t p) in H; subst
      | transaction _ _ _ => apply transaction_Ok in H as (? & H & ?); subst
      | get_by_id ?t ?i _ => apply (get_by_id_Ok t i) in H as [? ?]; subst
      | update_by_id ?t ?i ?f _ =>
          apply (update_by_id_Ok t i f) in H as ((? & ? & ?) & ? & ?); subst
      | new_id _ => apply new_id_Ok in H as [? ?]; subst
      | publish _ _ => apply publish_Ok in H; subst
      | require_pool _ => apply require_pool_Ok in H as [? ?]; subst
      end
  end.
Ltac minv := repeat (minv_step; simpl in *).

(** ** Constraint checks *)

Lemma violated_None {R} n (cs : list (R → R → bool)) r rows :
  violated n cs r rows = None ↔ Forall (λ c, exists_row (c r) rows = false) cs.
Proof.
  revert n. induction cs as [|c cs IH]; intros n; simpl; [by split|].
  rewrite Forall_cons_iff. destruct (exists_row (c r) rows); [|rewrite IH]; intuition congruence.
Qed.

Lemma dangling_None db refs :
  dangling db refs = None ↔ Forall (λ x, key_exists db x.1 x.2 = true) refs.
Proof.
  induction refs as [|[t id] refs IH]; simpl; [by split|].
  rewrite Forall_cons_iff. simpl. destruct (key_exists db t id); [rewrite IH|];
    intuition congruence.
Qed.

Lemma key_exists_append t t' r db id :
  key_exists db t' id = true → key_exists (set_table t (db t ++ [r]) db) t' id = true.
Proof.
  unfold key_exists. rewrite !exists_row_true. intros (x & Hx & Hk). exists x.
  split; [|done]. destruct (decide (t = t')) as [<-|Hne].
  - rewrite set_table_eq. apply elem_of_app. by left.
  - by rewrite set_table_ne.
Qed.

Lemma key_exists_inserted t r db :
  key_exists (set_table t (db t ++ [r]) db) t (key t r) = true.
Proof.
  unfold key_exists. apply exists_row_true. exists r. rewrite set_table_eq.
  split; [apply elem_of_app; right; left|by apply String.eqb_eq].
Qed.

(** A row that conflicts with none and refers to existing rows may be inserted. *)
Lemma check_row_None t r db :
  in_range t r = true → Forall (λ c, exists_row (c r) (db t) = false) (uniques t) →
  Forall (λ x, key_exists db x.1 x.2 = true) (references t r) → check_row t r db = None.
Proof.
  intros Hin Hu Hr. unfold check_row. rewrite Hin. simpl.
  rewrite (proj2 (violated_None _ _ _ _) Hu).
  rewrite (proj2 (dangling_None _ _)); [done|].
  eapply Forall_impl; [|exact Hr]. intros [t' id] Hk. by apply key_exists_append.
Qed.

(** A row that was inserted conflicted with none. *)
Lemma check_row_unique t r db c :
  check_row t r db = None → c ∈ uniques t → exists_row (c r) (db t) = false.
Proof.
  unfold check_row. intros H Hc. case_match; [done|].
  destruct (violated 0 (uniques t) r (db t)) eqn:E; [done|].
  apply violated_None in E. rewrite Forall_forall in E. by apply E, list_elem_of_In.
Qed.

Lemma check_row_range t r db : check_row t r db = None → in_range t r = true.
Proof. unfold check_row. by destruct (in_range t r). Qed.

Lemma check_update_range t f db rows r :
  check_update t f db rows = None → r ∈ rows → in_range t (f r) = true.
Proof.
  induction rows as [|x rows IH]; simpl; [by intros _ ?%elem_of_nil|].
  intros H Hr. destruct (in_range t (f x)) eqn:E; [|done]. simpl in H.
  apply elem_of_cons in Hr as [->|Hr]; [done|]. apply IH; [|done].
  by destruct (dangling _ _).
Qed.

(** ** Progress: what a call does when the connection is healthy *)

Definition healthy (w : World) : Prop := w_faults w = [].

Lemma tick_healthy w : healthy w → tick w = w.
Proof. intros H. destruct w. unfold healthy in H. simpl in H. by subst. Qed.

Lemma statement_run {A} (f : Db → Result (A * Db) SqlError) w :
  healthy w →
  statement f w =
    match f (w_db w) with
    | Ok (a, db) => (Ok a, w <| w_db := db |>)
    | Err e => (Err e, w)
    end.
Proof. intros H. unfold statement. rewrite tick_healthy by done. by rewrite H. Qed.

Lemma query_run {A} (f : Db → A) w : healthy w → query f w = (Ok (f (w_db w)), w).
Proof. intros H. unfold query. rewrite statement_run by done. by destruct w. Qed.

Lemma insert_run t r w :
  healthy w → check_row t r (w_db w) = None →
  insert t r w = (Ok r, w <| w_db := set_table t (w_db w t ++ [r]) (w_db w) |>).
Proof. intros H Hc. unfold insert. rewrite statement_run by done. by rewrite Hc. Qed.

Lemma map_err_run {S E F A} (f : E → F) (m : M S E A) s :
  map_err f m s =
  match m s with (Ok a, s') => (Ok a, s') | (Err e, s') => (Err (f e), s') end.
Proof. done. Qed.

Lemma get_by_id_run {env : Env} t id r w :
  healthy w → first_where (by_id t id) (w_db w t) = Some r →
  get_by_id t id w = (Ok r, w).
Proof.
  intros Hh Hr. unfold get_by_id, fetch_optional, fetch, mbind, M_bind, map_err.
  rewrite query_run by done. unfold first_where in Hr. simpl. by rewrite Hr.
Qed.

Lemma update_run t p f w :
  healthy w → check_update t f (w_db w) (select p (w_db w t)) = None →
  update t p f w = (Ok (map f (select p (w_db w t))),
                    w <| w_db := set_table t (update_rows p f (w_db w t)) (w_db w) |>).
Proof. intros H Hc. unfold update. rewrite statement_run by done. by rewrite Hc. Qed.

(** An audit entry, written or lost, touches nothing else. *)
Lemma insert_audit_frame {env : Env} a b c d e w :
  let w' := (insert_audit a b c d e w).2 in
  (∀ t, t ≠ Audit_log → w_db w' t = w_db w t) ∧ w_events w' = w_events w ∧
  w_now w' = w_now w ∧ w_pool w' = w_pool w ∧ w_dnc w' = w_dnc w.
Proof.
  unfold insert_audit, mbind, M_bind, map_err, new_id, gets, insert, statement. simpl.
  destruct (default false _); [done|].
  destruct (check_row Audit_log _ _); simpl; split_and!; try done.
  intros t Ht. by apply set_table_ne.
Qed.

Lemma insert_audit_posts {env : Env} a b c d e w :
  w_posts (insert_audit a b c d e w).2 = w_posts w.
Proof.
  unfold insert_audit, mbind, M_bind, map_err, new_id, gets, insert, statement. simpl.
  destruct (default false _); [done|]. by destruct (check_row Audit_log _ _).
Qed.

Lemma update_by_id_run {env : Env} t id f r w :
  healthy w → first_where (by_id t id) (w_db w t) = Some r →
  check_update t f (w_db w) (select (by_id t id) (w_db w t)) = None →
  update_by_id t id f w =
    (Ok (f r), w <| w_db := set_table t (update_rows (by_id t id) f (w_db w t)) (w_db w) |>).
Proof.
  intros Hh Hr Hc. unfold update_by_id, fetch_optional, mbind, M_bind, map_err.
  rewrite update_run by done. unfold first_where in Hr. simpl.
  destruct (select (by_id t id) (w_db w t)); simplify_eq/=. done.
Qed.

(** An update is admitted when the rows stay in range and refer to rows they referred to
    before or that exist. *)
Lemma check_update_refs t f db rows :
  (∀ r, r ∈ rows → in_range t (f r) = true ∧
     Forall (λ x, x ∈ references t r ∨ key_exists db x.1 x.2 = true) (references t (f r))) →
  check_update t f db rows = None.
Proof.
  induction rows as [|r rows IH]; simpl; intros H; [done|].
  destruct (H r) as [-> Hr]; [left|]. simpl.
  rewrite (proj2 (dangling_None _ _)); [apply IH; intros x Hx; apply H; by right|].
  rewrite Forall_forall in Hr |- *. unfold new_references. intros y [Hy Hn]%filter_In.
  destruct (Hr y Hy) as [Hin|]; [|done]. by bool_to_prop.
Qed.

(** In particular when they refer to the same rows. *)
Lemma check_update_None t f db rows :
  (∀ r, r ∈ rows → in_range t (f r) = true ∧ references t (f r) = references t r) →
  check_update t f db rows = None.
Proof.
  intros H. apply check_update_refs. intros r Hr. destruct (H r Hr) as [? ->].
  split; [done|]. apply Forall_forall. intros x Hx. left. by apply list_elem_of_In.
Qed.

(** An optional reference to a row that exists. *)
Definition present (db : Db) (t : table) (o : option string) : bool :=
  match o with Some id => key_exists db t id | None => true end.

Lemma present_refs db t o :
  present db t o = true → Forall (λ x, key_exists db x.1 x.2 = true) (opt_ref t o).
Proof. destruct o; simpl; [|constructor]. intros H. by repeat constructor. Qed.

(** *** Calls that go through

    [returns m w Q]: run in [w], the call returns a value and a world that satisfy [Q]. The
    rules below follow the structure of a call; [mgo] applies them as far as they go and
    leaves the conditions of the statements. *)

Definition returns {E A} (m : M World E A) (w : World) (Q : A → World → Prop) : Prop :=
  match m w with (Ok a, w') => Q a w' | (Err _, _) => False end.

Section returns.
Context {E : Type}.

Lemma returns_ok {A} (m : M World E A) w Q : returns m w Q → is_ok (m w).1 = true.
Proof. unfold returns. by destruct (m w) as [[]]. Qed.

Lemma returns_mono {A} (m : M World E A) w (Q Q' : A → World → Prop) :
  returns m w Q → (∀ a w', Q a w' → Q' a w') → returns m w Q'.
Proof. unfold returns. destruct (m w) as [[]]; naive_solver. Qed.

Lemma returns_bind {A B} (m : M World E A) (k : A → M World E B) w Q :
  returns m w (λ a w', returns (k a) w' Q) → returns (m ≫= k) w Q.
Proof. unfold returns, mbind, M_bind. by destruct (m w) as [[]]. Qed.

Lemma returns_ret {A} (a : A) w Q : Q a w → returns (mret a : M World E A) w Q.
Proof. done. Qed.

Lemma returns_gets {A} (f : World → A) w Q : Q (f w) w → returns (gets f : M World E A) w Q.
Proof. done. Qed.

Lemma returns_ok_or {A} (o : option A) (e : E) w (Q : A → World → Prop) a :
  o = Some a → Q a w → returns (ok_or o e) w Q.
Proof. by intros ->. Qed.

Lemma returns_throw_if b (e : E) w (Q : unit → World → Prop) :
  b = false → Q tt w → returns (throw_if b e) w Q.
Proof. by intros ->. Qed.

Lemma returns_map_err {F A} (f : F → E) (m : M World F A) w Q :
  returns m w Q → returns (map_err f m) w Q.
Proof. unfold returns, map_err. by destruct (m w) as [[]]. Qed.

Lemma returns_best_effort {F A} (m : M World F A) w Q :
  Q tt (m w).2 → returns (best_effort m : M World E unit) w Q.
Proof. done. Qed.

Lemma returns_new_id {env : Env} w Q :
  Q (ulid (w_next w)) (w <| w_next := S (w_next w) |>) → returns (new_id : M World E _) w Q.
Proof. done. Qed.

Lemma returns_publish ev w Q :
  Q tt (w <| w_events := w_events w ++ [ev] |>) → returns (publish ev : M World E _) w Q.
Proof. done. Qed.

(** A loop, by an invariant of the world and the elements to come. *)
Lemma returns_mapM {A B} (I : list A → World → Prop) (f : A → M World E B) l w :
  (∀ x xs w, I (x :: xs) w → returns (f x) w (λ _ w', I xs w')) → I l w →
  returns (mapM_list f l) w (λ _ w', I [] w').
Proof.
  intros Hf. revert w. induction l as [|x l IH]; intros w HI; simpl; [by apply returns_ret|].
  apply returns_bind. eapply returns_mono; [by apply Hf|]. intros y w1 H1.
  apply returns_bind. eapply returns_mono; [by apply IH|]. intros ys w2 H2.
  by apply returns_ret.
Qed.

Lemma returns_forM {A} (I : World → Prop) (f : A → M World E unit) l w :
  (∀ x w, I w → returns (f x) w (λ _ w', I w')) → I w →
  returns (forM_ l f) w (λ _ w', I w').
Proof.
  intros Hf. revert w. induction l as [|x l IH]; intros w HI; simpl; [by apply returns_ret|].
  apply returns_bind. eapply returns_mono; [by apply Hf|]. intros. by apply IH.
Qed.

Lemma returns_transaction {A} (lift : SqlError → E) (m : M World E A) w Q :
  healthy w → returns m w (λ a w', healthy w' ∧ Q a w') →
  returns (transaction lift m) w Q.
Proof.
  intros Hh. unfold returns, transaction, enclosed, mbind, M_bind, map_err, begin_, commit.
  rewrite query_run by done. destruct (m w) as [[a|e] w']; [|done]. intros [Hh' HQ].
  by rewrite query_run.
Qed.
End returns.

Lemma returns_require_pool w Q : w_pool w = true → Q tt w → returns require_pool w Q.
Proof. intros H HQ. unfold returns, require_pool. by rewrite H. Qed.

Lemma returns_query {A} (f : Db → A) w Q :
  healthy w → Q (f (w_db w)) w → returns (query f) w Q.
Proof. intros Hh HQ. unfold returns. by rewrite query_run. Qed.

Lemma returns_fetch t p w Q :
  healthy w → Q (select p (w_db w t)) w → returns (fetch t p) w Q.
Proof. exact (returns_query (λ db, select p (db t)) w Q). Qed.

Lemma returns_fetch_optional {A} (m : M World SqlError (list A)) w Q :
  returns m w (λ rows w', Q (head rows) w') → returns (fetch_optional m) w Q.
Proof. intros H. by apply returns_bind. Qed.

Lemma returns_fetch_one {A} (m : M World SqlError (list A)) w Q :
  returns m w (λ rows w', ∃ r, head rows = Some r ∧ Q r w') → returns (fetch_one m) w Q.
Proof.
  intros H. apply returns_bind. eapply returns_mono; [exact H|].
  intros rows w' (r & Hr & HQ). by eapply returns_ok_or.
Qed.

Lemma returns_insert t r w Q :
  healthy w → check_row t r (w_db w) = None →
  Q r (w <| w_db := set_table t (w_db w t ++ [r]) (w_db w) |>) → returns (insert t r) w Q.
Proof. intros Hh Hc HQ. unfold returns. by rewrite insert_run. Qed.

Lemma returns_insert_or_ignore t c r w (Q : option (row t) → World → Prop) :
  healthy w → Q None w →
  (exists_row (c r) (w_db w t) = false → check_row t r (w_db w) = None ∧
   Q (Some r) (w <| w_db := set_table t (w_db w t ++ [r]) (w_db w) |>)) →
  returns (insert_or_ignore t c r) w Q.
Proof.
  intros Hh HN HS. unfold returns, insert_or_ignore. rewrite statement_run by done.
  destruct (exists_row (c r) (w_db w t)); [by destruct w|]. by destruct HS as [-> ?].
Qed.

Lemma returns_update t p f w Q :
  healthy w → check_update t f (w_db w) (select p (w_db w t)) = None →
  Q (map f (select p (w_db w t)))
    (w <| w_db := set_table t (update_rows p f (w_db w t)) (w_db w) |>) →
  returns (update t p f) w Q.
Proof. intros Hh Hc HQ. unfold returns. by rewrite update_run. Qed.

Section returns_by_id.
Context {env : Env}.

Lemma returns_get_by_id t id r w Q :
  healthy w → first_where (by_id t id) (w_db w t) = Some r → Q r w →
  returns (get_by_id t id) w Q.
Proof. intros Hh Hr HQ. unfold returns. by rewrite (get_by_id_run t id r). Qed.

Lemma returns_update_by_id t id f r w Q :
  healthy w → first_where (by_id t id) (w_db w t) = Some r →
  check_update t f (w_db w) (select (by_id t id) (w_db w t)) = None →
  Q (f r) (w <| w_db := set_table t (update_rows (by_id t id) f (w_db w t)) (w_db w) |>) →
  returns (update_by_id t id f) w Q.
Proof. intros Hh Hr Hc HQ. unfold returns. by rewrite (update_by_id_run t id f r). Qed.

(** An audit entry never stops a call, written or lost. *)
Lemma returns_audit {E} a b c d e w Q :
  (∀ w', (∀ t, t ≠ Audit_log → w_db w' t = w_db w t) → (healthy w → healthy w') →
     w_now w' = w_now w → w_pool w' = w_pool w → w_dnc w' = w_dnc w → Q tt w') →
  returns (audit a b c d e : M World E unit) w Q.
Proof.
  intros H. apply returns_best_effort.
  destruct (insert_audit_frame a b c d e w) as (F & _ & Hn & Hp & Hd). apply H; try done.
  unfold insert_audit, mbind, M_bind, map_err, new_id, gets, insert, statement, healthy. simpl.
  intros Hh. rewrite Hh. simpl. destruct (check_row Audit_log _ _); simpl; by rewrite ?Hh.
Qed.
End returns_by_id.

(** One rule, then the next; the conditions on the current world are left when they do not
    follow from its form. *)
Ltac mgo_step :=
  lazymatch goal with
  | |- returns (_ ≫= _) _ _ => apply returns_bind
  | |- returns (mret _) _ _ => apply returns_ret
  | |- returns (gets _) _ _ => apply returns_gets
  | |- returns (throw_if _ _) _ _ => apply returns_throw_if; [try done|]
  | |- returns (map_err _ _) _ _ => apply returns_map_err
  | |- returns new_id _ _ => apply returns_new_id
  | |- returns (publish _) _ _ => apply returns_publish
  | |- returns (transaction _ _) _ _ => apply returns_transaction; [try done|]
  | |- returns require_pool _ _ => apply returns_require_pool; [try done|]
  | |- returns (query _) _ _ => apply returns_query; [try done|]
  | |- returns (fetch ?t ?p) ?w ?Q => refine (returns_fetch t p w Q _ _); [try done|]
  | |- returns (fetch_optional _) _ _ => apply returns_fetch_optional
  | |- returns (fetch_one _) _ _ => apply returns_fetch_one
  end.

Ltac mgo := repeat (mgo_step; cbv beta).

(** A write; the first goal is that the constraints admit it. *)
Ltac mwrite :=
  lazymatch goal with
  | |- returns (insert ?t ?r) ?w ?Q => refine (returns_insert t r w Q _ _ _); [try done| |]
  | |- returns (update ?t ?p ?f) ?w ?Q =>
      refine (returns_update t p f w Q _ _ _); [try done| |]
  end.

(** Reading or writing the row [r] by its id. *)
Tactic Notation "mrow" constr(r) :=
  lazymatch goal with
  | |- returns (get_by_id ?t ?id) ?w ?Q =>
      refine (returns_get_by_id t id r w Q _ _ _); [try done|try done|]
  | |- returns (update_by_id ?t ?id ?f) ?w ?Q =>
      refine (returns_update_by_id t id f r w Q _ _ _ _); [try done|try done| |]
  end.

(** ** Evolution of one table

    [table_evolves T R m]: whatever [m] returns, it takes the rows of [T] to [R]-related
    ones. Calls that write other tables are discharged by the hints. *)

Definition on_table (T : table) (R : relation (list (row T))) : relation World :=
  λ w w', R (w_db w T) (w_db w' T).

#[global] Instance on_table_preorder T R `{!PreOrder R} : PreOrder (on_table T R).
Proof.
  split; [intros w; unfold on_table; reflexivity|].
  intros w1 w2 w3. unfold on_table. apply transitivity.
Qed.

Abbreviation table_evolves T R m := (evolves (on_table T R) m).

Section table_evolves.
Context (T : table) (R : relation (list (row T))) `{!PreOrder R}.

Lemma evolves_statement {A} (f : Db → Result (A * Db) SqlError) :
  (∀ db a db', f db = Ok (a, db') → R (db T) (db' T)) → table_evolves T R (statement f).
Proof.
  intros Hf w. unfold on_table, state_after, statement. case_match; [reflexivity|].
  destruct (f (w_db w)) as [[a db]|e] eqn:E; simpl; [by eapply Hf|reflexivity].
Qed.

Lemma evolves_query {A} (f : Db → A) : table_evolves T R (query f).
Proof. apply evolves_statement. intros db a db' [= _ <-]. reflexivity. Qed.

Lemma evolves_fetch t p : table_evolves T R (fetch t p).
Proof. apply evolves_query. Qed.

Lemma evolves_fetch_optional {A} (m : M World SqlError (list A)) :
  table_evolves T R m → table_evolves T R (fetch_optional m).
Proof. intros Hm. unfold fetch_optional. evolve. Qed.

Lemma evolves_fetch_one {A} (m : M World SqlError (list A)) :
  table_evolves T R m → table_evolves T R (fetch_one m).
Proof. intros Hm. unfold fetch_one. evolve. Qed.

Lemma evolves_insert_other t r : t ≠ T → table_evolves T R (insert t r).
Proof.
  intros Hne. apply evolves_statement. intros db a db' H. case_match; simplify_eq.
  rewrite set_table_ne by done. reflexivity.
Qed.

Lemma evolves_insert r :
  (∀ db, check_row T r db = None → R (db T) (db T ++ [r])) →
  table_evolves T R (insert T r).
Proof.
  intros Hr. apply evolves_statement. intros db a db' H. case_match; simplify_eq.
  rewrite set_table_eq. by apply Hr.
Qed.

Lemma evolves_insert_or_ignore_other t c r :
  t ≠ T → table_evolves T R (insert_or_ignore t c r).
Proof.
  intros Hne. apply evolves_statement. intros db a db' H.
  repeat case_match; simplify_eq; [reflexivity|].
  rewrite set_table_ne by done. reflexivity.
Qed.

Lemma evolves_insert_or_ignore c r :
  (∀ db, check_row T r db = None → R (db T) (db T ++ [r])) →
  table_evolves T R (insert_or_ignore T c r).
Proof.
  intros Hr. apply evolves_statement. intros db a db' H.
  repeat case_match; simplify_eq; [reflexivity|]. rewrite set_table_eq. by apply Hr.
Qed.

Lemma evolves_update_other t p f : t ≠ T → table_evolves T R (update t p f).
Proof.
  intros Hne. apply evolves_statement. intros db a db' H. case_match; simplify_eq.
  rewrite set_table_ne by done. reflexivity.
Qed.

Lemma evolves_update p f :
  (∀ l, R l (update_rows p f l)) → table_evolves T R (update T p f).
Proof.
  intros Hr. apply evolves_statement. intros db a db' H. case_match; simplify_eq.
  rewrite set_table_eq. apply Hr.
Qed.

Lemma evolves_upsert_other t r merge : t ≠ T → table_evolves T R (upsert t r merge).
Proof.
  intros Hne. apply evolves_statement. intros db a db' H. cbv zeta in H.
  repeat case_match; simplify_eq; rewrite set_table_ne by done; reflexivity.
Qed.

Lemma evolves_query_limit {A} limit (f : Db → list A) :
  table_evolves T R (query_limit limit f).
Proof.
  apply evolves_statement. intros db a db' H. case_match; simplify_eq. reflexivity.
Qed.

Lemma evolves_delete_other t p : t ≠ T → table_evolves T R (delete t p).
Proof.
  intros Hne. apply evolves_statement. intros db a db' H. simplify_eq.
  rewrite set_table_ne by done. reflexivity.
Qed.

#[local] Hint Resolve evolves_query evolves_insert_other : evolves.

Lemma evolves_transaction {E A} (lift : SqlError → E) (m : M World E A) :
  table_evolves T R m → table_evolves T R (transaction lift m).
Proof.
  intros Hm w. unfold on_table, state_after, transaction.
  assert (table_evolves T R (enclosed lift m)) as Hall
    by (unfold enclosed, begin_, commit; evolve).
  specialize (Hall w). unfold on_table, state_after in Hall.
  destruct (enclosed lift m w) as [[a|e] w']; [done|reflexivity].
Qed.

Lemma evolves_require_pool : table_evolves T R require_pool.
Proof. intros w. unfold state_after, require_pool. case_match; reflexivity. Qed.

Lemma evolves_publish {E} ev : table_evolves T R (publish ev : M World E unit).
Proof. intros w. unfold on_table, state_after. simpl. reflexivity. Qed.

Lemma evolves_new_id `{!Env} {E} : table_evolves T R (new_id : M World E string).
Proof. intros w. unfold on_table, state_after. simpl. reflexivity. Qed.

Lemma evolves_audit `{!Env} {E} a b c d e :
  Audit_log ≠ T → table_evolves T R (audit a b c d e : M World E unit).
Proof.
  intros Hne. unfold audit, insert_audit. pose proof @evolves_new_id. evolve.
Qed.
Lemma evolves_get_by_id {env : Env} t id : table_evolves T R (get_by_id t id).
Proof.
  unfold get_by_id, fetch_optional, fetch. evolve.
Qed.

Lemma evolves_update_by_id_other {env : Env} t id f :
  t ≠ T → table_evolves T R (update_by_id t id f).
Proof.
  intros Hne. unfold update_by_id, fetch_optional.
  pose proof (evolves_update_other t (by_id t id) f Hne). evolve.
Qed.

Lemma evolves_update_by_id {env : Env} id f :
  (∀ l, R l (update_rows (by_id T id) f l)) → table_evolves T R (update_by_id T id f).
Proof.
  intros Hr. unfold update_by_id, fetch_optional.
  pose proof (evolves_update (by_id T id) f Hr). evolve.
Qed.
End table_evolves.

#[export] Hint Resolve evolves_query evolves_query_limit evolves_fetch evolves_fetch_optional evolves_fetch_one
  evolves_transaction evolves_require_pool evolves_publish evolves_new_id
  evolves_get_by_id : evolves.
#[export] Hint Extern 1 (evolves _ (insert _ _)) =>
  apply evolves_insert_other; [typeclasses eauto|discriminate] : evolves.
#[export] Hint Extern 1 (evolves _ (insert_or_ignore _ _ _)) =>
  apply evolves_insert_or_ignore_other; [typeclasses eauto|discriminate] : evolves.
#[export] Hint Extern 1 (evolves _ (update _ _ _)) =>
  apply evolves_update_other; [typeclasses eauto|discriminate] : evolves.
#[export] Hint Extern 1 (evolves _ (update_by_id _ _ _)) =>
  apply evolves_update_by_id_other; [typeclasses eauto|discriminate] : evolves.
#[export] Hint Extern 1 (evolves _ (upsert _ _ _)) =>
  apply evolves_upsert_other; [typeclasses eauto|discriminate] : evolves.
#[export] Hint Extern 1 (evolves _ (delete _ _)) =>
  apply evolves_delete_other; [typeclasses eauto|discriminate] : evolves.
#[export] Hint Extern 1 (evolves _ (audit _ _ _ _ _)) =>
  apply evolves_audit; [typeclasses eauto|discriminate] : evolves.

(** ** Atomicity

    [atomic m]: when [m] fails, for whatever reason, the database is as it was. [reads m]:
    [m] never writes. [total m]: [m] never fails. *)

Definition same_db : relation World := λ w w', w_db w' = w_db w.

#[global] Instance same_db_preorder : PreOrder same_db.
Proof. split; unfold same_db; [done|]. intros w1 w2 w3. congruence. Qed.

Abbreviation reads m := (evolves same_db m).

Definition total {E A} (m : M World E A) : Prop := ∀ w, is_ok (result m w) = true.

Definition atomic {E A} (m : M World E A) : Prop :=
  ∀ w e w', m w = (Err e, w') → w_db w' = w_db w.

Create HintDb atomic.

Section atomic.
Context {E : Type}.

Lemma reads_statement {A} (f : Db → Result (A * Db) SqlError) :
  (∀ db a db', f db = Ok (a, db') → db' = db) → reads (statement f).
Proof.
  intros Hf w. unfold same_db, state_after, statement. case_match; [done|].
  destruct (f (w_db w)) as [[a db]|] eqn:H1; [|done]. by apply Hf in H1.
Qed.

Lemma reads_query {A} (f : Db → A) : reads (query f).
Proof. apply reads_statement. by intros db a db' [= _ <-]. Qed.

Lemma reads_fetch_optional {A} (m : M World SqlError (list A)) :
  reads m → reads (fetch_optional m).
Proof. intros Hm. unfold fetch_optional. evolve. Qed.

Lemma reads_fetch_one {A} (m : M World SqlError (list A)) : reads m → reads (fetch_one m).
Proof. intros Hm. unfold fetch_one. evolve. Qed.

Lemma reads_query_limit {A} n (f : Db → list A) : reads (query_limit n f).
Proof.
  intros w. unfold same_db, state_after, query_limit, statement.
  repeat case_match; simplify_eq; reflexivity.
Qed.

Lemma reads_require_pool : reads require_pool.
Proof. intros w. unfold same_db, state_after, require_pool. case_match; reflexivity. Qed.

Lemma reads_new_id {env : Env} : reads (new_id : M World E string).
Proof. done. Qed.

Lemma reads_draw_random : reads (draw_random : M World E nat).
Proof. done. Qed.

Lemma reads_publish ev : reads (publish ev : M World E unit).
Proof. done. Qed.

Lemma reads_fetch t p : reads (fetch t p).
Proof. apply reads_query. Qed.

Lemma reads_get_by_id {env : Env} t id : reads (get_by_id t id).
Proof.
  unfold get_by_id, fetch_optional. pose proof reads_fetch. evolve.
Qed.

Lemma total_ret {A} (a : A) : total (mret a : M World E A).
Proof. done. Qed.

Lemma total_publish ev : total (publish ev : M World E unit).
Proof. done. Qed.

Lemma total_best_effort {F A} (m : M World F A) : total (best_effort m : M World E unit).
Proof. done. Qed.

Lemma total_bind {A B} (m : M World E A) (k : A → M World E B) :
  total m → (∀ a, total (k a)) → total (m ≫= k).
Proof.
  intros Hm Hk w. specialize (Hm w). unfold result, mbind, M_bind in *.
  destruct (m w) as [[a|e] w']; [apply Hk|done].
Qed.

Lemma atomic_statement {A} (f : Db → Result (A * Db) SqlError) : atomic (statement f).
Proof. intros w e w' H. by apply statement_Err in H as ->. Qed.

Lemma atomic_reads {A} (m : M World E A) : reads m → atomic m.
Proof.
  intros Hm w e w' H. specialize (Hm w). unfold same_db, state_after in Hm.
  by rewrite H in Hm.
Qed.

Lemma atomic_map_err {F A} (f : F → E) (m : M World F A) : atomic m → atomic (map_err f m).
Proof.
  intros Hm w e w' H. unfold map_err in H. destruct (m w) as [[a|e'] w1] eqn:E0;
    simplify_eq. by eapply Hm.
Qed.

Lemma atomic_bind_reads {A B} (m : M World E A) (k : A → M World E B) :
  reads m → (∀ a, atomic (k a)) → atomic (m ≫= k).
Proof.
  intros Hm Hk w e w' H. specialize (Hm w). unfold same_db, state_after in Hm.
  unfold mbind, M_bind in H. destruct (m w) as [[a|e'] w1]; simpl in Hm; simplify_eq; [|done].
  rewrite <- Hm. by eapply Hk.
Qed.

Lemma atomic_bind_total {A B} (m : M World E A) (k : A → M World E B) :
  atomic m → (∀ a, total (k a)) → atomic (m ≫= k).
Proof.
  intros Hm Hk w e w' H. unfold mbind, M_bind in H.
  destruct (m w) as [[a|e'] w1] eqn:E0; simplify_eq; [|by eapply Hm].
  specialize (Hk a w1). unfold result in Hk. by rewrite H in Hk.
Qed.

Lemma atomic_transaction {A} (lift : SqlError → E) (m : M World E A) :
  atomic (transaction lift m).
Proof. intros w e w'. apply transaction_Err. Qed.
End atomic.

Lemma atomic_fetch_optional {A} (m : M World SqlError (list A)) :
  atomic m → atomic (fetch_optional m).
Proof. intros Hm. apply atomic_bind_total; [done|]. intros rows. apply total_ret. Qed.

Lemma atomic_insert t r : atomic (insert t r).
Proof. apply atomic_statement. Qed.

(** An update by id that finds no row has written nothing. *)
Lemma update_rows_head_None {A} (p : A → bool) f l :
  head (map f (select p l)) = None → update_rows p f l = l.
Proof.
  intros H. apply update_rows_none. intros x Hx. destruct (p x) eqn:E; [|done].
  assert (x ∈ select p l) by (by apply elem_of_select).
  destruct (select p l) as [|y k]; [by apply elem_of_nil in H0|done].
Qed.

Lemma atomic_update_by_id {env : Env} t id f : atomic (update_by_id t id f).
Proof.
  intros w e w'. unfold update_by_id, fetch_optional, mbind, M_bind, map_err.
  destruct (update t (by_id t id) f w) as [[rows|e'] w1] eqn:Eu; simpl.
  - apply update_Ok in Eu as (-> & _ & ->).
    destruct (head _) eqn:Eh; simpl; intros [= <- <-]. simpl.
    rewrite (update_rows_head_None _ _ _ Eh). apply set_table_id.
  - intros [= <- <-]. by apply (atomic_statement _ _ _ _ Eu).
Qed.

#[export] Hint Resolve reads_query reads_fetch_optional reads_fetch_one reads_query_limit reads_require_pool reads_new_id
  reads_draw_random reads_publish reads_fetch reads_get_by_id : evolves.
#[export] Hint Resolve total_ret total_publish total_best_effort total_bind
  atomic_statement atomic_map_err atomic_transaction atomic_fetch_optional
  atomic_insert atomic_update_by_id : atomic.
#[export] Hint Extern 1 (atomic (update_by_id ?t ?i ?f)) =>
  exact (atomic_update_by_id t i f) : atomic.
#[export] Hint Extern 1 (atomic (insert ?t ?r)) => exact (atomic_insert t r) : atomic.

(** Passes the reads at the head of a call. *)
Ltac past_reads :=
  repeat lazymatch goal with
  | |- atomic (mbind _ _) => apply atomic_bind_reads; [solve [evolve]|intros ?]
  end.

(** ** Handlers run for their effect *)

Definition ignore {A} (m : M World ApiErr A) : M World ApiErr unit := m ;; mret tt.

Lemma atomic_ignore {A} (m : M World ApiErr A) : atomic m → atomic (ignore m).
Proof. intros Hm. apply atomic_bind_total; [done|]. intros a. apply total_ret. Qed.

Lemma ignore_Ok {A} (m : M World ApiErr A) u w w' :
  ignore m w = (Ok u, w') → ∃ a, m w = (Ok a, w').
Proof. intros (a & w1 & H & [_ ->]%ret_Ok)%bind_Ok. eauto. Qed.

Lemma ignore_state {A} (m : M World ApiErr A) w : (ignore m w).2 = (m w).2.
Proof. unfold ignore, mbind, M_bind. by destruct (m w) as [[] ?]. Qed.

(** ** Invariants of the database *)

(** The invariant [I] of the database is kept. *)
Definition keeps (I : Db → Prop) : relation World := λ w w', I (w_db w) → I (w_db w').

#[global] Instance keeps_preorder I : PreOrder (keeps I).
Proof. split; [by intros w H|]. intros w1 w2 w3 H12 H23 H1. by apply H23, H12. Qed.

Section keeps.
Context (I : Db → Prop).

Lemma keeps_reads {E A} (m : M World E A) : reads m → evolves (keeps I) m.
Proof.
  intros Hm w HI. specialize (Hm w). unfold same_db in Hm. by rewrite Hm.
Qed.

Lemma keeps_cases {E A} (m : M World E A) :
  atomic m → (∀ a w w', m w = (Ok a, w') → I (w_db w) → I (w_db w')) → evolves (keeps I) m.
Proof.
  intros Ha Hok w HI. unfold state_after. destruct (m w) as [[a|e] w'] eqn:Em; simpl.
  - by eapply Hok.
  - apply Ha in Em. by rewrite Em.
Qed.

End keeps.

(** ** Rows that change step by step

    [grows ok new l l']: every row of [l] is still there, in place, as an [ok]-successor of
    itself, and the rows added since are [new]. *)

Section grows.
Context {A : Type} (ok : relation A) (new : A → Prop).

Definition grows (l l' : list A) : Prop :=
  ∃ k e, l' = k ++ e ∧ Forall2 ok l k ∧ Forall new e.

Context `{!PreOrder ok} (new_ok : ∀ x y, new x → ok x y → new y).

#[global] Instance grows_preorder : PreOrder grows.
Proof.
  split.
  - intros l. exists l, []. rewrite app_nil_r. split_and!; [done|reflexivity|constructor].
  - intros l1 l2 l3 (k1 & e1 & -> & Hok1 & Hnew1) (k2 & e2 & -> & Hok2 & Hnew2).
    apply Forall2_app_inv_l in Hok2 as (k2a & k2b & Ha & Hb & ->).
    exists k2a, (k2b ++ e2). rewrite app_assoc. split_and!; [done|by etrans|].
    apply Forall_app. split; [|done]. clear - Hnew1 Hb new_ok.
    induction Hb; inversion Hnew1; simplify_eq; constructor; eauto.
Qed.

Lemma grows_insert l r : new r → grows l (l ++ [r]).
Proof.
  intros H. exists l, [r]. split_and!; [done|reflexivity|]. by constructor.
Qed.

Lemma grows_update (p : A → bool) f l :
  (∀ x, x ∈ l → p x = true → ok x (f x)) → grows l (update_rows p f l).
Proof.
  intros H. exists (update_rows p f l), []. rewrite app_nil_r. split_and!; [done| |done].
  unfold update_rows. induction l as [|x l IH]; simpl; constructor.
  - destruct (p x) eqn:E; [|reflexivity]. apply H; [left|done].
  - apply IH. intros y Hy. apply H. by right.
Qed.

Lemma grows_lookup l l' i x :
  grows l l' → l !! i = Some x → ∃ y, l' !! i = Some y ∧ ok x y.
Proof.
  intros (k & e & -> & Hok & _) Hx.
  apply (Forall2_lookup_l _ _ _ _ _ Hok) in Hx as (y & Hy & ?).
  exists y. split; [|done]. by apply lookup_app_l_Some.
Qed.
End grows.

(** A loop whose body only reads. *)
Lemma mapM_reads {E A B} (P : A → B → Prop) (f : A → M World E B) (l : list A) db ys w w' :
  (∀ x y v v', w_db v = db → f x v = (Ok y, v') → P x y ∧ w_db v' = db) →
  w_db w = db → mapM_list f l w = (Ok ys, w') → Forall2 P l ys ∧ w_db w' = db.
Proof.
  intros Hf. revert w ys w'.
  induction l as [|x l IH]; simpl; intros v ys w' Hv H.
  - apply ret_Ok in H as [-> ->]. by split; [constructor|].
  - apply bind_Ok in H as (y & v1 & Hy & H). apply Hf in Hy as [HP Hv1]; [|done].
    apply bind_Ok in H as (ys' & v2 & Hys & [-> ->]%ret_Ok).
    apply IH in Hys as [HF Hv2]; [|done]. by split; [constructor|].
Qed.

(** ** Appending rows

    [appends T rows w w']: the database of [w'] is that of [w] with [rows] added to [T]. *)

Definition appends (T : table) (rows : list (row T)) (w w' : World) : Prop :=
  w_db w' T = w_db w T ++ rows ∧ ∀ t, t ≠ T → w_db w' t = w_db w t.

Lemma appends_nil T w : appends T [] w w.
Proof. split; [by rewrite app_nil_r|done]. Qed.

Lemma appends_trans T rows1 rows2 w1 w2 w3 :
  appends T rows1 w1 w2 → appends T rows2 w2 w3 → appends T (rows1 ++ rows2) w1 w3.
Proof.
  intros [E1 F1] [E2 F2]. split; [by rewrite E2, E1, app_assoc|].
  intros t Ht. by rewrite F2, F1.
Qed.

Lemma appends_db T rows w w' v v' :
  w_db w = w_db v → w_db w' = w_db v' → appends T rows w w' → appends T rows v v'.
Proof. unfold appends. by intros -> ->. Qed.

Lemma insert_appends t r a w w' :
  insert t r w = (Ok a, w') → a = r ∧ appends t [r] w w'.
Proof.
  intros (-> & _ & ->)%insert_Ok. split; [done|]. split; simpl; [apply set_table_eq|].
  intros t' Ht. by apply set_table_ne.
Qed.

(** A loop that inserts one row per element. *)
Lemma forM_appends {E A B} (T : table) (proj : row T → B) (spec : A → B)
    (f : A → M World E unit) l u w w' :
  (∀ x v v' u, f x v = (Ok u, v') → ∃ r, proj r = spec x ∧ appends T [r] v v') →
  forM_ l f w = (Ok u, w') →
  ∃ rows, map proj rows = map spec l ∧ appends T rows w w'.
Proof.
  intros Hf. revert w. induction l as [|x l IH]; simpl; intros w H.
  - apply ret_Ok in H as [_ ->]. exists []. split; [done|apply appends_nil].
  - apply bind_Ok in H as (u1 & w1 & (r & Hr & H1)%Hf & (rows & Hrows & H2)%IH).
    exists (r :: rows). split; [simpl; congruence|].
    exact (appends_trans _ [r] _ _ _ _ H1 H2).
Qed.

Lemma mapM_appends {E A B} (T : table) (proj : row T → B) (spec : A → B)
    (f : A → M World E (row T)) l rows w w' :
  (∀ x v v' r, f x v = (Ok r, v') → proj r = spec x ∧ appends T [r] v v') →
  mapM_list f l w = (Ok rows, w') →
  map proj rows = map spec l ∧ appends T rows w w'.
Proof.
  intros Hf. revert w w' rows. induction l as [|x l IH]; simpl; intros w w' rows H.
  - apply ret_Ok in H as [-> ->]. split; [done|apply appends_nil].
  - apply bind_Ok in H as (r & w1 & [Hr H1]%Hf & H).
    apply bind_Ok in H as (rs & w2 & [Hrs H2]%IH & [-> ->]%ret_Ok).
    split; [simpl; congruence|]. exact (appends_trans _ [r] _ _ _ _ H1 H2).
Qed.

(** ** Fresh identifiers

    [ids_from t n w]: no row of [t] carries an identifier still to be drawn from the [n]-th
    on. With an injective source, inserting under a drawn identifier never conflicts on the
    primary key. *)

Section fresh.
Context {env : Env} `{!Inj (=) (=) ulid}.

Definition ids_from (t : table) (n : nat) (db : Db) : Prop :=
  ∀ r m, r ∈ db t → (n <= m)%nat → key t r ≠ ulid m.

Lemma ids_from_append t n db db' r :
  db' t = db t ++ [r] → ids_from t n db → key t r = ulid n → ids_from t (S n) db'.
Proof.
  intros E Hfr Hk x m Hx Hm. rewrite E in Hx. apply elem_of_app in Hx as [Hx|Hx].
  - apply Hfr; [done|lia].
  - apply list_elem_of_singleton in Hx as ->. rewrite Hk. intros Heq%(inj _). lia.
Qed.

Lemma ids_from_fresh t n db r :
  ids_from t n db → key t r = ulid n → exists_row (same (key t) r) (db t) = false.
Proof.
  intros Hfr Hk. apply exists_row_false. intros x Hx. unfold same.
  apply bool_decide_eq_false. intros E. apply (Hfr x n Hx); [lia|congruence].
Qed.

Lemma ids_from_weaken t n m db : (n <= m)%nat → ids_from t n db → ids_from t m db.
Proof. intros Hle Hfr r k Hr Hk. apply Hfr; [done|lia]. Qed.

Lemma ids_from_mono t n db db' :
  (∀ r, r ∈ db' t → r ∈ db t) → ids_from t n db → ids_from t n db'.
Proof. intros Hsub Hfr r k Hr Hk. apply Hfr; auto. Qed.
End fresh.
