(* ===== verification/Cascade.v ===== *)
(** * Deletes that cascade and updates of unique columns

    The two statements master-data maintenance adds to those of [Sql]: a DELETE that follows
    the foreign keys of [crates/mes-db/migrations] ([ON DELETE CASCADE], [ON DELETE SET NULL],
    refused otherwise), and an UPDATE of one row that sets unique columns. The executable
    delete is bounded by the depth of the cascade graph; [dooms_reached] proves that bound
    is enough for the closure it stands for. *)

From Stdlib Require Import FunctionalExtensionality.
From S2P Require Import Prelude Schema Sql.

(** Every table of the schema. *)
Definition all_tables : list table :=
  [Roles; Users; Audit_log; Sites; Areas; Work_centers; Shifts; Planned_stops; Parts;
   Routings; Routing_ops; Programs; Signal_sources; Machine_events; Production_counts;
   Machine_states; Downtime_reasons; Scrap_reasons; Downtime_events; Work_orders;
   Wo_operations; Dnc_transfer_events; Program_revisions; Lots; Serials; Genealogy;
   Material_txns; Holds; Inspection_plans; Characteristics; Inspection_results; Ncrs;
   Pm_schedules; Maintenance_work_orders; Spare_parts; Spare_txns; Procurement_requests;
   Outbox; Applied_entries; Orgs; Plants; Erp_connections; Erp_sync_log; Copilot_messages].

Lemma all_tables_complete t : t ∈ all_tables.
Proof. apply (bool_decide_unpack (t ∈ all_tables)). by destruct t. Qed.

(** How many cascades can follow one another to reach a table. *)
Definition depth (t : table) : nat :=
  match t with
  | Areas | Shifts | Routings | Wo_operations | Inspection_plans | Spare_txns
  | Procurement_requests | Plants | Erp_connections | Copilot_messages => 1
  | Work_centers | Routing_ops | Characteristics | Erp_sync_log => 2
  | Planned_stops | Programs | Signal_sources | Machine_events | Production_counts
  | Machine_states | Downtime_events | Pm_schedules | Maintenance_work_orders => 3
  | _ => 0
  end%nat.

Lemma cascades_depth t r x : x ∈ cascades t r → (depth x.1 < depth t)%nat.
Proof.
  intros Hx%list_elem_of_In. destruct t; simpl in Hx; unfold opt_ref in Hx;
    repeat (case_match; simpl in Hx); simpl;
    repeat (destruct Hx as [<-|Hx]; [simpl; lia|]); done.
Qed.

(** Cascading keys are foreign keys. *)
Lemma cascades_references t r x : x ∈ cascades t r → x ∈ references t r.
Proof.
  destruct t; simpl; rewrite ?elem_of_app, ?elem_of_cons, ?elem_of_nil; tauto.
Qed.

Section cascade.
Context (root : ∀ t, row t → bool) (db : Db).

(** The row [x] names, among the rows that satisfy [p]. *)
Definition names (p : ∀ t, row t → bool) (x : table * string) : bool :=
  exists_row (λ o, String.eqb (key x.1 o) x.2 && p x.1 o) (db x.1).

(** A row goes with the rows deleted when one it refers to by a cascading key goes. *)
Fixpoint doomed (n : nat) (t : table) (r : row t) : bool :=
  root t r ||
  match n with
  | O => false
  | S n' => existsb (names (doomed n')) (cascades t r)
  end.

Definition dooms (t : table) (r : row t) : bool := doomed (depth t) t r.

Definition gone (t : table) (id : string) : bool := names dooms (t, id).

(** What remains. *)
Definition remaining : Db := λ t, map (detach gone t) (delete_rows (dooms t) (db t)).

(** The rows that remain and still refer to one that goes: their tables, and its. *)
Definition offenders : list (table * table) :=
  flat_map (λ t, flat_map (λ r,
    map (λ x, (t, x.1)) (select (λ x, gone x.1 x.2) (references t r))) (remaining t))
    all_tables.

Definition blocked : option (table * table) := head offenders.
End cascade.

(** A condition on one table, on all of them. *)
Definition at_table (t0 : table) (p : row t0 → bool) (t : table) : row t → bool :=
  match decide (t0 = t) with
  | left e => eq_rect t0 (λ t, row t → bool) p t e
  | right _ => λ _, false
  end.

(** [DELETE ... WHERE p]; the number of rows deleted from the table itself. *)
Definition delete_cascading (t : table) (p : row t → bool) : M World SqlError nat :=
  statement (λ db,
    match blocked (at_table t p) db with
    | Some (t1, t2) => Err (ForeignKeyViolation t1 t2)
    | None => Ok (length (select p (db t)), remaining (at_table t p) db)
    end).

(** The checks on replacing the row with key [id] by [new]. *)
Definition check_replacement (t : table) (id : string) (old new : row t) (db : Db) :
    option SqlError :=
  if negb (in_range t new) then Some OutOfRange
  else match violated 0 (uniques t) new (delete_rows (by_id t id) (db t)) with
       | Some n => Some (UniqueViolation t n)
       | None =>
           match dangling db (new_references t old new) with
           | Some t' => Some (ForeignKeyViolation t t')
           | None => None
           end
       end.

(** [UPDATE ... SET f WHERE id = $1 RETURNING], for an [f] that may set unique columns. *)
Definition update_unique (t : table) (id : string) (f : row t → row t) :
    M World SqlError (option (row t)) := statement (λ db,
  match first_where (by_id t id) (db t) with
  | None => Ok (None, db)
  | Some old =>
      match check_replacement t id old (f old) db with
      | Some e => Err e
      | None => Ok (Some (f old), set_table t (update_rows (by_id t id) f (db t)) db)
      end
  end).

(** ** The closure the delete stands for *)

Section closure.
Context (root : ∀ t, row t → bool) (db : Db).

(** The rows a delete of [root] takes with it. *)
Inductive reached : ∀ t, row t → Prop :=
  | reached_root t r : root t r = true → reached t r
  | reached_cascade t r t' id o :
      (t', id) ∈ cascades t r → o ∈ db t' → key t' o = id → reached t' o → reached t r.

Lemma names_true p x :
  names db p x = true ↔ ∃ o, o ∈ db x.1 ∧ key x.1 o = x.2 ∧ p x.1 o = true.
Proof.
  unfold names. rewrite exists_row_true. apply exist_proper. intros o.
  rewrite andb_true_iff, String.eqb_eq. tauto.
Qed.

Lemma doomed_sound n t r : doomed root db n t r = true → reached t r.
Proof.
  revert t r. induction n as [|n IH]; intros t r; simpl; rewrite orb_true_iff.
  - intros [H|[=]]. by apply reached_root.
  - intros [H|H]; [by apply reached_root|].
    apply existsb_exists in H as ([t' id] & Hin & (o & Ho & Hk & Hd)%names_true).
    eapply reached_cascade; [by apply list_elem_of_In|exact Ho|exact Hk|by apply IH].
Qed.

Lemma reached_doomed t r n : reached t r → (depth t <= n)%nat → doomed root db n t r = true.
Proof.
  intros H. revert n. induction H as [t r H|t r t' id o Hin Ho Hk _ IH]; intros n Hn.
  - destruct n; simpl; by rewrite H.
  - pose proof (cascades_depth _ _ _ Hin) as Hd. simpl in Hd.
    destruct n as [|n]; [lia|]. simpl. apply orb_true_iff. right.
    apply existsb_exists. exists (t', id). split; [by apply list_elem_of_In|].
    apply names_true. exists o. split_and!; [done..|]. apply IH. lia.
Qed.

(** The bounded search finds the whole closure. *)
Lemma dooms_reached t r : dooms root db t r = true ↔ reached t r.
Proof. split; [apply doomed_sound|]. intros H. by apply reached_doomed. Qed.

Lemma gone_true t id :
  gone root db t id = true ↔ ∃ o, o ∈ db t ∧ key t o = id ∧ reached t o.
Proof.
  unfold gone. rewrite names_true. apply exist_proper. intros o. by rewrite dooms_reached.
Qed.

Lemma elem_of_remaining t x :
  x ∈ remaining root db t ↔
  ∃ r, r ∈ db t ∧ ¬ reached t r ∧ x = detach (gone root db) t r.
Proof.
  unfold remaining. rewrite list_elem_of_fmap. apply exist_proper. intros r.
  rewrite elem_of_delete_rows, <- dooms_reached, not_true_iff_false. tauto.
Qed.

Lemma blocked_None :
  blocked root db = None ↔
  ∀ t r x, r ∈ remaining root db t → x ∈ references t r → gone root db x.1 x.2 = false.
Proof.
  unfold blocked. split.
  - intros H t r x Hr Hx. apply not_true_iff_false. intros Hg.
    assert ((t, x.1) ∈ offenders root db) as Hin.
    { unfold offenders. apply list_elem_of_In, in_flat_map. exists t.
      split; [apply list_elem_of_In, all_tables_complete|].
      apply in_flat_map. exists r. split; [by apply list_elem_of_In|].
      apply in_map_iff. exists x. split; [done|].
      apply list_elem_of_In, elem_of_select. by split. }
    destruct (offenders root db); [by apply elem_of_nil in Hin|done].
  - intros H. destruct (offenders root db) as [|y l] eqn:E; [done|].
    assert (In y (offenders root db)) as Hy by (rewrite E; by left).
    apply in_flat_map in Hy as (t & _ & (r & Hr & Hy)%in_flat_map).
    apply in_map_iff in Hy as (x & _ & [Hg Hx]%list_elem_of_In%elem_of_select).
    apply list_elem_of_In in Hr. by rewrite (H t r x Hr Hx) in Hg.
Qed.
End closure.

(** ** Repository forms *)

Section repository.
Context {env : Env}.

(** [UPDATE ... WHERE id = $1 RETURNING], not found when no row matches. *)
Definition update_unique_by_id (t : table) (id : string) (f : row t → row t) :
    M World RepoError (row t) :=
  row ← map_err map_sqlx (update_unique t id f);
  ok_or row NotFound.

(** [DELETE ... WHERE id = $1], not found when [rows_affected] is zero. *)
Definition delete_by_id (t : table) (id : string) : M World RepoError unit :=
  n ← map_err map_sqlx (delete_cascading t (by_id t id));
  throw_if (n =? 0)%nat NotFound.

Lemma update_unique_by_id_Ok t id f r w w' :
  update_unique_by_id t id f w = (Ok r, w') →
  ∃ old, first_where (by_id t id) (w_db w t) = Some old ∧ r = f old ∧
    check_replacement t id old (f old) (w_db w) = None ∧
    w' = (tick w) <| w_db := set_table t (update_rows (by_id t id) f (w_db w t)) (w_db w) |>.
Proof.
  unfold update_unique_by_id.
  intros (o & w1 & H%map_err_Ok & [-> ->]%ok_or_Ok)%bind_Ok.
  apply statement_Ok in H as (db & Hf & ->).
  destruct (first_where _ (w_db w t)) as [old|]; [|done].
  destruct (check_replacement _ _ _ _ _) eqn:E; simplify_eq. eauto.
Qed.

Lemma update_unique_by_id_run t id f w :
  healthy w →
  update_unique_by_id t id f w =
    match first_where (by_id t id) (w_db w t) with
    | None => (Err NotFound, w)
    | Some old =>
        match check_replacement t id old (f old) (w_db w) with
        | Some e => (Err (map_sqlx e), w)
        | None => (Ok (f old),
            w <| w_db := set_table t (update_rows (by_id t id) f (w_db w t)) (w_db w) |>)
        end
    end.
Proof.
  intros Hh. unfold update_unique_by_id, update_unique, mbind, M_bind, map_err.
  rewrite statement_run by done. destruct (first_where _ _) as [old|]; [|by destruct w].
  by destruct (check_replacement _ _ _ _ _).
Qed.

Lemma at_table_eq t p : at_table t p t = p.
Proof.
  unfold at_table. destruct (decide (t = t)) as [e|]; [|done].
  by rewrite (Eqdep_dec.UIP_dec table_eq_dec e eq_refl).
Qed.

Lemma at_table_ne t p t' r : t ≠ t' → at_table t p t' r = false.
Proof. intros H. unfold at_table. by destruct (decide (t = t')). Qed.

(** Where nothing is selected nothing is reached. *)
Lemma reached_none root db :
  (∀ t r, r ∈ db t → root t r = false) → ∀ t r, r ∈ db t → ¬ reached root db t r.
Proof.
  intros Hroot t r Hr H. induction H as [t r H|t r t' id o _ Ho _ _ IH]; [|by apply IH].
  by rewrite (Hroot t r Hr) in H.
Qed.

Lemma remaining_none root db : (∀ t r, r ∈ db t → root t r = false) → remaining root db = db.
Proof.
  intros Hroot. pose proof (reached_none root db Hroot) as Hno.
  assert (∀ t id, gone root db t id = false) as Hgone.
  { intros t id. apply not_true_iff_false. intros (o & Ho & _ & Hr)%gone_true.
    by apply (Hno t o). }
  apply functional_extensionality_dep. intros t. unfold remaining, delete_rows.
  rewrite select_all.
  - rewrite <- (map_id (db t)) at 2. apply map_ext. intros r.
    destruct t; try done. simpl. by destruct (tr_wo_operation_id r); rewrite ?Hgone.
  - intros r Hr. apply negb_true_iff, not_true_iff_false. rewrite dooms_reached.
    by apply Hno.
Qed.

Lemma select_length_0 {A} (p : A → bool) l :
  length (select p l) = 0%nat → ∀ x, x ∈ l → p x = false.
Proof.
  intros H x Hx. apply not_true_iff_false. intros Hp.
  assert (x ∈ select p l) as Hs by (by apply elem_of_select).
  destruct (select p l); [by apply elem_of_nil in Hs|done].
Qed.

(** Selecting no row of [t] selects no row at all. *)
Lemma at_table_none t p (db : Db) :
  (∀ x, x ∈ db t → p x = false) → ∀ t' r, r ∈ db t' → at_table t p t' r = false.
Proof.
  intros H t' r Hr. destruct (decide (t = t')) as [<-|Hne].
  - rewrite at_table_eq. by apply H.
  - by apply at_table_ne.
Qed.

Lemma delete_by_id_Ok t id u w w' :
  delete_by_id t id w = (Ok u, w') →
  (∃ old, old ∈ w_db w t ∧ key t old = id) ∧
  blocked (at_table t (by_id t id)) (w_db w) = None ∧
  w' = (tick w) <| w_db := remaining (at_table t (by_id t id)) (w_db w) |>.
Proof.
  unfold delete_by_id. intros (n & w1 & H%map_err_Ok & [Hn ->]%throw_if_Ok)%bind_Ok.
  apply statement_Ok in H as (db & Hf & ->).
  destruct (blocked _ _) as [[t1 t2]|] eqn:E; simplify_eq. split_and!; [|done..].
  destruct (select (by_id t id) (w_db w t)) as [|old l] eqn:Es; [done|].
  assert (old ∈ select (by_id t id) (w_db w t)) as Ho by (rewrite Es; left).
  apply elem_of_select in Ho as [Hid Ho]. unfold by_id in Hid. bool_to_prop. eauto.
Qed.

(** A delete that reports an error has deleted nothing. *)
Lemma atomic_delete_by_id t id : atomic (delete_by_id t id).
Proof.
  intros w e w'. unfold delete_by_id, mbind, M_bind, map_err.
  destruct (delete_cascading t (by_id t id) w) as [[n|e'] w1] eqn:Ed; simpl.
  - apply statement_Ok in Ed as (db & Hf & ->).
    destruct (blocked _ _) as [[t1 t2]|]; simplify_eq.
    destruct (Nat.eqb_spec (length (select (by_id t id) (w_db w t))) 0) as [H0|]; [|done].
    intros [= <- <-]. simpl. apply remaining_none, at_table_none.
    by apply select_length_0.
  - intros [= <- <-]. by apply (atomic_statement _ _ _ _ Ed).
Qed.

Lemma atomic_update_unique_by_id t id f : atomic (update_unique_by_id t id f).
Proof.
  intros w e w'. unfold update_unique_by_id, mbind, M_bind, map_err.
  destruct (update_unique t id f w) as [[[r|]|e'] w1] eqn:Eu; simpl.
  - done.
  - apply statement_Ok in Eu as (db & Hf & ->). intros [= <- <-].
    destruct (first_where _ _); [destruct (check_replacement _ _ _ _ _)|]; by simplify_eq.
  - intros [= <- <-]. by apply (atomic_statement _ _ _ _ Eu).
Qed.
End repository.

#[export] Hint Extern 1 (atomic (delete_by_id ?t ?i)) =>
  exact (atomic_delete_by_id t i) : atomic.
#[export] Hint Extern 1 (atomic (update_unique_by_id ?t ?i ?f)) =>
  exact (atomic_update_unique_by_id t i f) : atomic.

(** ** What a delete does, in terms of the closure *)

Section delete_spec.
Context {env : Env} (t : table) (id : string).
Abbreviation root := (at_table t (by_id t id)).

(** No row that remains refers to one that goes. *)
Definition deletable (db : Db) : Prop :=
  ∀ t' r x o, r ∈ db t' → ¬ reached root db t' r → x ∈ references t' r →
    o ∈ db x.1 → key x.1 o = x.2 → ¬ reached root db x.1 o.

Hypothesis not_order : t ≠ Work_orders.
Hypothesis not_operation : t ≠ Wo_operations.

(** Operations go with their orders only, so no transfer is detached. *)
Lemma operations_remain db op : gone root db Wo_operations op = false.
Proof.
  apply not_true_iff_false. intros (o & _ & _ & Hd)%names_true. revert Hd.
  unfold dooms. simpl. rewrite at_table_ne by done. simpl.
  rewrite orb_false_r. intros (o' & _ & _ & Hd)%names_true. simpl in Hd.
  by rewrite at_table_ne in Hd by done.
Qed.

Lemma detach_none db t' r : detach (gone root db) t' r = r.
Proof.
  destruct t'; try done. simpl. destruct (tr_wo_operation_id r); [|done].
  by rewrite operations_remain.
Qed.

Lemma elem_of_remaining_id db t' x :
  x ∈ remaining root db t' ↔ x ∈ db t' ∧ ¬ reached root db t' x.
Proof.
  rewrite elem_of_remaining. setoid_rewrite detach_none. naive_solver.
Qed.

Lemma blocked_deletable db : blocked root db = None ↔ deletable db.
Proof.
  rewrite blocked_None. unfold deletable. split.
  - intros H t' r x o Hr Hn Hx Ho Hk Hre.
    assert (gone root db x.1 x.2 = false) as Hg.
    { apply (H t' r); [|done]. by apply elem_of_remaining_id. }
    rewrite <- not_true_iff_false in Hg. apply Hg, gone_true. eauto.
  - intros H t' r x [Hr Hn]%elem_of_remaining_id Hx. apply not_true_iff_false.
    intros (o & Ho & Hk & Hre)%gone_true. by apply (H t' r x o).
Qed.

Lemma delete_by_id_outcome res w w' :
  healthy w → delete_by_id t id w = (res, w') →
  match res with
  | Ok _ => key_exists (w_db w) t id = true ∧ deletable (w_db w) ∧
      w' = w <| w_db := remaining root (w_db w) |>
  | Err e => w' = w ∧
      ((key_exists (w_db w) t id = false ∧ e = NotFound) ∨
       (¬ deletable (w_db w) ∧ ∃ t1 t2,
          e = InvalidReference (pg_message (ForeignKeyViolation t1 t2))))
  end.
Proof.
  intros Hh. unfold delete_by_id, delete_cascading, mbind, M_bind, map_err.
  rewrite statement_run by done. destruct (blocked root (w_db w)) as [[t1 t2]|] eqn:Eb; simpl.
  - intros [= <- <-]. split; [done|]. right.
    rewrite <- blocked_deletable, Eb. split; [done|]. by exists t1, t2.
  - destruct (Nat.eqb_spec (length (select (by_id t id) (w_db w t))) 0) as [E0|E0]; simpl;
      intros [= <- <-].
    + pose proof (select_length_0 _ _ E0) as Hno. split.
      { rewrite remaining_none by (by apply at_table_none). by destruct w. }
      left. split; [|done]. by apply exists_row_false.
    + split_and!; [|by apply blocked_deletable|done].
      apply not_false_iff_true. intros Hf. apply E0. rewrite select_none; [done|].
      exact (proj1 (exists_row_false _ _) Hf).
Qed.
End delete_spec.
