(* ===== verification/Integrity.v ===== *)
(** * Referential integrity

    What the migrations declare of the stored data: integers within their columns' width,
    unique columns, foreign keys that name existing rows. Every statement keeps it, and so
    does every call made of statements, whatever fails on the way. The automation at the end
    follows a handler call by call; [System] and [Server] apply it to the requests. *)

From S2P Require Import Prelude Schema Sql Cascade.

(** Two rows that no uniqueness constraint of their table tells apart. *)
Definition conflicting (t : table) (a b : row t) : Prop :=
  ∃ c, c ∈ uniques t ∧ c a b = true.

Record schema_ok (db : Db) : Prop := {
  ok_range t r : r ∈ db t → in_range t r = true;
  ok_refs t r x : r ∈ db t → x ∈ references t r → key_exists db x.1 x.2 = true;
  ok_unique t : ForallOrdPairs (λ a b, ¬ conflicting t a b) (db t)
}.

(** ** Pairwise distinct rows *)

Section pairs.
Context {A : Type} (R : A → A → Prop).

Lemma pairs_snoc l x :
  ForallOrdPairs R l → (∀ y, y ∈ l → R y x) → ForallOrdPairs R (l ++ [x]).
Proof.
  induction 1 as [|y l Hy Hl IH]; simpl; intros Hx; [by repeat constructor|].
  constructor.
  - apply Forall_app. split; [done|]. constructor; [|done]. apply Hx. left.
  - apply IH. intros z Hz. apply Hx. by right.
Qed.

Lemma pairs_filter (p : A → bool) l : ForallOrdPairs R l → ForallOrdPairs R (delete_rows p l).
Proof.
  induction 1 as [|y l Hy Hl IH]; simpl; [constructor|].
  destruct (p y); simpl; [done|]. constructor; [|done].
  apply Forall_forall. intros z [Hz _]%filter_In. rewrite Forall_forall in Hy. by apply Hy.
Qed.

Lemma pairs_map (f : A → A) l :
  (∀ x y, x ∈ l → y ∈ l → R x y → R (f x) (f y)) →
  ForallOrdPairs R l → ForallOrdPairs R (map f l).
Proof.
  intros Hf. induction 1 as [|y l Hy Hl IH]; simpl; constructor.
  - apply Forall_forall. intros z (x & <- & Hx)%in_map_iff.
    rewrite Forall_forall in Hy. apply Hf; [left|right; by apply list_elem_of_In|].
    by apply Hy.
  - apply IH. intros a b Ha Hb. apply Hf; by right.
Qed.

Lemma pairs_lookup `{!Symmetric R} l x y :
  ForallOrdPairs R l → x ∈ l → y ∈ l → x = y ∨ R x y.
Proof.
  induction 1 as [|z l Hz Hl IH]; [by intros ?%elem_of_nil|].
  rewrite Forall_forall in Hz.
  intros [->|Hx]%elem_of_cons [->|Hy]%elem_of_cons; [by left|right..|by apply IH].
  - by apply Hz, list_elem_of_In.
  - by symmetry; apply Hz, list_elem_of_In.
Qed.
End pairs.

(** ** Uniqueness constraints *)

Lemma same_sym {R K} `{EqDecision K} (f : R → K) a b : same f a b = same f b a.
Proof. unfold same. apply bool_decide_ext. split; congruence. Qed.

Lemma same_some_sym {R K} `{EqDecision K} (f : R → option K) a b :
  same_some f a b = same_some f b a.
Proof.
  unfold same_some. destruct (f a), (f b); try done. apply bool_decide_ext. split; congruence.
Qed.

Lemma open_reorder_sym a b : open_reorder_conflict a b = open_reorder_conflict b a.
Proof.
  unfold open_reorder_conflict. rewrite (same_sym pr_spare_part_id a b).
  by rewrite (andb_comm (is_open_reorder a)).
Qed.

Lemma uniques_sym t c a b : c ∈ uniques t → c a b = c b a.
Proof.
  intros Hc%list_elem_of_In. destruct t; simpl in Hc;
    repeat destruct Hc as [<-|Hc]; try done;
    solve [apply same_sym|apply same_some_sym|apply open_reorder_sym].
Qed.

#[global] Instance conflicting_sym t : Symmetric (conflicting t).
Proof. intros a b (c & Hc & H). exists c. split; [done|]. by rewrite uniques_sym. Qed.

#[global] Instance not_conflicting_sym t : Symmetric (λ a b, ¬ conflicting t a b).
Proof. intros a b H Hn. by apply H, conflicting_sym. Qed.

(** Tables whose primary key is the identifier foreign keys name. *)
Definition keyed (t : table) : Prop := same (key t) ∈ uniques t.

Lemma keyed_eq t db a b :
  keyed t → schema_ok db → a ∈ db t → b ∈ db t → key t a = key t b → a = b.
Proof.
  intros Hk Hok Ha Hb E.
  destruct (pairs_lookup _ _ _ _ (ok_unique _ Hok t) Ha Hb) as [|Hn]; [done|].
  destruct Hn. exists (same (key t)). split; [done|]. by apply bool_decide_eq_true.
Qed.

(** ** Changes that lose no row another refers to *)

(** The keys of [db] are keys of [db']. *)
Definition keys_kept (db db' : Db) : Prop :=
  ∀ t r, r ∈ db t → ∃ r', r' ∈ db' t ∧ key t r' = key t r.

Lemma key_exists_true db t id : key_exists db t id = true ↔ ∃ r, r ∈ db t ∧ key t r = id.
Proof.
  unfold key_exists. rewrite exists_row_true. apply exist_proper. intros r.
  by rewrite String.eqb_eq.
Qed.

Lemma key_exists_kept db db' t id :
  keys_kept db db' → key_exists db t id = true → key_exists db' t id = true.
Proof.
  intros Hk (r & Hr & <-)%key_exists_true. apply key_exists_true.
  destruct (Hk t r Hr) as (r' & Hr' & E). eauto.
Qed.

Lemma keys_kept_set t rows db :
  (∀ r, r ∈ db t → ∃ r', r' ∈ rows ∧ key t r' = key t r) → keys_kept db (set_table t rows db).
Proof.
  intros H t' r Hr. destruct (decide (t = t')) as [<-|Hne].
  - rewrite set_table_eq. by apply H.
  - rewrite set_table_ne by done. eauto.
Qed.

(** One table is rewritten: the others keep their rows, and no key is lost. *)
Lemma schema_ok_set t rows db :
  schema_ok db → keys_kept db (set_table t rows db) →
  (∀ r, r ∈ rows → in_range t r = true) →
  (∀ r x, r ∈ rows → x ∈ references t r →
     key_exists db x.1 x.2 = true ∨ key_exists (set_table t rows db) x.1 x.2 = true) →
  ForallOrdPairs (λ a b, ¬ conflicting t a b) rows →
  schema_ok (set_table t rows db).
Proof.
  intros Hok Hkept Hr Hx Hu. split.
  - intros t' r. destruct (decide (t = t')) as [<-|Hne].
    + rewrite set_table_eq. apply Hr.
    + rewrite set_table_ne by done. by apply ok_range.
  - intros t' r x. destruct (decide (t = t')) as [<-|Hne].
    + rewrite set_table_eq. intros H1 H2.
      destruct (Hx r x H1 H2) as [H|]; [|done]. by apply (key_exists_kept db).
    + rewrite set_table_ne by done. intros H1 H2.
      apply (key_exists_kept db); [done|]. by eapply ok_refs.
  - intros t'. destruct (decide (t = t')) as [<-|Hne].
    + by rewrite set_table_eq.
    + rewrite set_table_ne by done. by apply ok_unique.
Qed.

(** ** Statements *)

Lemma violated_None_conflict t r rows :
  violated 0 (uniques t) r rows = None → ∀ y, y ∈ rows → ¬ conflicting t r y.
Proof.
  intros H%violated_None y Hy (c & Hc & E). rewrite Forall_forall in H.
  assert (exists_row (c r) rows = false) as Hf by (by apply H, list_elem_of_In).
  by rewrite (proj1 (exists_row_false _ _) Hf y Hy) in E.
Qed.

Lemma schema_ok_insert t r db :
  check_row t r db = None → schema_ok db → schema_ok (set_table t (db t ++ [r]) db).
Proof.
  unfold check_row. intros Hc Hok. destruct (in_range t r) eqn:Hr; [simpl in Hc|done].
  destruct (violated 0 (uniques t) r (db t)) eqn:Hv; [done|].
  destruct (dangling _ _) eqn:Hd; [done|]. apply dangling_None in Hd.
  apply schema_ok_set; [done|..].
  - apply keys_kept_set. intros y Hy. exists y. by split; [apply elem_of_app; left|].
  - intros y [Hy| ->%list_elem_of_singleton]%elem_of_app; [|done]. by apply (ok_range _ Hok).
  - intros y x [Hy| ->%list_elem_of_singleton]%elem_of_app Hx.
    + left. by eapply ok_refs.
    + right. rewrite Forall_forall in Hd. by apply Hd, list_elem_of_In.
  - apply pairs_snoc; [by apply ok_unique|]. intros y Hy Hn.
    apply (violated_None_conflict _ _ _ Hv y Hy). by symmetry.
Qed.

(** An assignment that leaves the key alone and makes no two rows conflict that did not. *)
Definition harmless (t : table) (f : row t → row t) : Prop :=
  ∀ r, key t (f r) = key t r ∧ ∀ c b, c ∈ uniques t → c (f r) b = true → c r b = true.

Lemma harmless_conflicting t f a b :
  harmless t f → conflicting t (f a) b → conflicting t a b.
Proof. intros Hf (c & Hc & H). exists c. split; [done|]. by apply (Hf a). Qed.

(** The foreign keys of a row that replaces another are old or checked. *)
Lemma new_references_None t db old new x :
  schema_ok db → old ∈ db t → dangling db (new_references t old new) = None →
  x ∈ references t new → key_exists db x.1 x.2 = true.
Proof.
  intros Hok Hold Hd%dangling_None Hx. destruct (decide (x ∈ references t old)) as [Hin|Hn].
  - by eapply ok_refs.
  - rewrite Forall_forall in Hd. apply Hd. apply filter_In. split; [by apply list_elem_of_In|].
    by rewrite bool_decide_eq_false_2.
Qed.

Lemma check_update_refs_ok t f db rows r x :
  schema_ok db → r ∈ db t → check_update t f db rows = None → r ∈ rows →
  x ∈ references t (f r) → key_exists db x.1 x.2 = true.
Proof.
  intros Hok Hr. induction rows as [|y rows IH]; simpl; [by intros _ ?%elem_of_nil|].
  destruct (in_range t (f y)); [simpl|done].
  destruct (dangling db (new_references t y (f y))) eqn:Hd; [done|].
  intros Hc [->|Hin]%elem_of_cons Hx; [|by apply IH].
  by eapply new_references_None.
Qed.

Lemma keys_kept_update t p f db :
  (∀ r, key t (f r) = key t r) → keys_kept db (set_table t (update_rows p f (db t)) db).
Proof.
  intros Hf. apply keys_kept_set. intros r Hr. exists (if p r then f r else r).
  split; [apply elem_of_update_rows; eauto|]. by destruct (p r).
Qed.

Lemma schema_ok_update t p f db :
  harmless t f → check_update t f db (select p (db t)) = None → schema_ok db →
  schema_ok (set_table t (update_rows p f (db t)) db).
Proof.
  intros Hf Hc Hok. apply schema_ok_set; [done|..].
  - apply keys_kept_update. intros r. apply Hf.
  - intros y (r & Hr & ->)%elem_of_update_rows. destruct (p r) eqn:Ep.
    + eapply check_update_range; [done|]. by apply elem_of_select.
    + by apply (ok_range _ Hok).
  - intros y x (r & Hr & ->)%elem_of_update_rows Hx. left. destruct (p r) eqn:Ep.
    + eapply (check_update_refs_ok t f db _ r); [done..| |done]. by apply elem_of_select.
    + by eapply ok_refs.
  - apply (pairs_map _ (λ r, if p r then f r else r)); [|by apply ok_unique].
    intros a b Ha Hb Hn Hab. apply Hn.
    assert (conflicting t a (if p b then f b else b)) as H1
      by (destruct (p a); [by eapply harmless_conflicting|done]).
    destruct (p b); [|done]. symmetry in H1. symmetry. by eapply harmless_conflicting.
Qed.

(** One row is replaced by another of the same key that conflicts with none. *)
Lemma schema_ok_replace t id f old db :
  keyed t → (∀ r, key t (f r) = key t r) →
  first_where (by_id t id) (db t) = Some old →
  in_range t (f old) = true →
  violated 0 (uniques t) (f old) (delete_rows (by_id t id) (db t)) = None →
  dangling db (new_references t old (f old)) = None → schema_ok db →
  schema_ok (set_table t (update_rows (by_id t id) f (db t)) db).
Proof.
  intros Hk Hf Hold Hr Hv Hd Hok. apply first_where_Some in Hold as [Hid Hin].
  assert (∀ r, r ∈ db t → by_id t id r = true → r = old) as Hone.
  { intros r Hr' Hp. unfold by_id in *. bool_to_prop. apply (keyed_eq t db); [done..|congruence]. }
  apply schema_ok_set; [done|..].
  - by apply keys_kept_update.
  - intros y (r & Hy & ->)%elem_of_update_rows. destruct (by_id t id r) eqn:Ep.
    + by rewrite (Hone r).
    + by apply (ok_range _ Hok).
  - intros y x (r & Hy & ->)%elem_of_update_rows Hx. left. destruct (by_id t id r) eqn:Ep.
    + rewrite (Hone r) in Hx by done. by apply (new_references_None t db old (f old) x).
    + by eapply ok_refs.
  - apply (pairs_map _ (λ r, if by_id t id r then f r else r)); [|by apply ok_unique].
    assert (∀ b, b ∈ db t → by_id t id b = false → ¬ conflicting t (f old) b) as Hother.
    { intros b Hb Eb. apply (violated_None_conflict _ _ _ Hv). by apply elem_of_delete_rows. }
    intros a b Ha Hb Hn.
    destruct (by_id t id a) eqn:Ea, (by_id t id b) eqn:Eb.
    + rewrite (Hone a), (Hone b) in Hn by done. exfalso. apply Hn.
      exists (same (key t)). split; [done|]. by apply bool_decide_eq_true.
    + rewrite (Hone a) by done. by apply Hother.
    + rewrite (Hone b) by done. intros H. symmetry in H. by apply (Hother a).
    + done.
Qed.

(** When an assignment keeps range, key and foreign keys of the row it replaces, only a
    conflict with another row can refuse it. *)
Lemma check_replacement_conflict t id f old db :
  in_range t (f old) = true → references t (f old) = references t old →
  match check_replacement t id old (f old) db with
  | None => ∀ x, x ∈ db t → key t x ≠ id → ¬ conflicting t (f old) x
  | Some e => ∃ n x, e = UniqueViolation t n ∧ x ∈ db t ∧ key t x ≠ id ∧
      conflicting t (f old) x
  end.
Proof.
  intros Hr Hrefs. unfold check_replacement. rewrite Hr. simpl.
  destruct (violated 0 (uniques t) (f old) (delete_rows (by_id t id) (db t))) as [n|] eqn:Hv.
  - assert (∃ x, x ∈ delete_rows (by_id t id) (db t) ∧ conflicting t (f old) x)
      as (x & [Hx Hid]%elem_of_delete_rows & Hc).
    { clear -Hv. revert Hv. unfold conflicting. generalize 0%nat.
      induction (uniques t) as [|c cs IH]; intros m; simpl; [done|].
      destruct (exists_row (c (f old)) _) eqn:E.
      - intros _. apply exists_row_true in E as (x & Hx & E). exists x. split; [done|].
        exists c. split; [left|done].
      - intros (x & Hx & c' & Hc & E')%IH. exists x. split; [done|]. exists c'.
        split; [by right|done]. }
    exists n, x. unfold by_id in Hid. bool_to_prop. by split_and!.
  - unfold new_references. rewrite Hrefs.
    assert (List.filter (λ x, negb (bool_decide (x ∈ references t old))) (references t old) = [])
      as ->.
    { apply (select_none (λ x, negb (bool_decide (x ∈ references t old)))).
      intros x Hx. by rewrite bool_decide_eq_true_2. }
    simpl. intros x Hx Hk. apply (violated_None_conflict _ _ _ Hv).
    apply elem_of_delete_rows. split; [done|]. by apply String.eqb_neq.
Qed.

(** Nothing refers to the table. *)
Definition unreferenced (t : table) : Prop :=
  ∀ t' (r : row t') id, (t, id) ∉ references t' r.

Lemma schema_ok_delete t p db :
  unreferenced t → schema_ok db → schema_ok (set_table t (delete_rows p (db t)) db).
Proof.
  intros Hu Hok. set (db' := set_table t _ db).
  assert (∀ t' r, r ∈ db' t' → r ∈ db t') as Hsub.
  { intros t' r. unfold db'. destruct (decide (t = t')) as [<-|Hne].
    - rewrite set_table_eq. by intros [? _]%elem_of_delete_rows.
    - by rewrite set_table_ne. }
  split.
  - intros t' r Hr. by apply (ok_range _ Hok), Hsub.
  - intros t' r [t'' id] Hr Hx. assert (t ≠ t'') as Hne.
    { intros ->. by apply (Hu t' r id). }
    unfold key_exists, db'. simpl. rewrite set_table_ne by done.
    exact (ok_refs _ Hok t' r (t'', id) (Hsub _ _ Hr) Hx).
  - intros t'. unfold db'. destruct (decide (t = t')) as [<-|Hne].
    + rewrite set_table_eq. by apply pairs_filter, ok_unique.
    + rewrite set_table_ne by done. by apply ok_unique.
Qed.

(** *** Deletes that cascade *)

Lemma detach_facts g t r :
  key t (detach g t r) = key t r ∧ in_range t (detach g t r) = in_range t r ∧
  (∀ x, x ∈ references t (detach g t r) → x ∈ references t r) ∧
  (∀ c b, c ∈ uniques t → c (detach g t r) b = c r b).
Proof.
  destruct t; try done. unfold detach. destruct (tr_wo_operation_id r); [|done].
  destruct (g Wo_operations s); [|done]. simpl. split_and!; [done..| |].
  - intros x Hx. rewrite elem_of_app. by right.
  - by intros c b ->%list_elem_of_singleton.
Qed.

Lemma detach_conflicting g t a b :
  conflicting t (detach g t a) (detach g t b) → conflicting t a b.
Proof.
  destruct (detach_facts g t a) as (_ & _ & _ & Ha), (detach_facts g t b) as (_ & _ & _ & Hb).
  intros (c & Hc & E). exists c. split; [done|].
  rewrite (Ha _ _ Hc), (uniques_sym _ _ _ _ Hc), (Hb _ _ Hc) in E.
  by rewrite (uniques_sym _ _ _ _ Hc).
Qed.

Lemma schema_ok_cascade root db :
  blocked root db = None → schema_ok db → schema_ok (remaining root db).
Proof.
  intros Hb Hok. rewrite blocked_None in Hb. split.
  - intros t y (r & Hr & _ & ->)%elem_of_remaining.
    destruct (detach_facts (gone root db) t r) as (_ & -> & _). by apply (ok_range _ Hok).
  - intros t y x Hy Hx. specialize (Hb t y x Hy Hx).
    apply elem_of_remaining in Hy as (r & Hr & _ & ->).
    destruct (detach_facts (gone root db) t r) as (_ & _ & Hsub & _).
    pose proof (ok_refs _ Hok t r x Hr (Hsub x Hx)) as (o & Ho & Hk)%key_exists_true.
    apply key_exists_true. exists (detach (gone root db) x.1 o). split.
    + apply elem_of_remaining. exists o. split_and!; [done| |done]. intros Hre.
      assert (gone root db x.1 x.2 = true) by (apply gone_true; eauto). congruence.
    + destruct (detach_facts (gone root db) x.1 o) as (-> & _). done.
  - intros t. unfold remaining. apply pairs_map; [|by apply pairs_filter, ok_unique].
    intros a b _ _ Hn H. by eapply Hn, detach_conflicting.
Qed.

(** ** Calls *)

Abbreviation typed m := (evolves (keeps schema_ok) m).

Section typed.

Lemma typed_statement {A} (f : Db → Result (A * Db) SqlError) :
  (∀ db a db', f db = Ok (a, db') → schema_ok db → schema_ok db') → typed (statement f).
Proof.
  intros Hf w Hok. unfold state_after, statement. case_match; [done|].
  destruct (f (w_db w)) as [[a db]|] eqn:E; [|done]. by eapply Hf.
Qed.

Lemma typed_reads {E A} (m : M World E A) : reads m → typed m.
Proof. apply keeps_reads. Qed.

Lemma typed_insert t r : typed (insert t r).
Proof.
  apply typed_statement. intros db a db' H. case_match; simplify_eq.
  by apply schema_ok_insert.
Qed.

Lemma typed_insert_or_ignore t c r : typed (insert_or_ignore t c r).
Proof.
  apply typed_statement. intros db a db' H. repeat case_match; simplify_eq; [done|].
  by apply schema_ok_insert.
Qed.

Lemma typed_update t p f : harmless t f → typed (update t p f).
Proof.
  intros Hf. apply typed_statement. intros db a db' H. case_match; simplify_eq.
  by apply schema_ok_update.
Qed.

Lemma typed_upsert t r f :
  keyed t → (∀ o, key t (f o) = key t o) → typed (upsert t r f).
Proof.
  intros Hk Hf. apply typed_statement. intros db a db' H Hok. cbv zeta in H.
  destruct (first_where _ (db t)) as [old|] eqn:Eo.
  - destruct (in_range t (f old)) eqn:E1; [simpl in H|done].
    destruct (violated _ _ _ _) eqn:E2; [done|].
    destruct (dangling _ _) eqn:E3; simplify_eq.
    by apply (schema_ok_replace t (key t r) f old).
  - destruct (check_row t r db) eqn:E1; simplify_eq. by apply schema_ok_insert.
Qed.

Lemma typed_delete t p : unreferenced t → typed (delete t p).
Proof. intros Hu. apply typed_statement. intros db a db' [= _ <-]. by apply schema_ok_delete. Qed.

Lemma typed_delete_cascading t p : typed (delete_cascading t p).
Proof.
  apply typed_statement. intros db a db' H.
  destruct (blocked _ db) as [[t1 t2]|] eqn:E; simplify_eq. by apply schema_ok_cascade.
Qed.

Lemma typed_update_unique t id f :
  keyed t → (∀ o, key t (f o) = key t o) → typed (update_unique t id f).
Proof.
  intros Hk Hf. apply typed_statement. intros db a db' H Hok.
  destruct (first_where _ (db t)) as [old|] eqn:Eo; [|by simplify_eq].
  destruct (check_replacement t id old (f old) db) eqn:E; simplify_eq.
  unfold check_replacement in E.
  destruct (in_range t (f old)) eqn:E1; [simpl in E|done].
  destruct (violated _ _ _ _) eqn:E2; [done|]. destruct (dangling _ _) eqn:E3; [done|].
  by apply (schema_ok_replace t id f old).
Qed.

Lemma typed_fetch_optional {A} (m : M World SqlError (list A)) :
  typed m → typed (fetch_optional m).
Proof. intros Hm. unfold fetch_optional. evolve. Qed.

Lemma typed_fetch_one {A} (m : M World SqlError (list A)) : typed m → typed (fetch_one m).
Proof. intros Hm. unfold fetch_one. evolve. Qed.

Lemma typed_query {A} (f : Db → A) : typed (query f).
Proof. apply typed_reads, reads_query. Qed.

Lemma typed_query_limit {A} n (f : Db → list A) : typed (query_limit n f).
Proof. apply typed_reads, reads_query_limit. Qed.

Lemma typed_transaction {E A} (lift : SqlError → E) (m : M World E A) :
  typed m → typed (transaction lift m).
Proof.
  intros Hm w Hok. unfold state_after, transaction.
  assert (typed (enclosed lift m)) as Hall.
  { pose proof @typed_query. unfold enclosed, begin_, commit. evolve. }
  specialize (Hall w Hok). unfold state_after in Hall.
  by destruct (enclosed lift m w) as [[a|e] w'].
Qed.

Lemma typed_require_pool : typed require_pool.
Proof. apply typed_reads, reads_require_pool. Qed.

Lemma typed_new_id {env : Env} {E} : typed (new_id : M World E string).
Proof. by apply typed_reads. Qed.

Lemma typed_draw_random {E} : typed (draw_random : M World E nat).
Proof. by apply typed_reads. Qed.

Lemma typed_publish {E} ev : typed (publish ev : M World E unit).
Proof. by apply typed_reads. Qed.

Lemma typed_get_by_id {env : Env} t id : typed (get_by_id t id).
Proof. apply typed_reads, reads_get_by_id. Qed.

Lemma typed_update_by_id {env : Env} t id f : harmless t f → typed (update_by_id t id f).
Proof.
  intros Hf. unfold update_by_id. pose proof (typed_update t (by_id t id) f Hf).
  pose proof @typed_fetch_optional. evolve.
Qed.

Lemma typed_update_unique_by_id {env : Env} t id f :
  keyed t → (∀ o, key t (f o) = key t o) → typed (update_unique_by_id t id f).
Proof.
  intros Hk Hf. unfold update_unique_by_id. pose proof (typed_update_unique t id f Hk Hf).
  evolve.
Qed.

Lemma typed_delete_by_id {env : Env} t id : typed (delete_by_id t id).
Proof.
  unfold delete_by_id. pose proof (typed_delete_cascading t (by_id t id)). evolve.
Qed.

Lemma typed_audit {env : Env} {E} a b c d e : typed (audit a b c d e : M World E unit).
Proof.
  unfold audit, insert_audit. pose proof @typed_new_id.
  pose proof (typed_insert Audit_log). evolve.
Qed.
End typed.

(** The constraints of a table, one by one; every unique column of the row is unchanged. *)
Ltac is_harmless :=
  let r := fresh "r" in let c := fresh "c" in let b := fresh "b" in let H := fresh "H" in
  intros r; split;
    [repeat case_match; reflexivity
    |intros c b H; apply list_elem_of_In in H; simpl in H;
     repeat destruct H as [<-|H]; try done; repeat case_match; done].

Ltac is_unreferenced :=
  let t := fresh "t" in let r := fresh "r" in let id := fresh "id" in let H := fresh "H" in
  intros t r id H; apply list_elem_of_In in H; destruct t; simpl in H;
  unfold opt_ref in H; repeat case_match; simpl in H;
  repeat destruct H as [H|H]; simplify_eq.

#[export] Hint Resolve typed_query typed_query_limit typed_transaction typed_fetch_optional
  typed_fetch_one typed_require_pool typed_new_id typed_draw_random typed_publish typed_get_by_id
  typed_audit : evolves.
#[export] Hint Extern 1 (evolves (keeps schema_ok) (fetch _ _)) => apply typed_query : evolves.
#[export] Hint Extern 1 (evolves (keeps schema_ok) (insert ?t ?r)) =>
  exact (typed_insert t r) : evolves.
#[export] Hint Extern 1 (evolves (keeps schema_ok) (insert_or_ignore ?t ?c ?r)) =>
  exact (typed_insert_or_ignore t c r) : evolves.
#[export] Hint Extern 1 (evolves (keeps schema_ok) (get_by_id ?t ?i)) =>
  exact (typed_get_by_id t i) : evolves.
#[export] Hint Extern 1 (evolves (keeps schema_ok) (update ?t ?p ?f)) =>
  apply (typed_update t p f); is_harmless : evolves.
#[export] Hint Extern 1 (evolves (keeps schema_ok) (update_by_id ?t ?i ?f)) =>
  apply (typed_update_by_id t i f); is_harmless : evolves.
#[export] Hint Extern 1 (evolves (keeps schema_ok) (update_unique_by_id ?t ?i ?f)) =>
  apply (typed_update_unique_by_id t i f); [left|intros ?; reflexivity] : evolves.
#[export] Hint Extern 1 (evolves (keeps schema_ok) (delete_by_id ?t ?i)) =>
  exact (typed_delete_by_id t i) : evolves.
#[export] Hint Extern 1 (evolves (keeps schema_ok) (upsert ?t ?r ?f)) =>
  apply (typed_upsert t r f); [left|intros ?; reflexivity] : evolves.
#[export] Hint Extern 1 (evolves (keeps schema_ok) (delete ?t ?p)) =>
  apply (typed_delete t p); is_unreferenced : evolves.

(** ** Deciding it *)

Section decide.
Context (db : Db).

Fixpoint all_distinct (t : table) (rows : list (row t)) : bool :=
  match rows with
  | [] => true
  | a :: rows' =>
      forallb (λ b, negb (existsb (λ c, c a b) (uniques t))) rows' && all_distinct t rows'
  end.

Definition table_ok (t : table) : bool :=
  forallb (in_range t) (db t)
  && forallb (λ r, forallb (λ x, key_exists db x.1 x.2) (references t r)) (db t)
  && all_distinct t (db t).

Lemma all_distinct_pairs t rows :
  all_distinct t rows = true → ForallOrdPairs (λ a b, ¬ conflicting t a b) rows.
Proof.
  induction rows as [|a rows IH]; simpl; [constructor|]. intros [Ha Hr]%andb_true_iff.
  constructor; [|by apply IH]. apply Forall_forall. intros b Hb (c & Hc & E).
  rewrite forallb_forall in Ha. specialize (Ha b Hb).
  assert (existsb (λ c, c a b) (uniques t) = true) as Hx; [|by rewrite Hx in Ha].
  apply existsb_exists. exists c. split; [by apply list_elem_of_In|done].
Qed.

Lemma schema_ok_decide : forallb table_ok all_tables = true → schema_ok db.
Proof.
  rewrite forallb_forall. intros H.
  assert (∀ t, table_ok t = true) as Ht
    by (intros t; apply H, list_elem_of_In, all_tables_complete).
  split; intros t; specialize (Ht t); unfold table_ok in Ht; rewrite !andb_true_iff in Ht;
    destruct Ht as [[Hr Hf] Hu].
  - intros r Hin. rewrite forallb_forall in Hr. by apply Hr, list_elem_of_In.
  - intros r x Hin Hx. rewrite forallb_forall in Hf.
    specialize (Hf r (proj1 (list_elem_of_In _ _) Hin)). rewrite forallb_forall in Hf.
    by apply Hf, list_elem_of_In.
  - by apply all_distinct_pairs.
Qed.
End decide.
