(* ===== verification/Sample.v ===== *)
(** * A small plant

    Concrete data for the examples and for instantiating the properties: an identifier
    source with the shape of a ULID (26 characters, one millisecond in common), a healthy
    world with one site, one work center, one part with a routing, one user. *)

From stdpp Require Import pretty.
From S2P Require Import Prelude Schema Sql.

Definition sample_env : Env := {|
  ulid n := String.append "01J8ZQ4K7MABCDEFGHJKM" (pretty n);
  pg_message _ := "constraint violated"
|}.

Lemma sample_ulid_inj : Inj (=) (=) (@ulid sample_env).
Proof. intros m n H. simpl in H. by apply (inj (String.append _)), (inj pretty) in H. Qed.

Definition admin : AuthUser := mkAuthUser "u1" "Admin".

Definition plant_db : Db :=
  set_table Roles [mkRoleRow "Admin" "Administrator"] (
  set_table Users [mkUserRow "u1" "ada" "Ada" "Admin" None None None true 0 0] (
  set_table Sites [mkSiteRow "s1" "S1" "Site" "Asia/Kolkata" 0 0] (
  set_table Areas [mkAreaRow "a1" "s1" "A1" "Area" 0 0] (
  set_table Work_centers [mkWorkCenterRow "wc1" "a1" "W1" "Lathe" None (Some (20 * 10 ^ 28)) 0 0] (
  set_table Parts [mkPartRow "p1" "P1" "Shaft" "ea" 0 0] (
  set_table Routings [mkRoutingRow "r1" "p1" "1" true] (
  set_table Routing_ops [mkRoutingOpRow "ro1" "r1" 10 "Turn" (Some "wc1");
                         mkRoutingOpRow "ro2" "r1" 20 "Mill" (Some "wc1")] (
  set_table Programs [mkProgramRow "pg1" (Some "ro2") None "O2000" (Some "CNC-1") 0 0] (
  set_table Signal_sources [mkSignalSourceRow "src1" "wc1" "topic/1" "cycle" true;
                            mkSignalSourceRow "src2" "wc1" "topic/2" "cycle" false] (
  set_table Scrap_reasons [mkScrapReasonRow "sr1" "SCR" "Scratch" None] (
  set_table Downtime_reasons [mkDowntimeReasonRow "dr1" "BRK" "Breakdown" None None]
    empty_db))))))))))).

Definition world_of (db : Db) : World :=
  mkWorld db true (seconds 1000) 0 [] [] DisconnectedDaemon 0 [].

Definition plant : World := world_of plant_db.

(** A decidable test that no row of a table carries an identifier of the sample source. *)
Definition no_ulids (t : table) (db : Db) : bool :=
  forallb (λ r, negb (String.prefix "01J8ZQ4K7M" (key t r))) (db t).

Lemma no_ulids_ids_from t n db : no_ulids t db = true → @ids_from sample_env t n db.
Proof.
  unfold no_ulids. rewrite forallb_forall. intros H r m Hr _ E.
  apply list_elem_of_In, H in Hr. rewrite E in Hr. by destruct (pretty m).
Qed.
