(* ===== verification/Ingest.v ===== *)
(** * Signal ingestion and state derivation

    [crates/mes-db/src/repo_ingest.rs], [crates/mes-edge/src/ingest.rs] and
    [crates/mes-edge/src/process.rs]: devices post signals, which are stored or dropped by
    source; recomputing a window reads the cycle pulses back, runs the state machine and
    replaces the derived rows. *)

From S2P Require Import Prelude StateMachine Schema Sql Sample.

Definition state_str (s : MachineState) : string :=
  match s with
  | Running => "running"
  | MicroStop => "micro_stop"
  | Down => "down"
  | PlannedStop => "planned_stop"
  end.

(** [crates/mes-client/src/ingest.rs] *)
Inductive SignalEvent := Cycle | Heartbeat | Count (good scrap : Z).

Definition event_type (e : SignalEvent) : string :=
  match e with
  | Cycle => "cycle"
  | Heartbeat => "heartbeat"
  | Count _ _ => "count"
  end.

Record RawSignal := mkRawSignal { source_key : string; ts : DateTime; event : SignalEvent }.
Record IngestResult := mkIngestResult { accepted : nat; dropped : nat }.
Record RecomputeResult := mkRecomputeResult { states : nat; downtime : nat }.

Section ingest.
Context {env : Env}.
Abbreviation Repo := (M World RepoError).
Abbreviation Api := (M World ApiErr).

(** ** Repository *)

Definition resolve_source (key : string) : Repo (option SignalSourceRow) :=
  map_err map_sqlx_plain (fetch_optional
    (fetch Signal_sources (λ s, String.eqb (ss_source_key s) key))).

Definition create_signal_source (work_center_id source_key kind : string)
    (enabled : bool) : Repo SignalSourceRow :=
  id ← new_id;
  map_err map_sqlx_plain (insert Signal_sources
    (mkSignalSourceRow id work_center_id source_key kind enabled)).

Definition insert_machine_event (ts : DateTime) (work_center_id source_id event_type : string)
    (payload : option Json) : Repo unit :=
  id ← new_id;
  map_err map_sqlx_plain (insert Machine_events
    (mkMachineEventRow id ts work_center_id (Some source_id) event_type payload)) ;;
  mret tt.

Definition insert_production_count (ts : DateTime) (work_center_id source_id : string)
    (good scrap : Z) : Repo unit :=
  id ← new_id;
  map_err map_sqlx_plain (insert Production_counts
    (mkProductionCountRow id ts work_center_id (Some source_id) good scrap None None)) ;;
  mret tt.

Definition is_cycle_in (work_center_id : string) (start end_ : DateTime)
    (e : MachineEventRow) : bool :=
  String.eqb (me_work_center_id e) work_center_id && String.eqb (me_event_type e) "cycle" &&
  (start <=? me_ts e) && (me_ts e <=? end_).

Definition fetch_cycle_pulses (work_center_id : string) (start end_ : DateTime) :
    Repo (list DateTime) :=
  map_err map_sqlx_plain (query (λ db,
    map me_ts (order_by me_ts
      (select (is_cycle_in work_center_id start end_) (db Machine_events))))).

Definition sum_counts (work_center_id : string) (start end_ : DateTime) : Repo (Z * Z) :=
  map_err map_sqlx_plain (query (λ db,
    let rows := select (λ c, String.eqb (pc_work_center_id c) work_center_id &&
                             (start <=? pc_ts c) && (pc_ts c <=? end_))
                  (db Production_counts) in
    (sum_rows pc_good rows, sum_rows pc_scrap rows))).

Definition planned_in (work_center_id : string) (start end_ : DateTime)
    (p : PlannedStopRow) : bool :=
  String.eqb (ps_work_center_id p) work_center_id && (ps_starts_at p <? end_) &&
  (start <? ps_ends_at p).

Definition fetch_planned_intervals (work_center_id : string) (start end_ : DateTime) :
    Repo (list PlannedInterval) :=
  map_err map_sqlx_plain (query (λ db,
    map (λ p, mkPlanned (ps_starts_at p) (ps_ends_at p))
      (order_by ps_starts_at
        (select (planned_in work_center_id start end_) (db Planned_stops))))).

(** [start_ts < window_end AND end_ts > window_start] *)
Definition state_overlaps (work_center_id : string) (window_start window_end : DateTime)
    (r : MachineStateRow) : bool :=
  String.eqb (ms_work_center_id r) work_center_id && (ms_start_ts r <? window_end) &&
  (window_start <? ms_end_ts r).

Definition unclassified_overlaps (work_center_id : string)
    (window_start window_end : DateTime) (r : DowntimeRow) : bool :=
  String.eqb (de_work_center_id r) work_center_id && bool_decide (de_reason_id r = None) &&
  (de_start_ts r <? window_end) && (window_start <? de_end_ts r).

Definition insert_state (work_center_id : string) (iv : StateInterval) : Repo unit :=
  id ← new_id;
  map_err map_sqlx_plain (insert Machine_states
    (mkMachineStateRow id work_center_id (state_str (iv_state iv))
       (iv_start iv) (iv_end iv))) ;;
  mret tt.

Definition downtime_row (work_center_id : string) (d : DowntimeEvent) : DowntimeRow :=
  mkDowntimeRow (dt_id d) work_center_id (state_str (dt_state d)) (dt_start d) (dt_end d)
    None None None.

Definition insert_downtime (work_center_id : string) (d : DowntimeEvent) : Repo unit :=
  map_err map_sqlx_plain (insert Downtime_events (downtime_row work_center_id d)) ;;
  mret tt.

Definition replace_derived (work_center_id : string) (window_start window_end : DateTime)
    (states : list StateInterval) (downtime : list DowntimeEvent) : Repo unit :=
  transaction map_sqlx_plain (
    map_err map_sqlx_plain (delete Machine_states
      (state_overlaps work_center_id window_start window_end)) ;;
    forM_ states (insert_state work_center_id) ;;
    map_err map_sqlx_plain (delete Downtime_events
      (unclassified_overlaps work_center_id window_start window_end)) ;;
    forM_ downtime (insert_downtime work_center_id)).

Definition list_machine_states (work_center_id : string) (start end_ : DateTime) :
    Repo (list (string * DateTime * DateTime)) :=
  map_err map_sqlx_plain (query (λ db,
    map (λ r, (ms_state r, ms_start_ts r, ms_end_ts r))
      (order_by ms_start_ts
        (select (λ r, String.eqb (ms_work_center_id r) work_center_id &&
                      (start <=? ms_start_ts r) && (ms_end_ts r <=? end_))
           (db Machine_states))))).

Definition count_downtime (work_center_id : string) (start end_ : DateTime) : Repo Z :=
  map_err map_sqlx_plain (query (λ db,
    Z.of_nat (length (select (λ r, String.eqb (de_work_center_id r) work_center_id &&
                               (start <=? de_start_ts r) && (de_end_ts r <=? end_))
                    (db Downtime_events))))).

(** ** Derivation pipeline *)

(** [downtime_events(&states)], drawing an identifier per event. *)
Definition draw_downtime_events (states : list StateInterval) :
    Repo (list DowntimeEvent) := λ w,
  let evs := downtime_events ulid (w_next w) states in
  (Ok evs, w <| w_next := (w_next w + length evs)%nat |>).

Definition recompute_states (work_center_id : string) (start end_ : DateTime) :
    Repo (nat * nat) :=
  let cfg := StateConfig_default in
  pulses ← fetch_cycle_pulses work_center_id start end_;
  planned ← fetch_planned_intervals work_center_id start end_;
  let raw := compute_states cfg pulses start end_ in
  let states := apply_planned_stops raw planned in
  downtime ← draw_downtime_events states;
  replace_derived work_center_id start end_ states downtime ;;
  mret (length states, length downtime).

(** ** Handlers *)

(** The batch's cache of source lookups: [HashMap<String, Option<SignalSourceRow>>]. *)
Definition cached_source (cache : gmap string (option SignalSourceRow)) (key : string) :
    Api (option SignalSourceRow * gmap string (option SignalSourceRow)) :=
  match cache !! key with
  | Some s => mret (s, cache)
  | None =>
      s ← map_err repo_err (resolve_source key);
      mret (s, <[key := s]> cache)
  end.

Definition store_signal (sig : RawSignal) (source : SignalSourceRow) : Api unit :=
  match event sig with
  | Cycle | Heartbeat =>
      map_err repo_err (insert_machine_event (ts sig) (ss_work_center_id source)
        (ss_id source) (event_type (event sig)) None)
  | Count good scrap =>
      map_err repo_err (insert_production_count (ts sig) (ss_work_center_id source)
        (ss_id source) good scrap)
  end.

Fixpoint ingest_loop (signals : list RawSignal)
    (cache : gmap string (option SignalSourceRow)) (acc : IngestResult) :
    Api IngestResult :=
  match signals with
  | [] => mret acc
  | sig :: rest =>
      '(s, cache) ← cached_source cache (source_key sig);
      match s with
      | Some source =>
          if ss_enabled source then
            store_signal sig source ;;
            ingest_loop rest cache (mkIngestResult (S (accepted acc)) (dropped acc))
          else ingest_loop rest cache (mkIngestResult (accepted acc) (S (dropped acc)))
      | None => ingest_loop rest cache (mkIngestResult (accepted acc) (S (dropped acc)))
      end
  end.

Definition ingest_signals (auth : AuthUser) (signals : list RawSignal) : Api IngestResult :=
  require_pool ;;
  ingest_loop signals ∅ (mkIngestResult 0 0).

Definition recompute (auth : AuthUser) (work_center_id : string)
    (start end_ : DateTime) : Api RecomputeResult :=
  require_pool ;;
  '(states, downtime) ← map_err repo_err (recompute_states work_center_id start end_);
  mret (mkRecomputeResult states downtime).
End ingest.

(** ** What a batch is meant to store *)

Definition registered (db : Db) (key : string) : option SignalSourceRow :=
  first_where (λ s, String.eqb (ss_source_key s) key) (db Signal_sources).

(** The enabled source registered under a key. *)
Definition live_source (db : Db) (key : string) : option SignalSourceRow :=
  s ← registered db key; if ss_enabled s then Some s else None.

Definition event_content (r : MachineEventRow) :=
  (me_ts r, me_work_center_id r, me_source_id r, me_event_type r).

Definition count_content (r : ProductionCountRow) :=
  (pc_ts r, pc_work_center_id r, pc_source_id r, pc_good r, pc_scrap r).

Definition expected_event (db : Db) (sig : RawSignal) :=
  s ← live_source db (source_key sig);
  match event sig with
  | Count _ _ => None
  | e => Some (ts sig, ss_work_center_id s, Some (ss_id s), event_type e)
  end.

Definition expected_count (db : Db) (sig : RawSignal) :=
  s ← live_source db (source_key sig);
  match event sig with
  | Count good scrap =>
      Some (ts sig, ss_work_center_id s, Some (ss_id s), good, scrap)
  | _ => None
  end.

Section ingest_proofs.
Context {env : Env}.

Definition cache_ok (db : Db) (cache : gmap string (option SignalSourceRow)) : Prop :=
  ∀ key s, cache !! key = Some s → s = registered db key.

Lemma cached_source_Ok cache key s cache' w w' :
  cache_ok (w_db w) cache → cached_source cache key w = (Ok (s, cache'), w') →
  s = registered (w_db w) key ∧ cache_ok (w_db w) cache' ∧ w_db w' = w_db w.
Proof.
  intros Hc. unfold cached_source, resolve_source. destruct (cache !! key) as [s0|] eqn:E.
  - intros H. minv. simplify_eq. split_and!; [by apply Hc|done|done].
  - intros H. minv. simplify_eq. split_and!; [done| |done].
    intros k s. destruct (decide (k = key)) as [->|Hne].
    + rewrite lookup_insert_eq. by intros [= <-].
    + rewrite lookup_insert_ne by done. apply Hc.
Qed.

(** The tables a batch appends to, with what it appends. *)
Definition stored (evs : list MachineEventRow) (cnts : list ProductionCountRow)
    (w w' : World) : Prop :=
  w_db w' Machine_events = w_db w Machine_events ++ evs ∧
  w_db w' Production_counts = w_db w Production_counts ++ cnts ∧
  ∀ t, t ≠ Machine_events → t ≠ Production_counts → w_db w' t = w_db w t.

Lemma stored_trans e1 e2 c1 c2 w1 w2 w3 :
  stored e1 c1 w1 w2 → stored e2 c2 w2 w3 → stored (e1 ++ e2) (c1 ++ c2) w1 w3.
Proof.
  intros (E1 & C1 & F1) (E2 & C2 & F2). unfold stored.
  rewrite E2, E1, C2, C1, !app_assoc. split_and!; [done..|].
  intros t H1 H2. by rewrite F2, F1.
Qed.

Lemma store_signal_Ok sig source u w w' :
  store_signal sig source w = (Ok u, w') →
  ∃ evs cnts, stored evs cnts w w' ∧
    map event_content evs =
      match event sig with
      | Count _ _ => []
      | e => [(ts sig, ss_work_center_id source, Some (ss_id source), event_type e)]
      end ∧
    map count_content cnts =
      match event sig with
      | Count g s => [(ts sig, ss_work_center_id source, Some (ss_id source), g, s)]
      | _ => []
      end.
Proof.
  unfold store_signal, insert_machine_event, insert_production_count, stored.
  destruct (event sig); intros H; minv; [eexists [_], []|eexists [_], []|eexists [], [_]];
    rewrite ?app_nil_r;
    (split; [split_and!; [reflexivity..|]; intros t ??; apply set_table_ne; congruence|done]).
Qed.

Lemma live_ext db db' : db Signal_sources = db' Signal_sources →
  live_source db = live_source db'.
Proof. intros E. unfold live_source, registered. by rewrite E. Qed.

Lemma ingest_loop_Ok sigs cache acc res w w' :
  cache_ok (w_db w) cache → ingest_loop sigs cache acc w = (Ok res, w') →
  ∃ evs cnts, stored evs cnts w w' ∧
    map event_content evs = omap (expected_event (w_db w)) sigs ∧
    map count_content cnts = omap (expected_count (w_db w)) sigs ∧
    accepted res = (accepted acc + length evs + length cnts)%nat ∧
    (accepted res + dropped res = accepted acc + dropped acc + length sigs)%nat.
Proof.
  revert cache acc w. induction sigs as [|sig sigs IH]; simpl; intros cache acc w Hc H.
  { minv. exists [], []. unfold stored. rewrite !app_nil_r. simpl. auto with lia. }
  apply bind_Ok in H as ([s cache'] & w1 & H1 & H).
  apply cached_source_Ok in H1 as (-> & Hc' & Edb); [|done].
  assert (live_source (w_db w) (source_key sig) =
    (s ← registered (w_db w) (source_key sig); if ss_enabled s then Some s else None))
    as Hlive by done.
  unfold expected_event at 1, expected_count at 1. rewrite Hlive.
  rewrite <- Edb in Hc'. destruct (registered _ _) as [s|]; simpl.
  2:{ apply IH in H as (evs & cnts & Hst & He & Hcn & Ha & Hd); [|done].
      unfold stored in Hst |- *. rewrite Edb in *. simpl in *.
      exists evs, cnts. split_and!; try done; try lia. apply Hst. apply Hst. apply Hst. }
  destruct (ss_enabled s); simpl.
  2:{ apply IH in H as (evs & cnts & Hst & He & Hcn & Ha & Hd); [|done].
      unfold stored in Hst |- *. rewrite Edb in *. simpl in *.
      exists evs, cnts. split_and!; try done; try lia; apply Hst. }
  apply bind_Ok in H as (u & w2 & H2 & H).
  apply store_signal_Ok in H2 as (e1 & c1 & Hst1 & He1 & Hc1).
  assert (w_db w2 Signal_sources = w_db w1 Signal_sources) as Es by (apply Hst1; done).
  apply IH in H as (e2 & c2 & Hst2 & He2 & Hc2 & Ha & Hd).
  2:{ intros k s' Hk. rewrite (Hc' k s' Hk). unfold registered. by rewrite Es. }
  unfold expected_event, expected_count in He2, Hc2 |- *.
  rewrite (live_ext _ _ Es) in He2, Hc2. rewrite Edb in He2, Hc2.
  exists (e1 ++ e2), (c1 ++ c2). split; [|rewrite !map_app, !length_app, He1, Hc1, He2, Hc2].
  - unfold stored. rewrite <- Edb. exact (stored_trans _ _ _ _ _ _ _ Hst1 Hst2).
  - apply (f_equal length) in He1, Hc1. rewrite !length_map in He1, Hc1. simpl in *.
    split_and!; [by destruct (event sig)..| |]; rewrite ?He1, ?Hc1;
      destruct (event sig); simpl in *; lia.
Qed.

(** *** Progress *)

Definition counts_in_range (sig : RawSignal) : bool :=
  match event sig with Count good scrap => in_i32 good && in_i32 scrap | _ => true end.

(** What storing signals needs: fresh identifiers, and the work centers of the sources. *)
Definition storable (w : World) : Prop :=
  healthy w ∧ ids_from Machine_events (w_next w) (w_db w) ∧
  ids_from Production_counts (w_next w) (w_db w) ∧
  Forall (λ s, key_exists (w_db w) Work_centers (ss_work_center_id s) = true)
    (w_db w Signal_sources).

Lemma store_signal_returns `{!Inj (=) (=) ulid} sig source w :
  storable w → source ∈ w_db w Signal_sources → counts_in_range sig = true →
  returns (store_signal sig source) w
    (λ _ w', storable w' ∧ w_db w' Signal_sources = w_db w Signal_sources).
Proof.
  intros (Hh & He & Hc & Hs) Hsrc Hin.
  assert (key_exists (w_db w) Signal_sources (ss_id source) = true) as Hk.
  { apply exists_row_true. exists source. split; [done|by apply String.eqb_eq]. }
  assert (key_exists (w_db w) Work_centers (ss_work_center_id source) = true) as Hwc.
  { rewrite Forall_forall in Hs. by apply Hs, list_elem_of_In. }
  assert (∀ (T : table) (f : row T → DateTime * string) (x : row T), (f x).2 = ulid (w_next w) →
    (∀ y, (f y).2 = key T y) → ids_from T (w_next w) (w_db w) →
    exists_row (same f x) (w_db w T) = false) as Hfresh.
  { intros T f x Hx Hf Hids. apply exists_row_false. intros y Hy. unfold same.
    apply bool_decide_eq_false. intros E. apply (Hids y (w_next w) Hy); [lia|].
    rewrite <- Hf, <- E. done. }
  unfold store_signal, counts_in_range in *.
  destruct (event sig); unfold insert_machine_event, insert_production_count; mgo; mwrite;
    try (apply check_row_None; [done|repeat constructor; by apply Hfresh|by repeat constructor]).
  all: mgo; unfold storable; simpl; split_and!; try done.
  all: first [by eapply ids_from_append | by eapply ids_from_weaken; [|eassumption]; lia].
Qed.

Lemma ingest_loop_returns `{!Inj (=) (=) ulid} sigs cache acc w :
  storable w → cache_ok (w_db w) cache → Forall (λ s, counts_in_range s = true) sigs →
  returns (ingest_loop sigs cache acc) w (λ _ _, True).
Proof.
  revert cache acc w. induction sigs as [|sig sigs IH]; simpl; intros cache acc w Hw Hc Hs;
    [by mgo|].
  apply Forall_cons_1 in Hs as [Hin Hs]. apply returns_bind.
  eapply returns_mono with (Q := λ r w', w' = w ∧ r.1 = registered (w_db w) (source_key sig) ∧
    cache_ok (w_db w) r.2).
  { unfold returns. destruct (cached_source cache (source_key sig) w) as [[[s c]|e] w1] eqn:E.
    - pose proof (cached_source_Ok _ _ _ _ _ _ Hc E) as (-> & Hc' & _). split; [|done].
      unfold cached_source, resolve_source in E. destruct (cache !! _); minv; [done|].
      by apply tick_healthy, Hw.
    - unfold cached_source, resolve_source, mbind, M_bind, map_err, fetch_optional, fetch in E.
      destruct (cache !! source_key sig); [done|]. simpl in E. unfold mbind, M_bind in E.
      rewrite query_run in E by apply Hw. done. }
  intros [s c] w' (-> & Hreg & Hc'). simpl in Hreg, Hc'. subst s.
  destruct (registered (w_db w) (source_key sig)) as [s|] eqn:Es; [|by apply IH].
  destruct (ss_enabled s); [|by apply IH]. apply first_where_Some in Es as [_ Hsrc].
  apply returns_bind. eapply returns_mono; [by apply store_signal_returns|].
  intros u w' [Hw' Esrc]. apply IH; [done| |done]. intros k x Hk. rewrite (Hc' k x Hk).
  unfold registered. by rewrite Esrc.
Qed.
End ingest_proofs.

(** ** What a recompute derives *)

Definition cycle_pulses (wc : string) (start end_ : DateTime) (db : Db) : list DateTime :=
  map me_ts (order_by me_ts (select (is_cycle_in wc start end_) (db Machine_events))).

Definition planned_intervals (wc : string) (start end_ : DateTime) (db : Db) :
    list PlannedInterval :=
  map (λ p, mkPlanned (ps_starts_at p) (ps_ends_at p))
    (order_by ps_starts_at (select (planned_in wc start end_) (db Planned_stops))).

Definition derived (wc : string) (start end_ : DateTime) (db : Db) : list StateInterval :=
  apply_planned_stops
    (compute_states StateConfig_default (cycle_pulses wc start end_ db) start end_)
    (planned_intervals wc start end_ db).

(** The state an instant is meant to have: a planned stop of the work center that covers it,
    or what the cycle pulses of the work center in the window say. *)
Definition meant_state (wc : string) (start end_ t : DateTime) (db : Db) : MachineState :=
  if exists_row (λ p, bool_decide (ps_work_center_id p = wc ∧
       ps_starts_at p <= t < ps_ends_at p)) (db Planned_stops) then PlannedStop
  else pulse_state StateConfig_default
    (map me_ts (order_by me_ts (select (λ e, bool_decide (me_work_center_id e = wc ∧
       me_event_type e = "cycle"%string ∧ start <= me_ts e <= end_)) (db Machine_events))))
    start end_ t.

Lemma cycle_pulses_spec wc start end_ db :
  cycle_pulses wc start end_ db =
  map me_ts (order_by me_ts (select (λ e, bool_decide (me_work_center_id e = wc ∧
    me_event_type e = "cycle"%string ∧ start <= me_ts e <= end_)) (db Machine_events))).
Proof.
  unfold cycle_pulses. do 2 f_equal. apply select_ext. intros e _. apply eq_true_iff_eq.
  unfold is_cycle_in. rewrite bool_decide_eq_true, !andb_true_iff, !String.eqb_eq, !Z.leb_le.
  tauto.
Qed.

Lemma planned_intervals_spec wc start end_ t db :
  start <= t < end_ →
  planned_at (planned_intervals wc start end_ db) t =
  exists_row (λ p, bool_decide (ps_work_center_id p = wc ∧
    ps_starts_at p <= t < ps_ends_at p)) (db Planned_stops).
Proof.
  intros Ht. apply eq_true_iff_eq. unfold planned_at, planned_intervals.
  rewrite !exists_row_true. setoid_rewrite list_elem_of_fmap. unfold order_by. split.
  - intros (x & (p & -> & Hp) & H). rewrite elem_of_sort_by, elem_of_select in Hp.
    destruct Hp as [Hp Hin]. unfold planned_in in Hp. simpl in H. bool_to_prop.
    exists p. split; [done|]. by apply bool_decide_eq_true.
  - intros (p & Hin & Hp). apply bool_decide_eq_true in Hp as (Hwc & Hst & Hen).
    exists (mkPlanned (ps_starts_at p) (ps_ends_at p)). split.
    + exists p. rewrite elem_of_sort_by, elem_of_select. split_and!; [done| |done].
      unfold planned_in. rewrite !andb_true_iff, String.eqb_eq, !Z.ltb_lt.
      split_and!; [done|lia..].
    + simpl. rewrite andb_true_iff, Z.leb_le, Z.ltb_lt. lia.
Qed.

(** The states the stored rows of a work center give an instant. *)
Definition stored_states_at (wc : string) (t : DateTime) (db : Db) : list string :=
  map ms_state (select (λ r, String.eqb (ms_work_center_id r) wc &&
                             ((ms_start_ts r <=? t) && (t <? ms_end_ts r)))
                  (db Machine_states)).

Definition state_content (r : MachineStateRow) :=
  (ms_work_center_id r, ms_state r, ms_start_ts r, ms_end_ts r).

Definition interval_content (wc : string) (iv : StateInterval) :=
  (wc, state_str (iv_state iv), iv_start iv, iv_end iv).

(** The derived rows [db'] holds, given those of [db], are the ones of [ivs]. *)
Definition replaced (wc : string) (start end_ : DateTime) (ivs : list StateInterval)
    (dts : list DowntimeEvent) (db db' : Db) : Prop :=
  (∃ rows, map state_content rows = map (interval_content wc) ivs ∧
     db' Machine_states =
       delete_rows (state_overlaps wc start end_) (db Machine_states) ++ rows) ∧
  db' Downtime_events =
    delete_rows (unclassified_overlaps wc start end_) (db Downtime_events) ++
    map (downtime_row wc) dts ∧
  ∀ t, t ≠ Machine_states → t ≠ Downtime_events → db' t = db t.

Lemma derived_timeline wc start end_ db :
  start < end_ →
  tiles start end_ (derived wc start end_ db) ∧
  ∀ t, start <= t < end_ →
    state_at (derived wc start end_ db) t = Some (meant_state wc start end_ t db).
Proof.
  intros Hlt.
  destruct (compute_states_timeline StateConfig_default (cycle_pulses wc start end_ db)
    start end_) as [Ht Hs]; [done|done| |].
  { intros p (r & -> & Hr)%list_elem_of_fmap. unfold order_by in Hr.
    rewrite elem_of_sort_by, elem_of_select in Hr. destruct Hr as [Hr _].
    unfold is_cycle_in in Hr. bool_to_prop. lia. }
  destruct (apply_planned_stops_timeline _ (planned_intervals wc start end_ db) _ _ Ht)
    as [Ht' Hs']. split; [done|].
  intros t Hin. unfold derived, meant_state. rewrite Hs', Hs by done.
  rewrite planned_intervals_spec by done. rewrite cycle_pulses_spec. by case_match.
Qed.

Section recompute_proofs.
Context {env : Env}.

Lemma replace_derived_Ok wc start end_ ivs dts u w w' :
  replace_derived wc start end_ ivs dts w = (Ok u, w') →
  replaced wc start end_ ivs dts (w_db w) (w_db w').
Proof.
  unfold replace_derived. intros H. minv.
  apply (forM_appends Machine_states state_content (interval_content wc)) in H1
    as (rows & Hrows & E1 & F1).
  2:{ unfold insert_state. intros iv v v' [] Hi.
      apply bind_Ok in Hi as (id & v1 & [-> ->]%new_id_Ok & Hi).
      apply bind_Ok in Hi as (r & v2 & Hi%map_err_Ok & [_ ->]%ret_Ok).
      apply insert_appends in Hi as [-> Hi]. eexists; split; [|exact Hi]; done. }
  apply (forM_appends Downtime_events id (downtime_row wc)) in H as (rows' & Hr' & E2 & F2).
  2:{ unfold insert_downtime. intros d v v' [] Hi.
      apply bind_Ok in Hi as (r & v2 & Hi%map_err_Ok & [_ ->]%ret_Ok).
      apply insert_appends in Hi as [-> Hi]. eexists; split; [|exact Hi]; done. }
  rewrite map_id in Hr'. subst rows'. simpl in *. split_and!.
  - exists rows. split; [done|]. rewrite F2 by done. simpl.
    rewrite set_table_ne by done. rewrite E1. by rewrite set_table_eq.
  - rewrite E2. simpl. rewrite set_table_eq. rewrite F1 by done. simpl.
    by rewrite set_table_ne.
  - intros t H1 H2. rewrite F2 by done. simpl. rewrite set_table_ne by congruence.
    rewrite F1 by done. simpl. by apply set_table_ne.
Qed.

Lemma recompute_states_Ok wc start end_ res w w' :
  recompute_states wc start end_ w = (Ok res, w') →
  let ivs := derived wc start end_ (w_db w) in
  let dts := downtime_events ulid (w_next w) ivs in
  res = (length ivs, length dts) ∧
  replaced wc start end_ ivs dts (w_db w) (w_db w').
Proof.
  unfold recompute_states, fetch_cycle_pulses, fetch_planned_intervals. intros H.
  minv. unfold draw_downtime_events in H2. simplify_eq/=.
  apply replace_derived_Ok in H3. done.
Qed.
End recompute_proofs.

(** ** Reading the replaced rows *)

Lemma select_delete {A} (p : A → bool) l : select p (delete_rows p l) = [].
Proof.
  apply select_none. intros x Hx. by apply elem_of_delete_rows in Hx as [_ ?].
Qed.

Lemma delete_delete {A} (p : A → bool) l : delete_rows p (delete_rows p l) = delete_rows p l.
Proof.
  apply select_all. intros x Hx. apply elem_of_delete_rows in Hx as [_ ->]. done.
Qed.

Lemma delete_all {A} (p : A → bool) l : (∀ x, x ∈ l → p x = true) → delete_rows p l = [].
Proof. intros H. apply select_none. intros x Hx. by rewrite H. Qed.

Lemma delete_rows_app {A} (p : A → bool) l k :
  delete_rows p (l ++ k) = delete_rows p l ++ delete_rows p k.
Proof. apply select_app. Qed.

Section replaced.
Context (wc : string) (start end_ : DateTime) (ivs : list StateInterval)
  (dts : list DowntimeEvent) (db db' : Db).
Context (Htiles : tiles start end_ ivs)
  (Hdts : ∀ d, d ∈ dts → ∃ iv, iv ∈ ivs ∧ dt_start d = iv_start iv ∧ dt_end d = iv_end iv)
  (Hrep : replaced wc start end_ ivs dts db db').

Lemma new_state_overlaps rows r :
  map state_content rows = map (interval_content wc) ivs → r ∈ rows →
  state_overlaps wc start end_ r = true.
Proof.
  intros Hrows Hr0. assert (state_content r ∈ map state_content rows) as Hr
    by (apply list_elem_of_fmap; eauto).
  rewrite Hrows in Hr. apply list_elem_of_fmap in Hr as (iv & E & Hiv).
  unfold state_content, interval_content in E. simplify_eq.
  destruct (tiles_bounds _ _ _ _ Htiles Hiv) as (? & ? & ?).
  unfold state_overlaps. rewrite !andb_true_iff, String.eqb_eq, !Z.ltb_lt.
  split_and!; [done|lia..].
Qed.

Lemma replaced_outside :
  delete_rows (state_overlaps wc start end_) (db' Machine_states) =
  delete_rows (state_overlaps wc start end_) (db Machine_states).
Proof.
  destruct Hrep as [(rows & Hrows & ->) _].
  rewrite delete_rows_app, delete_delete, (delete_all _ rows), app_nil_r; [done|].
  intros r Hr. by eapply new_state_overlaps.
Qed.

Lemma replaced_states_outside r :
  ms_work_center_id r ≠ wc ∨ ms_end_ts r <= start ∨ end_ <= ms_start_ts r →
  r ∈ db' Machine_states ↔ r ∈ db Machine_states.
Proof.
  intros Hr. assert (state_overlaps wc start end_ r = false) as Ho.
  { apply not_true_iff_false. unfold state_overlaps. intros H. bool_to_prop.
    destruct Hr as [?|[?|?]]; [done|lia..]. }
  pose proof (elem_of_delete_rows (state_overlaps wc start end_) (db Machine_states) r).
  pose proof (elem_of_delete_rows (state_overlaps wc start end_) (db' Machine_states) r) as H'.
  rewrite replaced_outside in H'. tauto.
Qed.

Lemma replaced_downtime_rows r :
  r ∈ db' Downtime_events ↔
    (∃ d, d ∈ dts ∧ r = mkDowntimeRow (dt_id d) wc (state_str (dt_state d)) (dt_start d)
       (dt_end d) None None None) ∨
    r ∈ db Downtime_events ∧
      (de_work_center_id r ≠ wc ∨ de_reason_id r ≠ None ∨ de_end_ts r <= start ∨
       end_ <= de_start_ts r).
Proof.
  destruct Hrep as (_ & -> & _). rewrite elem_of_app, elem_of_delete_rows, list_elem_of_fmap.
  assert (unclassified_overlaps wc start end_ r = false ↔
    de_work_center_id r ≠ wc ∨ de_reason_id r ≠ None ∨ de_end_ts r <= start ∨
    end_ <= de_start_ts r) as ->.
  { unfold unclassified_overlaps. rewrite !andb_false_iff, String.eqb_neq, !Z.ltb_ge,
      bool_decide_eq_false. tauto. }
  unfold downtime_row. naive_solver.
Qed.

Lemma replaced_at t st :
  start <= t < end_ → state_at ivs t = Some st →
  stored_states_at wc t db' = [state_str st].
Proof.
  intros Ht Hst. destruct Hrep as [(rows & Hrows & E) _]. unfold stored_states_at.
  rewrite E, select_app, map_app. rewrite select_none; simpl.
  2:{ intros r [_ Hr]%elem_of_delete_rows. apply not_true_iff_false. intros Hc.
      unfold state_overlaps in Hr. rewrite !andb_true_iff in Hc.
      destruct Hc as (Hwc & H1 & H2). rewrite Hwc in Hr. simpl in Hr.
      apply andb_false_iff in Hr. rewrite !Z.ltb_ge in Hr. bool_to_prop. lia. }
  apply (tiles_holds_one _ _ _ _ _ Htiles) in Hst. apply (f_equal (map state_str)) in Hst.
  simpl in Hst. rewrite <- Hst. clear E Hst Hdts Hrep Htiles. revert rows Hrows.
  induction ivs as [|iv l IH]; intros [|r rows] Hrows; try discriminate; [done|].
  injection Hrows as Hwc E1 Hs He Hrows. simpl. unfold holds at 1.
  rewrite Hwc, Hs, He, String.eqb_refl. simpl. case_match; simpl; [by rewrite E1, IH|by apply IH].
Qed.

Lemma replaced_downtime :
  select (unclassified_overlaps wc start end_) (db' Downtime_events) =
    map (downtime_row wc) dts ∧
  delete_rows (unclassified_overlaps wc start end_) (db' Downtime_events) =
    delete_rows (unclassified_overlaps wc start end_) (db Downtime_events).
Proof.
  destruct Hrep as (_ & -> & _).
  assert (∀ r, r ∈ map (downtime_row wc) dts →
    unclassified_overlaps wc start end_ r = true) as Hall.
  { intros r (d & -> & Hd)%list_elem_of_fmap. apply Hdts in Hd as (iv & Hiv & E1 & E2).
    destruct (tiles_bounds _ _ _ _ Htiles Hiv) as (? & ? & ?).
    unfold unclassified_overlaps, downtime_row. simpl.
    rewrite E1, E2, String.eqb_refl, !andb_true_iff, !Z.ltb_lt. simpl. lia. }
  rewrite select_app, delete_rows_app, select_delete, delete_delete.
  rewrite (select_all _ (map _ _)), (delete_all _ (map _ _)) by done.
  by rewrite app_nil_r.
Qed.
End replaced.

(** ** Progress *)

Lemma downtime_events_ids ids n ivs :
  map dt_id (downtime_events ids n ivs) =
  map ids (seq n (length (downtime_events ids n ivs))).
Proof.
  unfold downtime_events. rewrite length_imap.
  generalize (select (λ iv, is_stop (iv_state iv) &&
    negb (bool_decide (iv_state iv = PlannedStop))) ivs) as l.
  intros l. revert n. induction l as [|iv l IH]; intros n; [done|].
  rewrite imap_cons. cbn [map length seq]. f_equal; [simpl; f_equal; lia|].
  rewrite <- IH. f_equal. apply imap_ext. intros i x _. simpl. do 2 f_equal. lia.
Qed.

Section progress.
Context {env : Env} `{!Inj (=) (=) ulid}.
Variable wc : string.

Definition ready (w : World) : Prop :=
  healthy w ∧ key_exists (w_db w) Work_centers wc = true.

Lemma insert_state_run iv w :
  ready w → ids_from Machine_states (w_next w) (w_db w) →
  ∃ w', insert_state wc iv w = (Ok tt, w') ∧ ready w' ∧
    ids_from Machine_states (w_next w') (w_db w') ∧
    w_db w' Downtime_events = w_db w Downtime_events.
Proof.
  intros [Hh Hwc] Hid. unfold insert_state. unfold mbind, M_bind at 1. simpl.
  set (r := mkMachineStateRow _ _ _ _ _).
  assert (check_row Machine_states r (w_db w) = None) as Hc.
  { apply check_row_None; [done| |by repeat constructor]. repeat constructor.
    apply exists_row_false. intros x Hx. apply bool_decide_eq_false. simpl. intros E.
    by apply (Hid x (w_next w) Hx). }
  unfold map_err, mbind, M_bind. rewrite (insert_run Machine_states r) by done.
  eexists. split; [reflexivity|]. split; [by split|]. split; [|done]. simpl.
  apply (ids_from_append Machine_states _ (w_db w) _ r); [apply set_table_eq|done..].
Qed.

Lemma insert_states_run ivs w :
  ready w → ids_from Machine_states (w_next w) (w_db w) →
  ∃ w', forM_ ivs (insert_state wc) w = (Ok tt, w') ∧ ready w' ∧
    w_db w' Downtime_events = w_db w Downtime_events.
Proof.
  revert w. induction ivs as [|iv ivs IH]; simpl; intros w Hr Hid; [by eauto|].
  destruct (insert_state_run iv w) as (w1 & E1 & Hr1 & Hid1 & Ed1); [done..|].
  destruct (IH w1) as (w2 & E2 & Hr2 & Ed2); [done..|].
  exists w2. unfold mbind, M_bind. rewrite E1. split_and!; [done|done|by rewrite Ed2].
Qed.

Lemma insert_downtime_run d w :
  ready w → (∀ r, r ∈ w_db w Downtime_events → de_id r ≠ dt_id d) →
  ∃ w', insert_downtime wc d w = (Ok tt, w') ∧ ready w' ∧
    w_db w' Downtime_events = w_db w Downtime_events ++ [downtime_row wc d].
Proof.
  intros [Hh Hwc] Hid. unfold insert_downtime.
  assert (check_row Downtime_events (downtime_row wc d) (w_db w) = None) as Hc.
  { apply check_row_None; [done| |by repeat constructor]. repeat constructor.
    apply exists_row_false. intros x Hx. apply bool_decide_eq_false. simpl. intros E.
    by apply (Hid x Hx). }
  unfold map_err, mbind, M_bind. rewrite (insert_run Downtime_events _) by done.
  eexists. split; [reflexivity|]. split; [by split|]. apply set_table_eq.
Qed.

Lemma insert_downtimes_run dts w :
  ready w → NoDup (map dt_id dts) →
  (∀ r, r ∈ w_db w Downtime_events → de_id r ∉ map dt_id dts) →
  ∃ w', forM_ dts (insert_downtime wc) w = (Ok tt, w') ∧ ready w'.
Proof.
  revert w. induction dts as [|d dts IH]; simpl; intros w Hr Hnd Hid; [by eauto|].
  apply list.NoDup_cons in Hnd as [Hd Hnd].
  destruct (insert_downtime_run d w) as (w1 & E1 & Hr1 & Ed1); [done| |].
  { intros r Hr0 E. apply (Hid r Hr0). rewrite E. left. }
  destruct (IH w1) as (w2 & E2 & Hr2); [done|done| |].
  { intros r. rewrite Ed1, elem_of_app, list_elem_of_singleton.
    intros [Hr0| ->]; [|done]. intros Hin. apply (Hid r Hr0). by right. }
  exists w2. unfold mbind, M_bind. by rewrite E1.
Qed.

Lemma replace_derived_run start end_ ivs dts w :
  ready w → ids_from Machine_states (w_next w) (w_db w) → NoDup (map dt_id dts) →
  (∀ r, r ∈ w_db w Downtime_events → de_id r ∉ map dt_id dts) →
  ∃ w', replace_derived wc start end_ ivs dts w = (Ok tt, w').
Proof.
  intros Hr Hid Hnd Hdt. pose proof Hr as [Hh Hwc].
  unfold replace_derived, transaction, enclosed, begin_, commit.
  unfold mbind, M_bind, map_err. rewrite query_run by done.
  unfold delete. rewrite statement_run by done.
  set (w1 := w <| w_db := _ |>).
  destruct (insert_states_run ivs w1) as (w2 & -> & Hr2 & Ed2).
  { by split. }
  { eapply ids_from_mono; [|exact Hid]. intros r. unfold w1. simpl. rewrite set_table_eq.
    intros Hx. by apply elem_of_delete_rows in Hx as [? _]. }
  rewrite statement_run by apply Hr2. set (w3 := w2 <| w_db := _ |>).
  destruct (insert_downtimes_run dts w3) as (w4 & -> & Hr4).
  { split; [apply Hr2|]. apply Hr2. }
  { done. }
  { intros r. unfold w3. simpl. rewrite set_table_eq. intros Hx.
    apply elem_of_delete_rows in Hx as [Hx _]. rewrite Ed2 in Hx. unfold w1 in Hx.
    simpl in Hx. rewrite set_table_ne in Hx by done. by apply Hdt. }
  rewrite query_run by apply Hr4. simpl. eauto.
Qed.

Lemma recompute_states_run start end_ w :
  ready w → ids_from Machine_states (w_next w) (w_db w) →
  ids_from Downtime_events (w_next w) (w_db w) →
  ∃ res w', recompute_states wc start end_ w = (Ok res, w').
Proof.
  intros Hr Hids Hidd. pose proof Hr as [Hh Hwc].
  unfold recompute_states, fetch_cycle_pulses, fetch_planned_intervals.
  unfold mbind, M_bind, map_err. rewrite !query_run by done.
  set (ivs := apply_planned_stops _ _). unfold draw_downtime_events.
  set (dts := downtime_events _ _ ivs). set (w1 := w <| w_next := _ |>).
  destruct (replace_derived_run start end_ ivs dts w1) as (w2 & ->); [done|..|by eauto].
  - eapply ids_from_weaken; [|exact Hids]. simpl. lia.
  - unfold dts. rewrite downtime_events_ids. apply NoDup_fmap_2; [done|].
    apply NoDup_ListNoDup, seq_NoDup.
  - intros r Hin. unfold dts. rewrite downtime_events_ids.
    intros (m & E & Hm)%list_elem_of_fmap. apply list_elem_of_In, in_seq in Hm.
    apply (Hidd r m Hin); [lia|done].
Qed.
End progress.

Lemma downtime_of_interval ids n ivs d :
  d ∈ downtime_events ids n ivs →
  ∃ iv, iv ∈ ivs ∧ dt_start d = iv_start iv ∧ dt_end d = iv_end iv.
Proof. intros (iv & ? & _ & _ & ? & ?)%elem_of_downtime_events. eauto. Qed.

Lemma length_downtime_events ids n ids' n' ivs :
  length (downtime_events ids n ivs) = length (downtime_events ids' n' ivs).
Proof. unfold downtime_events. by rewrite !length_imap. Qed.

Definition downtime_content (r : DowntimeRow) :=
  (de_work_center_id r, de_state r, de_start_ts r, de_end_ts r, de_reason_id r).

(** Apart from their identifiers, the events do not depend on the identifier source. *)
Lemma downtime_content_ids wc ids n ids' n' ivs :
  map downtime_content (map (downtime_row wc) (downtime_events ids n ivs)) =
  map downtime_content (map (downtime_row wc) (downtime_events ids' n' ivs)).
Proof.
  unfold downtime_events. rewrite !map_map.
  generalize (select (λ iv, is_stop (iv_state iv) &&
    negb (bool_decide (iv_state iv = PlannedStop))) ivs) as l.
  intros l. revert n n'. induction l as [|iv l IH]; intros n n'; [done|].
  rewrite !imap_cons. cbn [map]. f_equal.
  pose proof (IH (S n) (S n')) as IH'. revert IH'. unfold compose.
  assert (∀ (ids : nat → string) n, imap (λ k iv, mkDowntimeEvent (ids (S n + k)%nat)
      (iv_state iv) (iv_start iv) (iv_end iv)) l = imap (λ k iv, mkDowntimeEvent
      (ids (n + S k)%nat) (iv_state iv) (iv_start iv) (iv_end iv)) l) as Hs.
  { intros f m. apply imap_ext. intros i x _. do 2 f_equal. lia. }
  by rewrite !Hs.
Qed.

(** ** Properties *)

(** C15. A batch of signals that is accepted stores exactly the signals of registered,
    enabled sources, each under the work center of its source, cycles and heartbeats as
    machine events and counts as production counts, in the order received; it reports how
    many it stored and drops all the others, and writes nothing else. On a healthy connection
    a batch is accepted, whatever its sources, when its counts fit 32 bits. *)
Theorem ingest_signals_exact {env : Env} auth signals w :
  (∀ res w', ingest_signals auth signals w = (Ok res, w') →
   ∃ evs cnts, stored evs cnts w w' ∧
     map event_content evs = omap (expected_event (w_db w)) signals ∧
     map count_content cnts = omap (expected_count (w_db w)) signals ∧
     accepted res = (length evs + length cnts)%nat ∧
     (accepted res + dropped res = length signals)%nat) ∧
  (Inj (=) (=) ulid → w_pool w = true → storable w →
   Forall (λ s, counts_in_range s = true) signals →
   is_ok (ingest_signals auth signals w).1 = true).
Proof.
  unfold ingest_signals. split.
  2:{ intros. apply returns_ok with (Q := λ _ _, True). mgo.
      by apply ingest_loop_returns; [done| |]; [intros key s; rewrite lookup_empty|]. }
  intros res w' H. apply bind_Ok in H as (u & w1 & [_ ->]%require_pool_Ok & H).
  apply ingest_loop_Ok in H as (evs & cnts & Hst & He & Hc & Ha & Hd).
  - exists evs, cnts. simpl in *. auto with lia.
  - intros key s. by rewrite lookup_empty.
Qed.

Definition sample_batch : list RawSignal :=
  [mkRawSignal "topic/1" (seconds 10) Cycle; mkRawSignal "topic/2" (seconds 20) Cycle;
   mkRawSignal "topic/9" (seconds 30) Cycle; mkRawSignal "topic/1" (seconds 40) (Count 5 1);
   mkRawSignal "topic/1" (seconds 70) Cycle].

Lemma ingest_signals_exact_witness :
  let r := @ingest_signals sample_env admin sample_batch plant in
  r.1 = Ok (mkIngestResult 3 2) ∧
  ∃ evs cnts, stored evs cnts plant r.2 ∧
    map event_content evs = omap (expected_event plant_db) sample_batch ∧
    map count_content cnts = omap (expected_count plant_db) sample_batch ∧
    is_ok (@ingest_signals sample_env admin sample_batch (plant <| w_next := 7%nat |>)).1 = true.
Proof.
  set (r := ingest_signals admin sample_batch plant).
  assert (r.1 = Ok (mkIngestResult 3 2)) as E by (vm_compute; reflexivity).
  split; [exact E|].
  destruct (proj1 (@ingest_signals_exact sample_env admin sample_batch plant)
    (mkIngestResult 3 2) r.2) as (evs & cnts & H1 & H2 & H3 & _).
  - exact (outcome _ _ E).
  - exists evs, cnts. split_and!; [done..|].
    apply (proj2 (@ingest_signals_exact sample_env admin sample_batch _));
      [apply sample_ulid_inj|done| |by repeat constructor].
    split_and!; [done|by apply no_ulids_ids_from..|by repeat constructor].
Defined.

(** C14. Recomputing a window goes through on a healthy database and derives the truth:
    afterwards exactly one stored state row of the work center covers each instant of the
    window, with the state the planned stops and the cycle pulses of the window give it;
    the downtime events are the stops of that timeline and those there were before, less the
    unclassified ones over the window; state rows outside the window, other work centers
    and other tables are as before. *)
Theorem recompute_states_correct {env : Env} wc start end_ w :
  Inj (=) (=) ulid → ready wc w →
  ids_from Machine_states (w_next w) (w_db w) →
  ids_from Downtime_events (w_next w) (w_db w) → start < end_ →
  let ivs := derived wc start end_ (w_db w) in
  let dts := downtime_events ulid (w_next w) ivs in
  ∃ w', recompute_states wc start end_ w = (Ok (length ivs, length dts), w') ∧
    (∀ t, start <= t < end_ → stored_states_at wc t (w_db w') =
       [state_str (meant_state wc start end_ t (w_db w))]) ∧
    (∀ r, ms_work_center_id r ≠ wc ∨ ms_end_ts r <= start ∨ end_ <= ms_start_ts r →
       r ∈ w_db w' Machine_states ↔ r ∈ w_db w Machine_states) ∧
    (∀ r, r ∈ w_db w' Downtime_events ↔
       (∃ d, d ∈ dts ∧ r = mkDowntimeRow (dt_id d) wc (state_str (dt_state d)) (dt_start d)
          (dt_end d) None None None) ∨
       r ∈ w_db w Downtime_events ∧
         (de_work_center_id r ≠ wc ∨ de_reason_id r ≠ None ∨ de_end_ts r <= start ∨
          end_ <= de_start_ts r)) ∧
    ∀ t, t ≠ Machine_states → t ≠ Downtime_events → w_db w' t = w_db w t.
Proof.
  intros Hinj Hr Hids Hidd Hlt ivs dts.
  destruct (recompute_states_run wc start end_ w) as (res & w' & Hrun); [done..|].
  destruct (recompute_states_Ok _ _ _ _ _ _ Hrun) as [-> Hrep]. fold ivs dts in Hrun, Hrep.
  destruct (derived_timeline wc start end_ (w_db w) Hlt) as [Ht Hs]. fold ivs in Ht, Hs.
  pose proof (λ d, downtime_of_interval ulid (w_next w) ivs d) as Hd.
  exists w'. split; [done|]. split; [|split; [|split]].
  - intros t Hin. by eapply replaced_at, Hs.
  - intros r Hout. by eapply replaced_states_outside.
  - intros r. by eapply replaced_downtime_rows.
  - apply Hrep.
Qed.

Definition pulse_row (k : Z) : MachineEventRow :=
  mkMachineEventRow (pretty.pretty k) (seconds (60 * k)) "wc1" (Some "src1") "cycle" None.

(** Pulses every minute for ten minutes, with a planned stop from the fourth to the sixth. *)
Definition running_plant : World := world_of (
  set_table Machine_events (map pulse_row (seqZ 0 11)) (
  set_table Planned_stops
    [mkPlannedStopRow "ps1" "wc1" "cleaning" (seconds 240) (seconds 360)] plant_db)).

Lemma recompute_states_correct_witness :
  ∃ w', @recompute_states sample_env "wc1" 0 (seconds 600) running_plant = (Ok (3, 0)%nat, w') ∧
    stored_states_at "wc1" (seconds 300) (w_db w') = ["planned_stop"]%string ∧
    stored_states_at "wc1" (seconds 400) (w_db w') = ["running"]%string.
Proof.
  destruct (@recompute_states_correct sample_env "wc1" 0 (seconds 600) running_plant)
    as (w' & Hrun & Hst & _).
  - exact sample_ulid_inj.
  - split; reflexivity.
  - apply no_ulids_ids_from. reflexivity.
  - apply no_ulids_ids_from. reflexivity.
  - reflexivity.
  - exists w'. split; [|split].
    + refine (eq_trans Hrun _). vm_compute. reflexivity.
    + refine (eq_trans (Hst (seconds 300) _) _); [vm_compute; split; [discriminate|reflexivity]|].
      vm_compute. reflexivity.
    + refine (eq_trans (Hst (seconds 400) _) _); [vm_compute; split; [discriminate|reflexivity]|].
      vm_compute. reflexivity.
Defined.

(** Recomputing is idempotent: a second recompute of the same window, on the data the
    first left, changes nothing but the identifiers of the derived rows. *)
Theorem recompute_states_idempotent {env : Env} wc start end_ w res w1 v res' w2 :
  start < end_ →
  recompute_states wc start end_ w = (Ok res, w1) → w_db v = w_db w1 →
  recompute_states wc start end_ v = (Ok res', w2) →
  res' = res ∧
  map state_content (w_db w2 Machine_states) = map state_content (w_db w1 Machine_states) ∧
  map downtime_content (w_db w2 Downtime_events) =
    map downtime_content (w_db w1 Downtime_events) ∧
  ∀ t, t ≠ Machine_states → t ≠ Downtime_events → w_db w2 t = w_db w1 t.
Proof.
  intros Hlt H1 Ev H2.
  apply recompute_states_Ok in H1 as [-> Hr1]. apply recompute_states_Ok in H2 as [-> Hr2].
  destruct (derived_timeline wc start end_ (w_db w) Hlt) as [Ht _].
  assert (derived wc start end_ (w_db v) = derived wc start end_ (w_db w)) as Ed.
  { unfold derived, cycle_pulses, planned_intervals. rewrite Ev. destruct Hr1 as (_ & _ & F).
    by rewrite !F. }
  rewrite Ed in *. set (ivs := derived wc start end_ (w_db w)) in *. rewrite Ev in Hr2.
  pose proof (replaced_outside _ _ _ _ _ _ _ Ht Hr1) as Ho.
  destruct (replaced_downtime _ _ _ _ _ _ _ Ht
    (λ d, downtime_of_interval ulid (w_next w) ivs d) Hr1) as [_ Hd].
  destruct Hr1 as ((rows1 & E1 & M1) & D1 & F1), Hr2 as ((rows2 & E2 & M2) & D2 & F2).
  split_and!; [f_equal; apply length_downtime_events|..|done].
  - by rewrite M2, Ho, M1, !map_app, E1, E2.
  - rewrite D2, Hd, D1, !map_app. f_equal. apply downtime_content_ids.
Qed.

Lemma recompute_states_idempotent_witness :
  let r1 := @recompute_states sample_env "wc1" 0 (seconds 600) running_plant in
  let r2 := @recompute_states sample_env "wc1" 0 (seconds 600) r1.2 in
  r1.1 = Ok (3, 0)%nat ∧ r2.1 = r1.1 ∧
  map state_content (w_db r2.2 Machine_states) = map state_content (w_db r1.2 Machine_states).
Proof.
  set (r1 := @recompute_states sample_env "wc1" 0 (seconds 600) running_plant).
  set (r2 := @recompute_states sample_env "wc1" 0 (seconds 600) r1.2).
  assert (r1.1 = Ok (3, 0)%nat) as E1 by (vm_compute; reflexivity).
  assert (r2.1 = Ok (3, 0)%nat) as E2 by (vm_compute; reflexivity).
  split; [exact E1|]. split; [exact (eq_trans E2 (eq_sym E1))|].
  refine (proj1 (proj2 (@recompute_states_idempotent sample_env "wc1" 0 (seconds 600)
    running_plant (3, 0)%nat r1.2 r1.2 (3, 0)%nat r2.2 _ _ _ _))).
  - reflexivity.
  - exact (outcome _ _ E1).
  - reflexivity.
  - exact (outcome _ _ E2).
Defined.

(** A recompute of a later window removes the whole of a stored interval that straddles its
    start, so that the part before the window is no longer covered. *)
Example recompute_loses_straddling_part :
  let w1 := (@recompute_states sample_env "wc1" 0 (seconds 600) running_plant).2 in
  let w2 := (@recompute_states sample_env "wc1" (seconds 60) (seconds 600) w1).2 in
  stored_states_at "wc1" (seconds 30) (w_db w1) = ["running"]%string ∧
  stored_states_at "wc1" (seconds 30) (w_db w2) = [].
Proof. vm_compute. auto. Qed.
