(* ===== verification/Simulator.v ===== *)
(** * The scripted signal source

    [crates/mes-ingest/src/sim.rs]: a source that hands out a script of signals once, and the
    generator of evenly spaced cycle pulses. Instants are unbounded here (chrono's end in the
    year 262143). *)

From S2P Require Import Prelude Schema Sql Sample Ingest.

Record SimSource := mkSimSource {
  ss_name : string; ss_pending : list RawSignal; ss_drained : bool
}.

Definition sim_new (name : string) (signals : list RawSignal) : SimSource :=
  mkSimSource name signals false.

(** [SignalSource::poll]: the batch, and the source after it. *)
Definition sim_poll (s : SimSource) : list RawSignal * SimSource :=
  if ss_drained s then ([], s) else (ss_pending s, mkSimSource (ss_name s) [] true).

(** The loop of [cycle_run] from [t] on; [None] when the fuel does not suffice. *)
Fixpoint cycle_loop (fuel : nat) (source_key : string) (t to : DateTime) (step_secs : Z)
    (out : list RawSignal) : option (list RawSignal) :=
  match fuel with
  | O => None
  | S fuel' =>
      if t <=? to then
        cycle_loop fuel' source_key (t + seconds step_secs) to step_secs
          (out ++ [mkRawSignal source_key t Cycle])
      else Some out
  end.

Definition cycle_run (fuel : nat) (source_key : string) (from to : DateTime) (step_secs : Z) :
    option (list RawSignal) := cycle_loop fuel source_key from to step_secs [].

(** ** Lemmas *)

(** How many pulses there are. *)
Definition pulse_count (from to : DateTime) (step_secs : Z) : nat :=
  Z.to_nat ((to - from) / seconds step_secs + 1).

Definition pulse (source_key : string) (from : DateTime) (step_secs : Z) (k : nat) : RawSignal :=
  mkRawSignal source_key (from + Z.of_nat k * seconds step_secs) Cycle.

Lemma pulse_count_past from to step :
  0 < step → to < from → pulse_count from to step = 0%nat.
Proof.
  intros Hs Hlt. unfold pulse_count, seconds.
  assert ((to - from) / (step * 1000000) <= -1); [|lia].
  apply Z.lt_succ_r, Z.div_lt_upper_bound; lia.
Qed.

Lemma pulse_count_step from to step :
  0 < step → from <= to →
  pulse_count from to step = S (pulse_count (from + seconds step) to step).
Proof.
  intros Hs Hle. unfold pulse_count.
  assert (0 < seconds step) as Hp by (unfold seconds; lia).
  replace (to - (from + seconds step)) with (to - from + (-1) * seconds step) by lia.
  rewrite Z.div_add by lia. pose proof (Z.div_pos (to - from) (seconds step)). lia.
Qed.

Lemma cycle_loop_run n fuel key t to step out :
  0 < step → pulse_count t to step = n → (n < fuel)%nat →
  cycle_loop fuel key t to step out = Some (out ++ map (pulse key t step) (seq 0 n)).
Proof.
  intros Hs. revert fuel t out. induction n as [|n IH]; intros fuel t out Hn Hf;
    (destruct fuel as [|fuel]; [lia|]); simpl.
  - destruct (Z.leb_spec t to); [rewrite pulse_count_step in Hn by done; lia|].
    by rewrite app_nil_r.
  - destruct (Z.leb_spec t to); [|rewrite pulse_count_past in Hn by done; lia].
    rewrite pulse_count_step in Hn by done. injection Hn as Hn.
    rewrite IH by (done || lia). rewrite <- app_assoc. do 2 f_equal. simpl. f_equal.
    + unfold pulse. f_equal. lia.
    + rewrite <- seq_shift, map_map. apply map_ext. intros k. unfold pulse. f_equal. lia.
Qed.

Lemma cycle_loop_stuck fuel key t to step out :
  step <= 0 → t <= to → cycle_loop fuel key t to step out = None.
Proof.
  intros Hs. revert t out. induction fuel as [|fuel IH]; intros t out Hle; simpl; [done|].
  rewrite (proj2 (Z.leb_le t to) Hle). apply IH. unfold seconds. lia.
Qed.

(** ** Properties *)

(** The pulse generator: with a positive step it ends, and yields exactly the pulses
    [from], [from + step], ... up to [to] inclusive, in order, none if [from] is past [to];
    with a step that is not positive and a window that is not empty it never ends, whatever
    time it is given. What it yields, a source hands out once, whole, and then nothing. *)
Theorem cycle_run_exact key from to step name signals n :
  (0 < step → ∀ fuel, (pulse_count from to step < fuel)%nat →
     cycle_run fuel key from to step
       = Some (map (pulse key from step) (seq 0 (pulse_count from to step)))) ∧
  (0 < step → ∀ k, from + Z.of_nat k * seconds step <= to ↔
     (k < pulse_count from to step)%nat) ∧
  (step <= 0 → from <= to → ∀ fuel, cycle_run fuel key from to step = None) ∧
  (sim_poll (sim_new name signals)).1 = signals ∧
  (sim_poll (Nat.iter n (λ s, (sim_poll s).2) (sim_poll (sim_new name signals)).2)).1 = [].
Proof.
  split_and!.
  - intros Hs fuel Hf. unfold cycle_run. by rewrite (cycle_loop_run (pulse_count from to step)).
  - intros Hs k. unfold pulse_count. assert (0 < seconds step) as Hp by (unfold seconds; lia).
    set (d := to - from).
    assert (Z.of_nat k * seconds step <= d ↔ Z.of_nat k <= d / seconds step) as Hk.
    { split; intros H; [apply Z.div_le_lower_bound; lia|].
      pose proof (Z.mul_div_le d (seconds step) Hp). nia. }
    lia.
  - intros Hs Hle fuel. by apply cycle_loop_stuck.
  - done.
  - assert (Nat.iter n (λ s, (sim_poll s).2) (mkSimSource name [] true)
      = mkSimSource name [] true) as H by (induction n as [|n IH]; simpl; [done|by rewrite IH]).
    simpl. by rewrite H.
Qed.

(** Three pulses in a minute. *)
Lemma cycle_run_exact_witness :
  cycle_run 4 "m1" 0 (seconds 60) 30 = Some (map (pulse "m1" 0 30) [0; 1; 2]%nat) ∧
  ∀ fuel, cycle_run fuel "m1" 0 (seconds 60) 0 = None.
Proof.
  split.
  - apply (proj1 (cycle_run_exact "m1" 0 (seconds 60) 30 "" [] 0) eq_refl 4%nat).
    vm_compute. auto.
  - exact (proj1 (proj2 (proj2 (cycle_run_exact "m1" 0 (seconds 60) 0 "" [] 0)))
      ltac:(discriminate) ltac:(discriminate)).
Defined.
