(* ===== verification/Metrics.v ===== *)
(** * OEE and downtime analytics over the database

    [crates/mes-db/src/repo_oee.rs], [crates/mes-db/src/repo_analytics.rs] and
    [crates/mes-edge/src/analytics.rs]: the two OEE paths (inputs read and computed in Rust,
    everything computed in SQL), the per-shift breakdown, the downtime groupings, and the
    live snapshot. The formulas are over any [Num]; the handlers are those of binary64. *)

From Stdlib Require Import SpecFloat.
From S2P Require Import Prelude Numeric Oee Analytics Schema Sql Sample.
Open Scope Z_scope.

Section metrics.
Context {env : Env}.
Abbreviation Repo := (M World RepoError).

(** ** OEE inputs *)

(** The rows of [machine_states] that meet the window. *)
Definition states_in (work_center_id : string) (start end_ : DateTime) (db : Db) :
    list MachineStateRow :=
  select (λ r, String.eqb (ms_work_center_id r) work_center_id &&
               (ms_start_ts r <? end_) && (start <? ms_end_ts r)) (db Machine_states).

(** [SUM(LEAST(end_ts,$3) - GREATEST(start_ts,$2)) FILTER (WHERE state = ...)] *)
Definition clamped_time (state work_center_id : string) (start end_ : DateTime) (db : Db) :
    Duration :=
  sum_rows (λ r, Z.min (ms_end_ts r) end_ - Z.max (ms_start_ts r) start)
    (select (λ r, String.eqb (ms_state r) state)
      (states_in work_center_id start end_ db)).

Definition counts_in (work_center_id : string) (start end_ : DateTime) (db : Db) :
    list ProductionCountRow :=
  select (λ c, String.eqb (pc_work_center_id c) work_center_id &&
               (start <=? pc_ts c) && (pc_ts c <? end_)) (db Production_counts).

(** [SUM(good), SUM(good + scrap)]; the addition is one of INTEGERs. *)
Definition count_sums (work_center_id : string) (start end_ : DateTime) (db : Db) :
    Result (Z * Z) SqlError :=
  let rows := counts_in work_center_id start end_ db in
  if forallb (λ c, in_i32 (pc_good c + pc_scrap c)) rows
  then Ok (sum_rows pc_good rows, sum_rows (λ c, pc_good c + pc_scrap c) rows)
  else Err OutOfRange.

Section paths.
Context {F : Type} `{!Num F}.

(** [EXTRACT(EPOCH FROM d)::float8] *)
Definition epoch (d : Duration) : F := of_ratio d 1000000.

(** [ideal_cycle_seconds::float8] *)
Definition decimal_to_float (d : Decimal) : F := of_ratio d (10 ^ 28)%positive.

Definition oee_inputs (work_center_id : string) (start end_ : DateTime) :
    Repo (OeeInputs F) :=
  '(run_s, planned_s) ← map_err map_sqlx_plain (query (λ db,
     (epoch (clamped_time "running" work_center_id start end_ db),
      epoch (clamped_time "planned_stop" work_center_id start end_ db))));
  '(good, total) ← map_err map_sqlx_plain (statement (λ db,
     match count_sums work_center_id start end_ db with
     | Ok (good, total) => Ok ((of_int good : F, of_int total : F), db)
     | Err e => Err e
     end));
  wc ← map_err map_sqlx_plain (fetch_optional
         (fetch Work_centers (by_id Work_centers work_center_id)));
  let ideal := default (of_int 0)
    (decimal_to_float <$> (wc ≫= wc_ideal_cycle_seconds)) in
  let window_s := (of_int (Z.quot (end_ - start) 1000) / of_int 1000)%num in
  mret (mkOeeInputs (window_s - planned_s)%num run_s ideal total good).

(** [CASE WHEN den > 0 THEN num / den ELSE 0 END] *)
Definition sql_ratio (num den : F) : F :=
  if (of_int 0 <? den)%num then (num / den)%num else of_int 0.

Definition oee_sql (work_center_id : string) (start end_ : DateTime) :
    Repo (OeeResult F) :=
  map_err map_sqlx_plain (fetch_one (statement (λ db,
    match count_sums work_center_id start end_ db with
    | Err e => Err e
    | Ok (good, total) =>
        let run_s := epoch (clamped_time "running" work_center_id start end_ db) in
        let planned_s :=
          epoch (clamped_time "planned_stop" work_center_id start end_ db) in
        let planned_prod := (epoch (end_ - start) - planned_s)%num in
        Ok (map (λ w,
          let ideal := decimal_to_float (default 0 (wc_ideal_cycle_seconds w)) in
          let availability := sql_ratio run_s planned_prod in
          let performance :=
            min_one (sql_ratio (ideal * of_int total)%num run_s) in
          let quality := sql_ratio (of_int good) (of_int total) in
          mkOeeResult availability performance quality
            (availability * performance * quality)%num)
          (select (by_id Work_centers work_center_id) (db Work_centers)), db)
    end))).

(** ** Per-shift breakdown *)

Record ShiftOee := mkShiftOee {
  shift_name : string;
  so_start : DateTime;
  so_end : DateTime;
  so_result : OeeResult F
}.

(** [date_naive()]: the day number of an instant. *)
Definition date_naive (t : DateTime) : Z := t / days 1.

(** The shifts of the work center's site, by start time. *)
Definition site_shifts (work_center_id : string) (db : Db) : list ShiftRow :=
  order_by sh_start_time (select (λ sh,
    exists_row (λ si, String.eqb (si_id si) (sh_site_id sh) &&
      exists_row (λ a, String.eqb (ar_site_id a) (si_id si) &&
        exists_row (λ w, String.eqb (wc_area_id w) (ar_id a) &&
          String.eqb (wc_id w) work_center_id) (db Work_centers)) (db Areas))
      (db Sites)) (db Shifts)).

(** One occurrence of a shift, clamped to the window. *)
Definition shift_window (start end_ : DateTime) (day : Z) (sh : ShiftRow) :
    DateTime * DateTime :=
  let s := days day + sh_start_time sh in
  let e := days day + sh_end_time sh in
  let e := if e <=? s then e + days 1 else e in
  (Z.max s start, Z.min e end_).

Definition shift_oee (work_center_id : string) (start end_ : DateTime) (day : Z)
    (sh : ShiftRow) : Repo (list ShiftOee) :=
  let '(clamped_start, clamped_end) := shift_window start end_ day sh in
  if clamped_end <=? clamped_start then mret []
  else
    result ← oee_sql work_center_id clamped_start clamped_end;
    mret [mkShiftOee (sh_name sh) clamped_start clamped_end result].

(** The days from [start]'s to [end]'s, both included. *)
Definition window_days (start end_ : DateTime) : list Z :=
  seqZ (date_naive start) (date_naive end_ - date_naive start + 1).

Definition oee_by_shift (work_center_id : string) (start end_ : DateTime) :
    Repo (list ShiftOee) :=
  shifts ← map_err map_sqlx_plain (query (site_shifts work_center_id));
  rows ← mapM_list (λ '(day, sh), shift_oee work_center_id start end_ day sh)
    (day ← window_days start end_; sh ← shifts; mret (day, sh));
  mret (List.concat rows).
End paths.

(** ** Seed helpers *)

Definition set_work_center_ideal_cycle (work_center_id : string) (seconds : Decimal) :
    Repo unit :=
  now ← gets w_now;
  map_err map_sqlx_plain (update Work_centers (by_id Work_centers work_center_id)
    (λ r, r <| wc_ideal_cycle_seconds := Some seconds |> <| wc_updated_at := now |>)) ;;
  mret tt.

Definition insert_machine_state (work_center_id state : string)
    (start_ts end_ts : DateTime) : Repo unit :=
  id ← new_id;
  map_err map_sqlx_plain (insert Machine_states
    (mkMachineStateRow id work_center_id state start_ts end_ts)) ;;
  mret tt.

Definition insert_count (work_center_id : string) (ts : DateTime) (good scrap : Z) :
    Repo unit :=
  id ← new_id;
  map_err map_sqlx_plain (insert Production_counts
    (mkProductionCountRow id ts work_center_id None good scrap None None)) ;;
  mret tt.

Definition create_shift (site_id name : string) (start_time end_time : Duration) :
    Repo unit :=
  id ← new_id;
  map_err map_sqlx_plain (insert Shifts
    (mkShiftRow id site_id name start_time end_time)) ;;
  mret tt.
End metrics.
Arguments ShiftOee : clear implicits.

(** ** Downtime groupings *)

(** [SUM(EXTRACT(EPOCH ...))::bigint] of a total in microseconds: nearest, ties away from
    zero. *)
Definition round_seconds (us : Duration) : Z :=
  Z.sgn us * ((2 * Z.abs us + 1000000) / 2000000).

(** [GROUP BY key] with [SUM(value)], one entry per key. *)
Definition group_sum {A K} `{EqDecision K} (key : A → K) (value : A → Z) (l : list A) :
    list (K * Z) :=
  map (λ k, (k, sum_rows value (select (λ a, bool_decide (key a = k)) l)))
    (remove_dups (map key l)).

Definition de_duration (r : DowntimeRow) : Duration := de_end_ts r - de_start_ts r.

Definition downtime_in (start end_ : DateTime) (db : Db) : list DowntimeRow :=
  select (λ r, (start <=? de_start_ts r) && (de_start_ts r <? end_)) (db Downtime_events).

(** [downtime_events de JOIN downtime_reasons r ON r.id = de.reason_id] *)
Definition with_reason (rows : list DowntimeRow) (db : Db) :
    list (DowntimeRow * DowntimeReasonRow) :=
  de ← rows;
  r ← select (λ r, bool_decide (de_reason_id de = Some (dr_id r))) (db Downtime_reasons);
  mret (de, r).

Section analytics.
Context {env : Env}.
Abbreviation Repo := (M World RepoError).
Abbreviation Api := (M World ApiErr).

Definition downtime_pareto (start end_ : DateTime) : Repo (list ParetoInput) :=
  map_err map_sqlx_plain (query (λ db,
    map (λ '((code, label), us), mkParetoInput code label (round_seconds us))
      (group_sum (λ x, (dr_code x.2, dr_label x.2)) (λ x, de_duration x.1)
        (with_reason (downtime_in start end_ db) db)))).

Definition downtime_by_loss (start end_ : DateTime) : Repo (list ParetoInput) :=
  map_err map_sqlx_plain (query (λ db,
    map (λ '(loss, us), mkParetoInput loss loss (round_seconds us))
      (group_sum fst snd
        (omap (λ x, loss ← dr_six_big_loss x.2; Some (loss, de_duration x.1))
          (with_reason (downtime_in start end_ db) db))))).

(** [date_trunc('day', ts)], in UTC. *)
Definition day_start (t : DateTime) : DateTime := days (date_naive t).

Definition downtime_trend (start end_ : DateTime) : Repo (list (DateTime * Z)) :=
  map_err map_sqlx_plain (query (λ db,
    order_by fst (map (λ '(day, us), (day, round_seconds us))
      (group_sum (λ r, day_start (de_start_ts r)) de_duration
        (downtime_in start end_ db))))).

Definition create_mapped_downtime_reason (code label : string)
    (six_big_loss parent_id : option string) : Repo string :=
  id ← new_id;
  map_err map_sqlx_plain (insert Downtime_reasons
    (mkDowntimeReasonRow id code label parent_id six_big_loss)) ;;
  mret id.

Definition insert_downtime_event (work_center_id state : string)
    (start_ts end_ts : DateTime) (reason_id : option string) : Repo string :=
  id ← new_id;
  map_err map_sqlx_plain (insert Downtime_events
    (mkDowntimeRow id work_center_id state start_ts end_ts reason_id None None)) ;;
  mret id.

(** ** Handlers *)

Definition publish_oee_snapshot (work_center_id : string) : M World ApiErr unit := λ w,
  if negb (w_pool w) then (Ok tt, w)
  else
    let start := days (date_naive (w_now w)) in
    match oee_inputs (F := spec_float) work_center_id start (w_now w) w with
    | (Ok inputs, w') =>
        let r := compute inputs in
        publish (OeeSnapshot work_center_id (availability r) (performance r) (quality r)
                   (oee r)) w'
    | (Err _, w') => (Ok tt, w')
    end.

Definition get_oee (auth : AuthUser) (work_center_id : string) (start end_ : DateTime) :
    Api (OeeResult spec_float) :=
  require_pool ;;
  inputs ← map_err repo_err (oee_inputs work_center_id start end_);
  mret (compute inputs).

Definition get_oee_by_shift (auth : AuthUser) (work_center_id : string)
    (start end_ : DateTime) : Api (list (ShiftOee spec_float)) :=
  require_pool ;;
  map_err repo_err (oee_by_shift work_center_id start end_).

Definition get_downtime_pareto (auth : AuthUser) (start end_ : DateTime) :
    Api (list (ParetoRow spec_float)) :=
  require_pool ;;
  inputs ← map_err repo_err (downtime_pareto start end_);
  mret (pareto inputs).

Definition six_big_losses (auth : AuthUser) (start end_ : DateTime) :
    Api (list (ParetoRow spec_float)) :=
  require_pool ;;
  inputs ← map_err repo_err (downtime_by_loss start end_);
  mret (pareto inputs).

Definition get_downtime_trend (auth : AuthUser) (start end_ : DateTime) :
    Api (list (DateTime * Z)) :=
  require_pool ;;
  map_err repo_err (downtime_trend start end_).
End analytics.

(** ** Lemmas *)

Section agreement.
Context {env : Env} {F : Type} `{!Num F}.

Lemma oee_inputs_run wc start end_ w good total :
  healthy w → count_sums wc start end_ (w_db w) = Ok (good, total) →
  oee_inputs (F := F) wc start end_ w =
  (Ok (mkOeeInputs
         (of_int (Z.quot (end_ - start) 1000) / of_int 1000 -
          epoch (clamped_time "planned_stop" wc start end_ (w_db w)))%num
         (epoch (clamped_time "running" wc start end_ (w_db w)))
         (default (of_int 0) (decimal_to_float <$>
           (first_where (by_id Work_centers wc) (w_db w Work_centers)
              ≫= wc_ideal_cycle_seconds)))
         (of_int total) (of_int good)), w).
Proof.
  intros Hh Hc. unfold oee_inputs, mbind at 1 2 3, M_bind, map_err, fetch_optional, fetch.
  rewrite query_run by done. rewrite statement_run by done. rewrite Hc.
  destruct w. simpl. unfold mbind, M_bind. rewrite query_run by done. done.
Qed.

Lemma oee_sql_run wc start end_ w good total r :
  healthy w → count_sums wc start end_ (w_db w) = Ok (good, total) →
  first_where (by_id Work_centers wc) (w_db w Work_centers) = Some r →
  ∃ res, oee_sql (F := F) wc start end_ w = (Ok res, w) ∧
  res = compute (mkOeeInputs
         (epoch (end_ - start) -
          epoch (clamped_time "planned_stop" wc start end_ (w_db w)))%num
         (epoch (clamped_time "running" wc start end_ (w_db w)))
         (decimal_to_float (default 0 (wc_ideal_cycle_seconds r)))
         (of_int total) (of_int good)).
Proof.
  intros Hh Hc Hr. unfold oee_sql, map_err, fetch_one, mbind, M_bind.
  rewrite statement_run by done. rewrite Hc. unfold first_where in Hr.
  destruct (select (by_id Work_centers wc) (w_db w Work_centers)) as [|r0 rs];
    [done|]. simpl in Hr. simplify_eq. eexists. split; [|reflexivity].
  by destruct w.
Qed.
End agreement.

Lemma ideal_default (r : WorkCenterRow) :
  default (of_int 0) (decimal_to_float (F := spec_float) <$>
    (Some r ≫= wc_ideal_cycle_seconds)) =
  decimal_to_float (default 0 (wc_ideal_cycle_seconds r)).
Proof. by destruct r as [?????[]]. Qed.

Section shifts.
Context {env : Env} {F : Type} `{!Num F}.

Lemma oee_sql_Ok wc start end_ (res : OeeResult F) w w' :
  oee_sql wc start end_ w = (Ok res, w') → w_db w' = w_db w.
Proof.
  unfold oee_sql. intros H. minv. apply statement_Ok in H as (db & H & ->). simpl.
  by case_match; repeat case_match; simplify_eq.
Qed.

(** What a shift occurrence contributes to the breakdown. *)
Definition occurrence (start end_ : DateTime) (x : Z * ShiftRow) :
    option (string * DateTime * DateTime) :=
  let '(s, e) := shift_window start end_ x.1 x.2 in
  if e <=? s then None else Some (sh_name x.2, s, e).

Definition shift_content (r : ShiftOee F) := (shift_name r, so_start r, so_end r).

(** The row's figures are those of the SQL path over its interval, on the database [db]. *)
Definition row_figures (wc : string) (db : Db) (r : ShiftOee F) : Prop :=
  ∃ v v', w_db v = db ∧ oee_sql wc (so_start r) (so_end r) v = (Ok (so_result r), v').

Definition shift_pairs (wc : string) (start end_ : DateTime) (db : Db) :
    list (Z * ShiftRow) :=
  day ← window_days start end_; sh ← site_shifts wc db; mret (day, sh).

Lemma shift_oee_Ok wc start end_ day sh rows w w' :
  shift_oee (F := F) wc start end_ day sh w = (Ok rows, w') →
  (map shift_content rows = option_list (occurrence start end_ (day, sh)) ∧
   Forall (row_figures wc (w_db w)) rows) ∧ w_db w' = w_db w.
Proof.
  unfold shift_oee, occurrence. cbn [fst snd]. destruct (shift_window start end_ day sh) as [s e].
  destruct (e <=? s).
  - intros H. minv. split_and!; [done|constructor|done].
  - intros H. apply bind_Ok in H as (res & w1 & H & [-> ->]%ret_Ok).
    split_and!; [done| |by eapply oee_sql_Ok]. constructor; [|done].
    eexists _, _. by split.
Qed.

Lemma oee_by_shift_Ok wc start end_ rows w w' :
  oee_by_shift (F := F) wc start end_ w = (Ok rows, w') →
  map shift_content rows = omap (occurrence start end_) (shift_pairs wc start end_ (w_db w)) ∧
  Forall (row_figures wc (w_db w)) rows ∧ w_db w' = w_db w.
Proof.
  unfold oee_by_shift. intros H. apply bind_Ok in H as (shifts & w1 & H1 & H).
  apply map_err_Ok, query_Ok in H1 as [-> ->].
  apply bind_Ok in H as (rss & w2 & H & [-> ->]%ret_Ok).
  apply (mapM_reads (λ x rs, map shift_content rs = option_list (occurrence start end_ x) ∧
    Forall (row_figures wc (w_db w)) rs) _ _ (w_db w)) in H as [HF Hdb]; [|..|done].
  2:{ intros [day sh] y v v' Hv Hr. apply shift_oee_Ok in Hr. rewrite Hv in Hr. exact Hr. }
  fold (shift_pairs wc start end_ (w_db w)) in HF. rewrite Hdb. simpl.
  split_and!; [| |done]; clear Hdb; induction HF as [|x rs l rss [E Hrs] HF IH]; simpl;
    try done.
  - rewrite map_app, E, IH. by destruct (occurrence start end_ x).
  - by apply Forall_app.
Qed.
End shifts.

(** ** Properties *)

(** C39. The two OEE paths agree bit for bit in binary64: for a known work center, over a
    window whose length in seconds converts alike on both sides, computing in Rust from the
    inputs read gives exactly the four figures the SQL query returns; both only read. *)
Theorem oee_paths_agree wc start end_ w r :
  healthy w →
  Forall (λ c, in_i32 (pc_good c + pc_scrap c) = true) (counts_in wc start end_ (w_db w)) →
  first_where (by_id Work_centers wc) (w_db w Work_centers) = Some r →
  num_div (of_int (Z.quot (end_ - start) 1000)) (of_int 1000)
    = epoch (F := spec_float) (end_ - start) →
  ∃ inputs res,
    oee_inputs (F := spec_float) wc start end_ w = (Ok inputs, w) ∧
    oee_sql (F := spec_float) wc start end_ w = (Ok res, w) ∧
    compute inputs = res.
Proof.
  intros Hh Hrange Hr Hwin. set (rows := counts_in wc start end_ (w_db w)) in Hrange.
  assert (count_sums wc start end_ (w_db w) =
    Ok (sum_rows pc_good rows, sum_rows (λ c, pc_good c + pc_scrap c) rows)) as Hc.
  { unfold count_sums. fold rows. rewrite (proj2 (forallb_forall _ _)); [done|].
    by apply Forall_forall. }
  destruct (oee_sql_run (F := spec_float) _ _ _ _ _ _ _ Hh Hc Hr) as (res & Hs & ->).
  eexists _, _. split; [by apply oee_inputs_run|]. split; [exact Hs|].
  rewrite Hwin, Hr. by rewrite ideal_default.
Qed.

(** The golden day as rows: 7.5 h planned, 6 h running, 810 pieces of which 729 good. *)
Definition golden_plant : World := world_of (
  set_table Machine_states
    [mkMachineStateRow "m1" "wc1" "running" 0 (seconds 21600);
     mkMachineStateRow "m2" "wc1" "down" (seconds 21600) (seconds 27000);
     mkMachineStateRow "m3" "wc1" "planned_stop" (seconds 27000) (seconds 28800)] (
  set_table Production_counts
    [mkProductionCountRow "c1" (seconds 3600) "wc1" None 700 60 None None;
     mkProductionCountRow "c2" (seconds 7200) "wc1" None 29 21 None None] plant_db)).

Lemma oee_paths_agree_witness :
  ∃ inputs res,
    @oee_inputs spec_float _ "wc1" 0 (seconds 28800) golden_plant
      = (Ok inputs, golden_plant) ∧
    @oee_sql spec_float _ "wc1" 0 (seconds 28800) golden_plant
      = (Ok res, golden_plant) ∧ compute inputs = res.
Proof.
  refine (oee_paths_agree "wc1" 0 (seconds 28800) golden_plant _ _ _ _ _).
  - reflexivity.
  - evaluate_prop.
  - vm_compute. reflexivity.
  - vm_compute. reflexivity.
Defined.

(** For a work center that does not exist the paths differ: zeros against not found. *)
Example oee_paths_differ_on_unknown :
  is_ok (@oee_inputs spec_float _ "nope" 0 (seconds 28800) golden_plant).1 = true ∧
  (@oee_sql spec_float _ "nope" 0 (seconds 28800) golden_plant).1 = Err NotFound.
Proof. vm_compute. auto. Qed.

(** The per-shift breakdown lists exactly the shift occurrences that start on a day of
    the window and meet it, clamped to it, day by day and by shift start; each row carries
    the SQL path's figures for its own interval, and nothing is written. *)
Theorem oee_by_shift_exact {F} `{!Num F} wc start end_ (rows : list (ShiftOee F))
    w w' :
  oee_by_shift wc start end_ w = (Ok rows, w') →
  map shift_content rows =
    omap (occurrence start end_) (shift_pairs wc start end_ (w_db w)) ∧
  Forall (λ r, start <= so_start r ∧ so_start r < so_end r ∧ so_end r <= end_) rows ∧
  Forall (row_figures wc (w_db w)) rows ∧ w_db w' = w_db w.
Proof.
  intros H. apply oee_by_shift_Ok in H as (Hc & Hf & Hdb). split_and!; [done| |done..].
  apply Forall_forall. intros r Hr. apply list_elem_of_In in Hr.
  assert (shift_content r ∈ map shift_content rows) as Hin by (apply list_elem_of_fmap; eauto).
  rewrite Hc in Hin. apply list_elem_of_omap in Hin as ([day sh] & _ & Ho).
  unfold occurrence, shift_window in Ho. cbn [fst snd] in Ho.
  destruct (_ <=? _) eqn:E in Ho; simplify_eq. bool_to_prop.
  unfold shift_content in Ho. simplify_eq. lia.
Qed.

Definition shift_plant : World := world_of (
  set_table Shifts
    [mkShiftRow "sh1" "s1" "day" (seconds 21600) (seconds 79200);
     mkShiftRow "sh2" "s1" "night" (seconds 79200) (seconds 21600)]
  (w_db golden_plant)).

Lemma oee_by_shift_exact_witness :
  let r := @oee_by_shift spec_float _ "wc1" 0 (seconds 86400) shift_plant in
  ∃ rows, r.1 = Ok rows ∧
    map shift_content rows =
      [("day", seconds 21600, seconds 79200); ("night", seconds 79200, seconds 86400)]%string.
Proof.
  set (r := @oee_by_shift spec_float _ "wc1" 0 (seconds 86400) shift_plant).
  destruct r as [[rows|e] w'] eqn:Er; unfold r in Er.
  - exists rows. split; [reflexivity|].
    refine (eq_trans (proj1 (@oee_by_shift_exact spec_float _ "wc1" 0
      (seconds 86400) rows shift_plant w' Er)) _).
    vm_compute. reflexivity.
  - exfalso. vm_compute in Er. discriminate.
Defined.

(** A night shift that began the day before is missing from a window inside it. *)
Example overnight_shift_missed :
  (@oee_by_shift spec_float _ "wc1" (seconds 90000) (seconds 104400) shift_plant).1
  = Ok [].
Proof. vm_compute. reflexivity. Qed.
