(* ===== verification/Sync.v ===== *)
(** * Plant-cloud synchronisation

    [crates/mes-db/src/repo_sync.rs] and [crates/mes-cloud/src/sync.rs]: the outbox change
    feed, the idempotent apply of its entries, plant enrollment, remote work orders, and the
    push/pull/ack protocol. *)

From Stdlib Require Import SpecFloat.
From S2P Require Import Prelude Schema Sql Sample.

Definition MAX_BATCH : Z := 500.

(** The text of decimals ([rust_decimal]) and of times ([chrono], RFC 3339). [JDecimal d] and
    [JTime t] stand for the strings serde writes for them; another string may denote the
    same value. A number that is no integer is read as a decimal by way of its text. *)
Class WireText := {
  decimal_text : Decimal → string;
  decimal_of_text : string → option Decimal;
  time_text : DateTime → string;
  time_of_text : string → option DateTime;
  decimal_of_float : spec_float → option Decimal
}.

(** SHA-256, and the texts of serde's decoding errors. *)
Class SyncEnv := {
  sync_text :: WireText;
  sha256 : string → list Byte.byte;
  serde_error : Json → string
}.

(** ** Data *)

Record SyncEntry := mkSyncEntry {
  se_id : string;
  se_aggregate : string;
  se_entity_id : string;
  se_op : string;
  se_payload : Json
}.

Definition entry_of_row (r : OutboxRow) : SyncEntry :=
  mkSyncEntry (ob_id r) (ob_aggregate r) (ob_entity_id r) (ob_op r) (ob_payload r).

Record WoPayload := mkWoPayload {
  wp_id : string;
  wp_wo_number : string;
  wp_part_id : string;
  wp_routing_id : option string;
  wp_qty_ordered : Decimal;
  wp_priority : Z;
  wp_status : string;
  wp_planned_start : option DateTime;
  wp_planned_end : option DateTime
}.

(** *** Decoding, as derived by serde *)

Definition field (name : string) (v : Json) : option Json :=
  match v with
  | JObj fields => snd <$> first_where (λ f, String.eqb (fst f) name) fields
  | _ => None
  end.

(** A struct with these fields; the first [least] of them have to be there in an array. *)
Definition as_struct (names : list string) (least : nat) (v : Json) : option Json :=
  match v with
  | JObj fields =>
      if forallb (λ n, length (select (λ f, String.eqb (fst f) n) fields) <=? 1)%nat names
      then Some v else None
  | JArr vs =>
      if ((least <=? length vs) && (length vs <=? length names))%nat
      then Some (JObj (zip names vs)) else None
  | _ => None
  end.

Definition as_string (v : Json) : option string :=
  match v with JStr s => Some s | _ => None end.
Definition as_i32 (v : Json) : option Z :=
  match v with JInt n => if in_i32 n then Some n else None | _ => None end.

Section decode.
Context {text : WireText}.

Definition as_text (v : Json) : option string :=
  match v with
  | JStr s => Some s
  | JDecimal d => Some (decimal_text d)
  | JTime t => Some (time_text t)
  | _ => None
  end.

Definition as_quantity (v : Json) : option Decimal :=
  match v with
  | JDecimal d => Some d
  | JInt n => Some (n * 10 ^ 28)
  | JFloat x => decimal_of_float x
  | JStr s => decimal_of_text s
  | JTime t => decimal_of_text (time_text t)
  | _ => None
  end.

Definition as_instant (v : Json) : option DateTime :=
  match v with
  | JTime t => Some t
  | JStr s => time_of_text s
  | JDecimal d => time_of_text (decimal_text d)
  | _ => None
  end.
End decode.

(** A required field, one of type [Option], and one with a [serde(default)]. *)
Definition required {A} (dec : Json → option A) (name : string) (v : Json) : option A :=
  field name v ≫= dec.
Definition optional {A} (dec : Json → option A) (name : string) (v : Json) :
    option (option A) :=
  match field name v with
  | None | Some JNull => Some None
  | Some x => Some <$> dec x
  end.
Definition defaulted {A} (d : A) (dec : Json → option A) (name : string) (v : Json) :
    option A :=
  match field name v with None => Some d | Some x => dec x end.

Definition default_priority : Z := 100.
Definition draft : string := "draft".

Definition wo_payload_of_json {text : WireText} (v : Json) : option WoPayload :=
  v ← as_struct ["id"; "wo_number"; "part_id"; "routing_id"; "qty_ordered"; "priority";
                 "status"; "planned_start"; "planned_end"]%string 9 v;
  id ← required as_text "id" v;
  wo_number ← required as_text "wo_number" v;
  part_id ← required as_text "part_id" v;
  routing_id ← optional as_text "routing_id" v;
  qty_ordered ← required as_quantity "qty_ordered" v;
  priority ← defaulted default_priority as_i32 "priority" v;
  status ← defaulted draft as_text "status" v;
  planned_start ← optional as_instant "planned_start" v;
  planned_end ← optional as_instant "planned_end" v;
  Some (mkWoPayload id wo_number part_id routing_id qty_ordered priority status
          planned_start planned_end).

(** *** Token hashes *)

Definition hex_digit (n : N) : Ascii.ascii :=
  Ascii.ascii_of_N (if (n <? 10)%N then 48 + n else 87 + n)%N.

Definition hex (bytes : list Byte.byte) : string :=
  foldr (λ b s, String (hex_digit (Byte.to_N b / 16)%N)
                  (String (hex_digit (Byte.to_N b mod 16)%N) s)) EmptyString bytes.

Section sync.
Context {env : Env} {senv : SyncEnv}.
Abbreviation Repo := (M World RepoError).
Abbreviation Api := (M World ApiErr).

Definition hash_token (token : string) : string := hex (sha256 token).

(** ** Outbox *)

Definition enqueue (aggregate entity_id op : string) (payload : Json)
    (destination : option string) : Repo string :=
  id ← new_id;
  now ← gets w_now;
  map_err map_sqlx (insert Outbox
    (mkOutboxRow id aggregate entity_id op payload destination now None)) ;;
  mret id.

Definition to_cloud (r : OutboxRow) : bool :=
  bool_decide (ob_destination r = None) && bool_decide (ob_synced_at r = None).

Definition fetch_to_cloud (limit : Z) : Repo (list SyncEntry) :=
  rows ← map_err map_sqlx (query_limit limit (λ db,
    order_by ob_created_at (select to_cloud (db Outbox))));
  mret (map entry_of_row rows).

Definition mark_synced (ids : list string) : Repo Z :=
  if bool_decide (ids = []) then mret 0
  else
    now ← gets w_now;
    rows ← map_err map_sqlx (update Outbox (λ r, bool_decide (ob_id r ∈ ids))
      (λ r, r <| ob_synced_at := Some now |>));
    mret (Z.of_nat (length rows)).

(** ** Apply *)

(** The [DO UPDATE SET] of the upsert: what a replicated order overwrites. *)
Definition merge_work_order (new : WorkOrderRow) (now : DateTime) (old : WorkOrderRow) :
    WorkOrderRow :=
  old <| wo_wo_number := wo_wo_number new |>
      <| wo_qty_ordered := wo_qty_ordered new |>
      <| wo_priority := wo_priority new |>
      <| wo_status := wo_status new |>
      <| wo_planned_start := wo_planned_start new |>
      <| wo_planned_end := wo_planned_end new |>
      <| wo_plant_id := match wo_plant_id new with Some p => Some p | None => wo_plant_id old end |>
      <| wo_updated_at := now |>.

Definition payload_row (wo : WoPayload) (plant_id : option string) (now : DateTime) :
    WorkOrderRow :=
  mkWorkOrderRow (wp_id wo) (wp_wo_number wo) (wp_part_id wo) (wp_routing_id wo)
    (wp_qty_ordered wo) (wp_priority wo) (wp_status wo) (wp_planned_start wo)
    (wp_planned_end wo) now now plant_id.

Definition apply_work_order (payload : Json) (plant_id : option string) : Repo unit :=
  wo ← ok_or (wo_payload_of_json payload)
    (InvalidReference (String.append "bad work_order payload: " (serde_error payload)));
  now ← gets w_now;
  let new := payload_row wo plant_id now in
  map_err map_sqlx (upsert Work_orders new (merge_work_order new now)).

Definition apply_entry (entry : SyncEntry) (plant_id : option string) : Repo bool :=
  transaction map_sqlx (
    now ← gets w_now;
    claimed ← map_err map_sqlx (insert_or_ignore Applied_entries (same ap_id)
      (mkAppliedRow (se_id entry) now));
    match claimed with
    | None => mret false
    | Some _ =>
        (if String.eqb (se_aggregate entry) "work_order"
         then apply_work_order (se_payload entry) plant_id
         else mret tt) ;;
        mret true
    end).

Fixpoint apply_batch_from (applied skipped : nat) (entries : list SyncEntry)
    (plant_id : option string) : Repo (nat * nat) :=
  match entries with
  | [] => mret (applied, skipped)
  | e :: es =>
      b ← apply_entry e plant_id;
      if b : bool then apply_batch_from (S applied) skipped es plant_id
      else apply_batch_from applied (S skipped) es plant_id
  end.

Definition apply_batch (entries : list SyncEntry) (plant_id : option string) :
    Repo (nat * nat) := apply_batch_from 0 0 entries plant_id.

(** ** Orgs, plants, enrollment *)

Definition create_org (code name : string) : Repo OrgRow :=
  id ← new_id;
  now ← gets w_now;
  map_err map_sqlx (insert Orgs (mkOrgRow id code name now now)).

Definition enroll_plant (org_id code name : string) : Repo (string * string) :=
  id ← new_id;
  tid ← new_id;
  now ← gets w_now;
  let token := String.append "plant_" tid in
  map_err map_sqlx (insert Plants
    (mkPlantRow id org_id code name (Some (hash_token token)) (Some now) None now now)) ;;
  mret (id, token).

Definition resolve_tenant_by_token (token : string) : Repo (option (string * string)) :=
  row ← map_err map_sqlx (fetch_optional (fetch Plants
    (λ p, bool_decide (pn_enrollment_token_hash p = Some (hash_token token)))));
  mret ((λ p, (pn_id p, pn_org_id p)) <$> row).

Definition verify_plant_token (plant_id token : string) : Repo bool :=
  row ← map_err map_sqlx (fetch_optional (fetch Plants (by_id Plants plant_id)));
  mret (match row with
        | Some p => bool_decide (pn_enrollment_token_hash p = Some (hash_token token))
        | None => false
        end).

Definition touch_plant_sync (plant_id : string) : Repo unit :=
  now ← gets w_now;
  map_err map_sqlx (update Plants (by_id Plants plant_id)
    (λ p, p <| pn_last_sync_at := Some now |> <| pn_updated_at := now |>)) ;;
  mret tt.

Record PlantSummary := mkPlantSummary {
  psum_id : string;
  psum_org_id : string;
  psum_code : string;
  psum_name : string;
  psum_enrolled : bool;
  psum_last_sync_at : option DateTime
}.

Definition list_plants : Repo (list PlantSummary) :=
  rows ← map_err map_sqlx (query (λ db, order_by pn_created_at (db Plants)));
  mret (map (λ p, mkPlantSummary (pn_id p) (pn_org_id p) (pn_code p) (pn_name p)
    (bool_decide (is_Some (pn_enrollment_token_hash p))) (pn_last_sync_at p)) rows).

(** ** Remote commands *)

Definition for_plant (plant_id : string) (r : OutboxRow) : bool :=
  bool_decide (ob_destination r = Some plant_id) && bool_decide (ob_synced_at r = None).

Definition pull_for_plant (plant_id : string) (limit : Z) : Repo (list SyncEntry) :=
  rows ← map_err map_sqlx (query_limit limit (λ db,
    order_by ob_created_at (select (for_plant plant_id) (db Outbox))));
  mret (map entry_of_row rows).

Definition remote_payload (wo_id wo_number part_id : string) (qty_ordered : Decimal)
    (priority : option Z) : Json :=
  JObj [("id", JStr wo_id); ("part_id", JStr part_id);
        ("priority", JInt (default 100 priority)); ("qty_ordered", JDecimal qty_ordered);
        ("status", JStr "draft"); ("wo_number", JStr wo_number)]%string.

Definition create_remote_work_order (plant_id wo_number part_id : string)
    (qty_ordered : Decimal) (priority : option Z) : Repo string :=
  transaction map_sqlx (
    wo_id ← new_id;
    now ← gets w_now;
    map_err map_sqlx (insert Work_orders
      (mkWorkOrderRow wo_id wo_number part_id None qty_ordered (default 100 priority)
         "draft" None None now now (Some plant_id))) ;;
    enqueue "work_order" wo_id "upsert"
      (remote_payload wo_id wo_number part_id qty_ordered priority) (Some plant_id) ;;
    mret wo_id).

(** ** Handlers

    A request carries its [Authorization] header; [admin_token] is the service's
    configuration. *)

Definition bearer (authorization : option string) : option string :=
  authorization ≫= strip_prefix "Bearer ".

Definition require_admin (admin_token authorization : option string) : Api unit :=
  match admin_token with
  | None => mret tt
  | Some expected =>
      if bool_decide (bearer authorization = Some expected) then mret tt
      else throw (err 401 "unauthorized" "admin token required")
  end.

Definition require_plant (authorization : option string) (plant_id : string) : Api unit :=
  require_pool ;;
  token ← ok_or (bearer authorization) (err 401 "unauthorized" "missing plant token");
  b ← map_err repo_err (verify_plant_token plant_id token);
  if b : bool then mret tt else throw (err 401 "unauthorized" "invalid plant token").

Definition post_org (admin_token authorization : option string) (code name : string) :
    Api OrgRow :=
  require_admin admin_token authorization ;;
  require_pool ;;
  map_err repo_err (create_org code name).

Definition post_plant (admin_token authorization : option string)
    (org_id code name : string) : Api (string * string) :=
  require_admin admin_token authorization ;;
  require_pool ;;
  map_err repo_err (enroll_plant org_id code name).

Definition get_plants : Api (list PlantSummary) :=
  require_pool ;; map_err repo_err list_plants.

Definition remote_work_order (admin_token authorization : option string)
    (plant_id wo_number part_id : string) (qty_ordered : Decimal) (priority : option Z) :
    Api string :=
  require_admin admin_token authorization ;;
  require_pool ;;
  map_err repo_err
    (create_remote_work_order plant_id wo_number part_id qty_ordered priority).

Definition push (authorization : option string) (plant_id : string)
    (entries : list SyncEntry) : Api (nat * nat) :=
  require_plant authorization plant_id ;;
  throw_if (MAX_BATCH <? Z.of_nat (length entries))
    (err 400 "batch_too_large" "batch exceeds 500 entries") ;;
  require_pool ;;
  res ← map_err repo_err (apply_batch entries (Some plant_id));
  map_err repo_err (touch_plant_sync plant_id) ;;
  mret res.

Definition pull (authorization : option string) (plant_id : string) (limit : option Z) :
    Api (list SyncEntry) :=
  require_plant authorization plant_id ;;
  require_pool ;;
  map_err repo_err (pull_for_plant plant_id (Z.min (default MAX_BATCH limit) MAX_BATCH)).

Definition ack (authorization : option string) (plant_id : string) (ids : list string) :
    Api unit :=
  require_plant authorization plant_id ;;
  require_pool ;;
  map_err repo_err (mark_synced ids) ;;
  mret tt.
End sync.

(** ** Lemmas: applied entries *)

Abbreviation applied db id := (key_exists db Applied_entries id = true) (only parsing).

Lemma applied_insert (db : Db) e now :
  exists_row (same ap_id (mkAppliedRow e now)) (db Applied_entries) =
  key_exists db Applied_entries e.
Proof.
  unfold key_exists, exists_row, same. simpl.
  induction (db Applied_entries) as [|r l IH]; simpl; [done|]. rewrite <- IH. f_equal.
  destruct (String.eqb_spec (ap_id r) e); [by apply bool_decide_eq_true|].
  apply bool_decide_eq_false. congruence.
Qed.

Section apply.
Context {env : Env} {senv : SyncEnv}.

Lemma apply_work_order_applied payload p u w w' :
  apply_work_order payload p w = (Ok u, w') →
  w_db w' Applied_entries = w_db w Applied_entries.
Proof.
  unfold apply_work_order. intros H. minv.
  apply upsert_Ok in H as [(_ & _ & ->)|(old & _ & ->)]; reflexivity.
Qed.

(** An entry is claimed and applied, or was before and changes nothing. *)
Lemma apply_entry_cases e p b w w' :
  apply_entry e p w = (Ok b, w') →
  (b = false ∧ key_exists (w_db w) Applied_entries (se_id e) = true ∧ w_db w' = w_db w) ∨
  (b = true ∧ key_exists (w_db w) Applied_entries (se_id e) = false ∧
   w_db w' Applied_entries =
     w_db w Applied_entries ++ [mkAppliedRow (se_id e) (w_now w)]).
Proof.
  unfold apply_entry. intros H. minv.
  apply (insert_or_ignore_Ok Applied_entries) in H1. simpl in H1.
  rewrite applied_insert in H1. destruct H1 as [(Ha & -> & ->)|(Ha & -> & _ & ->)].
  - minv. simpl in *. by left.
  - simpl in *. apply bind_Ok in H as (u & w2 & H & [-> ->]%ret_Ok). simpl. right.
    split_and!; [done..|]. destruct (String.eqb _ _).
    + apply apply_work_order_applied in H. rewrite H. reflexivity.
    + minv. reflexivity.
Qed.

Lemma apply_entry_Ok e p b w w' :
  apply_entry e p w = (Ok b, w') →
  b = negb (key_exists (w_db w) Applied_entries (se_id e)) ∧
  applied (w_db w') (se_id e) ∧
  (∀ id, applied (w_db w) id → applied (w_db w') id) ∧
  (b = false → w_db w' = w_db w).
Proof.
  intros [(-> & Ha & E)|(-> & Ha & E)]%apply_entry_cases; rewrite Ha.
  - rewrite E. auto.
  - unfold key_exists, exists_row in *. rewrite E. simpl in *. split_and!; [done| | |done];
      [|intros id Hid]; rewrite existsb_app; simpl;
      [rewrite String.eqb_refl|rewrite Hid]; by rewrite ?orb_true_r.
Qed.

Lemma apply_entry_skip e p w :
  healthy w → applied (w_db w) (se_id e) → apply_entry e p w = (Ok false, w).
Proof.
  intros Hh Ha. unfold apply_entry, transaction, enclosed, begin_, commit, insert_or_ignore.
  unfold mbind, M_bind, map_err, gets. rewrite query_run by done.
  rewrite statement_run by done. rewrite applied_insert, Ha.
  destruct w. simpl. unfold mret, M_ret. rewrite query_run by done. done.
Qed.

Lemma apply_batch_shift a s es p w :
  apply_batch_from a s es p w =
  match apply_batch es p w with
  | (Ok (a', s'), w') => (Ok (a + a', s + s')%nat, w')
  | (Err e, w') => (Err e, w')
  end.
Proof.
  unfold apply_batch. revert a s w. induction es as [|e es IH]; intros a s w; simpl.
  { unfold mret, M_ret. do 3 f_equal; lia. }
  unfold mbind, M_bind. destruct (apply_entry e p w) as [[[]|err] w1]; [..|done].
  - rewrite IH, (IH 1%nat 0%nat). destruct (apply_batch_from _ _ _ _ _) as [[[]|] ?]; [|done].
    do 3 f_equal; lia.
  - rewrite IH, (IH 0%nat 1%nat). destruct (apply_batch_from _ _ _ _ _) as [[[]|] ?]; [|done].
    do 3 f_equal; lia.
Qed.

Lemma apply_batch_cons e es p w :
  apply_batch (e :: es) p w =
  match apply_entry e p w with
  | (Ok b, w1) =>
      match apply_batch es p w1 with
      | (Ok (a, s), w2) => (Ok (if b then (S a, s) else (a, S s)), w2)
      | (Err err, w2) => (Err err, w2)
      end
  | (Err err, w1) => (Err err, w1)
  end.
Proof.
  unfold apply_batch at 1. simpl. unfold mbind, M_bind.
  destruct (apply_entry e p w) as [[[]|err] w1]; [..|done]; rewrite apply_batch_shift;
    by destruct (apply_batch es p w1) as [[[]|] ?].
Qed.

Lemma apply_batch_skip es p w :
  healthy w → Forall (λ e, applied (w_db w) (se_id e)) es →
  apply_batch es p w = (Ok (0, length es)%nat, w).
Proof.
  intros Hh. induction 1 as [|e es He Hes IH]; [done|].
  rewrite apply_batch_cons, apply_entry_skip by done. by rewrite IH.
Qed.

(** Whatever a batch returns, the entries before the one it stopped at are applied, and
    no entry is forgotten. *)
Lemma apply_batch_applied es p r w w' :
  apply_batch es p w = (r, w') →
  (∀ id, applied (w_db w) id → applied (w_db w') id) ∧
  ∃ es1 es2, es = es1 ++ es2 ∧ Forall (λ e, applied (w_db w') (se_id e)) es1 ∧
    match r with
    | Ok (a, s) => es2 = [] ∧ (a + s = length es)%nat
    | Err _ => es2 ≠ []
    end.
Proof.
  revert w r w'. induction es as [|e es IH]; intros w r w' H.
  { injection H as <- <-. split; [done|]. by exists [], []. }
  rewrite apply_batch_cons in H.
  destruct (apply_entry e p w) as [[b|err] w1] eqn:E1.
  - apply apply_entry_Ok in E1 as (_ & Ha & Hm & _).
    destruct (apply_batch es p w1) as [r2 w2] eqn:E2.
    destruct (IH _ _ _ E2) as (Hm2 & es1 & es2 & -> & Hes & Hr).
    assert (w' = w2) as -> by (destruct r2 as [[]|]; congruence).
    split; [auto|]. exists (e :: es1), es2. split; [done|].
    split; [constructor; auto|].
    destruct r2 as [[a s]|], r as [[a' s']|]; try done.
    destruct Hr as [-> Hr]. split; [done|]. simpl. destruct b; simplify_eq; lia.
  - simplify_eq. unfold apply_entry in E1. apply transaction_Err in E1. rewrite E1.
    split; [done|]. exists [], (e :: es). by split_and!.
Qed.

(** A batch that fails fails at one entry. *)
Lemma apply_batch_stops es p e w w1 :
  apply_batch es p w = (Err e, w1) →
  ∃ es1 x es2 a s v1, es = es1 ++ x :: es2 ∧
    apply_batch es1 p w = (Ok (a, s), v1) ∧ apply_entry x p v1 = (Err e, w1).
Proof.
  revert w. induction es as [|y es IH]; intros w H; [done|]. rewrite apply_batch_cons in H.
  destruct (apply_entry y p w) as [[b|err] w2] eqn:E.
  - destruct (apply_batch es p w2) as [[[a s]|err] w3] eqn:E2; [by destruct b|simplify_eq].
    destruct (IH _ E2) as (es1 & x & es2 & a & s & v1 & -> & H1 & H2).
    exists (y :: es1), x, es2. rewrite apply_batch_cons, E, H1. destruct b; eauto 10.
  - simplify_eq. by exists [], y, es, 0%nat, 0%nat, w.
Qed.

Lemma apply_batch_app es1 es2 p w :
  healthy w → Forall (λ e, applied (w_db w) (se_id e)) es1 →
  apply_batch (es1 ++ es2) p w =
  match apply_batch es2 p w with
  | (Ok (a, s), w') => (Ok (a, length es1 + s)%nat, w')
  | (Err err, w') => (Err err, w')
  end.
Proof.
  intros Hh. induction 1 as [|e es He Hes IH]; simpl.
  { by destruct (apply_batch es2 p w) as [[[]|] ?]. }
  rewrite apply_batch_cons, apply_entry_skip, IH by done.
  by destruct (apply_batch es2 p w) as [[[]|] ?].
Qed.
End apply.

(** ** Lemmas: tenancy and commands *)

Section tenancy.
Context {env : Env} {senv : SyncEnv}.

(** Every row written since carries the plant's tag. *)
Definition tagged (plant : string) (l l' : list WorkOrderRow) : Prop :=
  ∀ r, r ∈ l' → r ∈ l ∨ wo_plant_id r = Some plant.

#[local] Instance tagged_preorder plant : PreOrder (tagged plant).
Proof. unfold tagged. split; [intros l r; auto|intros l1 l2 l3 H1 H2 r Hr; naive_solver]. Qed.

Lemma apply_work_order_tagged plant payload :
  table_evolves Work_orders (tagged plant) (apply_work_order payload (Some plant)).
Proof.
  unfold apply_work_order. apply evolves_bind; [typeclasses eauto|evolve|]. intros wo.
  apply evolves_bind; [typeclasses eauto|evolve|]. intros now. apply evolves_map_err.
  apply evolves_statement; [typeclasses eauto|]. intros db a db' H. cbv zeta in H.
  repeat case_match; simplify_eq; rewrite set_table_eq; intros r' Hr.
  - apply elem_of_update_rows in Hr as (y & Hy & ->). case_match; auto.
  - apply elem_of_app in Hr as [Hr|Hr]; [by left|].
    apply list_elem_of_singleton in Hr as ->. by right.
Qed.

Lemma apply_entry_tagged plant e :
  table_evolves Work_orders (tagged plant) (apply_entry e (Some plant)).
Proof. unfold apply_entry. pose proof (apply_work_order_tagged plant). evolve. Qed.

Lemma apply_batch_tagged plant es :
  table_evolves Work_orders (tagged plant) (apply_batch es (Some plant)).
Proof.
  unfold apply_batch. generalize 0%nat at 1 as a. generalize 0%nat as s.
  pose proof (apply_entry_tagged plant).
  induction es as [|e es IH]; intros s a; simpl; evolve.
Qed.

Lemma require_plant_Ok authorization plant u w w' :
  require_plant authorization plant w = (Ok u, w') →
  w_db w' = w_db w ∧ w_pool w = true ∧
  ∃ token row, bearer authorization = Some token ∧ row ∈ w_db w Plants ∧
    pn_id row = plant ∧ pn_enrollment_token_hash row = Some (hash_token token).
Proof.
  unfold require_plant, verify_plant_token. intros H. minv.
  destruct (head _) as [p|] eqn:Ep; [|by minv].
  case_bool_decide as Eh; [|by minv]. minv. split_and!; [done..|].
  apply (first_where_Some (by_id Plants plant)) in Ep as [Hid Hin].
  unfold by_id in Hid. simpl in Hid. bool_to_prop. eauto 10.
Qed.
End tenancy.

Lemma mark_synced_Ok {env : Env} ids n w w' r :
  mark_synced ids w = (Ok n, w') → r ∈ w_db w' Outbox → ob_id r ∈ ids →
  ob_synced_at r ≠ None.
Proof.
  unfold mark_synced. intros H Hr Hin.
  case_bool_decide as Hids; [subst; by apply elem_of_nil in Hin|]. minv.
  rewrite set_table_eq in Hr. apply elem_of_update_rows in Hr as (y & Hy & ->).
  case_bool_decide; [done|]. by simpl in *.
Qed.

(** A queued entry, seen as the order it describes, whatever the texts of other values. *)
Definition describes (r : OutboxRow) (wo : WorkOrderRow) : Prop :=
  ob_aggregate r = "work_order"%string ∧ ob_entity_id r = wo_id wo ∧
  ∀ text : WireText, wo_payload_of_json (ob_payload r) =
    Some (mkWoPayload (wo_id wo) (wo_wo_number wo) (wo_part_id wo) (wo_routing_id wo)
      (wo_qty_ordered wo) (wo_priority wo) (wo_status wo) (wo_planned_start wo)
      (wo_planned_end wo)).

(** ** Properties *)

Section sync_properties.
Context {env : Env} {senv : SyncEnv}.

(** C17. Applying is idempotent: once a batch has been applied, every later replay of it (by
    any plant, in any state that still knows the applied entries) skips every entry and
    changes nothing; and the first application accounts for every entry as applied or
    skipped. *)
Theorem apply_batch_replay es p a s w w' :
  apply_batch es p w = (Ok (a, s), w') →
  (a + s = length es)%nat ∧
  ∀ v p', healthy v → (∀ id, applied (w_db w') id → applied (w_db v) id) →
    apply_batch es p' v = (Ok (0, length es)%nat, v).
Proof.
  intros H. apply apply_batch_applied in H as (_ & es1 & es2 & -> & Hes & -> & Hlen).
  rewrite app_nil_r in *. split; [done|]. intros v p' Hv Hmono.
  apply apply_batch_skip; [done|]. eapply Forall_impl; [|exact Hes]. auto.
Qed.

(** C18. An interrupted batch is safe to retry: whatever made it fail (a lost statement, a
    bad payload, a constraint), it stopped at one entry; the database is left exactly as
    applying the batch of the entries before it leaves it, with nothing of the failed entry,
    neither its claim nor its order; and retrying the whole batch skips those before and goes
    on from the failed entry exactly as the rest of the batch alone would. *)
Theorem apply_batch_resume es p e w w1 :
  apply_batch es p w = (Err e, w1) →
  ∃ es1 x es2 a s v1, es = es1 ++ x :: es2 ∧
    apply_batch es1 p w = (Ok (a, s), v1) ∧ apply_entry x p v1 = (Err e, w1) ∧
    w_db w1 = w_db v1 ∧
    Forall (λ y, applied (w_db w1) (se_id y)) es1 ∧
    ∀ v, healthy v → w_db v = w_db w1 →
      apply_batch es p v =
      match apply_batch (x :: es2) p v with
      | (Ok (a, s), v') => (Ok (a, length es1 + s)%nat, v')
      | (Err err, v') => (Err err, v')
      end.
Proof.
  intros (es1 & x & es2 & a & s & v1 & -> & H1 & Hx)%apply_batch_stops.
  assert (w_db w1 = w_db v1) as Edb by (by apply (transaction_Err _ _ _ _ _ Hx)).
  apply apply_batch_applied in H1 as H2. destruct H2 as (_ & l & l' & -> & Hes & -> & _).
  rewrite app_nil_r in *. rewrite <- Edb in Hes.
  exists l, x, es2, a, s, v1. split_and!; [done..|]. intros v Hv Ev.
  apply apply_batch_app; [done|]. by rewrite Ev.
Qed.

(** A push that is accepted was sent with the enrollment token of the plant it names,
    holds at most [MAX_BATCH] entries, and every work order it wrote is tagged with that
    plant. *)
Theorem push_scoped authorization plant es res w w' :
  push authorization plant es w = (Ok res, w') →
  (∃ token row, bearer authorization = Some token ∧ row ∈ w_db w Plants ∧
     pn_id row = plant ∧ pn_enrollment_token_hash row = Some (hash_token token)) ∧
  Z.of_nat (length es) <= MAX_BATCH ∧
  ∀ r, r ∈ w_db w' Work_orders → r ∈ w_db w Work_orders ∨ wo_plant_id r = Some plant.
Proof.
  unfold push, touch_plant_sync. intros H.
  apply bind_Ok in H as (u & w1 & (Ew & _ & Hp)%require_plant_Ok & H). minv.
  match goal with H : apply_batch _ _ _ = _ |- _ => rename H into Hb end.
  split; [done|]. split; [bool_to_prop; lia|]. rewrite <- Ew.
  change (w_db (tick _ <| w_db := _ |>) Work_orders) with (w_db w2 Work_orders).
  pose proof (apply_batch_tagged plant es w1) as Ht. unfold on_table, state_after in Ht.
  rewrite Hb in Ht. exact Ht.
Qed.

(** Once a plant has acknowledged entries, no pull returns them any more; and a pull
    returns pending entries of the plant that asked, at most [MAX_BATCH] of them. *)
Theorem ack_then_pull authorization plant ids w u w1 authorization' plant' limit es v v' :
  ack authorization plant ids w = (Ok u, w1) →
  w_db v Outbox = w_db w1 Outbox →
  pull authorization' plant' limit v = (Ok es, v') →
  Z.of_nat (length es) <= MAX_BATCH ∧
  ∀ e, e ∈ es → se_id e ∉ ids ∧
    ∃ r, r ∈ w_db w1 Outbox ∧ e = entry_of_row r ∧ ob_destination r = Some plant' ∧
      ob_synced_at r = None.
Proof.
  unfold ack, pull, pull_for_plant. intros Ha Ev Hp.
  apply bind_Ok in Hp as (u1 & v1 & (Ev1 & _ & _)%require_plant_Ok & Hp). minv.
  rewrite length_map, length_take. split; [lia|].
  intros e (r & -> & Hr)%list_elem_of_fmap. apply subseteq_take in Hr.
  unfold order_by in Hr. rewrite elem_of_sort_by, elem_of_select, Ev1, Ev in Hr.
  destruct Hr as [Hf Hr]. unfold for_plant in Hf. bool_to_prop.
  split; [|by eauto]. simpl. intros Hin.
    match goal with H : mark_synced _ _ = _ |- _ =>
      by apply (mark_synced_Ok _ _ _ _ _ H Hr Hin) end.
Qed.

Lemma create_remote_work_order_returns plant wo_number part_id qty priority w :
  healthy w → ids_from Work_orders (w_next w) (w_db w) →
  ids_from Outbox (w_next w) (w_db w) →
  Forall (λ r, wo_wo_number r ≠ wo_number) (w_db w Work_orders) →
  key_exists (w_db w) Parts part_id = true → in_i32 (default 100 priority) = true →
  returns (create_remote_work_order plant wo_number part_id qty priority) w (λ _ _, True).
Proof.
  intros Hh Hw Ho Hn Hp Hi. unfold create_remote_work_order, enqueue. mgo. mwrite.
  - apply check_row_None; [done| |by repeat constructor]. repeat constructor.
    + by apply (ids_from_fresh Work_orders (w_next w)).
    + apply exists_row_false. intros r Hr. unfold same. simpl. apply bool_decide_eq_false.
      rewrite Forall_forall in Hn. intros E. by apply (Hn r), eq_sym; [apply list_elem_of_In|].
  - mgo. mwrite; [|by mgo]. apply check_row_None; [done| |constructor]. repeat constructor.
    apply (ids_from_fresh Outbox (S (w_next w))); [|done].
    eapply ids_from_weaken; [|exact Ho]. lia.
Qed.

(** Creating a work order remotely is atomic and queues what it created: on success
    exactly one draft order tagged with the plant and one outbox entry bound for that plant
    are added, and the entry decodes to the very fields of the order; on failure the
    database is untouched. An unused number for a known part is enough. *)
Theorem create_remote_work_order_atomic plant wo_number part_id qty priority w :
  (∀ r w', create_remote_work_order plant wo_number part_id qty priority w = (r, w') →
   match r with
   | Err _ => w_db w' = w_db w
   | Ok id => ∃ wo ob,
       w_db w' Work_orders = w_db w Work_orders ++ [wo] ∧
       w_db w' Outbox = w_db w Outbox ++ [ob] ∧
       (∀ t, t ≠ Work_orders → t ≠ Outbox → w_db w' t = w_db w t) ∧
       wo_id wo = id ∧ wo_status wo = "draft"%string ∧ wo_plant_id wo = Some plant ∧
       ob_destination ob = Some plant ∧ ob_synced_at ob = None ∧ describes ob wo
   end) ∧
  (healthy w → ids_from Work_orders (w_next w) (w_db w) →
   ids_from Outbox (w_next w) (w_db w) →
   Forall (λ r, wo_wo_number r ≠ wo_number) (w_db w Work_orders) →
   key_exists (w_db w) Parts part_id = true → in_i32 (default 100 priority) = true →
   is_ok (create_remote_work_order plant wo_number part_id qty priority w).1 = true).
Proof.
  split; [|intros; by eapply returns_ok, create_remote_work_order_returns].
  intros r w' H. destruct r as [id|e]; [|by eapply transaction_Err].
  unfold create_remote_work_order, enqueue in H. minv.
  eexists _, _. split; [reflexivity|]. split; [reflexivity|].
  split; [intros t Ht1 Ht2; rewrite !set_table_ne by congruence; done|].
  split_and!; [done..|].
  match goal with H : check_row Work_orders _ _ = None |- _ =>
    apply check_row_range in H; simpl in H; rename H into Hpr end.
  unfold describes, wo_payload_of_json, required, defaulted, optional, field. simpl.
  split_and!; [done..|]. by rewrite Hpr.
Qed.
End sync_properties.

(** ** Instances on a small cloud *)

(** Texts of nothing but zero. *)
Definition sample_text : WireText := {|
  decimal_text d := if d =? 0 then "0"%string else "1"%string;
  decimal_of_text s := if String.eqb s "0" then Some 0 else None;
  time_text _ := "1970-01-01T00:00:00Z";
  time_of_text s := if String.eqb s "1970-01-01T00:00:00Z" then Some 0 else None;
  decimal_of_float x := match x with S754_zero _ => Some 0 | _ => None end
|}.

Definition sample_sync : SyncEnv := {|
  sync_text := sample_text;
  sha256 s := String.list_byte_of_string s;
  serde_error _ := "invalid type"
|}.

Definition token_hash (t : string) : string := @hash_token sample_sync t.

Definition cloud_db : Db :=
  set_table Orgs [mkOrgRow "o1" "O" "Org" 0 0] (
  set_table Plants
    [mkPlantRow "pA" "o1" "A" "Plant A" (Some (token_hash "tokA")) (Some 0) None 0 0;
     mkPlantRow "pB" "o1" "B" "Plant B" (Some (token_hash "tokB")) (Some 0) None 0 0] (
  set_table Outbox
    [mkOutboxRow "e1" "work_order" "w1" "upsert" JNull (Some "pA") 10 None;
     mkOutboxRow "e2" "work_order" "w2" "upsert" JNull (Some "pA") 5 None;
     mkOutboxRow "e3" "work_order" "w3" "upsert" JNull (Some "pB") 7 None] plant_db)).

Definition cloud : World := world_of cloud_db.

Definition sample_entry (id wo_id wo_number : string) : SyncEntry :=
  mkSyncEntry id "work_order" wo_id "upsert"
    (remote_payload wo_id wo_number "p1" (10 ^ 29) (Some 5)).

(** The third entry has a part the cloud does not know. *)
Definition good_batch : list SyncEntry :=
  [sample_entry "x1" "w1" "WO-1"; mkSyncEntry "x2" "widget" "q" "upsert" JNull;
   sample_entry "x1" "w1" "WO-1"].
Definition bad_batch : list SyncEntry :=
  [sample_entry "x1" "w1" "WO-1";
   mkSyncEntry "x2" "work_order" "w2" "upsert"
     (remote_payload "w2" "WO-2" "unknown" 1 None);
   sample_entry "x3" "w3" "WO-3"].

Abbreviation run_batch es w := (@apply_batch sample_env sample_sync es (Some "pA"%string) w).

Lemma apply_batch_replay_witness :
  (run_batch good_batch cloud).1 = Ok (2, 1)%nat ∧
  run_batch good_batch (run_batch good_batch cloud).2 =
    (Ok (0, 3)%nat, (run_batch good_batch cloud).2).
Proof.
  set (r := run_batch good_batch cloud).
  assert (r.1 = Ok (2, 1)%nat) as E by (vm_compute; reflexivity).
  split; [exact E|].
  refine (proj2 (@apply_batch_replay sample_env sample_sync good_batch (Some "pA"%string) 2 1
    cloud r.2 _) r.2 (Some "pA"%string) _ _).
  - exact (outcome _ _ E).
  - vm_compute. reflexivity.
  - auto.
Defined.

Lemma apply_batch_resume_witness :
  is_ok (run_batch bad_batch cloud).1 = false ∧
  ∃ es1 x es2 a s v, bad_batch = es1 ++ x :: es2 ∧ run_batch es1 cloud = (Ok (a, s), v) ∧
    w_db (run_batch bad_batch cloud).2 = w_db v.
Proof.
  destruct (run_batch bad_batch cloud) as [[p|e] w1] eqn:E.
  - exfalso. vm_compute in E. discriminate.
  - split; [reflexivity|].
    destruct (@apply_batch_resume sample_env sample_sync bad_batch (Some "pA"%string) e cloud w1 E)
      as (es1 & x & es2 & a & s & v & H1 & H2 & _ & H3 & _).
    exists es1, x, es2, a, s, v. split; [exact H1|split; [exact H2|exact H3]].
Defined.

Lemma push_scoped_witness :
  let r := @push sample_env sample_sync (Some "Bearer tokA"%string) "pA" good_batch cloud in
  r.1 = Ok (2, 1)%nat ∧ Z.of_nat (length good_batch) <= MAX_BATCH.
Proof.
  set (r := @push sample_env sample_sync (Some "Bearer tokA"%string) "pA" good_batch cloud).
  assert (r.1 = Ok (2, 1)%nat) as E by (vm_compute; reflexivity).
  split; [exact E|].
  refine (proj1 (proj2 (@push_scoped sample_env sample_sync (Some "Bearer tokA"%string) "pA"
    good_batch (2, 1)%nat cloud r.2 _))).
  exact (outcome _ _ E).
Defined.

Lemma ack_then_pull_witness :
  let a := @ack sample_env sample_sync (Some "Bearer tokA"%string) "pA" ["e2"]%string cloud in
  let r := @pull sample_env sample_sync (Some "Bearer tokA"%string) "pA" None a.2 in
  let es := [mkSyncEntry "e1" "work_order" "w1" "upsert" JNull] in
  a.1 = Ok tt ∧ r.1 = Ok es ∧ ∀ e, e ∈ es → se_id e ∉ ["e2"]%string.
Proof.
  set (a := @ack sample_env sample_sync (Some "Bearer tokA"%string) "pA" ["e2"]%string cloud).
  set (r := @pull sample_env sample_sync (Some "Bearer tokA"%string) "pA" None a.2).
  set (es := [mkSyncEntry "e1" "work_order" "w1" "upsert" JNull]).
  assert (a.1 = Ok tt) as Ea by (vm_compute; reflexivity).
  assert (r.1 = Ok es) as Er by (vm_compute; reflexivity).
  split; [exact Ea|]. split; [exact Er|]. intros e He.
  exact (proj1 (proj2 (@ack_then_pull sample_env sample_sync _ _ _ cloud tt a.2 _ _ _ es a.2 r.2
    (outcome _ _ Ea) eq_refl (outcome _ _ Er)) e He)).
Defined.

Lemma create_remote_work_order_atomic_witness :
  is_ok (@create_remote_work_order sample_env "pA" "WO-7" "p1" (10 ^ 28) None cloud).1 = true.
Proof.
  apply (proj2 (@create_remote_work_order_atomic sample_env "pA" "WO-7" "p1" (10 ^ 28) None
    cloud)).
  - reflexivity.
  - apply no_ulids_ids_from. vm_compute. reflexivity.
  - apply no_ulids_ids_from. vm_compute. reflexivity.
  - evaluate_prop.
  - vm_compute. reflexivity.
  - reflexivity.
Defined.

(** Acknowledging does not look at the destination: plant B's ack of plant A's entry takes
    it out of plant A's feed. *)
Example ack_across_plants :
  let w1 := (@ack sample_env sample_sync (Some "Bearer tokB"%string) "pB"
               ["e1"; "e2"]%string cloud).2 in
  (@pull sample_env sample_sync (Some "Bearer tokA"%string) "pA" None w1).1 = Ok [].
Proof. vm_compute. reflexivity. Qed.

(** A plant that pushes an order under another plant's order id takes the order over, with
    whatever status it sends. *)
Example push_takes_over_order :
  let w1 := (run_batch [sample_entry "x1" "w1" "WO-1"] cloud).2 in
  let hijack := mkSyncEntry "y1" "work_order" "w1" "upsert"
    (JObj [("id", JStr "w1"); ("part_id", JStr "p1"); ("qty_ordered", JInt 1);
           ("status", JStr "closed"); ("wo_number", JStr "WO-1")]%string) in
  let w2 := (@push sample_env sample_sync (Some "Bearer tokB"%string) "pB" [hijack] w1).2 in
  map wo_plant_id (w_db w1 Work_orders) = [Some "pA"%string] ∧
  map wo_plant_id (w_db w2 Work_orders) = [Some "pB"%string] ∧
  map wo_status (w_db w2 Work_orders) = ["closed"%string].
Proof. vm_compute. auto. Qed.
