(* ===== verification/Delivery.v ===== *)
(** * Delivery of remote commands

    Commands for a plant wait in the cloud's outbox until the plant has pulled and
    acknowledged them ([crates/mes-cloud/src/sync.rs], [crates/mes-db/src/repo_sync.rs]).
    Here a plant polls: it pulls, and acknowledges what it got unless something happens to it
    first. The polling client is not part of the sources; its rounds are the environment of
    the theorem. *)

From S2P Require Import Prelude Schema Sql Sample Sync.

(** ** Sorting and selecting *)

Section stable.
Context {A : Type} (le : A → A → bool).
Hypothesis le_total : ∀ x y, le x y = false → le y x = true.
Hypothesis le_trans : ∀ x y z, le x y = true → le y z = true → le x z = true.

Lemma insert_sorted_front x l :
  Forall (λ y, le x y = true) l → insert_sorted le x l = x :: l.
Proof. intros H. destruct H as [|y l Hy _]; simpl; [done|]. by rewrite Hy. Qed.

Lemma select_insert_sorted p x l :
  StronglySorted (λ a b, le a b = true) l →
  select p (insert_sorted le x l) =
  if p x then insert_sorted le x (select p l) else select p l.
Proof.
  induction 1 as [|y l Hl IH Hy]; simpl; [by destruct (p x)|].
  destruct (le x y) eqn:E; simpl.
  - destruct (p x); [|done].
    assert (Forall (λ z, le x z = true) (if p y then y :: select p l else select p l)) as Hf.
    { apply Forall_forall. intros z Hz. rewrite Forall_forall in Hy.
      assert (z = y ∨ z ∈ l) as [->|Hz'].
      { destruct (p y); [destruct Hz as [->|Hz]; [by left|]|]; right;
          apply list_elem_of_In in Hz; by apply elem_of_select in Hz as [_ ?]. }
      - done.
      - eapply le_trans; [exact E|]. apply Hy. by apply list_elem_of_In. }
    by rewrite insert_sorted_front.
  - rewrite IH. destruct (p x), (p y); try done. simpl. by rewrite E.
Qed.

Lemma select_sort_by p l : select p (sort_by le l) = sort_by le (select p l).
Proof.
  induction l as [|x l IH]; simpl; [done|].
  rewrite select_insert_sorted by (by apply sort_by_sorted). rewrite IH.
  by destruct (p x).
Qed.
End stable.

Lemma select_order_by {A} (k : A → Z) p l : select p (order_by k l) = order_by k (select p l).
Proof.
  apply select_sort_by; intros; bool_to_prop; [apply Z.leb_le; lia|].
  apply Z.leb_le. lia.
Qed.

(** What is left of a list without repetitions once its first elements are taken out. *)
Lemma select_not_taken {A} (f : A → string) n l :
  NoDup (map f l) →
  select (λ x, negb (bool_decide (f x ∈ map f (take n l)))) l = drop n l.
Proof.
  revert n. induction l as [|x l IH]; intros n Hd; [by destruct n|].
  apply list.NoDup_cons in Hd as [Hx Hd]. destruct n as [|n].
  - apply select_all. intros y _. by rewrite bool_decide_eq_false_2 by apply not_elem_of_nil.
  - simpl. rewrite bool_decide_eq_true_2 by (by left). simpl. rewrite <- (IH n Hd).
    apply select_ext. intros y Hy. f_equal. apply bool_decide_ext.
    rewrite elem_of_cons. split; [|by right]. intros [E|?]; [|done].
    exfalso. apply Hx. rewrite <- E. by apply list_elem_of_fmap_2.
Qed.

(** Rows that an update takes out of a selection. *)
Lemma select_updated {A} (p q : A → bool) (f : A → A) l :
  (∀ x, q (f x) = false) → select q (update_rows p f l) = select (λ x, q x && negb (p x)) l.
Proof.
  intros Hf. induction l as [|x l IH]; simpl; [done|].
  destruct (p x); simpl; [rewrite Hf, andb_false_r; apply IH|].
  rewrite andb_true_r. destruct (q x); [f_equal|]; apply IH.
Qed.

(** ** Rounds *)

Section delivery.
Context {env : Env} {senv : SyncEnv}.

(** The commands that wait for a plant, oldest first. *)
Definition waiting (plant : string) (db : Db) : list OutboxRow :=
  order_by ob_created_at (select (for_plant plant) (db Outbox)).

(** How many commands a pull may take. *)
Definition batch (limit : option Z) : nat := Z.to_nat (Z.min (default MAX_BATCH limit) MAX_BATCH).

(** A plant polls, once for each element; [false] is a round in which the acknowledgement is
    lost. What it received, and the cloud after it. *)
Fixpoint poll (authorization : option string) (plant : string) (limit : option Z)
    (acks : list bool) (w : World) : list SyncEntry * World :=
  match acks with
  | [] => ([], w)
  | acked :: acks' =>
      match pull authorization plant limit w with
      | (Ok es, w1) =>
          let w2 := if acked : bool then (ack authorization plant (map se_id es) w1).2 else w1 in
          let '(es', w') := poll authorization plant limit acks' w2 in (es ++ es', w')
      | (Err _, w1) => poll authorization plant limit acks' w1
      end
  end.

(** The rounds that went through. *)
Definition acknowledged (acks : list bool) : nat := length (select (λ b, b) acks).

(** A cloud that answers the plant. *)
Definition answers (authorization : option string) (plant : string) (w : World) : Prop :=
  healthy w ∧ require_plant authorization plant w = (Ok tt, w) ∧
  NoDup (map ob_id (w_db w Outbox)).

Lemma pull_run authorization plant limit w :
  answers authorization plant w → 0 <= default MAX_BATCH limit →
  pull authorization plant limit w =
    (Ok (map entry_of_row (take (batch limit) (waiting plant (w_db w)))), w).
Proof.
  intros (Hh & Hr & _) Hl. unfold pull. unfold mbind at 1, M_bind at 1. rewrite Hr.
  assert (require_pool w = (Ok tt, w)) as Hp.
  { unfold require_plant, mbind, M_bind, require_pool in *. by destruct (w_pool w). }
  unfold mbind at 1, M_bind at 1. rewrite Hp.
  unfold pull_for_plant, query_limit, map_err, mbind, M_bind. rewrite statement_run by done.
  assert ((Z.min (default MAX_BATCH limit) MAX_BATCH <? 0) = false) as ->.
  { apply Z.ltb_ge. unfold MAX_BATCH in *. lia. }
  destruct w. reflexivity.
Qed.

(** What an acknowledgement does to the cloud. *)
Lemma ack_marks authorization plant ids w :
  answers authorization plant w →
  let f := λ r, r <| ob_synced_at := Some (w_now w) |> in
  ∃ w', ack authorization plant ids w = (Ok tt, w') ∧ healthy w' ∧ w_pool w' = w_pool w ∧
    w_db w' Outbox = update_rows (λ r, bool_decide (ob_id r ∈ ids)) f (w_db w Outbox) ∧
    ∀ t, t ≠ Outbox → w_db w' t = w_db w t.
Proof.
  intros (Hh & Hr & _) f.
  assert (require_pool w = (Ok tt, w)) as Hp.
  { unfold require_plant, mbind, M_bind, require_pool in *. by destruct (w_pool w). }
  unfold ack, mbind, M_bind. rewrite Hr, Hp. unfold mark_synced, map_err.
  case_bool_decide as Hnil.
  - exists w. split_and!; [done..| |done]. rewrite Hnil. rewrite update_rows_none; [done|].
    intros x _. by apply bool_decide_eq_false, not_elem_of_nil.
  - unfold mbind, M_bind, gets. rewrite update_run; [|done|by apply check_update_None].
    eexists. split_and!; [done..|exact (set_table_eq Outbox _ _)|].
    intros t Ht. exact (set_table_ne Outbox t _ _ (not_eq_sym Ht)).
Qed.

(** Authentication looks at the plants only. *)
Lemma require_plant_local authorization plant w w' :
  healthy w → healthy w' → w_pool w' = w_pool w → w_db w' Plants = w_db w Plants →
  require_plant authorization plant w = (Ok tt, w) →
  require_plant authorization plant w' = (Ok tt, w').
Proof.
  intros Hh Hh' Hp Hpl. unfold require_plant, verify_plant_token, require_pool, ok_or.
  unfold fetch_optional, fetch, mbind, M_bind, map_err, mret, M_ret. rewrite Hp.
  destruct (w_pool w); [|done]. destruct (bearer authorization); [|done].
  rewrite !query_run by done. rewrite Hpl.
  destruct (list.head _) as [p|]; [|done]. by case_bool_decide.
Qed.

(** After the acknowledgement of what was pulled, the rest waits. *)
Lemma ack_rest authorization plant n w w' :
  answers authorization plant w →
  ack authorization plant (map se_id (map entry_of_row (take n (waiting plant (w_db w))))) w
    = (Ok tt, w') →
  answers authorization plant w' ∧
  waiting plant (w_db w') = drop n (waiting plant (w_db w)).
Proof.
  intros Ha Hack. rewrite map_map in Hack.
  destruct (ack_marks authorization plant (map ob_id (take n (waiting plant (w_db w)))) w Ha)
    as (v & Ev & Hh' & Hp & Eo & Ef).
  change (λ x, se_id (entry_of_row x)) with ob_id in Hack. rewrite Hack in Ev.
  injection Ev as <-. destruct Ha as (Hh & Hr & Hd). unfold answers. split_and!.
  - done.
  - by eapply require_plant_local, Hr; [..|apply Ef].
  - rewrite Eo. unfold update_rows. rewrite map_map. erewrite map_ext; [exact Hd|].
    intros r. by case_match.
  - unfold waiting at 1. rewrite Eo.
    rewrite <- (select_not_taken ob_id n (waiting plant (w_db w))).
    + unfold waiting. rewrite select_order_by, select_select. f_equal.
      apply select_updated. intros r. unfold for_plant. simpl. by rewrite andb_false_r.
    + unfold waiting, order_by. rewrite sort_by_perm. unfold select.
      clear -Hd. induction (w_db w Outbox) as [|r l IH]; simpl in *; [constructor|].
      apply list.NoDup_cons in Hd as [Hn Hd]. destruct (for_plant plant r); simpl; [|by apply IH].
      constructor; [|by apply IH]. intros (x & E & Hx)%list_elem_of_fmap. apply Hn.
      rewrite E. apply list_elem_of_fmap_2. apply list_elem_of_In, filter_In in Hx as [? _].
      by apply list_elem_of_In.
Qed.

(** C20. Commands reach their plant: as long as the plant polls, each round that goes
    through takes the oldest commands waiting off the list, up to the limit; a round whose
    acknowledgement is lost takes none off, and what it pulled comes again. So after enough
    acknowledged rounds nothing waits any more, and every command that waited has been
    received. *)
Theorem commands_delivered authorization plant limit acks w :
  answers authorization plant w → 0 <= default MAX_BATCH limit →
  let '(received, w') := poll authorization plant limit acks w in
  waiting plant (w_db w') = drop (acknowledged acks * batch limit) (waiting plant (w_db w)) ∧
  (∀ r, r ∈ take (acknowledged acks * batch limit) (waiting plant (w_db w)) →
     entry_of_row r ∈ received) ∧
  ((length (waiting plant (w_db w)) <= acknowledged acks * batch limit)%nat →
     waiting plant (w_db w') = [] ∧
     ∀ r, r ∈ w_db w Outbox → for_plant plant r = true → entry_of_row r ∈ received).
Proof.
  intros Ha Hl.
  assert (let '(received, w') := poll authorization plant limit acks w in
    waiting plant (w_db w') = drop (acknowledged acks * batch limit) (waiting plant (w_db w)) ∧
    ∀ r, r ∈ take (acknowledged acks * batch limit) (waiting plant (w_db w)) →
      entry_of_row r ∈ received) as H.
  { revert w Ha. induction acks as [|acked acks IH]; intros w Ha; simpl.
    { split; [done|]. by intros r ?%elem_of_nil. }
    rewrite pull_run by done.
    destruct acked; unfold acknowledged; simpl; fold (acknowledged acks).
    - destruct (ack_marks authorization plant (map se_id (map entry_of_row
        (take (batch limit) (waiting plant (w_db w))))) w Ha) as (v & Ev & _).
      rewrite Ev. simpl. apply ack_rest in Ev as [Ha' Ew]; [|done].
      specialize (IH v Ha'). destruct (poll _ _ _ acks v) as [es' w'].
      destruct IH as [IH1 IH2]. rewrite Ew in IH1, IH2. split.
      + rewrite IH1, drop_drop. f_equal; lia.
      + intros r Hr. apply elem_of_app.
        rewrite <- (take_drop (batch limit) (waiting plant (w_db w))), take_app in Hr.
        apply elem_of_app in Hr as [Hr|Hr].
        * left. apply list_elem_of_fmap_2. by eapply subseteq_take.
        * right. apply IH2. apply list_elem_of_lookup_1 in Hr as [i Hi].
          apply list_elem_of_lookup. exists i. apply lookup_take_Some in Hi as [Hi Hlt].
          apply lookup_take_Some. split; [done|].
          apply lookup_lt_Some in Hi. rewrite length_drop in Hi. rewrite length_take in Hlt. lia.
    - specialize (IH w Ha). destruct (poll _ _ _ acks w) as [es' w']. destruct IH as [IH1 IH2].
      split; [done|]. intros r Hr. apply elem_of_app. right. by apply IH2. }
  destruct (poll authorization plant limit acks w) as [received w']. destruct H as [H1 H2].
  split_and!; [done..|]. intros Hle. rewrite H1, drop_ge by done. split; [done|].
  intros r Hr Hf. apply H2. rewrite take_ge by done. unfold waiting, order_by.
  by rewrite elem_of_sort_by, elem_of_select.
Qed.
End delivery.

(** ** A plant that loses an acknowledgement *)

Lemma commands_delivered_witness :
  let p := @poll sample_env sample_sync (Some "Bearer tokA"%string) "pA" (Some 1)
             [true; false; true] cloud in
  map se_id p.1 = ["e2"; "e1"; "e1"]%string ∧ waiting "pA" (w_db p.2) = [].
Proof.
  set (p := @poll sample_env sample_sync (Some "Bearer tokA"%string) "pA" (Some 1)
             [true; false; true] cloud).
  split; [vm_compute; reflexivity|].
  assert (@answers sample_env sample_sync (Some "Bearer tokA"%string) "pA" cloud) as Ha.
  { split; [reflexivity|]. split; [vm_compute; reflexivity|evaluate_prop]. }
  pose proof (@commands_delivered sample_env sample_sync (Some "Bearer tokA"%string) "pA" (Some 1)
    [true; false; true] cloud Ha ltac:(vm_compute; discriminate)) as H.
  change (@poll sample_env sample_sync (Some "Bearer tokA"%string) "pA" (Some 1)
    [true; false; true] cloud) with p in H.
  destruct p as [received w']. apply (proj2 (proj2 H)). vm_compute. auto.
Defined.
