(* ===== verification/Protocol.v ===== *)
(** * The protocol of the DNC daemon

    [crates/mes-dnc-bridge/src/protocol.rs]: commands and events as newline-delimited JSON.
    The text form of a JSON value is a parameter ([SerdeJson]). *)

From Stdlib Require Import Ascii.
From stdpp Require Import countable.
From S2P Require Import Prelude Schema Sync.

(** [serde_json::to_string] and [from_str]. *)
Class SerdeJson := {
  json_to_string : Json → string;
  json_from_str : string → option Json
}.

(** [str::trim] removes white space at both ends; of white space, only these can occur
    around JSON. *)
Definition is_blank (a : Ascii.ascii) : bool :=
  bool_decide (Ascii.N_of_ascii a ∈ [9; 10; 11; 12; 13; 32]%N).

Fixpoint trim_start (s : string) : string :=
  match s with
  | String a s' => if is_blank a then trim_start s' else s
  | EmptyString => EmptyString
  end.

Fixpoint trim_blanks_end (s : string) : string :=
  match s with
  | EmptyString => EmptyString
  | String a s' =>
      match trim_blanks_end s' with
      | EmptyString => if is_blank a then EmptyString else String a EmptyString
      | s'' => String a s''
      end
  end.

Definition trim (s : string) : string := trim_blanks_end (trim_start s).

(** The fields of an object of texts and nulls. *)
Definition flat_field (f : string * Json) : option (string * option string) :=
  match f.2 with
  | JStr s => Some (f.1, Some s)
  | JNull => Some (f.1, None)
  | _ => None
  end.

Definition flat_fields (v : Json) : option (list (string * option string)) :=
  match v with JObj fields => mapM flat_field fields | _ => None end.

Definition one_line (s : string) : bool :=
  forallb (λ a, negb (Ascii.N_of_ascii a =? 10)%N) (String.list_ascii_of_string s).

(** Documented behaviour, for objects of texts and nulls: what was printed parses to the
    same value; it is on one line (line feeds are escaped), without blanks around it (it is
    within braces). *)
Class SerdeLaws (serde : SerdeJson) : Prop := {
  from_str_to_string v l : flat_fields v = Some l → json_from_str (json_to_string v) = Some v;
  to_string_trimmed v l : flat_fields v = Some l → trim (json_to_string v) = json_to_string v;
  to_string_one_line v l : flat_fields v = Some l → one_line (json_to_string v) = true
}.

(** ** Values on the wire, as derived by serde *)

(** A field that is left out when absent. *)
Definition skip_none (name : string) (o : option string) : list (string * Json) :=
  match o with Some s => [(name, JStr s)] | None => [] end.

Definition command_to_json (cmd : DncCommand) : Json :=
  match cmd with
  | SendProgram program machine =>
      JObj ([("cmd"%string, JStr "send_program"); ("program"%string, JStr program)]
            ++ skip_none "machine" machine)
  end.

Definition command_of_json (v : Json) : option DncCommand :=
  tag ← required as_string "cmd" v;
  if String.eqb tag "send_program" then
    program ← required as_string "program" v;
    machine ← optional as_string "machine" v;
    Some (SendProgram program machine)
  else None.

Definition event_to_json (ev : DncEvent) : Json :=
  match ev with
  | TransferCompleted reference =>
      JObj [("event", JStr "transfer_completed"); ("reference", JStr reference)]%string
  | TransferFailed reference error =>
      JObj [("event", JStr "transfer_failed"); ("reference", JStr reference);
            ("error", JStr error)]%string
  | ProgramReceived program content_ref =>
      JObj [("event", JStr "program_received"); ("program", JStr program);
            ("content_ref", JOpt JStr content_ref)]%string
  end.

Definition event_of_json (v : Json) : option DncEvent :=
  tag ← required as_string "event" v;
  if String.eqb tag "transfer_completed" then
    reference ← required as_string "reference" v;
    Some (TransferCompleted reference)
  else if String.eqb tag "transfer_failed" then
    reference ← required as_string "reference" v;
    error ← defaulted ""%string as_string "error" v;
    Some (TransferFailed reference error)
  else if String.eqb tag "program_received" then
    program ← required as_string "program" v;
    content_ref ← optional as_string "content_ref" v;
    Some (ProgramReceived program content_ref)
  else None.

Definition line_feed : string := String (Ascii.ascii_of_N 10) EmptyString.

Section protocol.
Context {serde : SerdeJson}.

Definition wire_command (cmd : DncCommand) : string :=
  String.append (json_to_string (command_to_json cmd)) line_feed.

Definition parse_event (line : string) : option DncEvent :=
  json_from_str (trim line) ≫= event_of_json.
End protocol.

(** ** Lemmas *)

Lemma command_json cmd : command_of_json (command_to_json cmd) = Some cmd.
Proof. by destruct cmd as [program [machine|]]. Qed.

Lemma event_json ev : event_of_json (event_to_json ev) = Some ev.
Proof. by destruct ev as [| |program [content|]]. Qed.

Lemma append_cons x a b : String.append (String x a) b = String x (String.append a b).
Proof. done. Qed.

Lemma append_empty b : String.append EmptyString b = b.
Proof. done. Qed.

Lemma append_assoc a b c :
  String.append (String.append a b) c = String.append a (String.append b c).
Proof. induction a as [|x a IH]; [done|]. by rewrite !append_cons, IH. Qed.

Lemma append_nil a : String.append a EmptyString = a.
Proof. induction a as [|x a IH]; [done|]. by rewrite append_cons, IH. Qed.

(** A line feed at the end is trimmed away. *)
Lemma trim_line_feed s : trim s = s → trim (String.append s line_feed) = s.
Proof.
  unfold trim. intros H. destruct s as [|a s]; [done|]. rewrite append_cons.
  assert (is_blank a = false) as Ha.
  { destruct (is_blank a) eqn:E; [|done]. simpl in H. rewrite E in H.
    assert (∀ t, (String.length (trim_blanks_end t) <= String.length t)%nat) as H1.
    { intros t. induction t as [|b t IH]; simpl; [lia|].
      destruct (trim_blanks_end t); simpl in *; [destruct (is_blank b); simpl|]; lia. }
    assert (∀ t, (String.length (trim_start t) <= String.length t)%nat) as H2.
    { intros t. induction t as [|b t IH]; simpl; [lia|]. destruct (is_blank b); simpl; lia. }
    specialize (H1 (trim_start s)). specialize (H2 s). rewrite H in H1. simpl in H1. lia. }
  simpl trim_start in *. rewrite Ha in *. rewrite <- append_cons.
  assert (∀ t, trim_blanks_end (String.append t line_feed) = trim_blanks_end t) as Ht.
  { intros t. induction t as [|b t IH]; [done|]. rewrite append_cons. simpl. by rewrite IH. }
  by rewrite Ht.
Qed.

Lemma command_flat cmd : ∃ l, flat_fields (command_to_json cmd) = Some l.
Proof. destruct cmd as [program [machine|]]; by eexists. Qed.

Lemma event_flat ev : ∃ l, flat_fields (event_to_json ev) = Some l.
Proof. destruct ev as [| |program [content|]]; by eexists. Qed.

(** ** Properties *)

Section protocol_properties.
Context {serde : SerdeJson} `{!SerdeLaws serde}.

(** What is printed is read back, alone and as a line. *)
Lemma printed v l : flat_fields v = Some l →
  json_from_str (trim (json_to_string v)) = Some v ∧
  json_from_str (trim (String.append (json_to_string v) line_feed)) = Some v.
Proof.
  intros Hl. pose proof (to_string_trimmed v l Hl) as Ht.
  rewrite trim_line_feed by done. rewrite Ht. split; by eapply from_str_to_string.
Qed.

(** Talking to the daemon loses nothing: a command goes out as one line, with a line
    feed at its end and no other, that decodes to the command; an event the daemon prints,
    alone or with its line feed, is read back as that event; and an event without the
    optional fields is read with their defaults. *)
Theorem protocol_roundtrip cmd ev reference :
  (∃ body, wire_command cmd = String.append body line_feed ∧ one_line body = true ∧
     (json_from_str (trim (wire_command cmd)) ≫= command_of_json) = Some cmd) ∧
  parse_event (json_to_string (event_to_json ev)) = Some ev ∧
  parse_event (String.append (json_to_string (event_to_json ev)) line_feed) = Some ev ∧
  parse_event (json_to_string (JObj [("event", JStr "transfer_failed");
    ("reference", JStr reference)]%string)) = Some (TransferFailed reference "").
Proof.
  destruct (command_flat cmd) as [lc Hc], (event_flat ev) as [le He].
  unfold wire_command, parse_event. split_and!.
  - eexists. split_and!; [done|by eapply to_string_one_line|].
    rewrite (proj2 (printed _ _ Hc)). apply command_json.
  - rewrite (proj1 (printed _ _ He)). apply event_json.
  - rewrite (proj2 (printed _ _ He)). apply event_json.
  - by rewrite (proj1 (printed (JObj [("event", JStr "transfer_failed");
      ("reference", JStr reference)]%string) _ eq_refl)).
Qed.
End protocol_properties.

(** ** A printer with the laws *)

(** Binary digits. *)
Fixpoint pos_text (p : positive) : string :=
  match p with
  | xH => "1"
  | xO p => String "0"%char (pos_text p)
  | xI p => String "1"%char (pos_text p)
  end.

Fixpoint text_pos (s : string) : option positive :=
  match s with
  | String a EmptyString => if Ascii.eqb a "1"%char then Some xH else None
  | String a s' => (if Ascii.eqb a "1"%char then xI else xO) <$> text_pos s'
  | EmptyString => None
  end.

Lemma text_pos_text p : text_pos (pos_text p) = Some p.
Proof.
  induction p as [p IH|p IH|]; simpl; [| |done];
    (destruct (pos_text p) eqn:E; [by destruct p|]); by rewrite IH.
Qed.

Definition sample_serde : SerdeJson := {|
  json_to_string v :=
    match flat_fields v with Some l => pos_text (encode l) | None => "null" end;
  json_from_str s :=
    l ← text_pos s ≫= decode (A := list (string * option string));
    Some (JObj (map (λ f, (f.1, JOpt JStr f.2)) l))
|}.

Lemma pos_text_plain p :
  trim_blanks_end (pos_text p) = pos_text p ∧ trim_start (pos_text p) = pos_text p ∧
  one_line (pos_text p) = true.
Proof.
  unfold one_line. induction p as [p (IH1 & _ & IH3)|p (IH1 & _ & IH3)|]; [| |done];
    cbn [pos_text trim_blanks_end]; rewrite IH1; (split; [by destruct p|]);
    (split; [done|]); simpl; by rewrite IH3.
Qed.

Lemma sample_serde_laws : SerdeLaws sample_serde.
Proof.
  split; intros v l Hl; simpl; rewrite Hl.
  - rewrite text_pos_text. simpl. rewrite decode_encode. simpl. f_equal.
    destruct v as [| | | | | | | |fields]; try done. f_equal. simpl in Hl.
    revert l Hl. induction fields as [|[k v] fields IH]; intros l Hl.
    + by injection Hl as <-.
    + simpl in Hl. apply bind_Some in Hl as (x & Hx & (xs & Hxs & [= <-])%bind_Some).
      simpl. rewrite (IH xs Hxs). f_equal.
      by destruct v; simplify_eq/=; unfold flat_field in Hx; simplify_eq/=.
  - destruct (pos_text_plain (encode l)) as (H1 & H2 & _). unfold trim. by rewrite H2.
  - apply pos_text_plain.
Qed.

Lemma protocol_roundtrip_witness :
  @parse_event sample_serde (String.append
    (@json_to_string sample_serde (event_to_json (TransferFailed "r1" "timeout"))) line_feed)
    = Some (TransferFailed "r1" "timeout").
Proof.
  exact (proj1 (proj2 (proj2 (@protocol_roundtrip sample_serde sample_serde_laws
    (SendProgram "O1" None) (TransferFailed "r1" "timeout") "r1")))).
Defined.
