(* ===== verification/Moves.v ===== *)
(** * Rows with a status

    The tables whose rows carry a status ([work_orders], [wo_operations],
    [program_revisions], [maintenance_work_orders], ...) are all written the same way: read
    the row, check the move against a transition table, update by id. What such a table
    promises is stated and proved here once. *)

From S2P Require Import Prelude Schema Sql Lifecycle.

(** ** Reasoning from a state *)

Section evolves_at.
Context {S : Type} (R : relation S) `{!PreOrder R}.

Lemma evolves_at_bind {E A B} (m : M S E A) (k : A → M S E B) s :
  R s (m s).2 → (∀ a s', m s = (Ok a, s') → R s' (k a s').2) → R s ((m ≫= k) s).2.
Proof.
  intros Hm Hk. unfold mbind, M_bind. destruct (m s) as [[a|e] s'] eqn:E0; simpl in *;
    [|done]. etrans; [exact Hm|by apply Hk].
Qed.
End evolves_at.

(** An evolution from every state is one from each. *)
Lemma evolves_at_of {S E A} (R : relation S) (m : M S E A) s : evolves R m → R s (m s).2.
Proof. intros H. apply H. Qed.

(** Steps over the first call of a handler, keeping what it is known to have returned. *)
Ltac estep :=
  apply evolves_at_bind; [typeclasses eauto|solve [apply evolves_at_of; evolve]|];
  let a := fresh "a" in let w := fresh "w" in let H := fresh "H" in
  intros a w H.

(** ** Status tables *)

Section moves.
Context {A : Type} (T : table) (stat : row T → string).
Context (parse : string → option A) (step : A → A → bool) (initial : string).

(** One legal move of a stored status. *)
Definition legal (s s' : string) : Prop :=
  ∃ a b, parse s = Some a ∧ parse s' = Some b ∧ step a b = true.

Definition row_moves (r r' : row T) : Prop :=
  key T r = key T r' ∧ rtc legal (stat r) (stat r').

Definition row_started (r : row T) : Prop := rtc legal initial (stat r).

Definition keys_unique (l : list (row T)) : Prop := NoDup (map (key T) l).

(** Ids stay unique, no row disappears, every row's status has moved only along the
    transition table, and the rows added since started at the initial status. *)
Definition moves (l l' : list (row T)) : Prop :=
  keys_unique l → keys_unique l' ∧ grows row_moves row_started l l'.

#[local] Instance row_moves_preorder : PreOrder row_moves.
Proof.
  split; [by intros r|]. intros r1 r2 r3 [E1 H1] [E2 H2].
  split; [congruence|by etrans].
Qed.

#[global] Instance moves_preorder : PreOrder moves.
Proof.
  assert (PreOrder (grows row_moves row_started)) as [Hr Ht].
  { apply grows_preorder; [apply _|]. intros x y Hx [_ Hy]. unfold row_started. by etrans. }
  split; [by intros l Hl|]. intros l1 l2 l3 H12 H23 Hl.
  destruct (H12 Hl) as [H2 G12]. destruct (H23 H2) as [H3 G23]. split; [done|].
  by eapply Ht.
Qed.

Lemma keys_unique_eq l x y :
  keys_unique l → x ∈ l → y ∈ l → key T x = key T y → x = y.
Proof.
  unfold keys_unique. intros Hu Hx Hy E.
  apply list_elem_of_lookup_1 in Hx as [i Hi]. apply list_elem_of_lookup_1 in Hy as [j Hj].
  assert (i = j) as ->; [|congruence].
  eapply (NoDup_lookup (map (key T) l)); [done|..]; rewrite list_lookup_fmap.
  - rewrite Hi. simpl. reflexivity.
  - rewrite Hj. simpl. congruence.
Qed.

Lemma first_where_by_id id l r :
  keys_unique l → first_where (by_id T id) l = Some r →
  ∀ x, x ∈ l → by_id T id x = true → x = r.
Proof.
  intros Hu Hr x Hx Hid. apply first_where_Some in Hr as [Hrid Hrin].
  unfold by_id in *. bool_to_prop. apply (keys_unique_eq l); congruence.
Qed.

(** A sum over the table after one row, found by its id, was rewritten. *)
Lemma sum_update_by_id (v : row T → Z) id f l r :
  keys_unique l → first_where (by_id T id) l = Some r →
  sum_rows v (update_rows (by_id T id) f l) = sum_rows v l - v r + v (f r).
Proof.
  intros Hu. induction l as [|x l IH]; [done|].
  unfold keys_unique in Hu. simpl in Hu. apply list.NoDup_cons in Hu as [Hx Hu].
  unfold first_where. simpl. destruct (by_id T id x) eqn:E; simpl.
  - intros [= <-]. rewrite update_rows_none; [lia|]. intros y Hy. apply not_true_iff_false.
    intros Ey. apply Hx. unfold by_id in E, Ey. bool_to_prop.
    apply list_elem_of_fmap. exists y. split; [congruence|done].
  - intros Hr. specialize (IH Hu Hr). lia.
Qed.

Lemma keys_unique_update p f l :
  (∀ x, key T (f x) = key T x) → keys_unique l → keys_unique (update_rows p f l).
Proof.
  intros Hk. unfold keys_unique, update_rows. rewrite map_map.
  by rewrite (map_ext (λ x, key T (if p x then f x else x)) (key T))
    by (intros x; by destruct (p x)).
Qed.

(** An update whose rows each make one legal move. *)
Lemma moves_update p f l :
  (∀ x, key T (f x) = key T x) →
  (keys_unique l → ∀ x, x ∈ l → p x = true → legal (stat x) (stat (f x))) →
  moves l (update_rows p f l).
Proof.
  intros Hk Hlegal Hu. split; [by apply keys_unique_update|].
  apply grows_update; [apply _|]. intros x Hx Hp. split; [by rewrite Hk|].
  by apply rtc_once, Hlegal.
Qed.

(** The guarded update: the row that was read makes one legal move. *)
Lemma moves_guarded id f l r :
  first_where (by_id T id) l = Some r → (∀ x, key T (f x) = key T x) →
  legal (stat r) (stat (f r)) → moves l (update_rows (by_id T id) f l).
Proof.
  intros Hr Hk Hlegal. apply moves_update; [done|]. intros Hu x Hx Hid.
  by rewrite (first_where_by_id _ _ _ Hu Hr x Hx Hid).
Qed.

(** An update that leaves the status alone. *)
Lemma moves_same p f l :
  (∀ x, key T (f x) = key T x) → (∀ x, stat (f x) = stat x) → moves l (update_rows p f l).
Proof.
  intros Hk Hs Hu. split; [by apply keys_unique_update|].
  apply grows_update; [apply _|]. intros x _ _. split; [by rewrite Hk|by rewrite Hs].
Qed.

(** A row inserted at the initial status. *)
Lemma moves_insert r l :
  existsb (λ x, String.eqb (key T r) (key T x)) l = false → stat r = initial →
  moves l (l ++ [r]).
Proof.
  intros Hfresh Hs Hu. split.
  - unfold keys_unique. rewrite map_app. apply list.NoDup_app. split_and!; [done| |].
    + simpl. intros k Hk Hin. apply list_elem_of_singleton in Hin as ->.
      apply list_elem_of_fmap in Hk as (x & E & Hx).
      apply not_true_iff_false in Hfresh. apply Hfresh, existsb_exists. exists x.
      by rewrite <- list_elem_of_In, String.eqb_eq.
    + simpl. apply NoDup_singleton.
  - apply grows_insert; [apply _|]. unfold row_started. by rewrite Hs.
Qed.

(** Rows are rewritten only by moving: each is still there exactly as it was, or its status
    has made at least one legal move. *)
Definition stepwise (l l' : list (row T)) : Prop :=
  ∀ r, r ∈ l → ∃ r', r' ∈ l' ∧ key T r' = key T r ∧ (r' = r ∨ tc legal (stat r) (stat r')).

#[global] Instance stepwise_preorder : PreOrder stepwise.
Proof.
  split; [intros l r Hr; eauto|]. intros l1 l2 l3 H12 H23 r Hr.
  destruct (H12 r Hr) as (r2 & H2 & E2 & M2). destruct (H23 r2 H2) as (r3 & H3 & E3 & M3).
  exists r3. split_and!; [done|congruence|].
  destruct M2 as [->|M2], M3 as [->|M3]; auto. right. by etrans.
Qed.

Lemma stepwise_guarded id f l old :
  select (by_id T id) l = [old] → (∀ x, key T (f x) = key T x) →
  legal (stat old) (stat (f old)) → stepwise l (update_rows (by_id T id) f l).
Proof.
  intros Hone Hk Hl r Hr. exists (if by_id T id r then f r else r).
  split; [apply elem_of_update_rows; eauto|]. destruct (by_id T id r) eqn:E; [|auto].
  assert (r ∈ select (by_id T id) l) as Hin by (by apply elem_of_select).
  rewrite Hone in Hin. apply list_elem_of_singleton in Hin as ->.
  split; [apply Hk|]. right. by apply tc_once.
Qed.

(** Rows that satisfy a condition are never touched again. *)
Definition frozen (fin : row T → Prop) (l l' : list (row T)) : Prop :=
  ∀ r, r ∈ l → fin r → r ∈ l'.

#[global] Instance frozen_preorder fin : PreOrder (frozen fin).
Proof. split; [by intros l r|]. intros l1 l2 l3 H12 H23 r Hr Hf. auto. Qed.

Lemma frozen_guarded fin id f l old :
  select (by_id T id) l = [old] → ¬ fin old → frozen fin l (update_rows (by_id T id) f l).
Proof.
  intros Hone Hf r Hr Hfin. apply elem_of_update_rows. exists r. split; [done|].
  destruct (by_id T id r) eqn:E; [|done].
  assert (r ∈ select (by_id T id) l) as Hin by (by apply elem_of_select).
  rewrite Hone in Hin. apply list_elem_of_singleton in Hin as ->. done.
Qed.

Lemma stepwise_app l l' : stepwise l (l ++ l').
Proof. intros r Hr. exists r. rewrite elem_of_app. auto. Qed.

Lemma frozen_app fin l l' : frozen fin l (l ++ l').
Proof. intros r Hr _. rewrite elem_of_app. auto. Qed.
End moves.

(** A primary key in the shape the schema gives it. *)
Lemma check_row_key T (r : row T) db :
  check_row T r db = None → same (key T) ∈ uniques T →
  existsb (λ x, String.eqb (key T r) (key T x)) (db T) = false.
Proof.
  intros Hc Hin. pose proof (check_row_unique _ _ _ _ Hc Hin) as H.
  apply exists_row_false with (p := λ x, String.eqb (key T r) (key T x)).
  intros x Hx. apply String.eqb_neq. rewrite exists_row_false in H. specialize (H x Hx).
  unfold same in H. by bool_to_prop.
Qed.

(** So it is found by its key once inserted, alone. *)
Lemma check_row_fresh T (r : row T) db :
  check_row T r db = None → same (key T) ∈ uniques T →
  ∀ x, x ∈ db T → by_id T (key T r) x = false.
Proof.
  intros Hc Hin x Hx. pose proof (check_row_key _ _ _ Hc Hin) as H.
  apply exists_row_false with (p := λ x, String.eqb (key T r) (key T x)) in Hx; [|done].
  unfold by_id. by rewrite String.eqb_sym.
Qed.

Lemma select_fresh T (r : row T) l :
  (∀ x, x ∈ l → by_id T (key T r) x = false) → select (by_id T (key T r)) (l ++ [r]) = [r].
Proof.
  intros H. rewrite select_app, select_none by done. simpl. unfold by_id.
  by rewrite String.eqb_refl.
Qed.

Lemma update_fresh T (r : row T) f l :
  (∀ x, x ∈ l → by_id T (key T r) x = false) →
  update_rows (by_id T (key T r)) f (l ++ [r]) = l ++ [f r].
Proof.
  intros H. rewrite update_rows_app, update_rows_none by done. simpl. unfold by_id.
  by rewrite String.eqb_refl.
Qed.

(** An update by id is admitted when the row found stays in range and refers to rows it
    referred to before or that exist. *)
Lemma check_update_by_id T id f old db :
  keys_unique T (db T) → first_where (by_id T id) (db T) = Some old →
  in_range T (f old) = true →
  Forall (λ x, x ∈ references T old ∨ key_exists db x.1 x.2 = true) (references T (f old)) →
  check_update T f db (select (by_id T id) (db T)) = None.
Proof.
  intros Hu Hold Hin Href. apply check_update_refs. intros x [Hid Hx]%elem_of_select.
  by rewrite (first_where_by_id T id _ old Hu Hold x Hx Hid).
Qed.

(** In particular when it refers to the same rows. *)
Lemma check_update_same_refs T id f old db :
  keys_unique T (db T) → first_where (by_id T id) (db T) = Some old →
  in_range T (f old) = true → references T (f old) = references T old →
  check_update T f db (select (by_id T id) (db T)) = None.
Proof.
  intros Hu Hold Hin Href. eapply check_update_by_id; [done..|]. rewrite Href.
  apply Forall_forall. intros x Hx. left. by apply list_elem_of_In.
Qed.
