(* ===== verification/Orders.v ===== *)
(** * Work orders

    [crates/mes-db/src/repo_orders.rs] (orders, operations, counts, downtime
    classification, programs) and [crates/mes-edge/src/orders.rs] (the order endpoints and
    the shared [transition_wo]). A row stands for its DTO. *)

From S2P Require Import Prelude Lifecycle Schema Sql Sample Sync Moves.
Open Scope Z_scope.

Record WoOperationInput := mkWoOperationInput {
  oi_op_no : Z;
  oi_routing_op_id : option string;
  oi_work_center_id : option string
}.

Record WorkOrderInput := mkWorkOrderInput {
  wi_wo_number : string;
  wi_part_id : string;
  wi_routing_id : option string;
  wi_qty_ordered : Decimal;
  wi_priority : option Z;
  wi_planned_start : option DateTime;
  wi_planned_end : option DateTime;
  wi_operations : list WoOperationInput
}.

Record WorkOrderDetail := mkWorkOrderDetail {
  work_order : WorkOrderRow;
  operations : list WoOperationRow
}.

Record ProgramInput := mkProgramInput {
  pgi_routing_op_id : option string;
  pgi_part_id : option string;
  pgi_program_identifier : string;
  pgi_target_machine : option string
}.

(** [ORDER BY priority, wo_number] *)
Definition wo_le (a b : WorkOrderRow) : bool :=
  if wo_priority a <? wo_priority b then true
  else if wo_priority b <? wo_priority a then false
  else bool_decide (String.le (wo_wo_number a) (wo_wo_number b)).

Section orders.
Context {env : Env}.
Abbreviation Repo := (M World RepoError).
Abbreviation Api := (M World ApiErr).

(** ** Orders and operations *)

Definition insert_operation (wo_id : string) (op : WoOperationInput) : Repo WoOperationRow :=
  id ← new_id;
  now ← gets w_now;
  map_err map_sqlx (insert Wo_operations
    (mkWoOperationRow id wo_id (oi_routing_op_id op) (oi_op_no op) (oi_work_center_id op)
       "pending" 0 0 None None now now)).

Definition order_payload (wo_id : string) (input : WorkOrderInput) : Json :=
  JObj [("id", JStr wo_id); ("part_id", JStr (wi_part_id input));
        ("planned_end", JOpt JTime (wi_planned_end input));
        ("planned_start", JOpt JTime (wi_planned_start input));
        ("priority", JInt (default 100 (wi_priority input)));
        ("qty_ordered", JDecimal (wi_qty_ordered input));
        ("routing_id", JOpt JStr (wi_routing_id input));
        ("status", JStr "draft"); ("wo_number", JStr (wi_wo_number input))]%string.

Definition create_work_order (input : WorkOrderInput) : Repo WorkOrderDetail :=
  transaction map_sqlx (
    wo_id ← new_id;
    now ← gets w_now;
    wo ← map_err map_sqlx (insert Work_orders
      (mkWorkOrderRow wo_id (wi_wo_number input) (wi_part_id input) (wi_routing_id input)
         (wi_qty_ordered input) (default 100 (wi_priority input)) "draft"
         (wi_planned_start input) (wi_planned_end input) now now None));
    operations ← mapM_list (insert_operation wo_id) (wi_operations input);
    enqueue "work_order" wo_id "upsert" (order_payload wo_id input) None ;;
    mret (mkWorkOrderDetail wo operations)).

Definition list_work_orders : Repo (list WorkOrderRow) :=
  map_err map_sqlx (query (λ db, sort_by wo_le (db Work_orders))).

Definition get_work_order (id : string) : Repo WorkOrderRow :=
  get_by_id Work_orders id.

Definition get_work_order_detail (id : string) : Repo WorkOrderDetail :=
  work_order ← get_work_order id;
  ops ← map_err map_sqlx (query (λ db,
    order_by op_op_no (select (λ o, String.eqb (op_work_order_id o) id) (db Wo_operations))));
  mret (mkWorkOrderDetail work_order ops).

Definition set_work_order_status (id status : string) : Repo WorkOrderRow :=
  now ← gets w_now;
  update_by_id Work_orders id
    (λ r, r <| wo_status := status |> <| wo_updated_at := now |>).

Definition get_operation (op_id : string) : Repo WoOperationRow :=
  get_by_id Wo_operations op_id.

Definition start_operation (op_id : string) : Repo WoOperationRow :=
  now ← gets w_now;
  update_by_id Wo_operations op_id
    (λ r, r <| op_status := "in_progress" |>
            <| op_started_at := Some (default now (op_started_at r)) |>
            <| op_updated_at := now |>).

Definition complete_operation (op_id : string) : Repo WoOperationRow :=
  now ← gets w_now;
  update_by_id Wo_operations op_id
    (λ r, r <| op_status := "completed" |> <| op_completed_at := Some now |>
            <| op_updated_at := now |>).

Definition record_count (op_id work_center_id : string) (good scrap : Z)
    (scrap_reason_id : option string) (ts : DateTime) : Repo WoOperationRow :=
  transaction map_sqlx (
    id ← new_id;
    now ← gets w_now;
    map_err map_sqlx (insert Production_counts
      (mkProductionCountRow id ts work_center_id None good scrap (Some op_id)
         scrap_reason_id)) ;;
    map_err map_sqlx (fetch_one (update Wo_operations (by_id Wo_operations op_id)
      (λ r, r <| op_qty_good := op_qty_good r + good |>
              <| op_qty_scrap := op_qty_scrap r + scrap |> <| op_updated_at := now |>)))).

(** ** Downtime classification and split *)

Definition get_downtime_event (id : string) : Repo DowntimeRow :=
  get_by_id Downtime_events id.

Definition classify_downtime (id reason_id classified_by : string) : Repo DowntimeRow :=
  now ← gets w_now;
  update_by_id Downtime_events id
    (λ r, r <| de_reason_id := Some reason_id |> <| de_classified_by := Some classified_by |>
            <| de_classified_at := Some now |>).

(** The [SET] of the update that shrinks the original to [[start, at]]. *)
Definition shrink_downtime (at_ : DateTime) (first_reason : option string)
    (classified_by : string) (now : DateTime) (r : DowntimeRow) : DowntimeRow :=
  r <| de_end_ts := at_ |> <| de_reason_id := first_reason |>
    <| de_classified_by := match first_reason with
                           | None => de_classified_by r
                           | Some _ => Some classified_by end |>
    <| de_classified_at := match first_reason with
                           | None => de_classified_at r
                           | Some _ => Some now end |>.

Definition split_downtime (id : string) (at_ : DateTime)
    (first_reason second_reason : option string) (classified_by : string) :
    Repo (DowntimeRow * DowntimeRow) :=
  transaction map_sqlx (
    original ← get_downtime_event id;
    throw_if ((at_ <=? de_start_ts original) || (de_end_ts original <=? at_))
      (Conflict "split point must lie strictly inside the event") ;;
    now ← gets w_now;
    first ← map_err map_sqlx (fetch_one (update Downtime_events (by_id Downtime_events id)
      (shrink_downtime at_ first_reason classified_by now)));
    nid ← new_id;
    second ← map_err map_sqlx (insert Downtime_events
      (mkDowntimeRow nid (de_work_center_id original) (de_state original) at_
         (de_end_ts original) second_reason
         (match second_reason with None => None | Some _ => Some classified_by end)
         (match second_reason with None => None | Some _ => Some now end)));
    mret (first, second)).

(** ** Reasons and programs *)

Definition create_downtime_reason (code label : string) : Repo string :=
  rid ← new_id;
  map_err map_sqlx (insert Downtime_reasons (mkDowntimeReasonRow rid code label None None)) ;;
  mret rid.

Definition create_scrap_reason (code label : string) : Repo string :=
  rid ← new_id;
  map_err map_sqlx (insert Scrap_reasons (mkScrapReasonRow rid code label None)) ;;
  mret rid.

Definition create_program (input : ProgramInput) : Repo ProgramRow :=
  id ← new_id;
  now ← gets w_now;
  map_err map_sqlx (insert Programs
    (mkProgramRow id (pgi_routing_op_id input) (pgi_part_id input)
       (pgi_program_identifier input) (pgi_target_machine input) now now)).

Definition list_programs : Repo (list ProgramRow) :=
  map_err map_sqlx (query (λ db,
    sort_by (λ a b, bool_decide (String.le (pg_program_identifier a) (pg_program_identifier b)))
      (db Programs))).

(** ** Endpoints *)

(** The [MasterWriter] extractor over an authenticated caller. *)
Definition master_writer (auth : AuthUser) : Api AuthUser :=
  if can_write_master (role auth) then mret auth
  else throw (err 403 "forbidden" "role may not modify master data").

Definition create_order (auth : AuthUser) (input : WorkOrderInput) : Api WorkOrderDetail :=
  actor ← master_writer auth;
  require_pool ;;
  detail ← map_err repo_err (create_work_order input);
  audit (Some (user_id actor)) "create" "work_order" (Some (wo_id (work_order detail))) None ;;
  mret detail.

Definition list_orders (auth : AuthUser) : Api (list WorkOrderRow) :=
  require_pool ;; map_err repo_err list_work_orders.

Definition get_order (auth : AuthUser) (id : string) : Api WorkOrderDetail :=
  require_pool ;; map_err repo_err (get_work_order_detail id).

Definition transition_wo (actor_id id : string) (target : WoStatus.t) : Api WorkOrderRow :=
  require_pool ;;
  wo ← map_err repo_err (get_work_order id);
  current ← ok_or (WoStatus.parse (wo_status wo))
    (err 500 "internal" "unknown stored status");
  throw_if (negb (WoStatus.can_transition current target))
    (err 409 "invalid_transition"
      (String.append "cannot move work order from " (String.append (WoStatus.as_str current)
        (String.append " to " (WoStatus.as_str target))))) ;;
  updated ← map_err repo_err (set_work_order_status id (WoStatus.as_str target));
  audit (Some actor_id) "status" "work_order" (Some id)
    (Some (JObj [("status"%string, JStr (WoStatus.as_str target))])) ;;
  publish (WorkOrderStatusChanged id (WoStatus.as_str target)) ;;
  mret updated.

Definition release_order (auth : AuthUser) (id : string) : Api WorkOrderRow :=
  actor ← master_writer auth; transition_wo (user_id actor) id WoStatus.Released.

Definition cancel_order (auth : AuthUser) (id : string) : Api WorkOrderRow :=
  actor ← master_writer auth; transition_wo (user_id actor) id WoStatus.Cancelled.

Definition close_order (auth : AuthUser) (id : string) : Api WorkOrderRow :=
  actor ← master_writer auth; transition_wo (user_id actor) id WoStatus.Closed.
End orders.

(** ** Lemmas *)

Definition op_content (r : WoOperationRow) :=
  (op_work_order_id r, op_routing_op_id r, op_op_no r, op_work_center_id r, op_status r,
   op_qty_good r, op_qty_scrap r, op_started_at r, op_completed_at r).

Definition op_input_content (wo_id : string) (i : WoOperationInput) :=
  (wo_id, oi_routing_op_id i, oi_op_no i, oi_work_center_id i, "pending"%string, 0, 0,
   @None DateTime, @None DateTime).

Section order_proofs.
Context {env : Env}.

Lemma insert_operation_appends wo_id op w w' r :
  insert_operation wo_id op w = (Ok r, w') →
  op_content r = op_input_content wo_id op ∧ appends Wo_operations [r] w w'.
Proof.
  unfold insert_operation. intros (id & w1 & [-> ->]%new_id_Ok & H)%bind_Ok.
  apply bind_Ok in H as (now & w2 & [-> ->]%gets_Ok & H%map_err_Ok).
  apply (insert_appends Wo_operations) in H as [-> H]. split; [done|exact H].
Qed.

Lemma order_payload_decodes {text : WireText} id input :
  in_i32 (default 100 (wi_priority input)) = true →
  wo_payload_of_json (order_payload id input) =
    Some (mkWoPayload id (wi_wo_number input) (wi_part_id input) (wi_routing_id input)
      (wi_qty_ordered input) (default 100 (wi_priority input)) "draft"
      (wi_planned_start input) (wi_planned_end input)).
Proof.
  intros Hp. unfold wo_payload_of_json, required, defaulted, optional, field. simpl.
  rewrite Hp. simpl. destruct (wi_routing_id input), (wi_planned_start input),
    (wi_planned_end input); done.
Qed.

(** The draft an input asks for. *)
Definition order_row (id : string) (now : DateTime) (input : WorkOrderInput) : WorkOrderRow :=
  {| wo_id := id; wo_wo_number := wi_wo_number input; wo_part_id := wi_part_id input;
     wo_routing_id := wi_routing_id input; wo_qty_ordered := wi_qty_ordered input;
     wo_priority := default 100 (wi_priority input); wo_status := "draft";
     wo_planned_start := wi_planned_start input; wo_planned_end := wi_planned_end input;
     wo_created_at := now; wo_updated_at := now; wo_plant_id := None |}.

(** What a successful creation has added. *)
Definition order_created (input : WorkOrderInput) (d : WorkOrderDetail) (w w' : World) :
    Prop :=
  let wo := work_order d in
  w_db w' Work_orders = w_db w Work_orders ++ [wo] ∧
  w_db w' Wo_operations = w_db w Wo_operations ++ operations d ∧
  (∃ ob, w_db w' Outbox = w_db w Outbox ++ [ob] ∧
     ob_destination ob = None ∧ ob_synced_at ob = None ∧ describes ob wo) ∧
  (∀ t, t ≠ Work_orders → t ≠ Wo_operations → t ≠ Outbox → w_db w' t = w_db w t) ∧
  wo = order_row (wo_id wo) (w_now w) input ∧
  map op_content (operations d) = map (op_input_content (wo_id wo)) (wi_operations input).

Lemma create_work_order_Ok input d w w' :
  create_work_order input w = (Ok d, w') → order_created input d w w'.
Proof.
  unfold create_work_order, enqueue. intros H. minv.
  match goal with H : mapM_list _ _ _ = _ |- _ =>
    apply (mapM_appends Wo_operations op_content (op_input_content (ulid (w_next w)))) in H
      as [Hops [Eo Fo]]; [|intros; by apply insert_operation_appends] end.
  match goal with H : check_row Work_orders _ _ = None |- _ =>
    apply check_row_range in H; rename H into Hpr end.
  unfold order_created. simpl in *. split_and!; try done.
  - rewrite set_table_ne by done. by rewrite Fo.
  - eexists. split; [rewrite set_table_eq, (Fo Outbox) by done; reflexivity|]. split_and!; [done..|].
    unfold describes. simpl. split_and!; [done..|]. intros ?. by apply order_payload_decodes.
  - intros t H1' H2' H3'. rewrite set_table_ne by congruence. rewrite Fo by done. simpl.
    by apply set_table_ne.
Qed.

Lemma atomic_transition_wo actor id target : atomic (transition_wo actor id target).
Proof.
  unfold transition_wo, get_work_order, set_work_order_status, audit.
  apply atomic_bind_reads; [evolve|]. intros _.
  apply atomic_bind_reads; [evolve|]. intros wo.
  apply atomic_bind_reads; [evolve|]. intros current.
  apply atomic_bind_reads; [evolve|]. intros _.
  apply atomic_bind_total; [|eauto 20 with atomic].
  apply atomic_map_err, atomic_bind_reads; [evolve|]. eauto with atomic.
Qed.

Definition with_status (status : string) (now : DateTime) (r : WorkOrderRow) : WorkOrderRow :=
  r <| wo_status := status |> <| wo_updated_at := now |>.

(** What a successful transition has done. *)
Definition transitioned (id : string) (target : WoStatus.t) (r : WorkOrderRow)
    (w w' : World) : Prop :=
  (∃ old cur, first_where (by_id Work_orders id) (w_db w Work_orders) = Some old ∧
     WoStatus.parse (wo_status old) = Some cur ∧
     WoStatus.can_transition cur target = true ∧
     r = with_status (WoStatus.as_str target) (w_now w) old) ∧
  w_db w' Work_orders = update_rows (by_id Work_orders id)
    (with_status (WoStatus.as_str target) (w_now w)) (w_db w Work_orders) ∧
  (∀ t, t ≠ Work_orders → t ≠ Audit_log → w_db w' t = w_db w t) ∧
  w_events w' = w_events w ++ [WorkOrderStatusChanged id (WoStatus.as_str target)].

Lemma transition_wo_Ok actor id target r w w' :
  transition_wo actor id target w = (Ok r, w') → transitioned id target r w w'.
Proof.
  unfold transition_wo, get_work_order, set_work_order_status, audit. intros H. minv.
  match goal with |- context [insert_audit ?a ?b ?c ?d ?e ?v] =>
    destruct (insert_audit_frame a b c d e v) as (F & Ev & _) end.
  bool_to_prop. unfold transitioned. simpl in *. split_and!.
  - simplify_eq. eauto 10.
  - by rewrite F.
  - intros t H1' H2'. rewrite F by done. simpl. by apply set_table_ne.
  - by rewrite Ev.
Qed.

(** *** Counts *)

Definition add_counts (good scrap : Z) (now : DateTime) (r : WoOperationRow) : WoOperationRow :=
  r <| op_qty_good := op_qty_good r + good |> <| op_qty_scrap := op_qty_scrap r + scrap |>
    <| op_updated_at := now |>.

Lemma record_count_Ok op_id wc good scrap reason ts r w w' :
  record_count op_id wc good scrap reason ts w = (Ok r, w') →
  (∃ old, first_where (by_id Wo_operations op_id) (w_db w Wo_operations) = Some old ∧
     r = add_counts good scrap (w_now w) old) ∧
  in_i32 (op_qty_good r) = true ∧ in_i32 (op_qty_scrap r) = true ∧
  w_db w' Wo_operations = update_rows (by_id Wo_operations op_id)
    (add_counts good scrap (w_now w)) (w_db w Wo_operations) ∧
  (∃ c, w_db w' Production_counts = w_db w Production_counts ++ [c] ∧
     pc_wo_operation_id c = Some op_id ∧ pc_good c = good ∧ pc_scrap c = scrap ∧
     pc_work_center_id c = wc ∧ pc_ts c = ts ∧ pc_scrap_reason_id c = reason) ∧
  ∀ t, t ≠ Wo_operations → t ≠ Production_counts → w_db w' t = w_db w t.
Proof.
  unfold record_count. intros H. minv.
  match goal with H : head (map ?f (select ?p ?l)) = Some r |- _ =>
    rename H into Hhead end.
  match goal with H : check_update Wo_operations _ _ _ = None |- _ =>
    rename H into Hcheck end.
  change (set_table Production_counts _ (w_db w) Wo_operations) with (w_db w Wo_operations)
    in *.
  apply head_map_select in Hhead as (old & Hold & ->).
  apply (check_update_range Wo_operations _ _ _ old) in Hcheck as Hrange;
    [|by apply elem_of_select, (first_where_Some (by_id Wo_operations op_id))].
  simpl in Hrange. bool_to_prop.
  split_and!; [by eauto|done|done|done| |].
  - eexists. split; [reflexivity|]. done.
  - intros t H1' H2'. rewrite !set_table_ne by congruence. done.
Qed.

(** *** Downtime *)

Definition downtime_total (l : list DowntimeRow) : Duration :=
  sum_rows (λ r, de_end_ts r - de_start_ts r) l.

Lemma split_downtime_Ok id at_ r1 r2 by_ first second w w' :
  split_downtime id at_ r1 r2 by_ w = (Ok (first, second), w') →
  ∃ e f, first_where (by_id Downtime_events id) (w_db w Downtime_events) = Some e ∧
    de_start_ts e < at_ < de_end_ts e ∧ first = f e ∧
    w_db w' Downtime_events =
      update_rows (by_id Downtime_events id) f (w_db w Downtime_events) ++ [second] ∧
    (∀ t, t ≠ Downtime_events → w_db w' t = w_db w t) ∧
    (∀ x, de_id (f x) = de_id x ∧ de_work_center_id (f x) = de_work_center_id x ∧
          de_state (f x) = de_state x ∧ de_start_ts (f x) = de_start_ts x ∧
          de_end_ts (f x) = at_ ∧ de_reason_id (f x) = r1) ∧
    de_work_center_id second = de_work_center_id e ∧ de_state second = de_state e ∧
    de_start_ts second = at_ ∧ de_end_ts second = de_end_ts e ∧ de_reason_id second = r2.
Proof.
  unfold split_downtime, get_downtime_event. intros H. minv. simplify_eq. bool_to_prop.
  match goal with H : head (map _ _) = Some _ |- _ =>
    apply head_map_select in H as (old & Hold & ->) end.
  assert (old = a) as -> by (apply (inj Some); by rewrite <- Hold). simpl in *.
  exists a, (shrink_downtime at_ r1 by_ (w_now w)). split; [exact Hold|].
  split; [lia|]. split; [reflexivity|].
  split; [by rewrite set_table_eq, set_table_eq|].
  split; [intros t Ht; rewrite !set_table_ne by congruence; done|].
  split; [by intros x|done].
Qed.

(** *** Statuses *)

Definition wo_moves : relation (list (row Work_orders)) :=
  moves Work_orders wo_status WoStatus.parse WoStatus.can_transition "draft".
Definition op_moves : relation (list (row Wo_operations)) :=
  moves Wo_operations op_status OpStatus.parse OpStatus.can_transition "pending".

#[global] Instance wo_moves_preorder : PreOrder wo_moves.
Proof. exact (moves_preorder Work_orders _ _ _ _). Qed.
#[global] Instance op_moves_preorder : PreOrder op_moves.
Proof. exact (moves_preorder Wo_operations _ _ _ _). Qed.

Lemma wo_step cur target s :
  WoStatus.parse s = Some cur → WoStatus.can_transition cur target = true →
  legal WoStatus.parse WoStatus.can_transition s (WoStatus.as_str target).
Proof. intros Hp Ht. exists cur, target. by rewrite parse_as_str. Qed.

Lemma transition_wo_moves actor id target :
  table_evolves Work_orders wo_moves (transition_wo actor id target).
Proof.
  intros w. destruct (transition_wo actor id target w) as [[r|e] w'] eqn:E;
    unfold on_table, state_after; rewrite E; simpl.
  - apply transition_wo_Ok in E as ((old & cur & Hold & Hp & Ht & _) & -> & _).
    eapply moves_guarded; [exact Hold|done|]. by eapply wo_step.
  - apply atomic_transition_wo in E. rewrite E. reflexivity.
Qed.

Lemma transition_wo_ops actor id target :
  table_evolves Wo_operations op_moves (transition_wo actor id target).
Proof.
  unfold transition_wo, get_work_order, set_work_order_status. evolve.
Qed.

Lemma create_work_order_moves input :
  table_evolves Work_orders wo_moves (create_work_order input).
Proof.
  unfold create_work_order, insert_operation, enqueue. apply evolves_transaction; [apply _|].
  apply evolves_bind; [apply _|evolve|]. intros id.
  apply evolves_bind; [apply _|evolve|]. intros now.
  apply evolves_bind; [apply _| |evolve].
  apply evolves_map_err, (evolves_insert Work_orders wo_moves). intros db Hc.
  apply moves_insert; [|done]. apply check_row_key in Hc; [done|]. left.
Qed.

Lemma insert_operation_moves id op :
  table_evolves Wo_operations op_moves (insert_operation id op).
Proof.
  unfold insert_operation. apply evolves_bind; [apply _|evolve|]. intros oid.
  apply evolves_bind; [apply _|evolve|]. intros now.
  apply evolves_map_err, (evolves_insert Wo_operations op_moves). intros db Hc.
  apply moves_insert; [|done]. apply check_row_key in Hc; [done|]. left.
Qed.

Lemma create_work_order_ops input :
  table_evolves Wo_operations op_moves (create_work_order input).
Proof.
  unfold create_work_order, enqueue. pose proof insert_operation_moves. evolve.
Qed.

Lemma record_count_ops op_id wc good scrap reason ts :
  table_evolves Wo_operations op_moves (record_count op_id wc good scrap reason ts).
Proof.
  unfold record_count. apply evolves_transaction; [apply _|].
  apply evolves_bind; [apply _|evolve|]. intros id.
  apply evolves_bind; [apply _|evolve|]. intros now.
  apply evolves_bind; [apply _|evolve|]. intros _.
  apply evolves_map_err, evolves_fetch_one; [apply _|].
  apply (evolves_update Wo_operations op_moves). intros l. by apply moves_same.
Qed.
End order_proofs.

(** ** Roll-up of counts

    The totals of an operation are the sums of the counts recorded against it. *)

Definition counted (v : ProductionCountRow → Z) (id : string) (db : Db) : Z :=
  sum_rows v (select (λ c, bool_decide (pc_wo_operation_id c = Some id))
                (db Production_counts)).

Definition totals_match (db : Db) : Prop :=
  ∀ o, o ∈ db Wo_operations →
    op_qty_good o = counted pc_good (op_id o) db ∧
    op_qty_scrap o = counted pc_scrap (op_id o) db.

Lemma counted_append v id db db' c :
  db' Production_counts = db Production_counts ++ [c] →
  counted v id db' =
  counted v id db + if bool_decide (pc_wo_operation_id c = Some id) then v c else 0.
Proof.
  intros E. unfold counted. rewrite E, select_app, sum_rows_app. simpl.
  case_bool_decide; simpl; lia.
Qed.

Section rollup.
Context {env : Env}.

Lemma totals_counted op_id good scrap now c (db db' : Db) :
  db' Wo_operations = update_rows (by_id Wo_operations op_id) (add_counts good scrap now)
    (db Wo_operations) →
  db' Production_counts = db Production_counts ++ [c] →
  pc_wo_operation_id c = Some op_id → pc_good c = good → pc_scrap c = scrap →
  totals_match db → totals_match db'.
Proof.
  intros Eo Ec Hc Hg Hs Ht o Ho. rewrite Eo in Ho.
  apply elem_of_update_rows in Ho as (y & Hy & ->).
  destruct (Ht y Hy) as [Hyg Hys]. rewrite !(counted_append _ _ _ _ _ Ec), Hc.
  unfold by_id. simpl. destruct (String.eqb_spec (Schema.op_id y) op_id) as [<-|Hne].
  - simpl. rewrite !bool_decide_eq_true_2 by done. lia.
  - rewrite !bool_decide_eq_false_2 by congruence. lia.
Qed.

Lemma record_count_totals op_id wc good scrap reason ts r w w' :
  record_count op_id wc good scrap reason ts w = (Ok r, w') →
  totals_match (w_db w) → totals_match (w_db w').
Proof.
  intros (_ & _ & _ & Eo & (c & Ec & Hc & Hg & Hs & _) & _)%record_count_Ok.
  by eapply totals_counted.
Qed.
End rollup.

(** ** Progress *)

Section progress.
Context {env : Env}.

Lemma transition_wo_returns actor id target old cur w :
  healthy w → w_pool w = true → keys_unique Work_orders (w_db w Work_orders) →
  first_where (by_id Work_orders id) (w_db w Work_orders) = Some old →
  in_i32 (wo_priority old) = true → WoStatus.parse (wo_status old) = Some cur →
  WoStatus.can_transition cur target = true →
  returns (transition_wo actor id target) w (λ _ _, True).
Proof.
  intros Hh Hp Hu Hold Hpr Hcur Ht. unfold transition_wo, get_work_order, set_work_order_status.
  mgo. mrow old. mgo.
  eapply returns_ok_or; [exact Hcur|]. mgo; [by rewrite Ht|].
  mrow old.
  - by apply (check_update_same_refs Work_orders id _ old).
  - mgo. apply returns_audit. intros. by mgo.
Qed.

Lemma record_count_returns op wc good scrap reason ts old w :
  healthy w → keys_unique Wo_operations (w_db w Wo_operations) →
  first_where (by_id Wo_operations op) (w_db w Wo_operations) = Some old →
  in_range Wo_operations (add_counts good scrap (w_now w) old) = true →
  check_row Production_counts (mkProductionCountRow (ulid (w_next w)) ts wc None good scrap
    (Some op) reason) (w_db w) = None →
  returns (record_count op wc good scrap reason ts) w (λ _ _, True).
Proof.
  intros Hh Hu Hold Hin Hc. unfold record_count. mgo.
  mwrite; [done|]. mgo. mwrite.
  - by apply (check_update_same_refs Wo_operations op _ old).
  - eexists. split; [|by split]. simpl. unfold first_where in Hold.
    by destruct (select _ _); simplify_eq/=.
Qed.

(** What the database must offer for an order to be created: fresh identifiers, an unused
    number, the rows it refers to, and operations numbered apart. *)
Definition op_admissible (db : Db) (op : WoOperationInput) : bool :=
  in_i32 (oi_op_no op) && present db Routing_ops (oi_routing_op_id op) &&
  present db Work_centers (oi_work_center_id op).

Definition order_admissible (input : WorkOrderInput) (w : World) : Prop :=
  healthy w ∧ Inj (=) (=) ulid ∧
  (∀ t, t ∈ [Work_orders; Wo_operations; Outbox] → ids_from t (w_next w) (w_db w)) ∧
  Forall (λ o, key_exists (w_db w) Work_orders (op_work_order_id o) = true)
    (w_db w Wo_operations) ∧
  Forall (λ r, wo_wo_number r ≠ wi_wo_number input) (w_db w Work_orders) ∧
  in_i32 (default 100 (wi_priority input)) = true ∧
  key_exists (w_db w) Parts (wi_part_id input) = true ∧
  present (w_db w) Routings (wi_routing_id input) = true ∧
  NoDup (map oi_op_no (wi_operations input)) ∧
  Forall (λ op, op_admissible (w_db w) op = true) (wi_operations input).

(** Between the operations: those to come are admissible and numbered apart. *)
Definition ops_to_come (wo_id : string) (ops : list WoOperationInput) (w : World) : Prop :=
  healthy w ∧ key_exists (w_db w) Work_orders wo_id = true ∧
  ids_from Wo_operations (w_next w) (w_db w) ∧ ids_from Outbox (w_next w) (w_db w) ∧
  NoDup (map oi_op_no ops) ∧ Forall (λ op, op_admissible (w_db w) op = true) ops ∧
  Forall (λ o, op_work_order_id o = wo_id → op_op_no o ∉ map oi_op_no ops)
    (w_db w Wo_operations).

Lemma insert_operation_returns `{!Inj (=) (=) ulid} wo_id op ops w :
  ops_to_come wo_id (op :: ops) w →
  returns (insert_operation wo_id op) w (λ _ w', ops_to_come wo_id ops w').
Proof.
  intros (Hh & Hwo & Hid & Hob & Hnd & Hadm & Hno).
  simpl in Hnd. apply list.NoDup_cons in Hnd as [Hn Hnd].
  apply Forall_cons_1 in Hadm as [Hop Hadm]. pose proof Hop as Hop'. unfold op_admissible in Hop'.
  bool_to_prop. unfold insert_operation. mgo. mwrite.
  - apply check_row_None.
    + simpl. by rewrite !andb_true_iff.
    + repeat constructor; [by apply (ids_from_fresh Wo_operations (w_next w))|].
      apply exists_row_false. intros o Ho. unfold same. simpl. apply bool_decide_eq_false.
      intros [= E1 E2]. rewrite Forall_forall in Hno.
      apply (Hno o (proj1 (list_elem_of_In _ _) Ho)); [done|]. rewrite <- E2. left.
    + simpl. constructor; [done|]. apply Forall_app. split; by apply present_refs.
  - unfold ops_to_come. simpl. split_and!; try done.
    + by eapply ids_from_append.
    + by eapply ids_from_weaken; [|exact Hob]; lia.
    + apply Forall_app. split; [|by repeat constructor].
      eapply Forall_impl; [|exact Hno]. intros o Ho E Hin. apply (Ho E). by right.
Qed.

Lemma create_work_order_returns input w :
  order_admissible input w → returns (create_work_order input) w (λ _ _, True).
Proof.
  intros (Hh & Hinj & Hids & Hrefs & Hnum & Hpr & Hpart & Hrt & Hnd & Hops).
  assert (∀ t, t ∈ [Work_orders; Wo_operations; Outbox] →
    ids_from t (S (w_next w)) (w_db w)) as Hids'.
  { intros t Ht. eapply ids_from_weaken; [|by apply Hids]; lia. }
  unfold create_work_order. mgo. mwrite.
  - apply check_row_None; [done| |].
    + repeat constructor.
      * apply (ids_from_fresh Work_orders (w_next w)); [|done]. apply Hids. left.
      * apply exists_row_false. intros r Hr. unfold same. simpl. apply bool_decide_eq_false.
        rewrite Forall_forall in Hnum. intros E. by apply (Hnum r), eq_sym;
          [apply list_elem_of_In|].
    + simpl. constructor; [done|]. by apply present_refs.
  - mgo. eapply returns_mono; [apply (returns_mapM (ops_to_come (ulid (w_next w))))|].
    + intros. by apply insert_operation_returns.
    + unfold ops_to_come. simpl. split_and!; try done.
      * apply (key_exists_inserted Work_orders).
      * apply (Hids' Wo_operations). right. left.
      * apply (Hids' Outbox). do 2 right. left.
      * eapply Forall_impl; [|exact Hrefs]. simpl. intros o Ho E. exfalso.
        unfold key_exists in Ho. apply exists_row_true in Ho as (x & Hx & Hk). bool_to_prop.
        apply (Hids Work_orders ltac:(left) x (w_next w)); [done|lia|]. congruence.
    + intros rows w' (Hh' & _ & _ & Hob & _). unfold enqueue. mgo. mwrite.
      * apply check_row_None; [done| |constructor]. repeat constructor.
        by apply (ids_from_fresh Outbox (w_next w')).
      * by mgo.
Qed.

(** An event that can be split: found under its own id, the reasons and the user known. *)
Definition splittable (id : string) (at_ : DateTime) (r1 r2 : option string) (by_ : string)
    (w : World) : Prop :=
  healthy w ∧ keys_unique Downtime_events (w_db w Downtime_events) ∧
  ids_from Downtime_events (w_next w) (w_db w) ∧
  key_exists (w_db w) Users by_ = true ∧
  present (w_db w) Downtime_reasons r1 = true ∧
  present (w_db w) Downtime_reasons r2 = true ∧
  ∃ e, first_where (by_id Downtime_events id) (w_db w Downtime_events) = Some e ∧
    de_start_ts e < at_ < de_end_ts e ∧
    key_exists (w_db w) Work_centers (de_work_center_id e) = true.

Lemma split_downtime_returns id at_ r1 r2 by_ w :
  splittable id at_ r1 r2 by_ w →
  returns (split_downtime id at_ r1 r2 by_) w (λ _ _, True).
Proof.
  intros (Hh & Hu & Hid & Hby & H1 & H2 & e & He & Hat & Hwc).
  unfold split_downtime, get_downtime_event. mgo. mrow e. mgo.
  { apply orb_false_iff. split; apply Z.leb_gt; lia. }
  mwrite.
  - apply (check_update_by_id Downtime_events id _ e); [done..|]. simpl.
    constructor; [by right|]. apply Forall_app. split.
    + eapply Forall_impl; [|by apply present_refs]. auto.
    + destruct r1; simpl; [constructor; [by right|constructor]|].
      apply Forall_forall. intros x Hx%list_elem_of_In. left. simpl. right.
      apply elem_of_app. by right.
  - exists (shrink_downtime at_ r1 by_ (w_now w) e). split.
    { unfold first_where in He. simpl. by destruct (select _ _); simplify_eq/=. }
    mgo. mwrite; [|by mgo]. apply check_row_None; [done| |].
    + repeat constructor. apply exists_row_false. simpl. intros x Hx.
      apply elem_of_update_rows in Hx as (y & Hy & ->). unfold same. simpl.
      apply bool_decide_eq_false. intros E. apply (Hid y (w_next w) Hy); [lia|].
      rewrite E. by destruct (by_id Downtime_events id y).
    + simpl. constructor; [done|]. apply Forall_app.
      split; [by apply present_refs|]. destruct r2; by repeat constructor.
Qed.
End progress.

(** ** Properties *)

Section order_properties.
Context {env : Env}.

(** C23. Creating a work order is all or nothing. On success exactly the order (a draft with
    the number, part, routing, quantity and planned dates asked for, priority 100 by default),
    its operations (pending, not started, with no counts, in the order given) and one outbox entry bound for the cloud that decodes to the
    very fields of the order are added, and they are what the call returns; on any failure,
    a lost statement included, the database is untouched. An order with an unused number,
    operations numbered apart and references to existing rows is created. *)
Theorem create_work_order_atomic input w :
  match create_work_order input w with
  | (Ok d, w') => order_created input d w w'
  | (Err _, w') => w_db w' = w_db w
  end ∧
  (order_admissible input w → is_ok (create_work_order input w).1 = true).
Proof.
  split; [|intros; by eapply returns_ok, create_work_order_returns].
  destruct (create_work_order input w) as [[d|e] w'] eqn:E.
  - by apply create_work_order_Ok.
  - by eapply atomic_transaction.
Qed.

(** C22. A status transition succeeds only along the lifecycle and does just that: the order
    is found, its stored status parses, the table allows the move; the status (and the
    update time) of that order change, an audit entry may be added and one event is
    published, nothing else changes. Otherwise nothing is written. Conversely, on a healthy
    connection an allowed transition goes through. *)
Theorem transition_wo_exact actor id target w :
  match transition_wo actor id target w with
  | (Ok r, w') => transitioned id target r w w'
  | (Err _, w') => w_db w' = w_db w
  end ∧
  ∀ old cur, healthy w → w_pool w = true → keys_unique Work_orders (w_db w Work_orders) →
    first_where (by_id Work_orders id) (w_db w Work_orders) = Some old →
    in_i32 (wo_priority old) = true → WoStatus.parse (wo_status old) = Some cur →
    WoStatus.can_transition cur target = true →
    is_ok (transition_wo actor id target w).1 = true.
Proof.
  split.
  - destruct (transition_wo actor id target w) as [[r|e] w'] eqn:E.
    + by eapply transition_wo_Ok.
    + by eapply atomic_transition_wo.
  - intros. by eapply returns_ok, transition_wo_returns.
Qed.

(** C21. Recording a count appends one production count against the operation and adds it to
    the operation's totals, both or neither: totals that would leave the 32-bit range, a
    reference that does not exist or a lost statement roll everything back. The totals of
    every operation stay equal to the sums of the counts recorded against it. A count the
    constraints admit, on an operation whose totals stay in range, is recorded. *)
Theorem record_count_exact op wc good scrap reason ts w :
  match record_count op wc good scrap reason ts w with
  | (Ok r, w') =>
      (∃ old, first_where (by_id Wo_operations op) (w_db w Wo_operations) = Some old ∧
         r = add_counts good scrap (w_now w) old) ∧
      in_i32 (op_qty_good r) = true ∧ in_i32 (op_qty_scrap r) = true ∧
      w_db w' Wo_operations = update_rows (by_id Wo_operations op)
        (add_counts good scrap (w_now w)) (w_db w Wo_operations) ∧
      (∃ c, w_db w' Production_counts = w_db w Production_counts ++ [c] ∧
         pc_wo_operation_id c = Some op ∧ pc_good c = good ∧ pc_scrap c = scrap ∧
         pc_work_center_id c = wc ∧ pc_ts c = ts ∧ pc_scrap_reason_id c = reason) ∧
      (∀ t, t ≠ Wo_operations → t ≠ Production_counts → w_db w' t = w_db w t) ∧
      (totals_match (w_db w) → totals_match (w_db w'))
  | (Err _, w') => w_db w' = w_db w
  end ∧
  ∀ old, healthy w → keys_unique Wo_operations (w_db w Wo_operations) →
    first_where (by_id Wo_operations op) (w_db w Wo_operations) = Some old →
    in_range Wo_operations (add_counts good scrap (w_now w) old) = true →
    check_row Production_counts (mkProductionCountRow (ulid (w_next w)) ts wc None good scrap
      (Some op) reason) (w_db w) = None →
    is_ok (record_count op wc good scrap reason ts w).1 = true.
Proof.
  split; [|intros; by eapply returns_ok, record_count_returns].
  destruct (record_count op wc good scrap reason ts w) as [[r|e] w'] eqn:E.
  - pose proof (record_count_totals _ _ _ _ _ _ _ _ _ E).
    apply record_count_Ok in E. naive_solver.
  - by eapply atomic_transaction.
Qed.

(** Splitting a downtime event conserves downtime: the event becomes two contiguous
    ones on the same work center with the same state, meeting at a point strictly inside it
    and carrying the two reasons; the total downtime recorded is unchanged. A split point
    outside the event, or any failure, changes nothing. Inside the event, and with known
    reasons and user, the split goes through. *)
Theorem split_downtime_conserves id at_ r1 r2 by_ w :
  match split_downtime id at_ r1 r2 by_ w with
  | (Ok (first, second), w') =>
      (∃ e, first_where (by_id Downtime_events id) (w_db w Downtime_events) = Some e ∧
         de_start_ts first = de_start_ts e ∧ de_end_ts first = at_ ∧
         de_start_ts second = at_ ∧ de_end_ts second = de_end_ts e ∧
         de_start_ts e < at_ < de_end_ts e ∧
         de_work_center_id first = de_work_center_id e ∧
         de_work_center_id second = de_work_center_id e ∧
         de_state first = de_state e ∧ de_state second = de_state e ∧
         de_reason_id first = r1 ∧ de_reason_id second = r2) ∧
      (keys_unique Downtime_events (w_db w Downtime_events) →
       downtime_total (w_db w' Downtime_events) = downtime_total (w_db w Downtime_events)) ∧
      ∀ t, t ≠ Downtime_events → w_db w' t = w_db w t
  | (Err _, w') => w_db w' = w_db w
  end ∧
  (splittable id at_ r1 r2 by_ w → is_ok (split_downtime id at_ r1 r2 by_ w).1 = true).
Proof.
  split; [|intros; by eapply returns_ok, split_downtime_returns].
  destruct (split_downtime id at_ r1 r2 by_ w) as [[[first second]|e] w'] eqn:E.
  - apply split_downtime_Ok in E as
      (e & f & He & Hat & -> & Et & Ft & Hf & Hw & Hs & Hst & Hen & Hr).
    destruct (Hf e) as (_ & Hfw & Hfs & Hfst & Hfen & Hfr).
    split; [exists e; split_and!; try done; lia|]. split; [|done].
    intros Hu. unfold downtime_total. rewrite Et, sum_rows_app.
    rewrite (sum_update_by_id Downtime_events _ _ _ _ _ Hu He).
    rewrite Hfst, Hfen. simpl. rewrite Hst, Hen. lia.
  - by eapply atomic_transaction.
Qed.
End order_properties.

(** ** The properties on a concrete plant *)

#[local] Existing Instance sample_env.

Definition sample_order : WorkOrderInput :=
  mkWorkOrderInput "WO-1" "p1" (Some "r1"%string) (10 * 10 ^ 28) None None None
    [mkWoOperationInput 10 (Some "ro1"%string) (Some "wc1"%string);
     mkWoOperationInput 20 (Some "ro2"%string) (Some "wc1"%string)].

(** The plant with one order of one operation, in the given statuses, and one downtime. *)
Definition floor_db (order operation : string) : Db :=
  set_table Work_orders [mkWorkOrderRow "wo1" "WO-1" "p1" None (10 ^ 28) 100 order None None
                           0 0 None] (
  set_table Wo_operations [mkWoOperationRow "op1" "wo1" (Some "ro1"%string) 10
                             (Some "wc1"%string) operation 5 1 None None 0 0] (
  set_table Downtime_events [mkDowntimeRow "de1" "wc1" "down" 0 (seconds 100) None None None]
    plant_db)).

Lemma create_work_order_atomic_witness :
  order_admissible sample_order plant ∧ is_ok (create_work_order sample_order plant).1 = true.
Proof.
  assert (order_admissible sample_order plant) as H.
  { split_and!; [done|apply sample_ulid_inj| |by repeat constructor..| |].
    - intros t _. apply no_ulids_ids_from. by destruct t.
    - evaluate_prop.
    - by repeat constructor. }
  split; [done|]. by apply create_work_order_atomic.
Defined.

Lemma transition_wo_exact_witness :
  is_ok (transition_wo "u1" "wo1" WoStatus.InProgress
    (world_of (floor_db "released" "pending"))).1 = true.
Proof.
  eapply (proj2 (transition_wo_exact "u1" "wo1" WoStatus.InProgress _));
    [done|done|evaluate_prop|done|done|done|done].
Defined.

Lemma record_count_exact_witness :
  is_ok (record_count "op1" "wc1" 3 1 (Some "sr1"%string) (seconds 50)
    (world_of (floor_db "in_progress" "in_progress"))).1 = true.
Proof.
  eapply (proj2 (record_count_exact "op1" "wc1" 3 1 (Some "sr1"%string) (seconds 50) _));
    [done|evaluate_prop|done|done|done].
Defined.

Lemma split_downtime_conserves_witness :
  let w := world_of (floor_db "in_progress" "in_progress") in
  splittable "de1" (seconds 40) (Some "dr1"%string) None "u1" w ∧
  is_ok (split_downtime "de1" (seconds 40) (Some "dr1"%string) None "u1" w).1 = true.
Proof.
  cbv zeta. assert (splittable "de1" (seconds 40) (Some "dr1"%string) None "u1"
    (world_of (floor_db "in_progress" "in_progress"))) as H.
  { split_and!; [done|evaluate_prop|by apply no_ulids_ids_from|done..|].
    eexists. by split_and!. }
  split; [done|]. by apply split_downtime_conserves.
Defined.
