(* ===== verification/Dnc.v ===== *)
(** * DNC transfers and program revisions

    [crates/mes-dnc-bridge/src/client.rs], [crates/mes-db/src/repo_dnc.rs] and
    [crates/mes-edge/src/dnc.rs]: the three daemon connections, program resolution for the
    next operation, transfer scheduling, daemon events, and the review of draft
    revisions. *)

From stdpp Require Import pretty.
From S2P Require Import Prelude Lifecycle Schema Sql Sample Moves.

(** ** The daemon connection *)

Inductive DncBridgeError := Transport (e : string) | Protocol (e : string).

(** [#[error("dnc-daemon transport error: {0}")]] and its protocol sibling. *)
Definition bridge_message (e : DncBridgeError) : string :=
  match e with
  | Transport m => String.append "dnc-daemon transport error: " m
  | Protocol m => String.append "dnc-daemon protocol error: " m
  end.

(** [AtomicU64::fetch_add] wraps around. *)
Definition bump (counter : Z) : Z := (counter + 1) mod 2 ^ 64.

(** [DncDaemon::send] of the three implementations. *)
Definition daemon_send (cmd : DncCommand) (d : DncDaemon) :
    Result string DncBridgeError * DncDaemon :=
  match d with
  | VirtualDaemon sent counter =>
      (Ok (String.append "sim-" (pretty counter)),
       VirtualDaemon (sent ++ [cmd]) (bump counter))
  | DisconnectedDaemon =>
      (Err (Transport "dnc-daemon not configured"), DisconnectedDaemon)
  | TcpDncClient outcomes counter =>
      match outcomes with
      | Some e :: rest => (Err (Transport e), TcpDncClient rest counter)
      | None :: rest =>
          (Ok (String.append "tcp-" (pretty counter)), TcpDncClient rest (bump counter))
      | [] => (Ok (String.append "tcp-" (pretty counter)), TcpDncClient [] (bump counter))
      end
  end.

Definition dnc_send (cmd : DncCommand) : M World DncBridgeError string := λ w,
  let '(r, d) := daemon_send cmd (w_dnc w) in (r, w <| w_dnc := d |>).

Record NextTransfer := mkNextTransfer {
  nt_next_op_id : string;
  nt_program_id : string;
  nt_program_identifier : string;
  nt_target_machine : option string
}.

Record ManualTransferInput := mkManualTransferInput {
  mi_program_id : string;
  mi_machine : option string;
  mi_wo_operation_id : option string
}.

Section dnc.
Context {env : Env}.
Abbreviation Repo := (M World RepoError).
Abbreviation Api := (M World ApiErr).

(** ** Program resolution *)

Definition next_pending (work_order_id : string) (op_no : Z) (db : Db) :
    list WoOperationRow :=
  order_by op_op_no (select (λ o,
    String.eqb (op_work_order_id o) work_order_id && (op_no <? op_op_no o) &&
    String.eqb (op_status o) "pending") (db Wo_operations)).

(** [ORDER BY (p.routing_op_id IS NOT DISTINCT FROM $2) DESC]: programs of the routing
    operation first. *)
Definition prefer_routing (routing_op : option string) (p : ProgramRow) : bool :=
  bool_decide (pg_routing_op_id p = routing_op).

(** [(p.routing_op_id = $2) OR (p.part_id = wo.part_id)], over the join with the order. *)
Definition eligible (work_order_id : string) (routing_op : option string) (db : Db)
    (p : ProgramRow) : bool :=
  exists_row (λ wo, String.eqb (wo_id wo) work_order_id &&
    ((bool_decide (is_Some routing_op) && bool_decide (pg_routing_op_id p = routing_op)) ||
     bool_decide (pg_part_id p = Some (wo_part_id wo)))) (db Work_orders).

Definition eligible_programs (work_order_id : string) (routing_op : option string) (db : Db) :
    list ProgramRow :=
  sort_by (λ a b, prefer_routing routing_op a || negb (prefer_routing routing_op b))
    (select (eligible work_order_id routing_op db) (db Programs)).

Definition resolve_next_transfer (completed_op_id : string) : Repo (option NextTransfer) :=
  op ← map_err map_sqlx (fetch_optional
    (fetch Wo_operations (by_id Wo_operations completed_op_id)));
  match op with
  | None => mret None
  | Some op =>
      next ← map_err map_sqlx (fetch_optional
        (query (next_pending (op_work_order_id op) (op_op_no op))));
      match next with
      | None => mret None
      | Some next =>
          program ← map_err map_sqlx (fetch_optional
            (query (eligible_programs (op_work_order_id op) (op_routing_op_id next))));
          mret ((λ p, mkNextTransfer (op_id next) (pg_id p) (pg_program_identifier p)
                        (pg_target_machine p)) <$> program)
      end
  end.

Definition program_dispatch_info (program_id : string) :
    Repo (option (string * option string)) :=
  row ← map_err map_sqlx (fetch_optional (fetch Programs (by_id Programs program_id)));
  mret ((λ p, (pg_program_identifier p, pg_target_machine p)) <$> row).

Definition find_program_id_by_identifier (identifier : string) : Repo (option string) :=
  row ← map_err map_sqlx (fetch_optional (query (λ db,
    order_by_desc pg_created_at
      (select (λ p, String.eqb (pg_program_identifier p) identifier) (db Programs)))));
  mret (pg_id <$> row).

(** ** Transfer events *)

Definition create_transfer (wo_operation_id : option string) (program_id direction : string)
    (dnc_daemon_ref : option string) : Repo TransferRow :=
  id ← new_id;
  now ← gets w_now;
  map_err map_sqlx (insert Dnc_transfer_events
    (mkTransferRow id wo_operation_id program_id direction "scheduled" dnc_daemon_ref now
       None now now)).

Definition get_transfer (id : string) : Repo TransferRow :=
  get_by_id Dnc_transfer_events id.

Definition list_transfers : Repo (list TransferRow) :=
  map_err map_sqlx (query (λ db, order_by_desc tr_triggered_at (db Dnc_transfer_events))).

(** [status NOT IN ('completed', 'failed')] *)
Definition is_open (t : TransferRow) : bool :=
  negb (String.eqb (tr_status t) "completed" || String.eqb (tr_status t) "failed").

Definition find_open_transfer_by_ref (dnc_daemon_ref : string) : Repo (option TransferRow) :=
  map_err map_sqlx (fetch_optional (query (λ db,
    order_by_desc tr_triggered_at
      (select (λ t, bool_decide (tr_dnc_daemon_ref t = Some dnc_daemon_ref) && is_open t)
        (db Dnc_transfer_events))))).

Definition set_transfer (status : string) (now : DateTime) (r : TransferRow) : TransferRow :=
  let terminal := String.eqb status "completed" || String.eqb status "failed" in
  r <| tr_status := status |>
    <| tr_completed_at := if terminal then Some now else tr_completed_at r |>
    <| tr_updated_at := now |>.

Definition set_transfer_status (id status : string) : Repo TransferRow :=
  now ← gets w_now;
  update_by_id Dnc_transfer_events id (set_transfer status now).

(** ** Program revisions *)

(** [COALESCE(MAX(revision_no), 0) + 1] of the program *)
Definition next_revision_no (program_id : string) (db : Db) : Z :=
  match map rv_revision_no
          (select (λ r, String.eqb (rv_program_id r) program_id) (db Program_revisions)) with
  | [] => 1
  | n :: ns => foldr Z.max n ns + 1
  end.

Definition draft_revision (id program_id source : string) (content_ref submitted_by : option string)
    (now : DateTime) (db : Db) : RevisionRow :=
  mkRevisionRow id program_id (next_revision_no program_id db) source content_ref "draft"
    submitted_by now None None now now.

(** One [INSERT] whose revision number is computed by a subquery. *)
Definition create_draft_revision (program_id source : string)
    (content_ref submitted_by : option string) : Repo RevisionRow :=
  id ← new_id;
  now ← gets w_now;
  map_err map_sqlx (statement (λ db,
    let r := draft_revision id program_id source content_ref submitted_by now db in
    match check_row Program_revisions r db with
    | Some e => Err e
    | None => Ok (r, set_table Program_revisions (db Program_revisions ++ [r]) db)
    end)).

Definition get_revision (id : string) : Repo RevisionRow := get_by_id Program_revisions id.

Definition list_revisions : Repo (list RevisionRow) :=
  map_err map_sqlx (query (λ db, order_by_desc rv_submitted_at (db Program_revisions))).

Definition set_revision_status (id status actor : string) : Repo RevisionRow :=
  now ← gets w_now;
  update_by_id Program_revisions id
    (λ r, r <| rv_status := status |> <| rv_promoted_by := Some actor |>
            <| rv_promoted_at := Some now |> <| rv_updated_at := now |>).

(** ** Orchestration *)

Definition schedule_transfer (program_id program_identifier : string)
    (machine wo_operation_id : option string) : Api TransferRow :=
  require_pool ;;
  daemon_ref ← map_err (λ e, err 502 "dnc_unavailable"
      (String.append "dnc-daemon rejected the command: " (bridge_message e)))
    (dnc_send (SendProgram program_identifier machine));
  transfer ← map_err repo_err (create_transfer wo_operation_id program_id
    (TransferDirection.as_str TransferDirection.ToMachine) (Some daemon_ref));
  publish (DncTransferScheduled (tr_id transfer) program_id program_identifier
             wo_operation_id) ;;
  mret transfer.

(** Errors of the resolution and of the scheduling are logged and dropped. *)
Definition on_job_complete (completed_op_id : string) : Api unit := λ w,
  if negb (w_pool w) then (Ok tt, w)
  else match resolve_next_transfer completed_op_id w with
       | (Ok (Some next), w') =>
           best_effort (schedule_transfer (nt_program_id next) (nt_program_identifier next)
             (nt_target_machine next) (Some (nt_next_op_id next))) w'
       | (_, w') => (Ok tt, w')
       end.

Definition handle_daemon_event (event : DncEvent) : Api unit :=
  require_pool ;;
  match event with
  | TransferCompleted reference =>
      o ← map_err repo_err (find_open_transfer_by_ref reference);
      match o with
      | Some t =>
          map_err repo_err (set_transfer_status (tr_id t)
            (TransferStatus.as_str TransferStatus.Completed)) ;;
          publish (DncTransferCompleted (tr_id t))
      | None => mret tt
      end
  | TransferFailed reference _ =>
      o ← map_err repo_err (find_open_transfer_by_ref reference);
      match o with
      | Some t =>
          map_err repo_err (set_transfer_status (tr_id t)
            (TransferStatus.as_str TransferStatus.Failed)) ;;
          mret tt
      | None => mret tt
      end
  | ProgramReceived program content_ref =>
      o ← map_err repo_err (find_program_id_by_identifier program);
      match o with
      | Some program_id =>
          rev ← map_err repo_err
            (create_draft_revision program_id "operator_edit" content_ref None);
          publish (ProgramRevisionDrafted (rv_id rev) program_id)
      | None => mret tt
      end
  end.

(** ** Endpoints *)

Definition get_transfers (auth : AuthUser) : Api (list TransferRow) :=
  require_pool ;; map_err repo_err list_transfers.

Definition manual_transfer (auth : AuthUser) (input : ManualTransferInput) : Api TransferRow :=
  require_pool ;;
  info ← map_err repo_err (program_dispatch_info (mi_program_id input));
  '(identifier, machine) ← ok_or info (err 404 "not_found" "program not found");
  let machine := match mi_machine input with Some m => Some m | None => machine end in
  schedule_transfer (mi_program_id input) identifier machine (mi_wo_operation_id input).

Definition retry_transfer (auth : AuthUser) (id : string) : Api TransferRow :=
  require_pool ;;
  existing ← map_err repo_err (get_transfer id);
  info ← map_err repo_err (program_dispatch_info (tr_program_id existing));
  '(identifier, machine) ← ok_or info (err 404 "not_found" "program not found");
  schedule_transfer (tr_program_id existing) identifier machine (tr_wo_operation_id existing).

Definition get_revisions (auth : AuthUser) : Api (list RevisionRow) :=
  require_pool ;; map_err repo_err list_revisions.

Definition transition_revision (auth : AuthUser) (id : string) (target : RevisionStatus.t) :
    Api RevisionRow :=
  throw_if (negb (can_promote_revision (role auth)))
    (err 403 "forbidden" "role may not review program revisions") ;;
  require_pool ;;
  rev ← map_err repo_err (get_revision id);
  current ← ok_or (RevisionStatus.parse (rv_status rev)) (err 500 "internal" "bad status");
  throw_if (negb (RevisionStatus.can_transition current target))
    (err 409 "invalid_transition"
      (String.append "revision cannot move from " (String.append
        (RevisionStatus.as_str current) (String.append " to "
          (RevisionStatus.as_str target))))) ;;
  updated ← map_err repo_err
    (set_revision_status id (RevisionStatus.as_str target) (user_id auth));
  audit (Some (user_id auth)) (RevisionStatus.as_str target) "program_revision" (Some id)
    None ;;
  mret updated.

Definition promote_revision (auth : AuthUser) (id : string) : Api RevisionRow :=
  transition_revision auth id RevisionStatus.Promoted.

Definition reject_revision (auth : AuthUser) (id : string) : Api RevisionRow :=
  transition_revision auth id RevisionStatus.Rejected.

Definition inject_daemon_event (auth : AuthUser) (event : DncEvent) : Api unit :=
  handle_daemon_event event.
End dnc.

(** ** Lemmas *)

Lemma eligible_programs_sorted wo ro db :
  StronglySorted (λ a b, prefer_routing ro b = true → prefer_routing ro a = true)
    (eligible_programs wo ro db).
Proof.
  eapply StronglySorted_impl; [|apply sort_by_sorted]; simpl; intros *;
    repeat match goal with |- context [prefer_routing ro ?p] =>
      destruct (prefer_routing ro p) end; naive_solver.
Qed.

Lemma foldr_max_bound n ns m : m ∈ n :: ns → m <= foldr Z.max n ns.
Proof.
  induction ns as [|x ns IH]; simpl.
  - intros ->%list_elem_of_singleton. lia.
  - intros H. apply elem_of_cons in H as [->|[->|H]%elem_of_cons]; [|lia|].
    + specialize (IH ltac:(left)). lia.
    + specialize (IH ltac:(by right)). lia.
Qed.

Lemma next_revision_no_above program db r :
  r ∈ db Program_revisions → rv_program_id r = program →
  rv_revision_no r < next_revision_no program db.
Proof.
  intros Hr <-. unfold next_revision_no.
  assert (rv_revision_no r ∈ map rv_revision_no
    (select (λ x, String.eqb (rv_program_id x) (rv_program_id r)) (db Program_revisions)))
    as Hin.
  { apply list_elem_of_fmap. exists r. split; [done|]. apply elem_of_select.
    by rewrite String.eqb_eq. }
  destruct (map _ _) as [|n ns]; [by apply elem_of_nil in Hin|].
  apply foldr_max_bound in Hin. lia.
Qed.

Definition transfer_moves : relation (list (row Dnc_transfer_events)) :=
  moves Dnc_transfer_events tr_status TransferStatus.parse TransferStatus.can_transition
    "scheduled".
Definition revision_moves : relation (list (row Program_revisions)) :=
  moves Program_revisions rv_status RevisionStatus.parse RevisionStatus.can_transition
    "draft".

#[global] Instance transfer_moves_preorder : PreOrder transfer_moves.
Proof. exact (moves_preorder Dnc_transfer_events _ _ _ _). Qed.
#[global] Instance revision_moves_preorder : PreOrder revision_moves.
Proof. exact (moves_preorder Program_revisions _ _ _ _). Qed.

Section dnc_proofs.
Context {env : Env}.

Lemma find_open_transfer_Ok ref o w w' :
  find_open_transfer_by_ref ref w = (Ok o, w') →
  w' = tick w ∧
  match o with
  | Some t => t ∈ w_db w Dnc_transfer_events ∧ tr_dnc_daemon_ref t = Some ref ∧
      is_open t = true ∧
      ∀ u, u ∈ w_db w Dnc_transfer_events → tr_dnc_daemon_ref u = Some ref →
        is_open u = true → tr_triggered_at u <= tr_triggered_at t
  | None => ∀ u, u ∈ w_db w Dnc_transfer_events → tr_dnc_daemon_ref u = Some ref →
      is_open u = false
  end.
Proof.
  unfold find_open_transfer_by_ref. intros H. minv. split; [done|].
  set (p := λ t, bool_decide (tr_dnc_daemon_ref t = Some ref) && is_open t).
  set (l := select p (w_db w Dnc_transfer_events)).
  assert (∀ u, u ∈ w_db w Dnc_transfer_events → tr_dnc_daemon_ref u = Some ref →
    is_open u = true → u ∈ order_by_desc tr_triggered_at l) as Hin.
  { intros u Hu Hr Ho. apply elem_of_sort_by, elem_of_select. split; [|done].
    unfold p. by rewrite Ho, bool_decide_eq_true_2. }
  destruct (head (order_by_desc tr_triggered_at l)) as [t|] eqn:E.
  - pose proof (head_elem _ _ E) as Ht.
    apply elem_of_sort_by, elem_of_select in Ht as [Hp Ht]. unfold p in Hp. bool_to_prop.
    split_and!; [done..|]. intros u Hu Hr Ho.
    refine (sorted_head (λ a b, tr_triggered_at b <= tr_triggered_at a) _ _ _ _ _ E (Hin u Hu Hr Ho)).
    + intros x. lia.
    + apply order_by_desc_sorted.
  - intros u Hu Hr. destruct (is_open u) eqn:Ho; [|done].
    specialize (Hin u Hu Hr Ho). destruct (order_by_desc _ l); simplify_eq/=.
    by apply elem_of_nil in Hin.
Qed.

Lemma set_transfer_status_Ok id status r w w' :
  set_transfer_status id status w = (Ok r, w') →
  (∃ old, first_where (by_id Dnc_transfer_events id) (w_db w Dnc_transfer_events) = Some old ∧
     r = set_transfer status (w_now w) old) ∧
  w' = (tick w) <| w_db := set_table Dnc_transfer_events
    (update_rows (by_id Dnc_transfer_events id) (set_transfer status (w_now w))
      (w_db w Dnc_transfer_events)) (w_db w) |>.
Proof. unfold set_transfer_status. intros H. minv. split; [eauto|done]. Qed.

Lemma create_draft_revision_Ok program source content by_ r w w' :
  create_draft_revision program source content by_ w = (Ok r, w') →
  r = draft_revision (ulid (w_next w)) program source content by_ (w_now w) (w_db w) ∧
  check_row Program_revisions r (w_db w) = None ∧
  appends Program_revisions [r] w w' ∧ w_events w' = w_events w.
Proof.
  unfold create_draft_revision. intros H. minv.
  apply statement_Ok in H as (db & Hf & ->). simpl in Hf.
  destruct (check_row Program_revisions _ _) eqn:Ec; simplify_eq.
  split_and!; [done|exact Ec| |done]. split; [apply set_table_eq|].
  intros t Ht. by apply set_table_ne.
Qed.

Lemma schedule_transfer_Ok program identifier machine op t w w' :
  schedule_transfer program identifier machine op w = (Ok t, w') →
  ∃ ref, (daemon_send (SendProgram identifier machine) (w_dnc w)).1 = Ok ref ∧
    w_dnc w' = (daemon_send (SendProgram identifier machine) (w_dnc w)).2 ∧
    t = mkTransferRow (ulid (w_next w)) op program "to_machine" "scheduled" (Some ref)
          (w_now w) None (w_now w) (w_now w) ∧
    check_row Dnc_transfer_events t (w_db w) = None ∧
    appends Dnc_transfer_events [t] w w' ∧
    w_events w' = w_events w ++ [DncTransferScheduled (tr_id t) program identifier op].
Proof.
  unfold schedule_transfer, create_transfer. intros H. minv.
  match goal with H : dnc_send _ _ = _ |- _ => rename H into Hs end.
  unfold dnc_send in Hs. destruct (daemon_send _ _) as [ref d] eqn:Ed.
  injection Hs as -> <-. simpl in *. eexists. split_and!; try done.
  split; [apply set_table_eq|]. intros t Ht. by apply set_table_ne.
Qed.

Lemma atomic_schedule_transfer program identifier machine op :
  atomic (schedule_transfer program identifier machine op).
Proof.
  unfold schedule_transfer, create_transfer.
  apply atomic_bind_reads; [evolve|]. intros _.
  apply atomic_bind_reads.
  { apply evolves_map_err. intros w. unfold same_db, state_after, dnc_send.
    by destruct (daemon_send _ _). }
  intros ref. apply atomic_bind_total; [|intros; eauto 6 with atomic].
  apply atomic_map_err, atomic_bind_reads; [evolve|]. intros id.
  apply atomic_bind_reads; [evolve|]. intros now. eauto with atomic.
Qed.

(** An open transfer whose reference no other open transfer carries is found by it. *)
Lemma find_open_transfer_run ref l t w :
  healthy w → w_db w Dnc_transfer_events = l ++ [t] →
  tr_dnc_daemon_ref t = Some ref → is_open t = true →
  (∀ u, u ∈ l → tr_dnc_daemon_ref u = Some ref → is_open u = false) →
  find_open_transfer_by_ref ref w = (Ok (Some t), w).
Proof.
  intros Hh El Ht Ho Hl. unfold find_open_transfer_by_ref, fetch_optional, mbind, M_bind,
    map_err. rewrite query_run by done. rewrite El, select_app, select_none.
  - simpl. by rewrite Ht, Ho, bool_decide_eq_true_2.
  - intros u Hu. destruct (bool_decide_reflect (tr_dnc_daemon_ref u = Some ref)); simpl; auto.
Qed.

Lemma find_program_Ok identifier o w w' :
  find_program_id_by_identifier identifier w = (Ok o, w') →
  w' = tick w ∧
  match o with
  | Some id => ∃ p, p ∈ w_db w Programs ∧ pg_id p = id ∧
      pg_program_identifier p = identifier ∧
      ∀ q, q ∈ w_db w Programs → pg_program_identifier q = identifier →
        pg_created_at q <= pg_created_at p
  | None => ∀ q, q ∈ w_db w Programs → pg_program_identifier q ≠ identifier
  end.
Proof.
  unfold find_program_id_by_identifier. intros H. minv. split; [done|].
  set (l := select _ _).
  assert (∀ q, q ∈ order_by_desc pg_created_at l ↔
    q ∈ w_db w Programs ∧ pg_program_identifier q = identifier) as Hl.
  { intros q. unfold order_by_desc, l. rewrite elem_of_sort_by, elem_of_select, String.eqb_eq.
    tauto. }
  destruct (head _) as [p|] eqn:E; simpl.
  - pose proof (head_elem _ _ E) as [Hp Hi]%Hl. exists p. split_and!; [done..|].
    intros q Hq Hqi. refine (sorted_head (λ a b, pg_created_at b <= pg_created_at a)
      _ _ _ _ (order_by_desc_sorted _ _) E _); [intros x; lia|by apply Hl].
  - intros q Hq Hqi. assert (q ∈ order_by_desc pg_created_at l) as H by (by apply Hl).
    destruct (order_by_desc _ l); simplify_eq/=. by apply elem_of_nil in H.
Qed.

(** Every path of the event handler makes at most one write, last. *)
Lemma atomic_handle_daemon_event ev : atomic (handle_daemon_event ev).
Proof.
  unfold handle_daemon_event, find_open_transfer_by_ref, find_program_id_by_identifier,
    set_transfer_status, create_draft_revision, fetch_optional.
  apply atomic_bind_reads; [evolve|]. intros _.
  destruct ev; apply atomic_bind_reads; try solve [evolve]; intros [x|];
    try solve [apply atomic_reads; evolve].
  1,2: apply atomic_bind_total; [|intros; eauto with atomic];
    apply atomic_map_err, atomic_bind_reads; [evolve|intros; eauto with atomic].
  apply atomic_bind_total; [|intros; eauto with atomic].
  apply atomic_map_err, atomic_bind_reads; [evolve|]. intros id.
  apply atomic_bind_reads; [evolve|]. intros now. eauto with atomic.
Qed.


(** *** Progress *)

Lemma schedule_transfer_returns program identifier machine op ref w :
  healthy w → w_pool w = true →
  (daemon_send (SendProgram identifier machine) (w_dnc w)).1 = Ok ref →
  check_row Dnc_transfer_events (mkTransferRow (ulid (w_next w)) op program "to_machine"
    "scheduled" (Some ref) (w_now w) None (w_now w) (w_now w)) (w_db w) = None →
  returns (schedule_transfer program identifier machine op) w (λ _ _, True).
Proof.
  intros Hh Hp Hs Hc. unfold schedule_transfer, create_transfer. mgo.
  unfold returns at 1, dnc_send. destruct (daemon_send _ _) as [r d]. simpl in Hs. subst r.
  mgo. mwrite; [done|by mgo].
Qed.

Lemma settle_returns ref s (ev : TransferRow → M World ApiErr unit) w :
  healthy w → (∀ t w', returns (ev t) w' (λ _ _, True)) →
  returns (o ← map_err repo_err (find_open_transfer_by_ref ref);
    match o with
    | Some t => map_err repo_err (set_transfer_status (tr_id t) s) ;; ev t
    | None => mret tt
    end) w (λ _ _, True).
Proof.
  intros Hh Hev. unfold find_open_transfer_by_ref, set_transfer_status. mgo.
  destruct (head _) as [t|] eqn:E; [|by mgo]. mgo. apply head_elem in E.
  unfold order_by_desc in E. rewrite elem_of_sort_by, elem_of_select in E.
  destruct E as [_ Hin].
  destruct (first_where_exists (by_id Dnc_transfer_events (tr_id t))
    (w_db w Dnc_transfer_events) t) as [t' Ht']; [done|by apply String.eqb_eq|].
  mrow t'; [by apply check_update_None|apply Hev].
Qed.

(** A program can be filed unless its numbers are used up. *)
Lemma create_draft_revision_returns program source content by_ w :
  healthy w → ids_from Program_revisions (w_next w) (w_db w) →
  key_exists (w_db w) Programs program = true → present (w_db w) Users by_ = true →
  in_i32 (next_revision_no program (w_db w)) = true →
  returns (create_draft_revision program source content by_) w (λ _ _, True).
Proof.
  intros Hh Hid Hprog Hby Hno. unfold create_draft_revision. mgo.
  set (r := draft_revision (ulid (w_next w)) program source content by_ (w_now w) (w_db w)).
  assert (check_row Program_revisions r (w_db w) = None) as Hc.
  { apply check_row_None; [done| |].
    - repeat constructor; [by apply (ids_from_fresh Program_revisions (w_next w))|].
      apply exists_row_false. intros x Hx. unfold same. apply bool_decide_eq_false.
      intros [= Ep En]. pose proof (next_revision_no_above program (w_db w) x Hx (eq_sym Ep)). lia.
    - simpl. constructor; [done|]. apply Forall_app. split; [by apply present_refs|constructor]. }
  unfold returns. rewrite statement_run by done. change (w_db (w <| w_next := _ |>)) with (w_db w).
  unfold r in Hc. simpl in *. by rewrite Hc.
Qed.

Lemma handle_daemon_event_returns ev w :
  healthy w → w_pool w = true →
  match ev with
  | ProgramReceived _ _ => ids_from Program_revisions (w_next w) (w_db w) ∧
      ∀ p, p ∈ w_db w Programs → in_i32 (next_revision_no (pg_id p) (w_db w)) = true
  | _ => True
  end → returns (handle_daemon_event ev) w (λ _ _, True).
Proof.
  intros Hh Hp Hev. unfold handle_daemon_event. apply returns_bind, returns_require_pool; [done|].
  destruct ev as [ref|ref reason|program content].
  - apply (settle_returns ref _ (λ t, publish (DncTransferCompleted (tr_id t)))); [done|].
    intros. by mgo.
  - apply (settle_returns ref _ (λ t, mret tt)); [done|]. intros. by mgo.
  - destruct Hev as [Hid Hno]. unfold find_program_id_by_identifier. mgo.
    destruct (head _) as [p|] eqn:E; simpl; [|by mgo]. apply head_elem in E.
    unfold order_by_desc in E. rewrite elem_of_sort_by, elem_of_select in E.
    destruct E as [_ Hin]. mgo.
    eapply returns_mono; [apply create_draft_revision_returns; try done|].
    + apply exists_row_true. exists p. split; [done|by apply String.eqb_eq].
    + by apply Hno.
    + intros. by mgo.
Qed.

Lemma transition_revision_returns auth id target old w :
  healthy w → w_pool w = true → can_promote_revision (role auth) = true →
  target ≠ RevisionStatus.Draft → key_exists (w_db w) Users (user_id auth) = true →
  keys_unique Program_revisions (w_db w Program_revisions) →
  first_where (by_id Program_revisions id) (w_db w Program_revisions) = Some old →
  rv_status old = "draft"%string → in_range Program_revisions old = true →
  returns (transition_revision auth id target) w (λ _ _, True).
Proof.
  intros Hh Hp Hrole Ht Hus Hu Hold Hs Hin.
  unfold transition_revision, get_revision, set_revision_status. mgo; [by rewrite Hrole|].
  mrow old. mgo. eapply returns_ok_or; [by rewrite Hs|]. mgo; [by destruct target|].
  mrow old.
  - apply (check_update_by_id Program_revisions id _ old); [done..|]. simpl.
    constructor; [left; left|]. apply Forall_app. split.
    + apply Forall_forall. intros x Hx%list_elem_of_In. left. right. apply elem_of_app. by left.
    + constructor; [by right|constructor].
  - mgo. apply returns_audit. intros. by mgo.
Qed.
End dnc_proofs.

(** ** Properties *)

Section dnc_properties.
Context {env : Env}.

(** What the completion of [op] calls for: the pending operation of the same order that
    comes next. *)
Definition next_operation (op next : WoOperationRow) (db : Db) : Prop :=
  let later o := o ∈ db Wo_operations ∧ op_work_order_id o = op_work_order_id op ∧
    op_op_no op < op_op_no o ∧ op_status o = "pending"%string in
  later next ∧ ∀ o, later o → op_op_no next <= op_op_no o.

Lemma next_pending_correct op db :
  match head (next_pending (op_work_order_id op) (op_op_no op) db) with
  | Some next => next_operation op next db
  | None => ∀ next, ~ next_operation op next db
  end.
Proof.
  set (l := next_pending _ _ _).
  assert (∀ o, o ∈ l ↔ o ∈ db Wo_operations ∧ op_work_order_id o = op_work_order_id op ∧
    op_op_no op < op_op_no o ∧ op_status o = "pending"%string) as Hl.
  { intros o. unfold l, next_pending, order_by. rewrite elem_of_sort_by, elem_of_select.
    rewrite !andb_true_iff, !String.eqb_eq, Z.ltb_lt. tauto. }
  destruct (head l) as [next|] eqn:E.
  - split; [by apply Hl, head_elem|]. intros o Ho%Hl.
    refine (sorted_head (λ a b, op_op_no a <= op_op_no b) l next o _ _ E Ho).
    + intros x. lia.
    + apply order_by_sorted.
  - intros next [Hn%Hl _]. destruct l; simplify_eq/=. by apply elem_of_nil in Hn.
Qed.

(** [p] may be sent for the operation [next]. *)
Definition runs (p : ProgramRow) (next : WoOperationRow) (db : Db) : Prop :=
  p ∈ db Programs ∧ ∃ wo, wo ∈ db Work_orders ∧ wo_id wo = op_work_order_id next ∧
    ((op_routing_op_id next ≠ None ∧ pg_routing_op_id p = op_routing_op_id next) ∨
     pg_part_id p = Some (wo_part_id wo)).

Lemma elem_of_eligible_programs next db p :
  p ∈ eligible_programs (op_work_order_id next) (op_routing_op_id next) db ↔ runs p next db.
Proof.
  unfold eligible_programs. rewrite elem_of_sort_by, elem_of_select.
  unfold eligible, runs. rewrite exists_row_true.
  assert (∀ wo, String.eqb (wo_id wo) (op_work_order_id next) &&
    ((bool_decide (is_Some (op_routing_op_id next)) &&
      bool_decide (pg_routing_op_id p = op_routing_op_id next)) ||
     bool_decide (pg_part_id p = Some (wo_part_id wo))) = true ↔
    wo_id wo = op_work_order_id next ∧
    ((op_routing_op_id next ≠ None ∧ pg_routing_op_id p = op_routing_op_id next) ∨
     pg_part_id p = Some (wo_part_id wo))) as Hwo.
  { intros wo. rewrite andb_true_iff, orb_true_iff, andb_true_iff, String.eqb_eq,
      !bool_decide_eq_true, not_eq_None_Some. done. }
  naive_solver.
Qed.

(** When an operation completes, the next transfer is resolved to the pending operation
    of the same order with the least operation number above it, and to a program that may
    run there: one bound to its routing step whenever there is one, one for the ordered part
    otherwise. Nothing is resolved exactly when the completed operation does not exist, no
    later operation is pending, or no program may run on the next one. Resolution never
    writes. *)
Theorem resolve_next_transfer_correct oid w :
  let db := w_db w in
  let r := resolve_next_transfer oid w in
  w_db r.2 = db ∧
  match r.1 with
  | Ok (Some nt) => ∃ op next p,
      first_where (by_id Wo_operations oid) (db Wo_operations) = Some op ∧
      next_operation op next db ∧ runs p next db ∧
      (∀ q, runs q next db → pg_routing_op_id q = op_routing_op_id next →
         pg_routing_op_id p = op_routing_op_id next) ∧
      nt = mkNextTransfer (op_id next) (pg_id p) (pg_program_identifier p)
             (pg_target_machine p)
  | Ok None =>
      ∀ op, first_where (by_id Wo_operations oid) (db Wo_operations) = Some op →
        (∀ next, ~ next_operation op next db) ∨
        ∃ next, next_operation op next db ∧ ∀ p, ~ runs p next db
  | Err _ => True
  end.
Proof.
  cbv zeta. split.
  { assert (reads (resolve_next_transfer oid)) as H; [|apply (H w)].
    unfold resolve_next_transfer, fetch_optional. evolve. }
  destruct (resolve_next_transfer oid w) as [[o|e] w'] eqn:H; [|done]. simpl.
  unfold resolve_next_transfer in H. minv.
  match type of H with context [match ?x with _ => _ end] => destruct x as [op|] eqn:Eop end;
    minv; [|intros op; unfold first_where; by rewrite Eop].
  pose proof (next_pending_correct op (w_db w)) as Hnext.
  match type of H with context [match ?x with _ => _ end] => destruct x as [next|] eqn:En end;
    minv; [|intros op'; unfold first_where; rewrite Eop; intros [= <-]; by left].
  pose proof Hnext as [(Hn & Hwo & _) _]. rewrite <- Hwo.
  destruct (head (eligible_programs _ _ _)) as [p|] eqn:Ep; simpl.
  - exists op, next, p. split_and!; [done..| | |done].
    + by apply elem_of_eligible_programs, head_elem.
    + intros q Hq%elem_of_eligible_programs Hr.
      pose proof (sorted_head _ _ _ _ (λ _, id) (eligible_programs_sorted _ _ _) Ep Hq) as Hpr.
      simpl in Hpr. unfold prefer_routing in Hpr. rewrite !bool_decide_eq_true in Hpr. auto.
  - intros op'. unfold first_where. rewrite Eop. intros [= <-]. right. exists next.
    split; [done|]. intros p Hp%elem_of_eligible_programs.
    destruct (eligible_programs _ _ _); simplify_eq/=. by apply elem_of_nil in Hp.
Qed.

(** The open transfer the daemon means by [ref]: the last one triggered under it. *)
Definition latest_open (ref : string) (t : TransferRow) (db : Db) : Prop :=
  let candidate u := u ∈ db Dnc_transfer_events ∧ tr_dnc_daemon_ref u = Some ref ∧
    is_open u = true in
  candidate t ∧ ∀ u, candidate u → tr_triggered_at u <= tr_triggered_at t.

(** The daemon reported the end of a transfer. *)
Definition settled (ref : string) (status : TransferStatus.t) (w w' : World) : Prop :=
  (∀ t, t ≠ Dnc_transfer_events → w_db w' t = w_db w t) ∧
  ((w_db w' Dnc_transfer_events = w_db w Dnc_transfer_events ∧
    ∀ t, ~ latest_open ref t (w_db w)) ∨
   ∃ t, latest_open ref t (w_db w) ∧
     w_db w' Dnc_transfer_events = update_rows (by_id Dnc_transfer_events (tr_id t))
       (λ x, x <| tr_status := TransferStatus.as_str status |>
               <| tr_completed_at := Some (w_now w) |> <| tr_updated_at := w_now w |>)
       (w_db w Dnc_transfer_events) ∧
     ∀ cur, TransferStatus.parse (tr_status t) = Some cur →
       TransferStatus.can_transition cur status = true).

(** The daemon sent a program back from a machine. *)
Definition received (program : string) (content : option string) (w w' : World) : Prop :=
  (∀ t, t ≠ Program_revisions → w_db w' t = w_db w t) ∧
  ((w_db w' Program_revisions = w_db w Program_revisions ∧
    ∀ p, p ∈ w_db w Programs → pg_program_identifier p ≠ program) ∨
   ∃ p r, p ∈ w_db w Programs ∧ pg_program_identifier p = program ∧
     w_db w' Program_revisions = w_db w Program_revisions ++ [r] ∧
     rv_program_id r = pg_id p ∧ rv_status r = "draft"%string ∧ rv_promoted_by r = None ∧
     rv_source r = "operator_edit"%string ∧ rv_content_ref r = content ∧
     ∀ o, o ∈ w_db w Program_revisions → rv_program_id o = rv_program_id r →
       rv_revision_no o < rv_revision_no r).

Lemma is_open_step s (t : TransferRow) cur :
  s = TransferStatus.Completed ∨ s = TransferStatus.Failed →
  is_open t = true → TransferStatus.parse (tr_status t) = Some cur →
  TransferStatus.can_transition cur s = true.
Proof.
  unfold is_open. intros Hs Ho Hp. apply negb_true_iff, orb_false_iff in Ho as [H1 H2].
  apply as_str_parse in Hp. rewrite <- Hp in H1, H2.
  by destruct Hs as [->| ->], cur.
Qed.

Lemma settle_Ok ref s (ev : TransferRow → M World ApiErr unit) w w' u :
  s = TransferStatus.Completed ∨ s = TransferStatus.Failed →
  (∀ t, reads (ev t)) →
  (o ← map_err repo_err (find_open_transfer_by_ref ref);
   match o with
   | Some t => map_err repo_err (set_transfer_status (tr_id t) (TransferStatus.as_str s)) ;;
               ev t
   | None => mret tt
   end) w = (Ok u, w') →
  settled ref s w w'.
Proof.
  intros Hs Hev H. apply bind_Ok in H as (o & w1 & H1%map_err_Ok & H).
  apply find_open_transfer_Ok in H1 as [-> Ho]. destruct o as [t|].
  - destruct Ho as (Hin & Href & Hop & Hmax).
    apply bind_Ok in H as (r & w2 & H2%map_err_Ok & H).
    apply set_transfer_status_Ok in H2 as [_ ->].
    pose proof (Hev t) as Hr.
    match type of H with ev t ?v = _ => specialize (Hr v) end.
    unfold same_db, state_after in Hr. rewrite H in Hr. simpl in Hr.
    split; [intros t' Ht; rewrite Hr; simpl; by apply set_table_ne|]. right. exists t.
    split_and!; [split; naive_solver| |intros cur Hc; by eapply is_open_step].
    rewrite Hr. by destruct Hs as [->| ->].
  - minv. split; [done|]. left. split; [done|].
    intros t [(Hin & Href & Hop) _]. specialize (Ho t Hin Href). congruence.
Qed.

Lemma settled_keeps ref s w w' :
  settled ref s w w' → keys_unique Dnc_transfer_events (w_db w Dnc_transfer_events) →
  ∀ t, t ∈ w_db w Dnc_transfer_events → is_open t = false →
    t ∈ w_db w' Dnc_transfer_events.
Proof.
  intros [_ [[-> _]|(t & [(Hin & _ & Hop) _] & -> & _)]] Hu x Hx Hclosed; [done|].
  apply elem_of_update_rows. exists x. split; [done|].
  destruct (by_id Dnc_transfer_events (tr_id t) x) eqn:Eid; [|done].
  unfold by_id in Eid. bool_to_prop. simpl in Eid.
  assert (x = t) as -> by (by eapply (keys_unique_eq Dnc_transfer_events)). congruence.
Qed.

(** An event of the daemon closes transfers and files drafts, nothing more. A completion
    or failure settles the last open transfer under its reference (a legal move, stamped
    with the time) or, when there is none, changes nothing; in particular a transfer that
    has ended never changes again. A program received from a machine is filed as a draft
    revision of the program it names, numbered above all its revisions and never promoted
    by itself; an unknown program changes nothing. On any error nothing is written; on a
    healthy connection a completion or failure is always taken, and a program as long as
    its revision numbers last. *)
Theorem daemon_event_exact ev w :
  match handle_daemon_event ev w with
  | (Ok _, w') =>
      match ev with
      | TransferCompleted ref => settled ref TransferStatus.Completed w w'
      | TransferFailed ref _ => settled ref TransferStatus.Failed w w'
      | ProgramReceived program content => received program content w w'
      end ∧
      (keys_unique Dnc_transfer_events (w_db w Dnc_transfer_events) →
       ∀ t, t ∈ w_db w Dnc_transfer_events → is_open t = false →
         t ∈ w_db w' Dnc_transfer_events)
  | (Err _, w') => w_db w' = w_db w
  end ∧
  (healthy w → w_pool w = true →
   match ev with
   | ProgramReceived _ _ => ids_from Program_revisions (w_next w) (w_db w) ∧
       ∀ p, p ∈ w_db w Programs → in_i32 (next_revision_no (pg_id p) (w_db w)) = true
   | _ => True
   end → is_ok (handle_daemon_event ev w).1 = true).
Proof.
  split; [|intros; by eapply returns_ok, handle_daemon_event_returns].
  destruct (handle_daemon_event ev w) as [[u|e] w'] eqn:E;
    [|by eapply atomic_handle_daemon_event].
  apply bind_Ok in E as ([] & w1 & [Hp ->]%require_pool_Ok & E).
  destruct ev as [ref|ref reason|program content].
  - apply (settle_Ok ref TransferStatus.Completed) in E; [|by left|by evolve].
    split; [done|]. by eapply settled_keeps.
  - apply (settle_Ok ref TransferStatus.Failed) in E; [|by right|by evolve].
    split; [done|]. by eapply settled_keeps.
  - apply bind_Ok in E as (o & w1 & H1%map_err_Ok & E).
    apply find_program_Ok in H1 as [-> Ho]. destruct o as [pid|].
    + destruct Ho as (p & Hin & <- & Hid & _).
      apply bind_Ok in E as (r & w2 & H2%map_err_Ok & E). minv.
      apply create_draft_revision_Ok in H2 as (-> & _ & [Ea Ef] & _). simpl in *. split.
      * split; [done|]. right. exists p. eexists. split_and!; [done..|].
        intros o Ho Hp'. by apply next_revision_no_above.
      * intros _ t Ht _. by rewrite Ef.
    + minv. split; [|by intros]. split; [done|]. left. by split.
Qed.

(** C6. Scheduling a transfer first hands the program to the daemon and records a transfer
    only once the daemon has accepted it, under the reference the daemon gave, scheduled and
    bound for the machine, with one event published; if the daemon refuses, or recording
    fails, the database is untouched, a refusal being answered with 502. Once recorded, and
    unless an open transfer already carries that reference, the daemon's completion
    event ends exactly this transfer. What the daemon accepts and the constraints admit is
    recorded. *)
Theorem schedule_transfer_exact program identifier machine op w :
  let sent := daemon_send (SendProgram identifier machine) (w_dnc w) in
  match schedule_transfer program identifier machine op w with
  | (Ok t, w') => ∃ ref,
      sent.1 = Ok ref ∧ w_dnc w' = sent.2 ∧
      t = mkTransferRow (ulid (w_next w)) op program "to_machine" "scheduled" (Some ref)
            (w_now w) None (w_now w) (w_now w) ∧
      appends Dnc_transfer_events [t] w w' ∧
      w_events w' = w_events w ++ [DncTransferScheduled (tr_id t) program identifier op] ∧
      (healthy w → w_pool w = true →
       (∀ u, u ∈ w_db w Dnc_transfer_events → tr_dnc_daemon_ref u = Some ref →
          is_open u = false) →
       ∃ w'', handle_daemon_event (TransferCompleted ref) w' = (Ok tt, w'') ∧
         w_db w'' Dnc_transfer_events =
           w_db w Dnc_transfer_events ++ [t <| tr_status := "completed"%string |>
             <| tr_completed_at := Some (w_now w) |> <| tr_updated_at := w_now w |>])
  | (Err e, w') =>
      w_db w' = w_db w ∧ (w_pool w = true → is_ok sent.1 = false → status e = 502)
  end ∧
  ∀ ref, healthy w → w_pool w = true → sent.1 = Ok ref →
    check_row Dnc_transfer_events (mkTransferRow (ulid (w_next w)) op program "to_machine"
      "scheduled" (Some ref) (w_now w) None (w_now w) (w_now w)) (w_db w) = None →
    is_ok (schedule_transfer program identifier machine op w).1 = true.
Proof.
  cbv zeta. split; [|intros; by eapply returns_ok, schedule_transfer_returns].
  destruct (schedule_transfer program identifier machine op w) as [[t|e] w'] eqn:E.
  - assert (w_now w' = w_now w ∧ w_pool w' = w_pool w ∧ (healthy w → healthy w')) as
      (Hnow & Hpool & Hh').
    { clear - E. unfold schedule_transfer, create_transfer, dnc_send in E. minv. 
      destruct (daemon_send _ _). simplify_eq. simpl. split_and!; [done..|].
      unfold healthy. simpl. by intros ->. }
    apply schedule_transfer_Ok in E as (ref & Hs & Hd & -> & Hc & [Ea Ef] & Ev).
    exists ref. split_and!; [done..|by split|done|]. intros Hh Hp Hfree.
    rewrite <- Hpool in Hp. specialize (Hh' Hh).
    set (t := mkTransferRow _ _ _ _ _ _ _ _ _ _) in *.
    assert (∀ x, x ∈ w_db w Dnc_transfer_events →
      by_id Dnc_transfer_events (tr_id t) x = false) as Hfresh.
    { apply (check_row_fresh Dnc_transfer_events t); [done|left]. }
    eexists. split.
    + unfold handle_daemon_event. unfold mbind at 1, M_bind at 1, require_pool. rewrite Hp.
      unfold mbind at 1, M_bind at 1. rewrite map_err_run.
      erewrite (find_open_transfer_run ref _ t) by done. unfold mbind at 1, M_bind at 1.
      rewrite map_err_run. unfold set_transfer_status, mbind at 1, M_bind at 1, gets.
      erewrite (update_by_id_run Dnc_transfer_events _ _ t); [reflexivity|done| |].
      * unfold first_where. rewrite Ea, (select_fresh Dnc_transfer_events t) by done. done.
      * by apply check_update_None.
    + simpl. rewrite set_table_eq, Ea, (update_fresh Dnc_transfer_events t) by done.
      by rewrite Hnow.
  - split; [by eapply atomic_schedule_transfer|]. intros Hp Hs.
    revert E. unfold schedule_transfer. unfold mbind at 1, M_bind at 1, require_pool.
    rewrite Hp. unfold mbind at 1, M_bind at 1, map_err at 1, dnc_send.
    destruct (daemon_send _ _) as [[ref|e'] d]; [done|]. by intros [= <- <-].
Qed.

(** The review of a draft: [id] leaves [Draft] for [target], by [actor]. *)
Definition reviewed (actor id : string) (target : RevisionStatus.t) (r : RevisionRow)
    (w w' : World) : Prop :=
  let decide_ x := x <| rv_status := RevisionStatus.as_str target |>
    <| rv_promoted_by := Some actor |> <| rv_promoted_at := Some (w_now w) |>
    <| rv_updated_at := w_now w |> in
  (∃ old, first_where (by_id Program_revisions id) (w_db w Program_revisions) = Some old ∧
     rv_status old = "draft"%string ∧ r = decide_ old) ∧
  w_db w' Program_revisions =
    update_rows (by_id Program_revisions id) decide_ (w_db w Program_revisions) ∧
  ∀ t, t ≠ Program_revisions → t ≠ Audit_log → w_db w' t = w_db w t.

Lemma atomic_transition_revision auth id target : atomic (transition_revision auth id target).
Proof.
  unfold transition_revision, get_revision, set_revision_status.
  apply atomic_bind_reads; [evolve|]. intros _.
  apply atomic_bind_reads; [evolve|]. intros _.
  apply atomic_bind_reads; [evolve|]. intros rev.
  apply atomic_bind_reads; [evolve|]. intros current.
  apply atomic_bind_reads; [evolve|]. intros _.
  apply atomic_bind_total; [|intros; unfold audit; eauto 6 with atomic].
  apply atomic_map_err, atomic_bind_reads; [evolve|]. intros now. eauto with atomic.
Qed.

(** A program revision is promoted or rejected only by a role entitled to review
    programs and only while it is a draft, once and for all: on success that revision alone
    changes, to the decision, its author and its time; in every other case (another role, a
    revision already decided, no such revision, a failure) nothing is written. A known user
    with such a role can decide a draft. *)
Theorem transition_revision_exact auth id target w :
  match transition_revision auth id target w with
  | (Ok r, w') =>
      can_promote_revision (role auth) = true ∧ target ≠ RevisionStatus.Draft ∧
      reviewed (user_id auth) id target r w w'
  | (Err _, w') => w_db w' = w_db w
  end ∧
  ∀ old, healthy w → w_pool w = true → can_promote_revision (role auth) = true →
    target ≠ RevisionStatus.Draft → key_exists (w_db w) Users (user_id auth) = true →
    keys_unique Program_revisions (w_db w Program_revisions) →
    first_where (by_id Program_revisions id) (w_db w Program_revisions) = Some old →
    rv_status old = "draft"%string → in_range Program_revisions old = true →
    is_ok (transition_revision auth id target w).1 = true.
Proof.
  split; [|intros; by eapply returns_ok, transition_revision_returns].
  destruct (transition_revision auth id target w) as [[r|e] w'] eqn:E;
    [|by eapply atomic_transition_revision].
  unfold transition_revision, get_revision, set_revision_status, audit in E. minv.
  bool_to_prop.
  match goal with |- context [insert_audit ?a ?b ?c ?d ?e ?v] =>
    destruct (insert_audit_frame a b c d e v) as (F & _) end.
  match goal with H : RevisionStatus.parse _ = Some ?c |- _ =>
    apply as_str_parse in H as Hs; destruct c, target; try done end.
  all: split_and!; [done..|]; unfold reviewed; simpl in *; split_and!;
    [simplify_eq; eauto|by rewrite F|].
  all: intros t H1' H2'; rewrite F by done; simpl; by apply set_table_ne.
Qed.
End dnc_properties.

(** ** The properties on a concrete plant *)

#[local] Existing Instance sample_env.

Definition draft_db : Db :=
  set_table Program_revisions [mkRevisionRow "rv1" "pg1" 1 "operator_edit" None "draft" None 0
                                 None None 0 0] plant_db.

Lemma schedule_transfer_exact_witness :
  let w := plant <| w_dnc := VirtualDaemon [] 0 |> in
  is_ok (schedule_transfer "pg1" "O2000" None None w).1 = true.
Proof.
  eapply (proj2 (schedule_transfer_exact "pg1" "O2000" None None _)); [done|done|done|].
  by vm_compute.
Defined.

Lemma daemon_event_exact_witness :
  is_ok (handle_daemon_event (ProgramReceived "O2000" None) (world_of draft_db)).1 = true.
Proof.
  apply (proj2 (daemon_event_exact (ProgramReceived "O2000" None) (world_of draft_db)));
    [done|done|]. split; [by apply no_ulids_ids_from|]. intros p Hp.
  apply list_elem_of_singleton in Hp as ->. done.
Defined.

Lemma transition_revision_exact_witness :
  is_ok (transition_revision admin "rv1" RevisionStatus.Promoted (world_of draft_db)).1 = true.
Proof.
  eapply (proj2 (transition_revision_exact admin "rv1" RevisionStatus.Promoted _));
    [done|done|done|done|done|evaluate_prop|done|done|done].
Defined.
