(* ===== verification/Exec.v ===== *)
(** * Operator execution

    [crates/mes-edge/src/exec.rs]: starting and completing operations, recording counts,
    completing orders, classifying and splitting downtime. The endpoints that share their
    name with the repository call they wrap carry the suffix [_endpoint]. *)

From S2P Require Import Prelude Schema Sql Lifecycle Moves Sample Orders Dnc Metrics.

(** [mes_client::exec::CountInput]; [good] and [scrap] default to 0. *)
Record CountInput := mkCountInput {
  ci_good : Z; ci_scrap : Z; ci_scrap_reason_id : option string; ci_ts : option DateTime
}.

Record SplitDowntimeInput := mkSplitDowntimeInput {
  si_at : DateTime; si_first_reason_id : option string; si_second_reason_id : option string
}.

Section exec.
Context {env : Env}.
Abbreviation Api := (M World ApiErr).

Definition parse_op_status (op : WoOperationRow) : Api OpStatus.t :=
  ok_or (OpStatus.parse (op_status op)) (err 500 "internal" "unknown operation status").

Definition start_op (auth : AuthUser) (op_id : string) : Api WoOperationRow :=
  require_pool ;;
  op ← map_err repo_err (get_operation op_id);
  current ← parse_op_status op;
  throw_if (negb (OpStatus.can_transition current OpStatus.InProgress))
    (err 409 "invalid_transition" "operation cannot be started from its current status") ;;
  updated ← map_err repo_err (start_operation op_id);
  wo ← map_err repo_err (get_work_order (op_work_order_id op));
  (if bool_decide (WoStatus.parse (wo_status wo) = Some WoStatus.Released) then
     transition_wo (user_id auth) (op_work_order_id op) WoStatus.InProgress ;; mret tt
   else mret tt) ;;
  audit (Some (user_id auth)) "start" "wo_operation" (Some op_id) None ;;
  publish (OperationStarted (op_work_order_id op) op_id) ;;
  mret updated.

Definition record_count_endpoint (auth : AuthUser) (op_id : string) (input : CountInput) :
    Api WoOperationRow :=
  require_pool ;;
  throw_if ((ci_good input <? 0) || (ci_scrap input <? 0))
    (err 400 "bad_request" "counts must be non-negative") ;;
  throw_if ((0 <? ci_scrap input) && bool_decide (ci_scrap_reason_id input = None))
    (err 400 "scrap_reason_required" "a scrap_reason_id is required when scrap > 0") ;;
  op ← map_err repo_err (get_operation op_id);
  wc_id ← ok_or (op_work_center_id op)
    (err 400 "no_work_center" "operation has no work center to attribute counts to");
  now ← gets w_now;
  let ts := default now (ci_ts input) in
  updated ← map_err repo_err (record_count op_id wc_id (ci_good input) (ci_scrap input)
    (ci_scrap_reason_id input) ts);
  publish (CountRecorded op_id (ci_good input) (ci_scrap input)) ;;
  publish_oee_snapshot wc_id ;;
  mret updated.

Definition complete_op (auth : AuthUser) (op_id : string) : Api WoOperationRow :=
  require_pool ;;
  op ← map_err repo_err (get_operation op_id);
  current ← parse_op_status op;
  throw_if (negb (OpStatus.can_transition current OpStatus.Completed))
    (err 409 "invalid_transition" "operation cannot be completed from its current status") ;;
  updated ← map_err repo_err (complete_operation op_id);
  audit (Some (user_id auth)) "complete" "wo_operation" (Some op_id) None ;;
  publish (OperationCompleted (op_work_order_id op) op_id) ;;
  on_job_complete op_id ;;
  mret updated.

Definition complete_wo (auth : AuthUser) (id : string) : Api WorkOrderRow :=
  transition_wo (user_id auth) id WoStatus.Completed.

Definition classify_downtime_endpoint (auth : AuthUser) (id reason_id : string) :
    Api DowntimeRow :=
  require_pool ;;
  event ← map_err repo_err (classify_downtime id reason_id (user_id auth));
  publish (DowntimeClassified id reason_id) ;;
  mret event.

Definition publish_reason (ev : DowntimeRow) : Api unit :=
  match de_reason_id ev with
  | Some reason => publish (DowntimeClassified (de_id ev) reason)
  | None => mret tt
  end.

Definition split_downtime_endpoint (auth : AuthUser) (id : string)
    (input : SplitDowntimeInput) : Api (list DowntimeRow) :=
  require_pool ;;
  '(first, second) ← map_err repo_err (split_downtime id (si_at input)
    (si_first_reason_id input) (si_second_reason_id input) (user_id auth));
  forM_ [first; second] publish_reason ;;
  mret [first; second].
End exec.

(** ** Lemmas *)

(** *** Calls that never consult the daemon *)

Definition with_dnc (d : DncDaemon) (w : World) : World := w <| w_dnc := d |>.

(** The call does the same whatever the daemon is, and leaves it alone. *)
Definition daemonless {E A} (m : M World E A) : Prop :=
  ∀ d w, m (with_dnc d w) = ((m w).1, with_dnc d (m w).2).

Create HintDb daemonless.

Section daemonless.
Context {env : Env} {E : Type}.

Lemma daemonless_bind {A B} (m : M World E A) (k : A → M World E B) :
  daemonless m → (∀ a, daemonless (k a)) → daemonless (m ≫= k).
Proof.
  intros Hm Hk d w. unfold mbind, M_bind. rewrite Hm.
  destruct (m w) as [[a|e] w']; simpl; [apply Hk|done].
Qed.

Lemma daemonless_ret {A} (a : A) : daemonless (mret a : M World E A).
Proof. done. Qed.

Lemma daemonless_throw_if b (e : E) : daemonless (throw_if b e).
Proof. by destruct b. Qed.

Lemma daemonless_ok_or {A} (o : option A) (e : E) : daemonless (ok_or o e : M World E A).
Proof. by destruct o. Qed.

Lemma daemonless_map_err {F A} (f : E → F) (m : M World E A) :
  daemonless m → daemonless (map_err f m).
Proof. intros Hm d w. unfold map_err. rewrite Hm. by destruct (m w) as [[]]. Qed.

Lemma daemonless_best_effort {F A} (m : M World E A) :
  daemonless m → daemonless (best_effort m : M World F unit).
Proof. intros Hm d w. unfold best_effort. by rewrite Hm. Qed.

Lemma daemonless_statement {A} (f : Db → Result (A * Db) SqlError) : daemonless (statement f).
Proof.
  intros d w. unfold statement. simpl. case_match; [done|].
  by destruct (f (w_db w)) as [[]|].
Qed.

Lemma daemonless_now : daemonless (gets w_now : M World E DateTime).
Proof. done. Qed.

Lemma daemonless_new_id : daemonless (new_id : M World E string).
Proof. done. Qed.

Lemma daemonless_publish ev : daemonless (publish ev : M World E unit).
Proof. done. Qed.
End daemonless.

Lemma daemonless_require_pool : daemonless require_pool.
Proof. intros d w. unfold require_pool. simpl. by destruct (w_pool w). Qed.

#[export] Hint Resolve daemonless_bind daemonless_ret daemonless_throw_if daemonless_ok_or
  daemonless_map_err daemonless_best_effort daemonless_statement daemonless_now
  daemonless_new_id daemonless_publish daemonless_require_pool : daemonless.

(** *** Best-effort calls *)

Section exec_proofs.
Context {env : Env}.

Lemma total_on_job_complete id : total (on_job_complete id).
Proof.
  intros w. unfold result, on_job_complete. case_match; [done|].
  by destruct (resolve_next_transfer id w) as [[[]|] ?].
Qed.

(** What follows a completion schedules at most one transfer, and writes nothing else. *)
Lemma on_job_complete_appends id w :
  ∃ ts, (length ts <= 1)%nat ∧ appends Dnc_transfer_events ts w (on_job_complete id w).2.
Proof.
  unfold on_job_complete. destruct (negb (w_pool w)).
  { exists []. split; [simpl; lia|apply appends_nil]. }
  assert (reads (resolve_next_transfer id)) as Hr.
  { unfold resolve_next_transfer, fetch_optional. evolve. }
  specialize (Hr w). unfold same_db, state_after in Hr.
  destruct (resolve_next_transfer id w) as [[[next|]|e] w1]; simpl in *.
  2,3: exists []; split; [simpl; lia|]; apply (appends_db _ _ w w); [done|done|apply appends_nil].
  destruct (schedule_transfer _ _ _ _ w1) as [[t|e] w2] eqn:E; simpl.
  - apply schedule_transfer_Ok in E as (ref & _ & _ & _ & _ & Ha & _).
    exists [t]. split; [simpl; lia|]. by apply (appends_db _ _ w1 w2).
  - apply atomic_schedule_transfer in E. exists []. split; [simpl; lia|].
    apply (appends_db _ _ w w); [done|congruence|apply appends_nil].
Qed.

Lemma reads_oee_inputs {F} `{!Numeric.Num F} wc s e : reads (oee_inputs (F := F) wc s e).
Proof.
  unfold oee_inputs. apply evolves_bind; [apply _|evolve|]. intros [run_s planned_s].
  apply evolves_bind; [apply _|apply evolves_map_err, reads_statement|evolve].
  intros db a db'. by destruct (count_sums _ _ _ _) as [[]|]; intros; simplify_eq.
Qed.

Lemma reads_oee_sql {F} `{!Numeric.Num F} wc s e : reads (oee_sql (F := F) wc s e).
Proof.
  unfold oee_sql, fetch_one. apply evolves_map_err.
  apply evolves_bind; [apply _|apply reads_statement|evolve].
  intros db a db'. by destruct (count_sums _ _ _ _) as [[]|]; intros; simplify_eq.
Qed.

Lemma reads_publish_oee_snapshot wc : reads (publish_oee_snapshot wc).
Proof.
  intros w. unfold same_db, state_after, publish_oee_snapshot. case_match; [done|].
  pose proof (reads_oee_inputs (F := SpecFloat.spec_float) wc (days (date_naive (w_now w)))
    (w_now w) w) as Hr.
  unfold same_db, state_after in Hr. by destruct (oee_inputs _ _ _ w) as [[] ?].
Qed.

(** *** Completion *)

Definition completed (now : DateTime) (r : WoOperationRow) : WoOperationRow :=
  r <| op_status := "completed"%string |> <| op_completed_at := Some now |>
    <| op_updated_at := now |>.

(** [complete_op] up to the hook. *)
Definition complete_op_core (auth : AuthUser) (op_id : string) : M World ApiErr WoOperationRow :=
  require_pool ;;
  op ← map_err repo_err (get_operation op_id);
  current ← parse_op_status op;
  throw_if (negb (OpStatus.can_transition current OpStatus.Completed))
    (err 409 "invalid_transition" "operation cannot be completed from its current status") ;;
  updated ← map_err repo_err (complete_operation op_id);
  audit (Some (user_id auth)) "complete" "wo_operation" (Some op_id) None ;;
  publish (OperationCompleted (op_work_order_id op) op_id) ;;
  mret updated.

Lemma complete_op_split auth op_id w :
  complete_op auth op_id w =
  match complete_op_core auth op_id w with
  | (Ok r, w1) => (Ok r, (on_job_complete op_id w1).2)
  | (Err e, w1) => (Err e, w1)
  end.
Proof.
  unfold complete_op, complete_op_core, mbind, M_bind.
  destruct (require_pool w) as [[]]; [|done].
  destruct (map_err repo_err (get_operation op_id) _) as [[]]; [|done].
  destruct (parse_op_status _ _) as [[]]; [|done].
  destruct (throw_if _ _ _) as [[]]; [|done].
  destruct (map_err repo_err (complete_operation op_id) _) as [[]]; [|done].
  simpl. match goal with |- context [on_job_complete op_id ?v] =>
    pose proof (total_on_job_complete op_id v) as Ht; unfold result in Ht;
    destruct (on_job_complete op_id v) as [[]] end; done.
Qed.

Lemma daemonless_complete_op_core auth op_id : daemonless (complete_op_core auth op_id).
Proof.
  unfold complete_op_core, get_operation, get_by_id, complete_operation, update_by_id,
    fetch_optional, fetch, query, update, parse_op_status, audit, insert_audit, insert.
  eauto 40 with daemonless.
Qed.

Lemma complete_op_core_Ok auth op_id r w w' :
  complete_op_core auth op_id w = (Ok r, w') →
  (∃ old, first_where (by_id Wo_operations op_id) (w_db w Wo_operations) = Some old ∧
     op_status old = "in_progress"%string ∧ r = completed (w_now w) old) ∧
  w_db w' Wo_operations = update_rows (by_id Wo_operations op_id) (completed (w_now w))
    (w_db w Wo_operations) ∧
  ∀ t, t ≠ Wo_operations → t ≠ Audit_log → w_db w' t = w_db w t.
Proof.
  unfold complete_op_core, get_operation, complete_operation, parse_op_status, audit.
  intros H. minv. bool_to_prop.
  match goal with |- context [insert_audit ?a ?b ?c ?d ?e ?v] =>
    destruct (insert_audit_frame a b c d e v) as (F & _) end.
  match goal with H : OpStatus.parse _ = Some ?c |- _ =>
    apply as_str_parse in H as Hs; destruct c; try done end.
  split_and!; [simplify_eq; eauto|by rewrite F|].
  intros t H1' H2'. rewrite F by done. simpl. by apply set_table_ne.
Qed.

Lemma atomic_complete_op_core auth op_id : atomic (complete_op_core auth op_id).
Proof.
  unfold complete_op_core, get_operation, complete_operation, parse_op_status.
  do 4 (apply atomic_bind_reads; [evolve|]; intros ?).
  apply atomic_bind_total; [|intros; unfold audit; eauto 8 with atomic].
  apply atomic_map_err, atomic_bind_reads; [evolve|]. intros now. eauto with atomic.
Qed.

(** *** Start *)

Definition started (now : DateTime) (r : WoOperationRow) : WoOperationRow :=
  r <| op_status := "in_progress"%string |>
    <| op_started_at := Some (default now (op_started_at r)) |> <| op_updated_at := now |>.

(** The part of [start_op] that changes the operation. *)
Definition start_op_core (op_id : string) :
    M World ApiErr (WoOperationRow * WoOperationRow) :=
  require_pool ;;
  op ← map_err repo_err (get_operation op_id);
  current ← parse_op_status op;
  throw_if (negb (OpStatus.can_transition current OpStatus.InProgress))
    (err 409 "invalid_transition" "operation cannot be started from its current status") ;;
  updated ← map_err repo_err (start_operation op_id);
  mret (op, updated).

(** The part that follows: advance the order and tell. *)
Definition start_op_order (auth : AuthUser) (op_id : string) (op updated : WoOperationRow) :
    M World ApiErr WoOperationRow :=
  wo ← map_err repo_err (get_work_order (op_work_order_id op));
  (if bool_decide (WoStatus.parse (wo_status wo) = Some WoStatus.Released) then
     transition_wo (user_id auth) (op_work_order_id op) WoStatus.InProgress ;; mret tt
   else mret tt) ;;
  audit (Some (user_id auth)) "start" "wo_operation" (Some op_id) None ;;
  publish (OperationStarted (op_work_order_id op) op_id) ;;
  mret updated.

Lemma start_op_split auth op_id w :
  start_op auth op_id w =
  match start_op_core op_id w with
  | (Ok (op, updated), w1) => start_op_order auth op_id op updated w1
  | (Err e, w1) => (Err e, w1)
  end.
Proof.
  unfold start_op, start_op_core, mbind, M_bind.
  destruct (require_pool w) as [[]]; [|done].
  destruct (map_err repo_err (get_operation op_id) _) as [[]]; [|done].
  destruct (parse_op_status _ _) as [[]]; [|done].
  destruct (throw_if _ _ _) as [[]]; [|done].
  by destruct (map_err repo_err (start_operation op_id) _) as [[]].
Qed.

Lemma start_op_core_Ok op_id op updated w w' :
  start_op_core op_id w = (Ok (op, updated), w') →
  first_where (by_id Wo_operations op_id) (w_db w Wo_operations) = Some op ∧
  op_status op = "pending"%string ∧ updated = started (w_now w) op ∧
  w_now w' = w_now w ∧
  w_db w' Wo_operations = update_rows (by_id Wo_operations op_id) (started (w_now w))
    (w_db w Wo_operations) ∧
  ∀ t, t ≠ Wo_operations → w_db w' t = w_db w t.
Proof.
  unfold start_op_core, get_operation, start_operation, parse_op_status.
  intros H. minv. bool_to_prop. simplify_eq.
  match goal with H : OpStatus.parse _ = Some ?c |- _ =>
    apply as_str_parse in H as Hs; destruct c; try done end.
  split_and!; [done..|]. intros t Ht. by apply set_table_ne.
Qed.

Lemma atomic_start_op_core op_id : atomic (start_op_core op_id).
Proof.
  unfold start_op_core, get_operation, start_operation, parse_op_status.
  do 4 (apply atomic_bind_reads; [evolve|]; intros ?).
  apply atomic_bind_total; [|intros; eauto with atomic].
  apply atomic_map_err, atomic_bind_reads; [evolve|]. intros now. eauto with atomic.
Qed.

Lemma start_op_order_Ok auth op_id op updated r w w' :
  start_op_order auth op_id op updated w = (Ok r, w') →
  r = updated ∧
  (∃ wo, first_where (by_id Work_orders (op_work_order_id op)) (w_db w Work_orders) = Some wo ∧
     w_db w' Work_orders =
       if String.eqb (wo_status wo) "released"
       then update_rows (by_id Work_orders (op_work_order_id op))
              (with_status "in_progress" (w_now w)) (w_db w Work_orders)
       else w_db w Work_orders) ∧
  ∀ t, t ≠ Work_orders → t ≠ Audit_log → w_db w' t = w_db w t.
Proof.
  unfold start_op_order, get_work_order, audit. intros H.
  apply bind_Ok in H as (wo & w1 & H1 & H). minv.
  match goal with |- context [insert_audit ?a ?b ?c ?d ?e ?v] =>
    destruct (insert_audit_frame a b c d e v) as (F & _) end.
  split; [done|].
  match goal with H : (if bool_decide ?P then _ else _) _ = _ |- _ => rename H into Hif end.
  assert (WoStatus.parse (wo_status wo) = Some WoStatus.Released ↔
          wo_status wo = "released"%string) as Hrel.
  { split; [by intros <-%as_str_parse|by intros ->]. }
  case_bool_decide as Hb.
  - apply bind_Ok in Hif as (r' & w2 & Ht%transition_wo_Ok & [-> ->]%ret_Ok).
    destruct Ht as (_ & Ew & Ef & _). simpl in *. split.
    + exists wo. split; [done|]. rewrite F by done. simpl. rewrite Ew.
      apply Hrel in Hb. by rewrite Hb.
    + intros t H1 H2. rewrite F by done. by apply Ef.
  - minv. split.
    + exists wo. split; [done|]. rewrite F by done. simpl.
      destruct (String.eqb_spec (wo_status wo) "released"); [by apply Hrel in e|done].
    + intros t H1 H2. by rewrite F.
Qed.

Lemma atomic_start_op_order auth op_id op updated :
  atomic (start_op_order auth op_id op updated).
Proof.
  unfold start_op_order, get_work_order, audit.
  apply atomic_bind_reads; [evolve|]. intros wo.
  apply atomic_bind_total; [|intros; eauto 8 with atomic].
  case_bool_decide; [|by apply atomic_reads; evolve].
  apply atomic_bind_total; [apply atomic_transition_wo|eauto with atomic].
Qed.

(** *** Progress *)

Lemma complete_op_core_returns auth op_id old w :
  healthy w → w_pool w = true → keys_unique Wo_operations (w_db w Wo_operations) →
  first_where (by_id Wo_operations op_id) (w_db w Wo_operations) = Some old →
  op_status old = "in_progress"%string → in_range Wo_operations old = true →
  returns (complete_op_core auth op_id) w (λ _ _, True).
Proof.
  intros Hh Hp Hu Hold Hs Hin.
  unfold complete_op_core, get_operation, complete_operation, parse_op_status.
  mgo. mrow old. mgo. eapply returns_ok_or; [by rewrite Hs|]. mgo. mrow old.
  - by apply (check_update_same_refs Wo_operations op_id _ old).
  - mgo. apply returns_audit. intros. by mgo.
Qed.

Lemma start_op_returns auth op_id old wo w :
  healthy w → w_pool w = true → keys_unique Wo_operations (w_db w Wo_operations) →
  keys_unique Work_orders (w_db w Work_orders) →
  first_where (by_id Wo_operations op_id) (w_db w Wo_operations) = Some old →
  op_status old = "pending"%string → in_range Wo_operations old = true →
  first_where (by_id Work_orders (op_work_order_id old)) (w_db w Work_orders) = Some wo →
  in_range Work_orders wo = true →
  returns (start_op auth op_id) w (λ _ _, True).
Proof.
  intros Hh Hp Hu Hu' Hold Hs Hin Hwo Hin'.
  unfold start_op, get_operation, start_operation, parse_op_status, get_work_order.
  mgo. mrow old. mgo. eapply returns_ok_or; [by rewrite Hs|]. mgo. mrow old.
  { by apply (check_update_same_refs Wo_operations op_id _ old). }
  mgo. mrow wo. case_bool_decide.
  - mgo. eapply returns_mono; [by apply (transition_wo_returns _ _ _ wo WoStatus.Released)|].
    intros r w1 _. mgo. apply returns_audit. intros. by mgo.
  - mgo. apply returns_audit. intros. by mgo.
Qed.
End exec_proofs.

(** ** Properties *)

Section exec_properties.
Context {env : Env}.

(** C24. Completing an operation never depends on the DNC daemon: whatever the daemon
    answers, or if there is none, the response is the same. A success means that the
    operation was in progress and is now completed, at the current time, that at most one
    transfer was scheduled for what follows, and that nothing else but the audit log
    changed; a failure changes nothing. An operation in progress can be completed. *)
Theorem complete_op_exact auth op_id w :
  (∀ d, (complete_op auth op_id (with_dnc d w)).1 = (complete_op auth op_id w).1) ∧
  match complete_op auth op_id w with
  | (Ok r, w') =>
      (∃ old, first_where (by_id Wo_operations op_id) (w_db w Wo_operations) = Some old ∧
         op_status old = "in_progress"%string ∧ r = completed (w_now w) old) ∧
      w_db w' Wo_operations = update_rows (by_id Wo_operations op_id) (completed (w_now w))
        (w_db w Wo_operations) ∧
      (∃ ts, (length ts <= 1)%nat ∧
         w_db w' Dnc_transfer_events = w_db w Dnc_transfer_events ++ ts) ∧
      (∀ t, t ≠ Wo_operations → t ≠ Audit_log → t ≠ Dnc_transfer_events →
         w_db w' t = w_db w t)
  | (Err _, w') => w_db w' = w_db w
  end ∧
  ∀ old, healthy w → w_pool w = true → keys_unique Wo_operations (w_db w Wo_operations) →
    first_where (by_id Wo_operations op_id) (w_db w Wo_operations) = Some old →
    op_status old = "in_progress"%string → in_range Wo_operations old = true →
    is_ok (complete_op auth op_id w).1 = true.
Proof.
  split_and!.
  - intros d. rewrite !complete_op_split, daemonless_complete_op_core.
    by destruct (complete_op_core auth op_id w) as [[] ?].
  - rewrite complete_op_split.
    destruct (complete_op_core auth op_id w) as [[r|e] w1] eqn:E;
      [|by eapply atomic_complete_op_core].
    apply complete_op_core_Ok in E as (Hr & Ho & Hf).
    destruct (on_job_complete_appends op_id w1) as (ts & Hl & Ea & Ef).
    split_and!; [done|by rewrite Ef|exists ts; by rewrite Ea, Hf|].
    intros t H1 H2 H3. by rewrite Ef, Hf.
  - intros old Hh Hp Hu Hold Hs Hin. rewrite complete_op_split.
    pose proof (complete_op_core_returns auth op_id old w Hh Hp Hu Hold Hs Hin) as H.
    unfold returns in H. by destruct (complete_op_core auth op_id w) as [[]].
Qed.

(** Starting an operation takes it from pending to in progress, keeping an earlier start
    time, and advances its order when, and only when, that one is released; nothing else but
    the audit log changes. A failure leaves every table as it was, except that the
    operation itself may already have been started when advancing the order failed: it is
    then in progress under an order still released. A pending operation of an order that
    exists can be started. *)
Theorem start_op_exact auth op_id w :
  let start_row := update_rows (by_id Wo_operations op_id) (started (w_now w)) in
  match start_op auth op_id w with
  | (Ok r, w') => ∃ op wo,
      first_where (by_id Wo_operations op_id) (w_db w Wo_operations) = Some op ∧
      op_status op = "pending"%string ∧ r = started (w_now w) op ∧
      first_where (by_id Work_orders (op_work_order_id op)) (w_db w Work_orders) = Some wo ∧
      w_db w' Wo_operations = start_row (w_db w Wo_operations) ∧
      w_db w' Work_orders =
        (if String.eqb (wo_status wo) "released"
         then update_rows (by_id Work_orders (op_work_order_id op))
                (with_status "in_progress" (w_now w)) (w_db w Work_orders)
         else w_db w Work_orders) ∧
      (∀ t, t ≠ Wo_operations → t ≠ Work_orders → t ≠ Audit_log → w_db w' t = w_db w t)
  | (Err _, w') =>
      (∀ t, t ≠ Wo_operations → w_db w' t = w_db w t) ∧
      (w_db w' Wo_operations = w_db w Wo_operations ∨
       w_db w' Wo_operations = start_row (w_db w Wo_operations))
  end ∧
  ∀ old wo, healthy w → w_pool w = true →
    keys_unique Wo_operations (w_db w Wo_operations) →
    keys_unique Work_orders (w_db w Work_orders) →
    first_where (by_id Wo_operations op_id) (w_db w Wo_operations) = Some old →
    op_status old = "pending"%string → in_range Wo_operations old = true →
    first_where (by_id Work_orders (op_work_order_id old)) (w_db w Work_orders) = Some wo →
    in_range Work_orders wo = true → is_ok (start_op auth op_id w).1 = true.
Proof.
  cbv zeta. split; [|intros; by eapply returns_ok, start_op_returns].
  rewrite start_op_split.
  destruct (start_op_core op_id w) as [[[op updated]|e] w1] eqn:E.
  2: { apply atomic_start_op_core in E. rewrite E. by split; [|left]. }
  apply start_op_core_Ok in E as (Hop & Hs & -> & Hnow & Eo & Ef).
  destruct (start_op_order auth op_id op _ w1) as [[r|e] w2] eqn:E2.
  - apply start_op_order_Ok in E2 as (-> & (wo & Hwo & Ew) & Ef2).
    rewrite Hnow, (Ef Work_orders) in * by done. exists op, wo.
    split_and!; [done..| |done|].
    + by rewrite Ef2.
    + intros t H1 H2 H3. by rewrite Ef2, Ef.
  - apply atomic_start_op_order in E2. rewrite E2. split; [done|by right].
Qed.
End exec_properties.

(** ** Observed behaviour *)

(** An order that was never released, or that has been cancelled, does not keep its
    operations from being started: the handler looks at the operation's status only. *)
Definition cancelled_order_db : Db :=
  set_table Work_orders [mkWorkOrderRow "wo1" "WO-1" "p1" None (10 ^ 28) 100 "cancelled" None
                           None 0 0 None] (
  set_table Wo_operations [mkWoOperationRow "op1" "wo1" (Some "ro1") 10 (Some "wc1") "pending"
                             0 0 None None 0 0] plant_db).

Example start_op_ignores_order_status :
  let r := start_op (env := sample_env) admin "op1" (world_of cancelled_order_db) in
  is_ok r.1 = true ∧ map wo_status (w_db r.2 Work_orders) = ["cancelled"%string] ∧
  map op_status (w_db r.2 Wo_operations) = ["in_progress"%string].
Proof. by vm_compute. Qed.

(** ** The properties on a concrete plant *)

#[local] Existing Instance sample_env.

Lemma start_op_exact_witness :
  is_ok (start_op admin "op1" (world_of (floor_db "released" "pending"))).1 = true.
Proof.
  eapply (proj2 (start_op_exact admin "op1" _));
    [done|done|evaluate_prop|evaluate_prop|done|done|done|done|done].
Defined.

Lemma complete_op_exact_witness :
  is_ok (complete_op admin "op1" (world_of (floor_db "in_progress" "in_progress"))).1 = true.
Proof.
  eapply (proj2 (proj2 (complete_op_exact admin "op1" _)));
    [done|done|evaluate_prop|done|done|done].
Defined.
