(* ===== verification/Trace.v ===== *)
(** * Traceability

    [crates/mes-db/src/repo_trace.rs] and [crates/mes-edge/src/trace.rs]: lots and serials,
    the genealogy graph and its recursive forward and backward traces, holds, and the issue
    of material, which an active hold blocks. The endpoints that share their name with the
    repository call they wrap carry the suffix [_endpoint]. *)

From S2P Require Import Prelude Lifecycle Barcode Schema Sql Sample Moves.

(** An entity of the genealogy: its type (["lot"] or ["serial"]) and its id. *)
Abbreviation Entity := (string * string)%type.

Record TraceNode := mkTraceNode {
  tn_entity_type : string; tn_entity_id : string; tn_ref_no : option string; tn_depth : Z
}.

Definition tn_entity (n : TraceNode) : Entity := (tn_entity_type n, tn_entity_id n).

Record LotInput := mkLotInput {
  li_lot_no : string; li_part_id : string; li_qty : option Decimal; li_uom : option string
}.

Record SerialInput := mkSerialInput {
  sri_serial_no : string; sri_part_id : string; sri_lot_id : option string
}.

Record GenealogyEdgeInput := mkGenealogyEdgeInput {
  gi_parent_type : string; gi_parent_id : string; gi_child_type : string;
  gi_child_id : string; gi_qty : option Decimal
}.

Record IssueMaterialInput := mkIssueMaterialInput {
  ii_lot_id : option string; ii_serial_id : option string; ii_qty : Decimal;
  ii_wo_operation_id : option string
}.

Record HoldInput := mkHoldInput {
  hi_entity_type : string; hi_entity_id : string; hi_reason : option string
}.

(** ** The recursive query

    [WITH RECURSIVE tr ... UNION ALL ... WHERE tr.depth < 64]: each round joins the rows of
    the round before with the edges, duplicates kept. *)

Definition parent_of (g : GenealogyRow) : Entity := (gn_parent_type g, gn_parent_id g).
Definition child_of (g : GenealogyRow) : Entity := (gn_child_type g, gn_child_id g).

Definition edges_from (source target : GenealogyRow → Entity) (gs : list GenealogyRow)
    (x : Entity) : list Entity :=
  map target (select (λ g, bool_decide (source g = x)) gs).

Fixpoint rounds (fuel : nat) (next : Entity → list Entity) (depth : Z)
    (frontier : list Entity) : list (Entity * Z) :=
  match fuel with
  | O => []
  | S fuel' => map (λ x, (x, depth)) frontier ++
                 rounds fuel' next (depth + 1) (flat_map next frontier)
  end.

Definition max_depth : nat := 64.

Definition tr (source target : GenealogyRow → Entity) (gs : list GenealogyRow)
    (root : Entity) : list (Entity * Z) :=
  let next := edges_from source target gs in rounds max_depth next 1 (next root).

(** [COALESCE(l.lot_no, s.serial_no)] over the two outer joins on primary keys *)
Definition ref_no_of (db : Db) (x : Entity) : option string :=
  if String.eqb x.1 "lot" then lt_lot_no <$> first_where (by_id Lots x.2) (db Lots)
  else if String.eqb x.1 "serial" then
    sl_serial_no <$> first_where (by_id Serials x.2) (db Serials)
  else None.

(** [MIN(t.depth)] of the group of [x] *)
Definition min_depth (rows : list (Entity * Z)) (x : Entity) : Z :=
  match map snd (select (λ r, bool_decide (r.1 = x)) rows) with
  | [] => 0
  | d :: ds => foldr Z.min d ds
  end.

(** [ORDER BY depth, ref_no], nulls last *)
Definition node_le (a b : TraceNode) : bool :=
  (tn_depth a <? tn_depth b) ||
  ((tn_depth a =? tn_depth b) &&
   match tn_ref_no a, tn_ref_no b with
   | Some x, Some y => bool_decide (String.le x y)
   | Some _, None => true
   | None, Some _ => false
   | None, None => true
   end).

(** [to_nodes] of the grouped rows *)
Definition trace_nodes (source target : GenealogyRow → Entity) (root : Entity) (db : Db) :
    list TraceNode :=
  let rows := tr source target (db Genealogy) root in
  sort_by node_le
    (map (λ x, mkTraceNode x.1 x.2 (ref_no_of db x) (min_depth rows x))
       (remove_dups (map fst rows))).

Section trace.
Context {env : Env}.
Abbreviation Repo := (M World RepoError).
Abbreviation Api := (M World ApiErr).

(** ** Repository *)

Definition create_lot (lot_no part_id : string) (qty : Decimal) (uom : string) :
    Repo LotRow :=
  id ← new_id;
  now ← gets w_now;
  map_err map_sqlx (insert Lots (mkLotRow id lot_no part_id qty uom now now)).

Definition create_serial (serial_no part_id : string) (lot_id : option string) :
    Repo SerialRow :=
  id ← new_id;
  now ← gets w_now;
  map_err map_sqlx (insert Serials (mkSerialRow id serial_no part_id lot_id now now)).

Definition same_edge (a b : GenealogyRow) : bool :=
  bool_decide (parent_of a = parent_of b ∧ child_of a = child_of b).

Definition add_genealogy (parent_type parent_id child_type child_id : string)
    (qty : option Decimal) : Repo unit :=
  id ← new_id;
  now ← gets w_now;
  map_err map_sqlx (insert_or_ignore Genealogy same_edge
    (mkGenealogyRow id parent_type parent_id child_type child_id qty now)) ;;
  mret tt.

Definition trace_backward (entity_type entity_id : string) : Repo (list TraceNode) :=
  map_err map_sqlx (query (trace_nodes parent_of child_of (entity_type, entity_id))).

Definition trace_forward (entity_type entity_id : string) : Repo (list TraceNode) :=
  map_err map_sqlx (query (trace_nodes child_of parent_of (entity_type, entity_id))).

Definition holds_entity (entity_type entity_id : string) (h : HoldRow) : bool :=
  String.eqb (hd_entity_type h) entity_type && String.eqb (hd_entity_id h) entity_id &&
  String.eqb (hd_status h) "active".

Definition is_held (entity_type entity_id : string) : Repo bool :=
  map_err map_sqlx (query (λ db, exists_row (holds_entity entity_type entity_id) (db Holds))).

Definition place_hold (entity_type entity_id : string) (reason : option string)
    (created_by : string) : Repo string :=
  id ← new_id;
  now ← gets w_now;
  map_err map_sqlx (insert Holds (mkHoldRow id entity_type entity_id reason "active"
    (Some created_by) None now None None)) ;;
  mret id.

Definition release_hold (hold_id released_by : string) : Repo unit :=
  now ← gets w_now;
  rows ← map_err map_sqlx (update Holds
    (λ h, by_id Holds hold_id h && String.eqb (hd_status h) "active")
    (λ h, h <| hd_status := "released"%string |> <| hd_released_by := Some released_by |>
            <| hd_released_at := Some now |>));
  throw_if (bool_decide (length rows = 0%nat)) NotFound.

Definition check_not_held (entity_type : string) (entity_id : option string)
    (message : string) : Repo unit :=
  match entity_id with
  | Some id => held ← is_held entity_type id; throw_if held (Conflict message)
  | None => mret tt
  end.

Definition issue_material (lot_id serial_id : option string) (qty : Decimal)
    (wo_operation_id : option string) (user_id : string) : Repo string :=
  check_not_held "lot" lot_id "lot is on hold" ;;
  check_not_held "serial" serial_id "serial is on hold" ;;
  id ← new_id;
  now ← gets w_now;
  map_err map_sqlx (insert Material_txns (mkMaterialTxnRow id lot_id serial_id "issue" qty
    wo_operation_id now (Some user_id))) ;;
  mret id.

(** ** Endpoints *)

Definition create_lot_endpoint (auth : AuthUser) (input : LotInput) : Api LotRow :=
  require_pool ;;
  map_err repo_err (create_lot (li_lot_no input) (li_part_id input)
    (default 0 (li_qty input)) (default "ea"%string (li_uom input))).

Definition create_serial_endpoint (auth : AuthUser) (input : SerialInput) : Api SerialRow :=
  require_pool ;;
  map_err repo_err (create_serial (sri_serial_no input) (sri_part_id input)
    (sri_lot_id input)).

Definition add_genealogy_endpoint (auth : AuthUser) (input : GenealogyEdgeInput) : Api unit :=
  require_pool ;;
  map_err repo_err (add_genealogy (gi_parent_type input) (gi_parent_id input)
    (gi_child_type input) (gi_child_id input) (gi_qty input)).

Definition issue_material_endpoint (auth : AuthUser) (input : IssueMaterialInput) :
    Api string :=
  require_pool ;;
  map_err repo_err (issue_material (ii_lot_id input) (ii_serial_id input) (ii_qty input)
    (ii_wo_operation_id input) (user_id auth)).

Definition place_hold_endpoint (auth : AuthUser) (input : HoldInput) : Api string :=
  throw_if (negb (can_manage_quality (role auth)))
    (err 403 "forbidden" "role may not place holds") ;;
  require_pool ;;
  id ← map_err repo_err (place_hold (hi_entity_type input) (hi_entity_id input)
    (hi_reason input) (user_id auth));
  audit (Some (user_id auth)) "hold" (hi_entity_type input) (Some (hi_entity_id input)) None ;;
  mret id.

Definition release_hold_endpoint (auth : AuthUser) (id : string) : Api unit :=
  throw_if (negb (can_manage_quality (role auth)))
    (err 403 "forbidden" "role may not release holds") ;;
  require_pool ;;
  map_err repo_err (release_hold id (user_id auth)).

Definition trace_backward_endpoint (auth : AuthUser) (entity_type entity_id : string) :
    Api (list TraceNode) :=
  require_pool ;; map_err repo_err (trace_backward entity_type entity_id).

Definition trace_forward_endpoint (auth : AuthUser) (entity_type entity_id : string) :
    Api (list TraceNode) :=
  require_pool ;; map_err repo_err (trace_forward entity_type entity_id).

Definition parse_barcode (auth : AuthUser) (code : string) : Api (string * string) :=
  ok_or (Barcode.parse code) (err 400 "bad_barcode" "malformed barcode").
End trace.

(** ** Lemmas *)

(** [x] consumed [y] directly. *)
Definition consumes (db : Db) (x y : Entity) : Prop :=
  ∃ g, g ∈ db Genealogy ∧ parent_of g = x ∧ child_of g = y.

Lemma elem_of_edges_from source target gs x y :
  y ∈ edges_from source target gs x ↔ ∃ g, g ∈ gs ∧ source g = x ∧ target g = y.
Proof.
  unfold edges_from. rewrite list_elem_of_fmap. setoid_rewrite elem_of_select.
  setoid_rewrite bool_decide_eq_true. naive_solver.
Qed.

Lemma elem_of_flat_map {A B} (f : A → list B) l y :
  y ∈ flat_map f l ↔ ∃ x, x ∈ l ∧ y ∈ f x.
Proof.
  rewrite list_elem_of_In, in_flat_map. by setoid_rewrite list_elem_of_In.
Qed.

Section rounds.
Context (next : Entity → list Entity).
Abbreviation step := (λ x y, y ∈ next x).

(** The rows of the recursion: the entities a path leads to, with its length. *)
Lemma elem_of_rounds fuel depth frontier y d :
  (y, d) ∈ rounds fuel next depth frontier ↔
  ∃ k x, (k < fuel)%nat ∧ d = depth + Z.of_nat k ∧ x ∈ frontier ∧ nsteps step k x y.
Proof.
  revert depth frontier. induction fuel as [|fuel IH]; intros depth frontier; simpl.
  { split; [by intros ?%elem_of_nil|]. intros (k & x & Hk & _). lia. }
  rewrite elem_of_app, list_elem_of_fmap, IH. split.
  - intros [(x & [= -> ->] & Hx)|(k & x & Hk & -> & Hx & Hs)].
    + exists 0%nat, x. split_and!; [lia|lia|done|constructor].
    + apply elem_of_flat_map in Hx as (z & Hz & Hxz). exists (S k), z.
      split_and!; [lia|lia|done|]. by econstructor.
  - intros (k & x & Hk & -> & Hx & Hs). destruct Hs as [x|k x z y Hxz Hs].
    + left. exists x. split; [f_equal; lia|done].
    + right. exists k, z. split_and!; [lia|lia| |done]. apply elem_of_flat_map. eauto.
Qed.
End rounds.

Lemma elem_of_tr source target gs root y d :
  (y, d) ∈ tr source target gs root ↔
  1 <= d <= 64 ∧
  nsteps (λ x y, y ∈ edges_from source target gs x) (Z.to_nat d) root y.
Proof.
  unfold tr. rewrite elem_of_rounds. unfold max_depth. split.
  - intros (k & x & Hk & -> & Hx & Hs). split; [lia|].
    replace (Z.to_nat (1 + Z.of_nat k)) with (S k) by lia. by econstructor.
  - intros [Hd Hs]. destruct (Z.to_nat d) as [|k] eqn:Ek; [lia|].
    inversion Hs as [|n x z y' Hxz Hzy]; subst. exists k, z. split_and!; [lia|lia|done|done].
Qed.

(** The least of a non-empty list of depths. *)
Lemma min_depth_spec rows x d :
  (x, d) ∈ rows →
  (x, min_depth rows x) ∈ rows ∧ ∀ e, (x, e) ∈ rows → min_depth rows x <= e.
Proof.
  intros Hd. unfold min_depth. set (ds := map snd _).
  assert (∀ e, e ∈ ds ↔ (x, e) ∈ rows) as Hds.
  { intros e. unfold ds. rewrite list_elem_of_fmap. setoid_rewrite elem_of_select.
    setoid_rewrite bool_decide_eq_true. split.
    - intros ([y e'] & -> & <- & H). done.
    - intros H. by exists (x, e). }
  apply Hds in Hd. destruct ds as [|z zs]; [by apply elem_of_nil in Hd|].
  setoid_rewrite <- Hds. clear. induction zs as [|a zs IH]; simpl.
  - split; [left|]. intros e ->%list_elem_of_singleton. lia.
  - destruct IH as [IH1 IH2]. split.
    + destruct (Z.min_spec a (foldr Z.min z zs)) as [[_ ->]|[_ ->]]; [right; left|].
      apply elem_of_cons in IH1 as [->|IH1]; [left|]. right. by right.
    + intros e He. apply elem_of_cons in He as [->|[->|He]%elem_of_cons]; [|lia|].
      * specialize (IH2 z ltac:(left)). lia.
      * specialize (IH2 e ltac:(by right)). lia.
Qed.

(** [y] lies [d] steps from [root] along [R], and no fewer. *)
Definition distance (R : relation Entity) (d : Z) (root y : Entity) : Prop :=
  1 <= d ∧ nsteps R (Z.to_nat d) root y ∧
  ∀ e, 1 <= e → nsteps R (Z.to_nat e) root y → d <= e.

Lemma nsteps_iff {A} (R R' : relation A) n x y :
  (∀ x y, R x y ↔ R' x y) → nsteps R n x y ↔ nsteps R' n x y.
Proof.
  intros H. split; induction 1; econstructor; naive_solver.
Qed.

Lemma nsteps_flip {A} (R : relation A) n x y : nsteps R n x y → nsteps (flip R) n y x.
Proof. induction 1; [constructor|]. by eapply nsteps_r. Qed.

Lemma distance_iff R R' d x y :
  (∀ x y, R x y ↔ R' x y) → distance R d x y ↔ distance R' d x y.
Proof.
  intros H. unfold distance. rewrite (nsteps_iff R R') by done.
  by setoid_rewrite (nsteps_iff R R' _ x y H).
Qed.

Lemma distance_flip R d x y : distance R d x y → distance (flip R) d y x.
Proof.
  intros (Hd & Hs & Hmin). split_and!; [done|by apply nsteps_flip|].
  intros e He Hs'%nsteps_flip. by apply Hmin.
Qed.

Lemma elem_of_trace_nodes source target root db n :
  n ∈ trace_nodes source target root db ↔
  tn_ref_no n = ref_no_of db (tn_entity n) ∧ tn_depth n <= 64 ∧
  distance (λ x y, ∃ g, g ∈ db Genealogy ∧ source g = x ∧ target g = y) (tn_depth n) root
    (tn_entity n).
Proof.
  unfold trace_nodes. cbv zeta. rewrite elem_of_sort_by, list_elem_of_fmap.
  rewrite <- (distance_iff (λ x y, y ∈ edges_from source target (db Genealogy) x))
    by (intros; apply elem_of_edges_from).
  set (rows := tr source target (db Genealogy) root).
  assert (∀ y d, (y, d) ∈ rows ↔ _) as Hrows by (intros; apply elem_of_tr).
  assert (∀ x, x ∈ remove_dups (map fst rows) ↔ ∃ d, (x, d) ∈ rows) as Hx.
  { intros x. rewrite elem_of_remove_dups, list_elem_of_fmap. split.
    - intros ([y d] & -> & H). eauto.
    - intros [d H]. by exists (x, d). }
  setoid_rewrite Hx. split.
  - intros ([ty id] & -> & (d & Hin)). simpl.
    apply min_depth_spec in Hin as [Hin Hmin]. apply Hrows in Hin as [Hb Hs].
    split_and!; [done|lia|]. split_and!; [lia|done|]. intros e He Hse.
    destruct (decide (e <= 64)); [|lia]. apply Hmin, Hrows. split; [lia|done].
  - intros (Href & Hb & Hd & Hs & Hmin). exists (tn_entity n).
    assert ((tn_entity n, tn_depth n) ∈ rows) as Hin by (apply Hrows; split; [lia|done]).
    split; [|by exists (tn_depth n)].
    apply min_depth_spec in Hin as Hm. destruct Hm as [Hm1 Hm2].
    assert (min_depth rows (tn_entity n) = tn_depth n) as E.
    { specialize (Hm2 _ Hin). apply Hrows in Hm1 as [Hb1 Hs1].
      pose proof (Hmin _ (proj1 Hb1) Hs1). lia. }
    rewrite E. destruct n as [ty id ref d]. unfold tn_entity in *. simpl in *. by rewrite Href.
Qed.

Lemma trace_nodes_sorted source target root db :
  StronglySorted (λ a b, tn_depth a <= tn_depth b) (trace_nodes source target root db).
Proof.
  apply sort_by_first_key; unfold node_le; intros a b H.
  - apply orb_true_iff in H as [H|H]; bool_to_prop; lia.
  - bool_to_prop. done.
Qed.

Lemma trace_nodes_NoDup source target root db :
  NoDup (map tn_entity (trace_nodes source target root db)).
Proof.
  unfold trace_nodes. cbv zeta. rewrite sort_by_perm, map_map.
  rewrite (map_ext _ id) by (by intros []). rewrite map_id. apply NoDup_remove_dups.
Qed.

Section hold_proofs.
Context {env : Env}.

(** The entity is under an active hold. *)
Definition held (db : Db) (entity_type entity_id : string) : Prop :=
  ∃ h, h ∈ db Holds ∧ hd_entity_type h = entity_type ∧ hd_entity_id h = entity_id ∧
    hd_status h = "active"%string.

Lemma holds_entity_true ty id h :
  holds_entity ty id h = true ↔
  hd_entity_type h = ty ∧ hd_entity_id h = id ∧ hd_status h = "active"%string.
Proof. unfold holds_entity. rewrite !andb_true_iff, !String.eqb_eq. tauto. Qed.

Lemma held_exists db ty id : held db ty id ↔ ∃ h, h ∈ db Holds ∧ holds_entity ty id h = true.
Proof. unfold held. by setoid_rewrite holds_entity_true. Qed.

Lemma check_not_held_Ok ty o m u w w' :
  check_not_held ty o m w = (Ok u, w') →
  (∀ id, o = Some id → ~ held (w_db w) ty id) ∧ w_db w' = w_db w ∧
  w_next w' = w_next w ∧ w_now w' = w_now w.
Proof.
  unfold check_not_held, is_held. destruct o as [id|]; intros H; minv.
  - split_and!; [|done..]. intros ? [= <-] Hh. apply held_exists, exists_row_true in Hh. congruence.
  - split_and!; [|done..]. done.
Qed.

(** On a healthy connection the check fails exactly on a held entity. *)
Lemma check_not_held_run ty o m w :
  healthy w →
  check_not_held ty o m w =
    (if default false ((λ id, exists_row (holds_entity ty id) (w_db w Holds)) <$> o)
     then Err (Conflict m) else Ok tt, w).
Proof.
  intros Hh. unfold check_not_held, is_held. destruct o as [id|]; [|done].
  unfold mbind, M_bind. rewrite map_err_run, query_run by done. simpl.
  by destruct (exists_row _ _).
Qed.

Lemma atomic_issue_material lot serial qty op user :
  atomic (issue_material lot serial qty op user).
Proof.
  assert (∀ ty o m, reads (check_not_held ty o m)) as Hr.
  { intros ty o m. unfold check_not_held, is_held. evolve. }
  unfold issue_material. do 4 (apply atomic_bind_reads; [evolve|]; intros ?).
  apply atomic_bind_total; eauto with atomic.
Qed.

Lemma check_not_held_returns ty o m w Q :
  healthy w → (∀ id, o = Some id → ~ held (w_db w) ty id) → Q tt w →
  returns (check_not_held ty o m) w Q.
Proof.
  intros Hh Ho HQ. unfold returns. rewrite check_not_held_run by done.
  destruct o as [id|]; simpl; [|done].
  destruct (exists_row (holds_entity ty id) (w_db w Holds)) eqn:E; [|done].
  apply exists_row_true, held_exists in E. by destruct (Ho id eq_refl).
Qed.

Lemma issue_material_returns lot serial qty op user w :
  healthy w → (∀ l, lot = Some l → ~ held (w_db w) "lot" l) →
  (∀ s, serial = Some s → ~ held (w_db w) "serial" s) →
  ids_from Material_txns (w_next w) (w_db w) →
  present (w_db w) Lots lot = true → present (w_db w) Serials serial = true →
  present (w_db w) Wo_operations op = true → key_exists (w_db w) Users user = true →
  returns (issue_material lot serial qty op user) w (λ _ _, True).
Proof.
  intros Hh Hl Hs Hid Pl Ps Po Pu. unfold issue_material. mgo.
  apply check_not_held_returns; [done..|]. mgo. apply check_not_held_returns; [done..|].
  mgo. mwrite; [|by mgo]. apply check_row_None; [done| |].
  - repeat constructor. by apply (ids_from_fresh Material_txns (w_next w)).
  - simpl. rewrite !Forall_app. split_and!; [by apply present_refs..|by repeat constructor].
Qed.
End hold_proofs.

(** ** Properties *)

Section trace_properties.
Context {env : Env}.

(** [nodes] lists the entities within 64 steps of [root] along [R], each once, at its least
    distance and under its lot or serial number, nearest first. *)
Definition traces (R : relation Entity) (root : Entity) (db : Db) (nodes : list TraceNode) :
    Prop :=
  NoDup (map tn_entity nodes) ∧
  StronglySorted (λ a b, tn_depth a <= tn_depth b) nodes ∧
  (∀ n, n ∈ nodes → tn_ref_no n = ref_no_of db (tn_entity n)) ∧
  ∀ y d, (∃ n, n ∈ nodes ∧ tn_entity n = y ∧ tn_depth n = d) ↔
         d <= 64 ∧ distance R d root y.

Lemma trace_nodes_trace source target R root db :
  (∀ x y, R x y ↔ ∃ g, g ∈ db Genealogy ∧ source g = x ∧ target g = y) →
  traces R root db (trace_nodes source target root db).
Proof.
  intros HR. split_and!; [apply trace_nodes_NoDup|apply trace_nodes_sorted| |].
  - by intros n [? _]%elem_of_trace_nodes.
  - intros y d. rewrite (distance_iff _ _ _ _ _ HR). split.
    + intros (n & (_ & Hb & Hd)%elem_of_trace_nodes & <- & <-). done.
    + intros [Hb Hd]. exists (mkTraceNode y.1 y.2 (ref_no_of db y) d). destruct y as [ty id].
      split; [|done]. by apply elem_of_trace_nodes.
Qed.

(** C27. The two traces are exact over the whole genealogy, cycles included: the backward
    trace lists precisely the entities the root consumed directly or transitively within 64
    levels, the forward trace those it went into, each once and at its least depth, nearest
    first; and they are dual: [y] appears at depth [d] below [x] exactly when [x] appears at
    depth [d] above [y]. *)
Theorem traces_exact x y d w :
  match trace_backward x.1 x.2 w, trace_forward y.1 y.2 w with
  | (Ok down, w1), (Ok up, w2) =>
      w_db w1 = w_db w ∧ w_db w2 = w_db w ∧
      traces (consumes (w_db w)) x (w_db w) down ∧
      traces (flip (consumes (w_db w))) y (w_db w) up ∧
      ((∃ n, n ∈ down ∧ tn_entity n = y ∧ tn_depth n = d) ↔
       (∃ n, n ∈ up ∧ tn_entity n = x ∧ tn_depth n = d))
  | _, _ => True
  end.
Proof.
  destruct (trace_backward x.1 x.2 w) as [[down|] w1] eqn:E1; [|done].
  destruct (trace_forward y.1 y.2 w) as [[up|] w2] eqn:E2; [|done].
  unfold trace_backward in E1. unfold trace_forward in E2. minv.
  rewrite <- !surjective_pairing.
  set (down := trace_nodes parent_of child_of x (w_db w)).
  set (up := trace_nodes child_of parent_of y (w_db w)).
  assert (traces (consumes (w_db w)) x (w_db w) down) as H1.
  { by apply trace_nodes_trace. }
  assert (traces (flip (consumes (w_db w))) y (w_db w) up) as H2.
  { apply trace_nodes_trace. unfold flip, consumes. intros a b. naive_solver. }
  split_and!; [done..|].
  destruct H1 as (_ & _ & _ & H1). destruct H2 as (_ & _ & _ & H2). rewrite H1, H2.
  split; intros [Hb Hd]; split; try done; by apply distance_flip in Hd.
Qed.

(** C26. Material under an active hold is never issued. A successful issue means that
    neither the lot nor the serial named was held, and adds exactly one [issue] transaction;
    a failure changes nothing; on a healthy connection an issue that names a held lot or
    serial is refused as a conflict, and one that names known rows none of which is held
    goes through. *)
Theorem issue_material_exact lot serial qty op user w :
  let blocked := (∃ l, lot = Some l ∧ held (w_db w) "lot" l) ∨
                 (∃ s, serial = Some s ∧ held (w_db w) "serial" s) in
  match issue_material lot serial qty op user w with
  | (Ok id, w') =>
      ~ blocked ∧
      appends Material_txns
        [mkMaterialTxnRow id lot serial "issue" qty op (w_now w) (Some user)] w w'
  | (Err e, w') =>
      w_db w' = w_db w ∧ (healthy w → blocked → ∃ m, e = Conflict m)
  end ∧
  (healthy w → ~ blocked → ids_from Material_txns (w_next w) (w_db w) →
   present (w_db w) Lots lot = true → present (w_db w) Serials serial = true →
   present (w_db w) Wo_operations op = true → key_exists (w_db w) Users user = true →
   is_ok (issue_material lot serial qty op user w).1 = true).
Proof.
  cbv zeta. split; [|intros; eapply returns_ok, issue_material_returns; naive_solver].
  destruct (issue_material lot serial qty op user w) as [[id|e] w'] eqn:E.
  - unfold issue_material in E.
    apply bind_Ok in E as ([] & w1 & (H1 & D1 & N1 & T1)%check_not_held_Ok & E).
    apply bind_Ok in E as ([] & w2 & (H2 & D2 & N2 & T2)%check_not_held_Ok & E). minv.
    rewrite D1 in H2. split; [naive_solver|].
    rewrite T2, T1. split; simpl; [|intros t Ht; rewrite set_table_ne by done];
      rewrite ?set_table_eq, D2, D1; done.
  - split; [by eapply atomic_issue_material|]. intros Hh Hb. revert E.
    unfold issue_material. unfold mbind at 1, M_bind at 1.
    rewrite check_not_held_run by done.
    match goal with |- context [if ?b then _ else _] => destruct b eqn:E1 end;
      [intros E; simpl in E; simplify_eq; by eexists|].
    unfold mbind at 1, M_bind at 1. rewrite check_not_held_run by done.
    match goal with |- context [if ?b then _ else _] => destruct b eqn:E2 end;
      [intros E; simpl in E; simplify_eq; by eexists|].
    destruct Hb as [(l & -> & Hl)|(l & -> & Hl)]; apply held_exists, exists_row_true in Hl;
      simpl in *; congruence.
Qed.

(** Holds stack and are released one by one: once a hold has been placed its entity is
    held; releasing it again leaves every entity held or free exactly as before it was
    placed; it can be released only once. *)
Theorem hold_released_restores ty id reason by_ user h w w1 w2 :
  place_hold ty id reason by_ w = (Ok h, w1) →
  release_hold h user w1 = (Ok tt, w2) →
  held (w_db w1) ty id ∧
  (∀ ty' id', held (w_db w2) ty' id' ↔ held (w_db w) ty' id') ∧
  ∀ user' w3, w_db w3 Holds = w_db w2 Holds → ~ ∃ w4, release_hold h user' w3 = (Ok tt, w4).
Proof.
  intros Hp Hr. unfold place_hold in Hp. unfold release_hold in Hr. minv.
  set (new := mkHoldRow _ _ _ _ _ _ _ _ _ _) in *.
  match goal with H : check_row Holds new _ = None |- _ => rename H into Hc end.
  assert (∀ x, x ∈ w_db w Holds → by_id Holds (hd_id new) x = false) as Hfresh.
  { apply (check_row_fresh Holds new); [done|left]. }
  change (set_table Holds ?l (w_db w) Holds) with l in *.
  assert (∀ f, update_rows (λ h, by_id Holds (ulid (w_next w)) h &&
    String.eqb (hd_status h) "active") f (w_db w Holds ++ [new]) = w_db w Holds ++ [f new])
    as Hupd.
  { intros f. rewrite update_rows_app, update_rows_none.
    - simpl. unfold by_id. simpl. by rewrite String.eqb_refl.
    - intros x Hx. by rewrite (Hfresh x Hx : by_id Holds (ulid (w_next w)) x = false). }
  split_and!.
  - exists new. split; [apply elem_of_app; right; by apply list_elem_of_singleton|].
    done.
  - intros ty' id'. unfold held. rewrite set_table_eq, Hupd. split.
    + intros (x & Hx & Hact). apply elem_of_app in Hx as [Hx|Hx]; [by exists x|].
      apply list_elem_of_singleton in Hx as ->.
      by destruct Hact as (_ & _ & [=]).
    + intros (x & Hx & Hact). exists x. split; [|done]. apply elem_of_app. by left.
  - intros user' w3 H3 [w4 H4]. rewrite set_table_eq, Hupd in H3.
    unfold release_hold in H4. minv.
    match goal with H : bool_decide (length (map _ (select _ (w_db w3 Holds))) = _) = false |- _ =>
      rewrite H3 in H; apply bool_decide_eq_false in H as Hn end.
    apply Hn. rewrite length_map, select_none; [done|]. intros x Hx.
    apply elem_of_app in Hx as [Hx|Hx].
    + by rewrite (Hfresh x Hx : by_id Holds (ulid (w_next w)) x = false).
    + apply list_elem_of_singleton in Hx as ->. by rewrite andb_false_r.
Qed.
End trace_properties.

(** ** Witnesses *)

Definition lot_db : Db :=
  set_table Lots [mkLotRow "l1" "LOT-1" "p1" (5 * 10 ^ 28) "ea" 0 0] plant_db.

Lemma hold_released_restores_witness :
  let w := world_of lot_db in
  let h := @ulid sample_env 0 in
  let placed := place_hold (env := sample_env) "lot" "l1" None "u1" w in
  let released := release_hold (env := sample_env) h "u1" placed.2 in
  placed.1 = Ok h ∧ released.1 = Ok tt ∧
  held (w_db placed.2) "lot" "l1" ∧
  ∀ ty id, held (w_db released.2) ty id ↔ held (w_db w) ty id.
Proof.
  intros w h placed released.
  assert (placed.1 = Ok h) as H1 by (by vm_compute).
  assert (released.1 = Ok tt) as H2 by (by vm_compute).
  destruct (@hold_released_restores sample_env "lot" "l1" None "u1" "u1" h w _ _
    (outcome placed _ H1) (outcome released _ H2)) as (H3 & H4 & _).
  by split_and!.
Defined.

Lemma issue_material_exact_witness :
  is_ok (issue_material (env := sample_env) (Some "l1"%string) None (10 ^ 28) None "u1"
    (world_of lot_db)).1 = true.
Proof.
  apply (proj2 (@issue_material_exact sample_env (Some "l1"%string) None (10 ^ 28) None "u1"
    (world_of lot_db))); [done| |by apply no_ulids_ids_from|done..].
  intros [(l & _ & h & Hh & _)|(s & Hs & _)]; [by apply elem_of_nil in Hh|done].
Defined.

(** ** Observed behaviour *)

(** A hold on a lot does not extend to the serials cut from it: they can be issued. *)
Definition held_lot_db : Db :=
  set_table Serials [mkSerialRow "sn1" "SN-1" "p1" (Some "l1") 0 0] (
  set_table Holds [mkHoldRow "h1" "lot" "l1" None "active" (Some "u1") None 0 None None]
    lot_db).

Example serial_of_held_lot_issued :
  let issue l s := is_ok (issue_material (env := sample_env) l s (10 ^ 28) None "u1"
                            (world_of held_lot_db)).1 in
  issue (Some "l1"%string) None = false ∧ issue None (Some "sn1"%string) = true.
Proof. by vm_compute. Qed.

(** Rows are kept with duplicates and a cycle is only cut by the depth bound, so that the
    query may walk through exponentially many rows: two lots recorded as consuming
    themselves and each other make it produce [2 ^ 65 - 2]. *)
Definition mixed_lots : list GenealogyRow :=
  [mkGenealogyRow "g1" "lot" "A" "lot" "A" None 0;
   mkGenealogyRow "g2" "lot" "A" "lot" "B" None 0;
   mkGenealogyRow "g3" "lot" "B" "lot" "A" None 0;
   mkGenealogyRow "g4" "lot" "B" "lot" "B" None 0].

Lemma rounds_double next (good : Entity → Prop) fuel depth frontier :
  (∀ x, good x → length (next x) = 2%nat ∧ Forall good (next x)) → Forall good frontier →
  Z.of_nat (length (rounds fuel next depth frontier)) =
  Z.of_nat (length frontier) * (2 ^ Z.of_nat fuel - 1).
Proof.
  intros Hn. revert depth frontier. induction fuel as [|fuel IH]; intros depth l Hl; simpl.
  { lia. }
  assert (length (flat_map next l) = 2 * length l ∧ Forall good (flat_map next l))%nat
    as [E HF].
  { induction Hl as [|x l Hx Hl [IHl IHF]]; simpl; [done|]. destruct (Hn x Hx) as [El EF].
    rewrite length_app, Forall_app. split; [lia|done]. }
  rewrite length_app, length_map, Nat2Z.inj_add, IH, E by done.
  rewrite Nat2Z.inj_mul.
  replace (Z.of_nat (S fuel)) with (Z.of_nat fuel + 1) by lia.
  rewrite Z.pow_add_r by lia. lia.
Qed.

Example trace_rows_explode :
  Z.of_nat (length (tr parent_of child_of mixed_lots ("lot", "A")%string)) = 2 ^ 65 - 2.
Proof.
  unfold tr. rewrite (rounds_double _ (λ x, x.1 = "lot" ∧ (x.2 = "A" ∨ x.2 = "B"))%string).
  - done.
  - intros [t i] [Ht Hi]. simpl in *. subst. destruct Hi; subst;
      (split; [done|vm_compute; eauto 20]).
  - vm_compute. eauto 20.
Qed.
