(* ===== verification/Qms.v ===== *)
(** * Quality management

    [crates/mes-db/src/repo_qms.rs] and [crates/mes-edge/src/qms.rs]: inspection plans and
    characteristics, inspection results with the automatic non-conformance report (NCR) and
    holds of a failure, and the disposition of NCRs. The endpoints that share their name
    with the repository call they wrap carry the suffix [_endpoint]. *)

From S2P Require Import Prelude Lifecycle Schema Sql Sample Moves Trace.

Record PlanInput := mkPlanInput { pi_part_id : string; pi_code : string; pi_name : string }.

Record CharacteristicInput := mkCharacteristicInput {
  chi_plan_id : string; chi_name : string; chi_uom : option string;
  chi_nominal : option Decimal; chi_lower_limit : option Decimal;
  chi_upper_limit : option Decimal
}.

Record ResultInput := mkResultInput {
  ri_characteristic_id : string; ri_lot_id : option string; ri_serial_id : option string;
  ri_wo_operation_id : option string; ri_measured_value : Decimal
}.

Record InspectionResult := mkInspectionResult {
  ir_id : string; ir_characteristic_id : string; ir_lot_id : option string;
  ir_serial_id : option string; ir_measured_value : Decimal; ir_result : string;
  ir_created_at : DateTime
}.

Section qms.
Context {env : Env}.
Abbreviation Repo := (M World RepoError).
Abbreviation Api := (M World ApiErr).

(** ** Repository *)

Definition create_plan (part_id code name : string) : Repo PlanRow :=
  id ← new_id;
  now ← gets w_now;
  map_err map_sqlx (insert Inspection_plans (mkPlanRow id part_id code name now now)).

Definition create_characteristic (plan_id name : string) (uom : option string)
    (nominal lower upper : option Decimal) : Repo CharRow :=
  id ← new_id;
  map_err map_sqlx (insert Characteristics
    (mkCharRow id plan_id name uom nominal lower upper)).

(** [format!("NCR-{}", &ncr_id[..10])]; an identifier is 26 characters long. *)
Definition ncr_number (ncr_id : string) : string :=
  String.append "NCR-" (String.substring 0 10 ncr_id).

(** One turn of the loop over [("lot", lot_id), ("serial", serial_id)]. *)
Definition auto_hold (ncr_id inspected_by : string) (entity : string * option string) :
    Repo unit :=
  match entity.2 with
  | Some id =>
      hid ← new_id;
      now ← gets w_now;
      map_err map_sqlx (insert Holds (mkHoldRow hid entity.1 id (Some "NCR auto-hold"%string)
        "active" (Some inspected_by) None now None (Some ncr_id))) ;;
      mret tt
  | None => mret tt
  end.

(** The part of the transaction that follows a failure. *)
Definition raise_ncr (result_id : string) (lot_id serial_id : option string)
    (inspected_by : string) : Repo NcrRow :=
  part_id ← match lot_id with
            | Some l =>
                lot ← map_err map_sqlx (fetch_optional (fetch Lots (by_id Lots l)));
                mret (lt_part_id <$> lot)
            | None => mret None
            end;
  ncr_id ← new_id;
  now ← gets w_now;
  row ← map_err map_sqlx (insert Ncrs
    (mkNcrRow ncr_id (ncr_number ncr_id) (Some result_id) lot_id serial_id part_id "open" None
       (Some "inspection failure"%string) None None now now));
  forM_ [("lot"%string, lot_id); ("serial"%string, serial_id)]
    (auto_hold ncr_id inspected_by) ;;
  mret row.

Definition record_result (characteristic_id : string)
    (lot_id serial_id wo_operation_id : option string) (measured_value : Decimal)
    (inspected_by : string) : Repo (InspectionResult * option NcrRow) :=
  limits ← map_err map_sqlx (fetch_optional
    (fetch Characteristics (by_id Characteristics characteristic_id)));
  c ← ok_or limits NotFound;
  let outcome := evaluate measured_value (ch_lower_limit c) (ch_upper_limit c) in
  '(result_id, ncr) ← transaction map_sqlx (
    result_id ← new_id;
    now ← gets w_now;
    map_err map_sqlx (insert Inspection_results
      (mkResultRow result_id characteristic_id lot_id serial_id wo_operation_id
         measured_value (InspectionOutcome.as_str outcome) (Some inspected_by) now)) ;;
    ncr ← (if bool_decide (outcome = InspectionOutcome.Fail)
           then row ← raise_ncr result_id lot_id serial_id inspected_by; mret (Some row)
           else mret None);
    mret (result_id, ncr));
  now ← gets w_now;
  mret (mkInspectionResult result_id characteristic_id lot_id serial_id measured_value
          (InspectionOutcome.as_str outcome) now, ncr).

Definition get_ncr (id : string) : Repo NcrRow := get_by_id Ncrs id.

Definition list_ncrs : Repo (list NcrRow) :=
  map_err map_sqlx (query (λ db, order_by_desc nc_created_at (db Ncrs))).

Definition dispose (disposition : Disposition.t) (reason : option string) (actor : string)
    (now : DateTime) (r : NcrRow) : NcrRow :=
  r <| nc_status := "dispositioned"%string |>
    <| nc_disposition := Some (Disposition.as_str disposition) |>
    <| nc_reason := match reason with Some x => Some x | None => nc_reason r end |>
    <| nc_dispositioned_by := Some actor |> <| nc_dispositioned_at := Some now |>
    <| nc_updated_at := now |>.

Definition released (actor : string) (now : DateTime) (h : HoldRow) : HoldRow :=
  h <| hd_status := "released"%string |> <| hd_released_by := Some actor |>
    <| hd_released_at := Some now |>.

(** [ncr_id = $1 AND status = 'active'] *)
Definition active_of_ncr (id : string) (h : HoldRow) : bool :=
  bool_decide (hd_ncr_id h = Some id) && String.eqb (hd_status h) "active".

Definition disposition_ncr (id : string) (disposition : Disposition.t)
    (reason : option string) (actor : string) : Repo NcrRow :=
  transaction map_sqlx (
    now ← gets w_now;
    row ← map_err map_sqlx (fetch_optional (update Ncrs
      (λ r, by_id Ncrs id r && String.eqb (nc_status r) "open")
      (dispose disposition reason actor now)));
    row ← ok_or row NotFound;
    (if Disposition.releases_hold disposition then
       map_err map_sqlx (update Holds (active_of_ncr id) (released actor now)) ;; mret tt
     else mret tt) ;;
    mret row).

(** ** Endpoints *)

Definition require_quality (auth : AuthUser) : Api unit :=
  throw_if (negb (can_manage_quality (role auth))) (err 403 "forbidden" "quality role required").

Definition create_plan_endpoint (auth : AuthUser) (input : PlanInput) : Api PlanRow :=
  require_quality auth ;;
  require_pool ;;
  map_err repo_err (create_plan (pi_part_id input) (pi_code input) (pi_name input)).

Definition create_characteristic_endpoint (auth : AuthUser) (input : CharacteristicInput) :
    Api CharRow :=
  require_quality auth ;;
  require_pool ;;
  map_err repo_err (create_characteristic (chi_plan_id input) (chi_name input) (chi_uom input)
    (chi_nominal input) (chi_lower_limit input) (chi_upper_limit input)).

Definition record_result_endpoint (auth : AuthUser) (input : ResultInput) :
    Api (InspectionResult * option NcrRow) :=
  require_pool ;;
  '(result, ncr) ← map_err repo_err (record_result (ri_characteristic_id input)
    (ri_lot_id input) (ri_serial_id input) (ri_wo_operation_id input)
    (ri_measured_value input) (user_id auth));
  (match ncr with
   | Some n =>
       audit (Some (user_id auth)) "raise" "ncr" (Some (nc_id n)) None ;;
       publish (NcrRaised (nc_id n) (nc_ncr_no n) (nc_lot_id n))
   | None => mret tt
   end) ;;
  mret (result, ncr).

Definition list_ncrs_endpoint (auth : AuthUser) : Api (list NcrRow) :=
  require_pool ;; map_err repo_err list_ncrs.

Definition get_ncr_endpoint (auth : AuthUser) (id : string) : Api NcrRow :=
  require_pool ;; map_err repo_err (get_ncr id).

Definition disposition_ncr_endpoint (auth : AuthUser) (id disposition : string)
    (reason : option string) : Api NcrRow :=
  require_quality auth ;;
  require_pool ;;
  d ← ok_or (Disposition.parse disposition)
    (err 400 "bad_disposition" "disposition must be rework|scrap|use_as_is|return");
  ncr ← map_err repo_err (disposition_ncr id d reason (user_id auth));
  audit (Some (user_id auth)) "disposition" "ncr" (Some id)
    (Some (JObj [("disposition"%string, JStr (Disposition.as_str d))])) ;;
  mret ncr.
End qms.

(** ** Lemmas *)

Definition hold_content (h : HoldRow) :=
  (hd_entity_type h, hd_entity_id h, hd_status h, hd_ncr_id h).

(** The holds a failure places: one on the lot, one on the serial, of those that are named. *)
Definition auto_holds (ncr_id : string) (entities : list (string * option string)) :=
  omap (λ e : string * option string,
    (λ id, (e.1, id, "active"%string, Some ncr_id)) <$> e.2) entities.

Definition named (lot serial : option string) : list (string * option string) :=
  [("lot"%string, lot); ("serial"%string, serial)].

Section qms_proofs.
Context {env : Env}.

Lemma auto_holds_Ok ncr_id by_ entities u w w' :
  forM_ entities (auto_hold ncr_id by_) w = (Ok u, w') →
  ∃ hs, map hold_content hs = auto_holds ncr_id entities ∧ appends Holds hs w w'.
Proof.
  revert w. induction entities as [|[ty o] es IH]; simpl; intros w H.
  { minv. exists []. split; [done|apply appends_nil]. }
  apply bind_Ok in H as ([] & w1 & H1 & (hs & Hhs & Ha)%IH).
  unfold auto_hold in H1. simpl in H1. destruct o as [id|]; simpl.
  - apply bind_Ok in H1 as (hid & w2 & [-> ->]%new_id_Ok & H1).
    apply bind_Ok in H1 as (now & w3 & [-> ->]%gets_Ok & H1).
    apply bind_Ok in H1 as (h & w4 & H1%map_err_Ok & [_ ->]%ret_Ok).
    apply (insert_appends Holds) in H1 as [-> H1]. eexists (_ :: hs). apply and_comm. split.
    + eapply (appends_trans Holds [_]); [exact H1|done].
    + unfold auto_holds in *. simpl. by rewrite Hhs.
  - apply ret_Ok in H1 as [_ ->]. eauto.
Qed.

(** What a failure leaves besides the result. *)
Definition ncr_raised (result_id : string) (lot serial : option string) (n : NcrRow)
    (db db' : Db) : Prop :=
  db' Ncrs = db Ncrs ++ [n] ∧ nc_status n = "open"%string ∧
  nc_inspection_result_id n = Some result_id ∧ nc_lot_id n = lot ∧ nc_serial_id n = serial ∧
  (∀ x, x ∈ db Ncrs → nc_id x ≠ nc_id n) ∧
  (∃ hs, map hold_content hs = auto_holds (nc_id n) (named lot serial) ∧
     db' Holds = db Holds ++ hs) ∧
  ∀ t, t ≠ Ncrs → t ≠ Holds → db' t = db t.

Lemma raise_ncr_Ok result_id lot serial by_ n w w' :
  raise_ncr result_id lot serial by_ w = (Ok n, w') →
  ncr_raised result_id lot serial n (w_db w) (w_db w').
Proof.
  unfold raise_ncr. intros H. apply bind_Ok in H as (part & w1 & H1 & H).
  assert (w_db w1 = w_db w) as E1.
  { destruct lot; minv; done. }
  apply bind_Ok in H as (id & w2 & [-> ->]%new_id_Ok & H).
  apply bind_Ok in H as (now & w3 & [-> ->]%gets_Ok & H).
  apply bind_Ok in H as (r & w4 & H2%map_err_Ok & H).
  apply (insert_Ok Ncrs) in H2 as (-> & Hc & ->).
  apply bind_Ok in H as ([] & w5 & (hs & Hhs & Ea & Ef)%auto_holds_Ok & [-> ->]%ret_Ok).
  simpl in *. rewrite E1 in *. split_and!; [|done..| | |].
  - rewrite Ef by done. apply set_table_eq.
  - intros x Hx. assert (same nc_id ∈ uniques Ncrs) as Hu by left.
    pose proof (check_row_fresh Ncrs _ _ Hc Hu x Hx) as E. unfold by_id in E. simpl in E.
    by apply String.eqb_neq in E.
  - exists hs. split; [done|]. by rewrite Ea, set_table_ne.
  - intros t H3 H4. rewrite Ef by done. by apply set_table_ne.
Qed.

Lemma atomic_record_result c lot serial op v by_ : atomic (record_result c lot serial op v by_).
Proof.
  unfold record_result. do 2 (apply atomic_bind_reads; [evolve|]; intros ?).
  apply atomic_bind_total; [apply atomic_transaction|]. intros [] ?. done.
Qed.

(** The measurement lies within the limits that are set. *)
Definition within_limits (v : Decimal) (c : CharRow) : Prop :=
  (∀ lo, ch_lower_limit c = Some lo → lo <= v) ∧
  (∀ hi, ch_upper_limit c = Some hi → v <= hi).

Lemma evaluate_within v c :
  evaluate v (ch_lower_limit c) (ch_upper_limit c) = InspectionOutcome.Pass ↔
  within_limits v c.
Proof.
  unfold evaluate, within_limits.
  destruct (ch_lower_limit c) as [lo|], (ch_upper_limit c) as [hi|];
    repeat case_match; bool_to_prop; split; intros H'; try done;
    try (split; intros ? [= <-]; lia).
  all: destruct H' as [Hlo Hhi]; first [specialize (Hlo _ eq_refl); lia
    | specialize (Hhi _ eq_refl); lia].
Qed.

(** The result row and the outcome. *)
Definition recorded (cid : string) (lot serial op : option string) (v : Decimal)
    (by_ : string) (result : InspectionResult) (ncr : option NcrRow) (w w' : World) : Prop :=
  ∃ c r outcome,
    first_where (by_id Characteristics cid) (w_db w Characteristics) = Some c ∧
    (outcome = InspectionOutcome.Pass ↔ within_limits v c) ∧
    w_db w' Inspection_results = w_db w Inspection_results ++ [r] ∧
    r = mkResultRow (ir_id result) cid lot serial op v (InspectionOutcome.as_str outcome)
          (Some by_) (w_now w) ∧
    ir_result result = InspectionOutcome.as_str outcome ∧
    match outcome with
    | InspectionOutcome.Pass => ncr = None ∧
        ∀ t, t ≠ Inspection_results → w_db w' t = w_db w t
    | InspectionOutcome.Fail => ∃ n, ncr = Some n ∧
        ncr_raised (ir_id result) lot serial n
          (set_table Inspection_results (w_db w Inspection_results ++ [r]) (w_db w)) (w_db w')
    end.

Lemma record_result_Ok cid lot serial op v by_ result ncr w w' :
  record_result cid lot serial op v by_ w = (Ok (result, ncr), w') →
  recorded cid lot serial op v by_ result ncr w w'.
Proof.
  unfold record_result. intros H.
  apply bind_Ok in H as (c & w1 & H1%map_err_Ok & H). minv. simplify_eq.
  exists a, (mkResultRow (ulid (w_next w)) cid lot serial op v (InspectionOutcome.as_str
    (evaluate v (ch_lower_limit a) (ch_upper_limit a))) (Some by_) (w_now w)),
    (evaluate v (ch_lower_limit a) (ch_upper_limit a)).
  split; [done|]. split; [apply evaluate_within|]. simpl.
  destruct (evaluate v _ _) eqn:Ee; simpl in *; minv.
  - split_and!; [reflexivity|done..|]. intros t Ht. by apply set_table_ne.
  - match goal with H : raise_ncr _ _ _ _ _ = _ |- _ => apply raise_ncr_Ok in H as Hn end.
    simpl in Hn. split_and!; [|done..|eauto].
    destruct Hn as (_ & _ & _ & _ & _ & _ & _ & Hf). rewrite Hf by done. reflexivity.
Qed.

(** The holds a failure has placed hold its lot and its serial. *)
Lemma ncr_raised_held result_id lot serial n db db' ty id :
  ncr_raised result_id lot serial n db db' → (ty, Some id) ∈ named lot serial →
  held db' ty id.
Proof.
  intros (_ & _ & _ & _ & _ & _ & (hs & Hhs & Eh) & _) Hin.
  assert ((ty, id, "active"%string, Some (nc_id n)) ∈ map hold_content hs) as H.
  { rewrite Hhs. unfold auto_holds. apply list_elem_of_omap. by exists (ty, Some id). }
  apply list_elem_of_fmap in H as (h & [= -> -> Hs _] & Hh). unfold held. exists h.
  split; [rewrite Eh; apply elem_of_app; by right|done].
Qed.

Lemma disposition_ncr_Ok id d reason actor n w w' :
  disposition_ncr id d reason actor w = (Ok n, w') →
  (∃ old, first_where (λ r, by_id Ncrs id r && String.eqb (nc_status r) "open")
     (w_db w Ncrs) = Some old ∧ n = dispose d reason actor (w_now w) old) ∧
  w_db w' Ncrs = update_rows (λ r, by_id Ncrs id r && String.eqb (nc_status r) "open")
    (dispose d reason actor (w_now w)) (w_db w Ncrs) ∧
  w_db w' Holds =
    (if Disposition.releases_hold d
     then update_rows (active_of_ncr id) (released actor (w_now w)) (w_db w Holds)
     else w_db w Holds) ∧
  ∀ t, t ≠ Ncrs → t ≠ Holds → w_db w' t = w_db w t.
Proof.
  unfold disposition_ncr. intros H. minv.
  match goal with H : Some _ = head _ |- _ => symmetry in H;
    apply head_map_select in H as (old & Hold & ->) end.
  destruct (Disposition.releases_hold d); minv; split_and!; try by eauto.
  intros t H1' H2'. by rewrite !set_table_ne.
  intros t H1' H2'. by rewrite !set_table_ne.
Qed.

(** *** Progress *)

(** What an inspection needs: a characteristic, known rows and user, fresh identifiers, and
    an unused NCR number. *)
Definition inspectable (cid : string) (lot serial op : option string) (by_ : string)
    (w : World) : Prop :=
  healthy w ∧ Inj (=) (=) ulid ∧
  (∀ t, t ∈ [Inspection_results; Ncrs; Holds] → ids_from t (w_next w) (w_db w)) ∧
  key_exists (w_db w) Characteristics cid = true ∧
  present (w_db w) Lots lot = true ∧ present (w_db w) Serials serial = true ∧
  present (w_db w) Wo_operations op = true ∧ key_exists (w_db w) Users by_ = true ∧
  Forall (λ l, key_exists (w_db w) Parts (lt_part_id l) = true) (w_db w Lots) ∧
  Forall (λ n, nc_ncr_no n ≠ ncr_number (ulid (S (w_next w)))) (w_db w Ncrs).

(** Between the automatic holds. *)
Definition holds_to_come (ncr_id by_ : string) (w : World) : Prop :=
  healthy w ∧ ids_from Holds (w_next w) (w_db w) ∧
  key_exists (w_db w) Users by_ = true ∧ key_exists (w_db w) Ncrs ncr_id = true.

Lemma auto_hold_returns `{!Inj (=) (=) ulid} ncr_id by_ entity w :
  holds_to_come ncr_id by_ w →
  returns (auto_hold ncr_id by_ entity) w (λ _ w', holds_to_come ncr_id by_ w').
Proof.
  intros (Hh & Hid & Hu & Hn). unfold auto_hold. destruct (entity.2) as [id|]; mgo; [|done].
  mwrite.
  - apply check_row_None; [done| |by repeat constructor].
    repeat constructor. by apply (ids_from_fresh Holds (w_next w)).
  - mgo. unfold holds_to_come. split_and!; try done. by eapply ids_from_append.
Qed.

Lemma raise_ncr_returns `{!Inj (=) (=) ulid} result lot serial by_ w :
  healthy w → (∀ t, t ∈ [Ncrs; Holds] → ids_from t (w_next w) (w_db w)) →
  key_exists (w_db w) Inspection_results result = true →
  present (w_db w) Lots lot = true → present (w_db w) Serials serial = true →
  key_exists (w_db w) Users by_ = true →
  Forall (λ l, key_exists (w_db w) Parts (lt_part_id l) = true) (w_db w Lots) →
  Forall (λ n, nc_ncr_no n ≠ ncr_number (ulid (w_next w))) (w_db w Ncrs) →
  returns (raise_ncr result lot serial by_) w (λ _ w', healthy w').
Proof.
  intros Hh Hid Hr Pl Ps Pu Hparts Hno. unfold raise_ncr. apply returns_bind.
  apply returns_mono with (Q := λ part w', w' = w ∧ present (w_db w) Parts part = true).
  { destruct lot as [l|]; mgo; [|done]. split; [done|].
    destruct (head _) as [x|] eqn:E; [|done]. simpl.
    apply (first_where_Some (by_id Lots l)) in E as [_ Hin]. rewrite Forall_forall in Hparts.
    by apply Hparts, list_elem_of_In. }
  intros part w' [-> Hpart]. mgo. mwrite.
  - apply check_row_None; [done| |].
    + repeat constructor.
      * apply (ids_from_fresh Ncrs (w_next w)); [|done]. apply Hid. left.
      * apply exists_row_false. intros x Hx. unfold same. simpl. apply bool_decide_eq_false.
        rewrite Forall_forall in Hno. intros E. by apply (Hno x), eq_sym;
          [apply list_elem_of_In|].
    + simpl. constructor; [done|]. rewrite !Forall_app.
      split_and!; [by apply present_refs..|constructor].
  - mgo. eapply returns_mono; [apply (returns_forM (holds_to_come (ulid (w_next w)) by_))|].
    + intros. by apply auto_hold_returns.
    + split_and!; [done| |done|apply (key_exists_inserted Ncrs)].
      eapply ids_from_weaken; [|apply (Hid Holds)]; [simpl; lia|right; left].
    + intros u w1 H1. mgo. apply H1.
Qed.

Lemma record_result_returns cid lot serial op v by_ w :
  inspectable cid lot serial op by_ w →
  returns (record_result cid lot serial op v by_) w (λ _ _, True).
Proof.
  intros (Hh & Hinj & Hids & Hc & Pl & Ps & Po & Pu & Hparts & Hno).
  apply exists_row_true in Hc as (x & Hx & Hk).
  destruct (first_where_exists (by_id Characteristics cid) _ x Hx Hk) as [c Hc].
  unfold record_result. mgo. eapply returns_ok_or; [exact Hc|]. mgo. mwrite.
  - apply check_row_None; [done| |].
    + repeat constructor. apply (ids_from_fresh Inspection_results (w_next w)); [|done].
      apply Hids. left.
    + simpl. constructor; [by apply exists_row_true; exists x|]. rewrite !Forall_app.
      split_and!; [by apply present_refs..|by repeat constructor].
  - mgo. case_bool_decide; mgo; [|done].
    eapply returns_mono; [apply raise_ncr_returns; try done|].
    + intros t Ht. eapply (ids_from_mono t _ (w_db w)).
      * intros r. rewrite !elem_of_cons in Ht. destruct Ht as [->|[->|[]%elem_of_nil]]; done.
      * eapply ids_from_weaken; [|apply Hids; by right]. simpl. lia.
    + apply (key_exists_inserted Inspection_results).
    + intros n w' Hw. mgo. split; [done|]. by mgo.
Qed.

Lemma disposition_ncr_returns id d reason actor old w :
  healthy w → old ∈ w_db w Ncrs → nc_id old = id → nc_status old = "open"%string →
  key_exists (w_db w) Users actor = true →
  returns (disposition_ncr id d reason actor) w (λ _ _, True).
Proof.
  intros Hh Hold Hid Hs Pu. unfold disposition_ncr. mgo.
  destruct (first_where_exists (λ r, by_id Ncrs id r && String.eqb (nc_status r) "open")
    (w_db w Ncrs) old) as [n Hn]; [done| |].
  { unfold by_id. simpl. by rewrite Hid, Hs, String.eqb_refl. }
  mwrite.
  - apply check_update_refs. intros r _. split; [done|]. simpl. rewrite !Forall_app.
    split_and!; [..|constructor; [by right|constructor]].
    all: apply Forall_forall; intros x Hx%list_elem_of_In; left; rewrite !elem_of_app; tauto.
  - mgo. eapply returns_ok_or.
    { unfold first_where in Hn. simpl. by destruct (select _ _); simplify_eq/=. }
    mgo. destruct (Disposition.releases_hold d); mgo; [|done]. mwrite; [|by mgo].
    apply check_update_refs. intros r _. split; [done|]. simpl. apply Forall_app.
    split; [|constructor; [by right|]].
    all: apply Forall_forall; intros x Hx%list_elem_of_In; left; rewrite !elem_of_app; tauto.
Qed.
End qms_proofs.

(** ** Properties *)

Section qms_properties.
Context {env : Env}.

(** C25. An inspection is judged on the server and recorded whole. The measurement is
    compared with the limits stored for the characteristic and the result row carries the
    outcome. A failure raises, in the same transaction, one open NCR linked to the result
    and one active hold linked to the NCR on each of the lot and the serial inspected, so
    that from then on neither can be issued; a pass touches nothing else. Any error
    leaves the database untouched. An inspection of known rows by a known user, whose
    NCR number would be unused, is recorded whatever it measured. *)
Theorem record_result_exact cid lot serial op v by_ w :
  match record_result cid lot serial op v by_ w with
  | (Ok (result, ncr), w') =>
      recorded cid lot serial op v by_ result ncr w w' ∧
      (is_Some ncr → ∀ ty id, (ty, Some id) ∈ named lot serial → held (w_db w') ty id)
  | (Err _, w') => w_db w' = w_db w
  end ∧
  (inspectable cid lot serial op by_ w →
   is_ok (record_result cid lot serial op v by_ w).1 = true).
Proof.
  split; [|intros; by eapply returns_ok, record_result_returns].
  destruct (record_result cid lot serial op v by_ w) as [[[result ncr]|e] w'] eqn:E;
    [|by eapply atomic_record_result].
  apply record_result_Ok in E. split; [done|]. intros [n ->] ty id Hin.
  destruct E as (c & r & outcome & _ & _ & _ & _ & _ & H).
  destruct outcome; [by destruct H|]. destruct H as (n' & [= <-] & H).
  by eapply ncr_raised_held.
Qed.

(** A disposition applies once, to an open NCR, and releases what it should: the NCR
    becomes dispositioned with the decision and its author; for rework and use-as-is every
    active hold of that NCR is released, and no other hold changes; for scrap and
    return the holds stay. An NCR that is not open, or any failure, changes nothing; an open
    one is dispositioned by any known user. *)
Theorem disposition_ncr_exact id d reason actor w :
  match disposition_ncr id d reason actor w with
  | (Ok n, w') =>
      nc_status n = "dispositioned"%string ∧ nc_disposition n = Some (Disposition.as_str d) ∧
      nc_dispositioned_by n = Some actor ∧ nc_dispositioned_at n = Some (w_now w) ∧
      (∃ old, old ∈ w_db w Ncrs ∧ nc_id old = id ∧ nc_status old = "open"%string ∧
         n = dispose d reason actor (w_now w) old) ∧
      (∀ i h, w_db w Holds !! i = Some h → ∃ h', w_db w' Holds !! i = Some h' ∧
         let concerned := (d = Disposition.Rework ∨ d = Disposition.UseAsIs) ∧
           hd_ncr_id h = Some id ∧ hd_status h = "active"%string in
         (concerned → h' = h <| hd_status := "released"%string |>
            <| hd_released_by := Some actor |> <| hd_released_at := Some (w_now w) |>) ∧
         (~ concerned → h' = h)) ∧
      length (w_db w' Holds) = length (w_db w Holds) ∧
      (∀ t, t ≠ Ncrs → t ≠ Holds → w_db w' t = w_db w t) ∧
      (∀ d' reason' actor' w'', w_db w'' = w_db w' →
         is_ok (disposition_ncr id d' reason' actor' w'').1 = false)
  | (Err _, w') => w_db w' = w_db w
  end ∧
  ∀ old, healthy w → old ∈ w_db w Ncrs → nc_id old = id → nc_status old = "open"%string →
    key_exists (w_db w) Users actor = true →
    is_ok (disposition_ncr id d reason actor w).1 = true.
Proof.
  split; [|intros; by eapply returns_ok, disposition_ncr_returns].
  destruct (disposition_ncr id d reason actor w) as [[n|e] w'] eqn:E;
    [|by eapply atomic_transaction].
  apply disposition_ncr_Ok in E as ((old & Hold & ->) & En & Eh & Ef).
  pose proof (first_where_Some _ _ _ Hold) as [Hp Hin]. unfold by_id in Hp. bool_to_prop.
  split_and!; [done..|by exists old| | |done|].
  - intros i h Hi. rewrite Eh.
    assert (active_of_ncr id h = true ↔ hd_ncr_id h = Some id ∧ hd_status h = "active"%string)
      as Ha.
    { unfold active_of_ncr. by rewrite andb_true_iff, bool_decide_eq_true, String.eqb_eq. }
    destruct d; simpl;
      try (exists h; split; [done|]; split; [by intros [[?|?] _]|done]).
    all: eexists; split; [exact (lookup_update_rows _ _ _ _ _ Hi)|].
    all: destruct (active_of_ncr id h); split; [done| |intros [_ Hact]|done].
    all: try (intros Hn; exfalso; apply Hn; split; [auto|by apply Ha]).
    all: by apply Ha in Hact.
  - rewrite Eh. by destruct (Disposition.releases_hold d); rewrite ?length_update_rows.
  - intros d' reason' actor' w'' Ew.
    destruct (disposition_ncr id d' reason' actor' w'') as [[n|e] w3] eqn:E; [|done].
    apply disposition_ncr_Ok in E as ((old' & Hold' & _) & _).
    apply first_where_Some in Hold' as [Hp' Hin']. rewrite Ew, En in Hin'.
    apply elem_of_update_rows in Hin' as (x & Hx & ->).
    destruct (by_id Ncrs id x && String.eqb (nc_status x) "open") eqn:Ex;
      unfold by_id in *; bool_to_prop; simpl in *; [done|].
    by rewrite H1, H2, !String.eqb_refl in Ex.
Qed.

(** Every hold that names an NCR names one that exists. *)
Definition holds_linked (db : Db) : Prop :=
  ∀ h k, h ∈ db Holds → hd_ncr_id h = Some k → key_exists db Ncrs k = true.

(** Rework undoes exactly what the failure did: when the NCR of a failed inspection is
    dispositioned with a releasing disposition, every lot and serial is held or free just
    as it was before the inspection. Other holds on the same lot stay in force. *)
Theorem rework_restores cid lot serial op v by_ d reason actor result n m w w1 w2 :
  holds_linked (w_db w) →
  record_result cid lot serial op v by_ w = (Ok (result, Some n), w1) →
  Disposition.releases_hold d = true →
  disposition_ncr (nc_id n) d reason actor w1 = (Ok m, w2) →
  ∀ ty id, held (w_db w2) ty id ↔ held (w_db w) ty id.
Proof.
  intros Hfk Hrec Hd Hdis ty id. apply record_result_Ok in Hrec as (c & r & outcome & _ & _ & _ & _ & _ & H).
  destruct outcome; [by destruct H|]. destruct H as (n' & [= <-] & H).
  destruct H as (_ & _ & _ & _ & _ & Hfresh & (hs & Hhs & Eh) & _).
  rewrite set_table_ne in Hfresh, Eh by done.
  apply disposition_ncr_Ok in Hdis as (_ & _ & Eh2 & _). rewrite Hd, Eh in Eh2.
  unfold held. rewrite Eh2, update_rows_app, update_rows_none.
  - split; intros (h & Hh & Hact).
    + apply elem_of_app in Hh as [Hh|Hh]; [by exists h|]. exfalso.
      apply elem_of_update_rows in Hh as (x & Hx & ->).
      assert (hold_content x ∈ map hold_content hs) as Hc by (by apply list_elem_of_fmap_2).
      rewrite Hhs in Hc. apply list_elem_of_omap in Hc as ([ety o] & _ & Hc).
      destruct o; simplify_eq/=. unfold hold_content in Hc. injection Hc as _ _ Hs Hn.
      assert (active_of_ncr (nc_id n) x = true) as Ha.
      { unfold active_of_ncr. rewrite <- Hs, <- Hn. by rewrite bool_decide_eq_true_2. }
      rewrite Ha in Hact. by destruct Hact as (_ & _ & [=]).
    + exists h. split; [|done]. apply elem_of_app. by left.
  - intros x Hx. unfold active_of_ncr. apply andb_false_iff. left.
    apply bool_decide_eq_false. intros Hn. specialize (Hfk _ _ Hx Hn).
    apply exists_row_true in Hfk as (k & Hk & E). apply String.eqb_eq in E.
    by apply (Hfresh k).
Qed.
End qms_properties.

(** ** Witnesses *)

Definition inspection_db : Db :=
  set_table Characteristics [mkCharRow "c1" "pl1" "Diameter" (Some "mm"%string) None
                               (Some (9 * 10 ^ 28)) (Some (11 * 10 ^ 28))] (
  set_table Inspection_plans [mkPlanRow "pl1" "p1" "IP-1" "Shaft" 0 0] lot_db).

Definition failed_result : InspectionResult :=
  mkInspectionResult (@ulid sample_env 0) "c1" (Some "l1"%string) None (12 * 10 ^ 28) "fail"
    (seconds 1000).

Definition raised_ncr : NcrRow :=
  mkNcrRow (@ulid sample_env 1) (ncr_number (@ulid sample_env 1)) (Some (@ulid sample_env 0))
    (Some "l1"%string) None (Some "p1"%string) "open" None (Some "inspection failure"%string)
    None None (seconds 1000) (seconds 1000).

Lemma rework_restores_witness :
  let w := world_of inspection_db in
  let failed := record_result (env := sample_env) "c1" (Some "l1"%string) None None
                  (12 * 10 ^ 28) "u1" w in
  let reworked := disposition_ncr (env := sample_env) (nc_id raised_ncr) Disposition.Rework
                    None "u1" failed.2 in
  failed.1 = Ok (failed_result, Some raised_ncr) ∧
  reworked.1 = Ok (dispose Disposition.Rework None "u1" (seconds 1000) raised_ncr) ∧
  ∀ ty id, held (w_db reworked.2) ty id ↔ held (w_db w) ty id.
Proof.
  intros w failed reworked.
  assert (failed.1 = Ok (failed_result, Some raised_ncr)) as H1 by (by vm_compute).
  assert (reworked.1 = Ok (dispose Disposition.Rework None "u1" (seconds 1000) raised_ncr))
    as H2 by (by vm_compute).
  split; [exact H1|]. split; [exact H2|].
  apply (@rework_restores sample_env "c1" (Some "l1"%string) None None (12 * 10 ^ 28) "u1"
    Disposition.Rework None "u1" failed_result raised_ncr
    (dispose Disposition.Rework None "u1" (seconds 1000) raised_ncr) w failed.2 reworked.2).
  - assert (w_db w Holds = []) as E by (vm_compute; reflexivity).
    intros h k Hh. exfalso. rewrite E in Hh. exact (proj1 (elem_of_nil _) Hh).
  - exact (outcome failed _ H1).
  - exact eq_refl.
  - exact (outcome reworked _ H2).
Defined.

Lemma record_result_exact_witness :
  let w := world_of inspection_db in
  inspectable (env := sample_env) "c1" (Some "l1"%string) None None "u1" w ∧
  is_ok (record_result (env := sample_env) "c1" (Some "l1"%string) None None (12 * 10 ^ 28)
           "u1" w).1 = true.
Proof.
  cbv zeta. assert (inspectable (env := sample_env) "c1" (Some "l1"%string) None None "u1"
    (world_of inspection_db)) as H.
  { split_and!; [done|apply sample_ulid_inj| |done..|by repeat constructor|constructor].
    intros t _. apply no_ulids_ids_from. by destruct t. }
  split; [done|]. by apply (@record_result_exact sample_env).
Defined.

Lemma disposition_ncr_exact_witness :
  is_ok (disposition_ncr (env := sample_env) (nc_id raised_ncr) Disposition.Scrap None "u1"
    (world_of (set_table Ncrs [raised_ncr] inspection_db))).1 = true.
Proof.
  eapply (proj2 (@disposition_ncr_exact sample_env (nc_id raised_ncr) Disposition.Scrap None
    "u1" _) raised_ncr); [done|left|done|done|done].
Defined.

(** ** Observed behaviour *)

(** The number of an NCR keeps the first ten characters of its identifier, which in a ULID
    are its time in milliseconds: two failures within one millisecond get the same number,
    and the second inspection is rolled back as a conflict. *)
Example ncr_number_collides :
  let w1 := (record_result (env := sample_env) "c1" (Some "l1"%string) None None
               (12 * 10 ^ 28) "u1" (world_of inspection_db)).2 in
  match record_result (env := sample_env) "c1" (Some "l1"%string) None None (12 * 10 ^ 28)
          "u1" w1 with
  | (Err (Conflict _), w2) => w_db w2 Inspection_results = w_db w1 Inspection_results
  | _ => False
  end.
Proof. by vm_compute. Qed.
