(* ===== verification/Cmms.v ===== *)
(** * Maintenance

    [crates/mes-db/src/repo_cmms.rs] and [crates/mes-edge/src/cmms.rs]: preventive
    maintenance schedules, maintenance work orders, the ledger of spare parts and
    procurement requests. The endpoints that share their name with the repository call
    they wrap carry the suffix [_endpoint]. *)

From S2P Require Import Prelude Lifecycle Schema Sql Sample Moves.

(** What the queries compute in the server's own arithmetic: [EXTRACT(EPOCH FROM d) /
    3600.0] and [d * INTERVAL '1 day'], of a NUMERIC number of days. *)
Class CmmsEnv := {
  epoch_hours : Duration → Decimal;
  interval_days : Decimal → Duration
}.

Record PmScheduleInput := mkPmScheduleInput {
  psi_work_center_id : string; psi_name : string; psi_trigger_type : string;
  psi_interval_value : Decimal; psi_checklist_ref : option string
}.

Record PmDue := mkPmDue { pd_schedule : PmRow; pd_current_usage_h : Decimal }.

Record MaintenanceWoInput := mkMaintenanceWoInput {
  mwi_work_center_id : string; mwi_pm_schedule_id : option string; mwi_wo_type : string;
  mwi_notes : option string
}.

Record MaintenanceTransitionInput := mkMaintenanceTransitionInput {
  mti_status : string; mti_technician_id : option string; mti_failure_code : option string
}.

Record SparePartInput := mkSparePartInput {
  spi_code : string; spi_name : string; spi_uom : option string;
  spi_reorder_point : option Decimal; spi_reorder_qty : option Decimal
}.

(** A spare part with its derived stock. *)
Record SparePart := mkSparePart { spare_row : SpareRow; stock : Decimal }.

Record SpareTxnInput := mkSpareTxnInput {
  sti_spare_part_id : string; sti_maintenance_wo_id : option string; sti_txn_type : string;
  sti_qty : Decimal
}.

Record SpareTxnResponse := mkSpareTxnResponse {
  str_txn_id : string; str_stock : Decimal; str_procurement_request : option ProcRow
}.

Section cmms.
Context {env : Env} {cmms : CmmsEnv}.
Abbreviation Repo := (M World RepoError).
Abbreviation Api := (M World ApiErr).

(** ** PM schedules *)

(** [COALESCE(SUM(... / 3600.0), 0)] over the RUNNING intervals of the work center *)
Definition run_hours (work_center_id : string) (db : Db) : Decimal :=
  sum_rows (λ m, epoch_hours (ms_end_ts m - ms_start_ts m))
    (select (λ m, String.eqb (ms_work_center_id m) work_center_id &&
                  String.eqb (ms_state m) "running") (db Machine_states)).

Definition work_center_run_hours (work_center_id : string) : Repo Decimal :=
  map_err map_sqlx (query (run_hours work_center_id)).

Definition create_pm_schedule (work_center_id name trigger_type : string)
    (interval_value : Decimal) (checklist_ref : option string) : Repo PmRow :=
  trigger ← ok_or (PmTrigger.parse trigger_type)
    (InvalidReference "unknown trigger_type");
  match trigger with
  | PmTrigger.Calendar =>
      id ← new_id;
      now ← gets w_now;
      map_err map_sqlx (insert Pm_schedules
        (mkPmRow id work_center_id name "calendar" interval_value (Some now)
           (Some (now + interval_days interval_value)) None None checklist_ref true now now))
  | PmTrigger.UsageHours =>
      baseline ← work_center_run_hours work_center_id;
      let next_due := usage_next_due baseline interval_value in
      id ← new_id;
      now ← gets w_now;
      map_err map_sqlx (insert Pm_schedules
        (mkPmRow id work_center_id name "usage_hours" interval_value None None
           (Some baseline) (Some next_due) checklist_ref true now now))
  end.

(** The body of the loop of [list_pm_due]. *)
Definition pm_is_due (now : DateTime) (s : PmRow) (current_usage_h : Decimal) : bool :=
  match PmTrigger.parse (pm_trigger_type s) with
  | Some PmTrigger.Calendar =>
      match pm_next_due_at s with Some nd => calendar_is_due nd now | None => false end
  | Some PmTrigger.UsageHours =>
      match pm_next_due_usage_h s with
      | Some nd => usage_is_due nd current_usage_h
      | None => false
      end
  | None => false
  end.

Definition pm_rows (db : Db) : list PmDue :=
  map (λ s, mkPmDue s (run_hours (pm_work_center_id s) db))
    (order_by pm_created_at (select pm_enabled (db Pm_schedules))).

Definition list_pm_due : Repo (list PmDue) :=
  rows ← map_err map_sqlx (query pm_rows);
  now ← gets w_now;
  mret (select (λ r, pm_is_due now (pd_schedule r) (pd_current_usage_h r)) rows).

(** ** Maintenance work orders *)

Definition create_maintenance_wo (work_center_id : string) (pm_schedule_id : option string)
    (wo_type : string) (notes : option string) : Repo MwoRow :=
  ty ← ok_or (MaintenanceType.parse wo_type) (InvalidReference "unknown wo_type");
  id ← new_id;
  now ← gets w_now;
  map_err map_sqlx (insert Maintenance_work_orders
    (mkMwoRow id work_center_id pm_schedule_id (MaintenanceType.as_str ty) "requested" None
       None notes now None None None None now now)).

Definition get_maintenance_wo (id : string) : Repo MwoRow :=
  get_by_id Maintenance_work_orders id.

Definition list_maintenance_wos : Repo (list MwoRow) :=
  map_err map_sqlx (query (λ db, order_by_desc mw_opened_at (db Maintenance_work_orders))).

Definition coalesce {A} (new old : option A) : option A :=
  match new with Some x => Some x | None => old end.

(** [{ts_col} = now()] *)
Definition stamp (next : MaintenanceStatus.t) (now : DateTime) (r : MwoRow) : MwoRow :=
  match next with
  | MaintenanceStatus.Scheduled => r <| mw_scheduled_at := Some now |>
  | MaintenanceStatus.InProgress => r <| mw_started_at := Some now |>
  | MaintenanceStatus.Completed => r <| mw_closed_at := Some now |>
  | MaintenanceStatus.Verified => r <| mw_verified_at := Some now |>
  | MaintenanceStatus.Requested => r <| mw_opened_at := now |>
  end.

Definition advance (next : MaintenanceStatus.t) (technician_id failure_code : option string)
    (now : DateTime) (r : MwoRow) : MwoRow :=
  (stamp next now r) <| mw_status := MaintenanceStatus.as_str next |>
    <| mw_technician_id := coalesce technician_id (mw_technician_id r) |>
    <| mw_failure_code := coalesce failure_code (mw_failure_code r) |>
    <| mw_updated_at := now |>.

Definition transition_maintenance_wo (id next : string)
    (technician_id failure_code : option string) : Repo MwoRow :=
  next ← ok_or (MaintenanceStatus.parse next) (InvalidReference "unknown status");
  transaction map_sqlx (
    row ← map_err map_sqlx (fetch_optional
      (fetch Maintenance_work_orders (by_id Maintenance_work_orders id)));
    row ← ok_or row NotFound;
    cur ← ok_or (MaintenanceStatus.parse (mw_status row)) (Conflict "corrupt status");
    throw_if (negb (MaintenanceStatus.can_transition cur next))
      (Conflict (String.append "cannot move " (String.append (MaintenanceStatus.as_str cur)
        (String.append " -> " (MaintenanceStatus.as_str next))))) ;;
    now ← gets w_now;
    map_err map_sqlx (fetch_one (update Maintenance_work_orders
      (by_id Maintenance_work_orders id) (advance next technician_id failure_code now)))).

(** ** Spare parts and their ledger *)

Definition create_spare_part (code name uom : string) (reorder_point reorder_qty : Decimal) :
    Repo SparePart :=
  id ← new_id;
  row ← map_err map_sqlx (insert Spare_parts
    (mkSpareRow id code name uom reorder_point reorder_qty));
  mret (mkSparePart row 0).

Definition stock_of (spare_part_id : string) (db : Db) : Decimal :=
  sum_rows st_qty
    (select (λ t, String.eqb (st_spare_part_id t) spare_part_id) (db Spare_txns)).

Definition spare_stock (spare_part_id : string) : Repo Decimal :=
  map_err map_sqlx (query (stock_of spare_part_id)).

Definition list_spare_parts : Repo (list SparePart) :=
  map_err map_sqlx (query (λ db,
    map (λ s, mkSparePart s (stock_of (sp_id s) db))
      (sort_by (λ a b, bool_decide (String.le (sp_code a) (sp_code b))) (db Spare_parts)))).

(** The signed stock effect of a movement. *)
Definition signed (txn_type : string) (qty : Decimal) : option Decimal :=
  if String.eqb txn_type "issue" then Some (- Z.abs qty)
  else if String.eqb txn_type "receive" then Some (Z.abs qty)
  else if String.eqb txn_type "adjust" then Some qty
  else None.

Definition reorder_request (id spare_part_id : string) (qty : Decimal) (now : DateTime) :
    ProcRow :=
  mkProcRow id spare_part_id qty (ProcurementReason.as_str ProcurementReason.ReorderPoint)
    "requested" None None now now.

Definition record_spare_txn (spare_part_id : string) (maintenance_wo_id : option string)
    (txn_type : string) (qty : Decimal) (user_id : string) :
    Repo (string * Decimal * option ProcRow) :=
  effect ← ok_or (signed txn_type qty) (InvalidReference "unknown txn_type");
  spare ← map_err map_sqlx (fetch_optional
    (fetch Spare_parts (by_id Spare_parts spare_part_id)));
  spare ← ok_or spare NotFound;
  transaction map_sqlx (
    txn_id ← new_id;
    now ← gets w_now;
    map_err map_sqlx (insert Spare_txns (mkSpareTxnRow txn_id spare_part_id
      maintenance_wo_id txn_type effect now (Some user_id))) ;;
    stock ← map_err map_sqlx (query (stock_of spare_part_id));
    request ←
      (if (stock <=? sp_reorder_point spare) && (0 <? sp_reorder_qty spare) then
         id ← new_id;
         map_err map_sqlx (insert_or_ignore Procurement_requests open_reorder_conflict
           (reorder_request id spare_part_id (sp_reorder_qty spare) now))
       else mret None);
    mret (txn_id, stock, request)).

(** ** Procurement requests *)

Definition create_procurement_request (spare_part_id : string) (qty_requested : Decimal) :
    Repo ProcRow :=
  id ← new_id;
  now ← gets w_now;
  map_err map_sqlx (insert Procurement_requests
    (mkProcRow id spare_part_id qty_requested
       (ProcurementReason.as_str ProcurementReason.Manual) "requested" None None now now)).

Definition list_procurement_requests : Repo (list ProcRow) :=
  map_err map_sqlx (query (λ db, order_by_desc pr_created_at (db Procurement_requests))).

(** ** Endpoints *)

Definition require_maintenance (auth : AuthUser) : Api unit :=
  throw_if (negb (can_manage_maintenance (role auth)))
    (err 403 "forbidden" "maintenance role required").

Definition create_pm_schedule_endpoint (auth : AuthUser) (input : PmScheduleInput) :
    Api PmRow :=
  require_maintenance auth ;;
  require_pool ;;
  sched ← map_err repo_err (create_pm_schedule (psi_work_center_id input) (psi_name input)
    (psi_trigger_type input) (psi_interval_value input) (psi_checklist_ref input));
  audit (Some (user_id auth)) "create" "pm_schedule" (Some (pm_id sched)) None ;;
  mret sched.

Definition list_pm_due_endpoint (auth : AuthUser) : Api (list PmDue) :=
  require_pool ;; map_err repo_err list_pm_due.

Definition create_maintenance_wo_endpoint (auth : AuthUser) (input : MaintenanceWoInput) :
    Api MwoRow :=
  require_maintenance auth ;;
  require_pool ;;
  wo ← map_err repo_err (create_maintenance_wo (mwi_work_center_id input)
    (mwi_pm_schedule_id input) (mwi_wo_type input) (mwi_notes input));
  audit (Some (user_id auth)) "create" "maintenance_wo" (Some (mw_id wo)) None ;;
  mret wo.

Definition list_maintenance_wos_endpoint (auth : AuthUser) : Api (list MwoRow) :=
  require_pool ;; map_err repo_err list_maintenance_wos.

Definition get_maintenance_wo_endpoint (auth : AuthUser) (id : string) : Api MwoRow :=
  require_pool ;; map_err repo_err (get_maintenance_wo id).

Definition transition_maintenance_wo_endpoint (auth : AuthUser) (id : string)
    (input : MaintenanceTransitionInput) : Api MwoRow :=
  require_maintenance auth ;;
  require_pool ;;
  wo ← map_err repo_err (transition_maintenance_wo id (mti_status input)
    (mti_technician_id input) (mti_failure_code input));
  audit (Some (user_id auth)) "transition" "maintenance_wo" (Some id)
    (Some (JObj [("status"%string, JStr (mti_status input))])) ;;
  mret wo.

Definition create_spare_part_endpoint (auth : AuthUser) (input : SparePartInput) :
    Api SparePart :=
  require_maintenance auth ;;
  require_pool ;;
  map_err repo_err (create_spare_part (spi_code input) (spi_name input)
    (default "ea"%string (spi_uom input)) (default 0 (spi_reorder_point input))
    (default 0 (spi_reorder_qty input))).

Definition list_spare_parts_endpoint (auth : AuthUser) : Api (list SparePart) :=
  require_pool ;; map_err repo_err list_spare_parts.

Definition record_spare_txn_endpoint (auth : AuthUser) (input : SpareTxnInput) :
    Api SpareTxnResponse :=
  require_maintenance auth ;;
  require_pool ;;
  '(txn_id, stock, request) ← map_err repo_err (record_spare_txn (sti_spare_part_id input)
    (sti_maintenance_wo_id input) (sti_txn_type input) (sti_qty input) (user_id auth));
  mret (mkSpareTxnResponse txn_id stock request).

Definition list_procurement_requests_endpoint (auth : AuthUser) : Api (list ProcRow) :=
  require_pool ;; map_err repo_err list_procurement_requests.

Definition create_procurement_request_endpoint (auth : AuthUser) (spare_part_id : string)
    (qty_requested : Decimal) : Api ProcRow :=
  require_maintenance auth ;;
  require_pool ;;
  req ← map_err repo_err (create_procurement_request spare_part_id qty_requested);
  audit (Some (user_id auth)) "create" "procurement_request" (Some (pr_id req)) None ;;
  mret req.
End cmms.

(** ** Lemmas *)

Section cmms_proofs.
Context {env : Env} {cmms : CmmsEnv}.

Definition mwo_moves : relation (list (row Maintenance_work_orders)) :=
  moves Maintenance_work_orders mw_status MaintenanceStatus.parse
    MaintenanceStatus.can_transition "requested".

#[global] Instance mwo_moves_preorder : PreOrder mwo_moves.
Proof. exact (moves_preorder Maintenance_work_orders _ _ _ _). Qed.

Lemma advance_key next tech code now r : mw_id (advance next tech code now r) = mw_id r.
Proof. by destruct next. Qed.

Lemma advance_status next tech code now r :
  mw_status (advance next tech code now r) = MaintenanceStatus.as_str next.
Proof. by destruct next. Qed.

Lemma transition_maintenance_wo_Ok id next tech code r w w' :
  transition_maintenance_wo id next tech code w = (Ok r, w') →
  ∃ old cur nxt,
    first_where (by_id Maintenance_work_orders id) (w_db w Maintenance_work_orders) = Some old ∧
    MaintenanceStatus.parse (mw_status old) = Some cur ∧
    MaintenanceStatus.parse next = Some nxt ∧
    MaintenanceStatus.can_transition cur nxt = true ∧
    r = advance nxt tech code (w_now w) old ∧
    w_db w' Maintenance_work_orders = update_rows (by_id Maintenance_work_orders id)
      (advance nxt tech code (w_now w)) (w_db w Maintenance_work_orders) ∧
    ∀ t, t ≠ Maintenance_work_orders → w_db w' t = w_db w t.
Proof.
  unfold transition_maintenance_wo. intros H. minv. bool_to_prop.
  match goal with H : head (map _ _) = Some _ |- _ =>
    apply head_map_select in H as (old & Hold & ->) end.
  match goal with H : Some ?x = head _ |- _ =>
    assert (old = x) as -> by (apply (inj Some); by rewrite <- Hold, H) end.
  do 3 eexists. split_and!; [exact Hold|done..|]. intros t Ht. by apply set_table_ne.
Qed.

Lemma atomic_transition_maintenance_wo id next tech code :
  atomic (transition_maintenance_wo id next tech code).
Proof.
  unfold transition_maintenance_wo. apply atomic_bind_reads; [evolve|]. intros nxt.
  apply atomic_transaction.
Qed.

(** *** The ledger *)

Definition open_reorders (spare_part_id : string) (db : Db) : list ProcRow :=
  select (λ r, is_open_reorder r && String.eqb (pr_spare_part_id r) spare_part_id)
    (db Procurement_requests).

(** At most one automatic request is open per spare part. *)
Definition one_open_reorder (db : Db) : Prop :=
  ∀ id, (length (open_reorders id db) <= 1)%nat.

Lemma conflict_reorders id sid qty now (db : Db) :
  exists_row (open_reorder_conflict (reorder_request id sid qty now))
    (db Procurement_requests) = false ↔ open_reorders sid db = [].
Proof.
  rewrite exists_row_false. unfold open_reorder_conflict, open_reorders.
  assert (∀ x, (is_open_reorder (reorder_request id sid qty now) && is_open_reorder x &&
    same pr_spare_part_id (reorder_request id sid qty now) x) =
    (is_open_reorder x && String.eqb (pr_spare_part_id x) sid)) as E.
  { intros x. simpl. f_equal. unfold same. simpl.
    destruct (String.eqb_spec (pr_spare_part_id x) sid) as [->|Hne].
    - by apply bool_decide_eq_true_2.
    - apply bool_decide_eq_false_2. congruence. }
  setoid_rewrite E. split.
  - intros H. apply select_none. exact H.
  - intros H x Hx. destruct (is_open_reorder x && _) eqn:Ex; [|done].
    assert (x ∈ select (λ r, is_open_reorder r && String.eqb (pr_spare_part_id r) sid)
      (db Procurement_requests)) as Hin by (by apply elem_of_select).
    rewrite H in Hin. by apply elem_of_nil in Hin.
Qed.

(** What a recorded movement has done. *)
Definition moved (sid : string) (mwo : option string) (ty : string) (effect : Decimal)
    (user : string) (spare : SpareRow) (out : string * Decimal * option ProcRow)
    (w w' : World) : Prop :=
  let '(txn, stock, request) := out in
  w_db w' Spare_txns =
    w_db w Spare_txns ++ [mkSpareTxnRow txn sid mwo ty effect (w_now w) (Some user)] ∧
  stock = stock_of sid (w_db w) + effect ∧ stock = stock_of sid (w_db w') ∧
  (match request with
   | Some r => stock <= sp_reorder_point spare ∧ 0 < sp_reorder_qty spare ∧
       open_reorders sid (w_db w) = [] ∧
       pr_spare_part_id r = sid ∧ pr_qty_requested r = sp_reorder_qty spare ∧
       is_open_reorder r = true ∧
       w_db w' Procurement_requests = w_db w Procurement_requests ++ [r]
   | None =>
       (sp_reorder_point spare < stock ∨ sp_reorder_qty spare <= 0 ∨
        open_reorders sid (w_db w) ≠ []) ∧
       w_db w' Procurement_requests = w_db w Procurement_requests
   end) ∧
  ∀ t, t ≠ Spare_txns → t ≠ Procurement_requests → w_db w' t = w_db w t.

Lemma stock_of_append sid (db db' : Db) t :
  db' Spare_txns = db Spare_txns ++ [t] → st_spare_part_id t = sid →
  stock_of sid db' = stock_of sid db + st_qty t.
Proof.
  intros E <-. unfold stock_of. rewrite E, select_app, sum_rows_app. simpl.
  rewrite String.eqb_refl. simpl. lia.
Qed.

Lemma reorder_Ok sid qty now stock point o w w' :
  (if (stock <=? point) && (0 <? qty) then
     id ← new_id;
     map_err map_sqlx (insert_or_ignore Procurement_requests open_reorder_conflict
       (reorder_request id sid qty now))
   else mret None) w = (Ok o, w') →
  match o with
  | Some r => stock <= point ∧ 0 < qty ∧ open_reorders sid (w_db w) = [] ∧
      pr_spare_part_id r = sid ∧ pr_qty_requested r = qty ∧ is_open_reorder r = true ∧
      w_db w' Procurement_requests = w_db w Procurement_requests ++ [r]
  | None => (point < stock ∨ qty <= 0 ∨ open_reorders sid (w_db w) ≠ []) ∧
      w_db w' Procurement_requests = w_db w Procurement_requests
  end ∧ ∀ t, t ≠ Procurement_requests → w_db w' t = w_db w t.
Proof.
  intros H. destruct ((stock <=? point) && (0 <? qty)) eqn:E.
  - bool_to_prop. apply bind_Ok in H as (id & w1 & [-> ->]%new_id_Ok & H%map_err_Ok).
    apply (insert_or_ignore_Ok Procurement_requests) in H
      as [(Hc & -> & ->)|(Hc & -> & _ & ->)]; simpl in *.
    + split; [|done]. split; [|done]. right. right. intros He.
      by rewrite (proj2 (conflict_reorders _ _ _ _ _) He) in Hc.
    + apply conflict_reorders in Hc. split; [by split_and!|].
      intros t Ht. by apply set_table_ne.
  - apply ret_Ok in H as [-> ->]. split; [|done]. split; [|done].
    apply andb_false_iff in E as [E|E]; bool_to_prop; auto.
Qed.

Lemma record_spare_txn_Ok sid mwo ty qty user out w w' :
  record_spare_txn sid mwo ty qty user w = (Ok out, w') →
  ∃ effect spare, signed ty qty = Some effect ∧
    first_where (by_id Spare_parts sid) (w_db w Spare_parts) = Some spare ∧
    moved sid mwo ty effect user spare out w w'.
Proof.
  unfold record_spare_txn. intros H. minv.
  match goal with H : signed ty qty = Some ?e |- _ => exists e; rename e into effect end.
  match goal with H : Some ?s = head _ |- _ => exists s; rename s into spare end.
  split; [done|]. split; [by unfold first_where|].
  match goal with H : (if _ then _ else _) _ = _ |- _ => apply reorder_Ok in H as [Hr Hf] end.
  set (t := mkSpareTxnRow _ _ _ _ _ _ _) in *. cbn [tick w_db] in *.
  set (db1 := set_table Spare_txns _ _) in *.
  assert (stock_of sid db1 = stock_of sid (w_db w) + effect) as Es.
  { by apply (stock_of_append sid (w_db w) db1 t). }
  assert (w_db w7 Spare_txns = w_db w Spare_txns ++ [t]) as Et by (by rewrite Hf).
  split_and!; [exact Et|exact Es| |exact Hr|].
  - rewrite Es. symmetry. by apply (stock_of_append sid (w_db w) (w_db w7) t).
  - intros t' H1' H2'. rewrite Hf by done. by apply set_table_ne.
Qed.

Lemma moved_one_open sid mwo ty effect user spare out w w' :
  moved sid mwo ty effect user spare out w w' →
  one_open_reorder (w_db w) → one_open_reorder (w_db w').
Proof.
  destruct out as [[txn stock] request]. intros (_ & _ & _ & Hr & _) Hone id.
  specialize (Hone id). unfold open_reorders in *. destruct request as [r|].
  - destruct Hr as (_ & _ & Hopen & Hs & _ & Ho & ->).
    rewrite select_app, length_app. simpl. rewrite Ho, Hs. simpl.
    destruct (String.eqb_spec sid id) as [<-|]; simpl; [|lia].
    unfold open_reorders in Hopen. by rewrite Hopen.
  - destruct Hr as [_ ->]. done.
Qed.

Lemma atomic_record_spare_txn sid mwo ty qty user :
  atomic (record_spare_txn sid mwo ty qty user).
Proof.
  unfold record_spare_txn. do 3 (apply atomic_bind_reads; [evolve|]; intros ?).
  apply atomic_transaction.
Qed.

(** *** Due schedules *)

Lemma elem_of_pm_rows db r :
  r ∈ pm_rows db ↔
  pd_schedule r ∈ db Pm_schedules ∧ pm_enabled (pd_schedule r) = true ∧
  pd_current_usage_h r = run_hours (pm_work_center_id (pd_schedule r)) db.
Proof.
  unfold pm_rows. rewrite list_elem_of_fmap. unfold order_by.
  setoid_rewrite elem_of_sort_by. setoid_rewrite elem_of_select. split.
  - intros (s & -> & He & Hs). done.
  - intros (Hs & He & Hu). destruct r as [s u]. simpl in *. subst. eauto.
Qed.

Lemma create_pm_schedule_Ok wc name ty iv cl s w w' :
  create_pm_schedule wc name ty iv cl w = (Ok s, w') →
  appends Pm_schedules [s] w w' ∧ pm_enabled s = true ∧ pm_work_center_id s = wc ∧
  ∀ now usage, pm_is_due now s usage = true ↔
    match PmTrigger.parse ty with
    | Some PmTrigger.Calendar => w_now w + interval_days iv <= now
    | Some PmTrigger.UsageHours => run_hours wc (w_db w) + iv <= usage
    | None => False
    end.
Proof.
  unfold create_pm_schedule, work_center_run_hours. intros H.
  apply bind_Ok in H as (tg & w1 & [Et ->]%ok_or_Ok & H). rewrite Et.
  destruct tg; minv; (split; [split; [apply set_table_eq|intros t Ht; by apply set_table_ne]|]);
    split_and!; try done; intros now usage; unfold pm_is_due; simpl; apply Z.leb_le.
Qed.

(** *** Progress *)

Lemma signed_Some ty qty effect :
  signed ty qty = Some effect →
  ty = "issue"%string ∧ effect = - Z.abs qty ∨ ty = "receive"%string ∧ effect = Z.abs qty ∨
  ty = "adjust"%string ∧ effect = qty.
Proof. unfold signed. intros. repeat case_match; simplify_eq; bool_to_prop; auto. Qed.

Lemma signed_None ty qty :
  signed ty qty = None → ty ∉ ["issue"; "receive"; "adjust"]%string.
Proof. unfold signed. intros. repeat case_match; simplify_eq; bool_to_prop. set_solver. Qed.

Lemma transition_maintenance_returns id next tech code old cur nxt w :
  healthy w → keys_unique Maintenance_work_orders (w_db w Maintenance_work_orders) →
  first_where (by_id Maintenance_work_orders id) (w_db w Maintenance_work_orders)
    = Some old →
  MaintenanceStatus.parse (mw_status old) = Some cur →
  MaintenanceStatus.parse next = Some nxt →
  MaintenanceStatus.can_transition cur nxt = true → present (w_db w) Users tech = true →
  returns (transition_maintenance_wo id next tech code) w (λ _ _, True).
Proof.
  intros Hh Hu Hold Hc Hn Ht Hp. unfold transition_maintenance_wo. mgo.
  eapply returns_ok_or; [done|]. mgo. eapply returns_ok_or; [exact Hold|]. mgo.
  eapply returns_ok_or; [done|]. mgo; [by rewrite Ht|]. mwrite.
  - apply (check_update_by_id Maintenance_work_orders id _ old); [done..|].
    replace (references Maintenance_work_orders (advance nxt tech code (w_now w) old)) with
      ([(Work_centers, mw_work_center_id old)] ++ opt_ref Pm_schedules (mw_pm_schedule_id old)
        ++ opt_ref Users (coalesce tech (mw_technician_id old))) by (by destruct nxt).
    rewrite !Forall_app. split_and!.
    + constructor; [left; left|constructor].
    + apply Forall_forall. intros x Hx%list_elem_of_In. left. simpl. right.
      apply elem_of_app. by left.
    + destruct tech; simpl; [constructor; [by right|constructor]|].
      apply Forall_forall. intros x Hx%list_elem_of_In. left. simpl. right.
      apply elem_of_app. by right.
  - eexists. split; [|by split]. simpl. unfold first_where in Hold.
    by destruct (select _ _); simplify_eq/=.
Qed.

Lemma record_spare_txn_returns sid mwo ty qty user effect spare w :
  healthy w → signed ty qty = Some effect →
  first_where (by_id Spare_parts sid) (w_db w Spare_parts) = Some spare →
  ids_from Spare_txns (w_next w) (w_db w) →
  ids_from Procurement_requests (w_next w) (w_db w) →
  present (w_db w) Maintenance_work_orders mwo = true →
  key_exists (w_db w) Users user = true →
  returns (record_spare_txn sid mwo ty qty user) w (λ _ _, True).
Proof.
  intros Hh Hs Hsp Hid Hidp Pm Pu. unfold record_spare_txn. mgo.
  assert (key_exists (w_db w) Spare_parts sid = true) as Psp.
  { apply first_where_Some in Hsp as [Hk Hin]. apply exists_row_true. by exists spare. }
  eapply returns_ok_or; [done|]. mgo. eapply returns_ok_or; [exact Hsp|]. mgo. mwrite.
  - apply check_row_None; [done| |].
    + repeat constructor. by apply (ids_from_fresh Spare_txns (w_next w)).
    + simpl. constructor; [done|]. apply Forall_app.
      split; [by apply present_refs|by repeat constructor].
  - mgo. case_match; mgo; [|done].
    refine (returns_insert_or_ignore Procurement_requests _ _ _ _ _ _ _); [done|by mgo|].
    intros Hno. split; [|by mgo]. apply check_row_None; [done| |by repeat constructor].
    repeat constructor; [|done].
    apply (ids_from_fresh Procurement_requests (S (w_next w))); [|done].
    eapply ids_from_weaken; [|exact Hidp]. lia.
Qed.
End cmms_proofs.

(** ** Properties *)

Section cmms_properties.
Context {env : Env} {cmms : CmmsEnv}.

(** The due list is exact: it reports the enabled schedules that are due, and only
    those, each with the current run-hours of its work center. A calendar schedule created
    with an interval is due from its creation time plus that interval on, a usage schedule
    once the work center has run the interval's hours more than at its creation. *)
Theorem pm_due_exact w :
  (match list_pm_due w with
   | (Ok due, w') => w_db w' = w_db w ∧ ∀ r, r ∈ due ↔
       (pd_schedule r ∈ w_db w Pm_schedules ∧ pm_enabled (pd_schedule r) = true ∧
        pd_current_usage_h r = run_hours (pm_work_center_id (pd_schedule r)) (w_db w) ∧
        pm_is_due (w_now w) (pd_schedule r) (pd_current_usage_h r) = true)
   | (Err _, w') => w_db w' = w_db w
   end) ∧
  (healthy w → is_ok (list_pm_due w).1 = true) ∧
  ∀ wc name ty iv cl s w', create_pm_schedule wc name ty iv cl w = (Ok s, w') →
    appends Pm_schedules [s] w w' ∧ pm_enabled s = true ∧ pm_work_center_id s = wc ∧
    ∀ now usage, pm_is_due now s usage = true ↔
      match PmTrigger.parse ty with
      | Some PmTrigger.Calendar => w_now w + interval_days iv <= now
      | Some PmTrigger.UsageHours => run_hours wc (w_db w) + iv <= usage
      | None => False
      end.
Proof.
  split; [|split; [|intros *; apply create_pm_schedule_Ok]].
  2: { intros Hh. apply returns_ok with (Q := λ _ _, True). unfold list_pm_due. by mgo. }
  destruct (list_pm_due w) as [[due|e] w'] eqn:E.
  - unfold list_pm_due in E. minv. split; [done|]. intros r.
    rewrite elem_of_select, elem_of_pm_rows. tauto.
  - eapply (atomic_reads list_pm_due); [|exact E]. unfold list_pm_due. evolve.
Qed.

(** A maintenance order advances one lifecycle step at a time: on success the stored
    status allowed the move, the order carries the new status, the stamp of that step and
    the technician and failure code given (kept when none is given), and nothing else
    changes; an unknown or disallowed status, an unknown order or technician, or any failure
    changes nothing. A legal move of an order that exists goes through. *)
Theorem transition_maintenance_exact id next tech code w :
  match transition_maintenance_wo id next tech code w with
  | (Ok r, w') => ∃ old cur nxt,
      first_where (by_id Maintenance_work_orders id) (w_db w Maintenance_work_orders)
        = Some old ∧
      MaintenanceStatus.parse (mw_status old) = Some cur ∧
      MaintenanceStatus.parse next = Some nxt ∧
      MaintenanceStatus.can_transition cur nxt = true ∧
      r = advance nxt tech code (w_now w) old ∧
      mw_status r = MaintenanceStatus.as_str nxt ∧
      match nxt with
      | MaintenanceStatus.Requested => False
      | MaintenanceStatus.Scheduled => mw_scheduled_at r = Some (w_now w)
      | MaintenanceStatus.InProgress => mw_started_at r = Some (w_now w)
      | MaintenanceStatus.Completed => mw_closed_at r = Some (w_now w)
      | MaintenanceStatus.Verified => mw_verified_at r = Some (w_now w)
      end ∧
      mw_technician_id r = (if tech then tech else mw_technician_id old) ∧
      mw_failure_code r = (if code then code else mw_failure_code old) ∧
      w_db w' Maintenance_work_orders = update_rows (by_id Maintenance_work_orders id)
        (advance nxt tech code (w_now w)) (w_db w Maintenance_work_orders) ∧
      mwo_moves (w_db w Maintenance_work_orders) (w_db w' Maintenance_work_orders) ∧
      ∀ t, t ≠ Maintenance_work_orders → w_db w' t = w_db w t
  | (Err _, w') => w_db w' = w_db w
  end ∧
  ∀ old cur nxt, healthy w →
    keys_unique Maintenance_work_orders (w_db w Maintenance_work_orders) →
    first_where (by_id Maintenance_work_orders id) (w_db w Maintenance_work_orders)
      = Some old →
    MaintenanceStatus.parse (mw_status old) = Some cur →
    MaintenanceStatus.parse next = Some nxt →
    MaintenanceStatus.can_transition cur nxt = true → present (w_db w) Users tech = true →
    is_ok (transition_maintenance_wo id next tech code w).1 = true.
Proof.
  split; [|intros; by eapply returns_ok, transition_maintenance_returns].
  destruct (transition_maintenance_wo id next tech code w) as [[r|e] w'] eqn:E;
    [|by eapply atomic_transition_maintenance_wo].
  apply transition_maintenance_wo_Ok in E
    as (old & cur & nxt & Hold & Hc & Hn & Ht & -> & Ew & Ef).
  exists old, cur, nxt. split_and!;
    [done..|by destruct nxt|by destruct cur, nxt|by destruct nxt, tech
    |by destruct nxt, code|done| |done].
  rewrite Ew.
  eapply moves_guarded; [exact Hold|intros x; apply advance_key|].
  exists cur, nxt. rewrite advance_status. by rewrite parse_as_str.
Qed.

(** C28. The stock of a spare part is its ledger. Recording a movement appends one entry with
    the sign of its type and reports the stock after it, which is the sum of the entries; it
    raises a reorder request exactly when that stock is at or below the reorder point, a
    reorder quantity is set and no automatic request is open, so that there is never more
    than one open per part. Any failure changes nothing; a movement of a known type, part,
    user and maintenance order is recorded. *)
Theorem record_spare_txn_exact sid mwo ty qty user w :
  match record_spare_txn sid mwo ty qty user w with
  | (Ok out, w') =>
      (∃ effect spare,
         (ty = "issue"%string ∧ effect = - Z.abs qty ∨
          ty = "receive"%string ∧ effect = Z.abs qty ∨
          ty = "adjust"%string ∧ effect = qty) ∧
         first_where (by_id Spare_parts sid) (w_db w Spare_parts) = Some spare ∧
         moved sid mwo ty effect user spare out w w') ∧
      (one_open_reorder (w_db w) → one_open_reorder (w_db w'))
  | (Err _, w') => w_db w' = w_db w
  end ∧
  ∀ spare, healthy w → ty ∈ ["issue"; "receive"; "adjust"]%string →
    first_where (by_id Spare_parts sid) (w_db w Spare_parts) = Some spare →
    ids_from Spare_txns (w_next w) (w_db w) →
    ids_from Procurement_requests (w_next w) (w_db w) →
    present (w_db w) Maintenance_work_orders mwo = true →
    key_exists (w_db w) Users user = true →
    is_ok (record_spare_txn sid mwo ty qty user w).1 = true.
Proof.
  split.
  2:{ intros spare Hh Hty. intros. destruct (signed ty qty) as [effect|] eqn:Hs.
      - by eapply returns_ok, record_spare_txn_returns.
      - apply signed_None in Hs. done. }
  destruct (record_spare_txn sid mwo ty qty user w) as [[out|e] w'] eqn:E;
    [|by eapply atomic_record_spare_txn].
  apply record_spare_txn_Ok in E as (effect & spare & Hs & Hsp & Hm).
  apply signed_Some in Hs. split; [eauto|]. by eapply moved_one_open.
Qed.
End cmms_properties.

(** ** The properties on a concrete plant *)

#[local] Existing Instance sample_env.

Definition workshop_db : Db :=
  set_table Spare_parts [mkSpareRow "sp1" "BRG" "Bearing" "ea" (2 * 10 ^ 28) (5 * 10 ^ 28)] (
  set_table Maintenance_work_orders [mkMwoRow "mw1" "wc1" None "corrective" "requested" None
                                       None None 0 None None None None 0 0] plant_db).

Lemma transition_maintenance_exact_witness :
  is_ok (transition_maintenance_wo "mw1" "scheduled" (Some "u1"%string) None
    (world_of workshop_db)).1 = true.
Proof.
  eapply (proj2 (transition_maintenance_exact "mw1" "scheduled" (Some "u1"%string) None _));
    [done|evaluate_prop|done|done|done|done|done].
Defined.

Lemma record_spare_txn_exact_witness :
  is_ok (record_spare_txn "sp1" (Some "mw1"%string) "issue" (10 ^ 28) "u1"
    (world_of workshop_db)).1 = true.
Proof.
  eapply (proj2 (record_spare_txn_exact "sp1" (Some "mw1"%string) "issue" (10 ^ 28) "u1" _));
    [done|left|done|by apply no_ulids_ids_from..|done|done].
Defined.
