(* ===== verification/Auth.v ===== *)
(** * Authentication

    Secret hashing, bearer tokens, the two login endpoints and the extractors that turn an
    [Authorization] header into the caller of a request ([crates/mes-edge/src/auth.rs],
    [auth_routes.rs], [extract.rs]; the users' queries of [crates/mes-db/src/repo.rs]).
    The argon2, password-hash and jsonwebtoken crates are parameters ([Crypto]); what the
    code relies on of them is [CryptoLaws]. *)

From Stdlib Require Import Ascii.
From stdpp Require Import countable.
From S2P Require Import Prelude Lifecycle Schema Sql Sample Moves Orders.

(** ** Primitives *)

Record AuthConfig := mkAuthConfig { ac_secret : string; ac_ttl_secs : Z }.

Record Claims := mkClaims { cl_sub : string; cl_role : string; cl_iat : Z; cl_exp : Z }.

Inductive AuthError := AE_Hash | AE_Encode | AE_InvalidToken.

(** The cryptographic crates. A salt is the number of a read of the random source; a token
    is decoded at a time, in epoch seconds. *)
Class Crypto := {
  Phc : Type;                                             (** [PasswordHash] *)
  argon2_hash : nat → string → option Phc;                (** [hash_password] *)
  argon2_verify : string → Phc → bool;                    (** [verify_password(..).is_ok()] *)
  phc_to_string : Phc → string;
  phc_parse : string → option Phc;                        (** [PasswordHash::new] *)
  jwt_encode : string → Claims → option string;
  jwt_decode : string → Z → string → option Claims
}.

(** Their documented behaviour: a hash verifies the password it was made from and survives
    its textual form; claims can be signed; a token decodes, under the secret it was signed with, to the claims it
    was made from, until a leeway of 60 seconds after it expires. *)
Class CryptoLaws (crypto : Crypto) : Prop := {
  argon2_correct salt plain h : argon2_hash salt plain = Some h → argon2_verify plain h = true;
  phc_roundtrip salt plain h :
    argon2_hash salt plain = Some h → phc_parse (phc_to_string h) = Some h;
  jwt_encodes secret c : is_Some (jwt_encode secret c);
  jwt_roundtrip secret now c token :
    jwt_encode secret c = Some token → now <= cl_exp c + 60 →
    jwt_decode secret now token = Some c;
  jwt_expired secret now c token :
    jwt_encode secret c = Some token → cl_exp c + 60 < now →
    jwt_decode secret now token = None
}.

(** ** Requests and responses *)

Record LoginRequest := mkLoginRequest { lq_username : string; lq_password : string }.

Record PinLoginRequest := mkPinLoginRequest {
  plq_username : option string; plq_pin : option string; plq_badge_id : option string
}.

Record LoginResponse := mkLoginResponse {
  lr_token : string; lr_user_id : string; lr_username : string; lr_role_code : string;
  lr_expires_at : Z
}.

(** [UserAuth]: the columns of a user authentication reads. *)
Record UserAuth := mkUserAuth {
  ua_id : string; ua_username : string; ua_role_code : string;
  ua_password_hash : option string; ua_pin_hash : option string; ua_active : bool
}.

Definition user_auth (r : UserRow) : UserAuth :=
  mkUserAuth (us_id r) (us_username r) (us_role_code r) (us_password_hash r) (us_pin_hash r)
    (us_active r).

(** [Option::filter(|s| !s.is_empty())]. *)
Definition nonempty (o : option string) : option string :=
  match o with Some EmptyString => None | _ => o end.

(** [DateTime::timestamp]. *)
Definition timestamp (t : DateTime) : Z := t / 1000000.

Section auth.
Context {env : Env} {crypto : Crypto}.
Abbreviation Repo := (M World RepoError).
Abbreviation Api := (M World ApiErr).

(** *** [auth.rs] *)

Definition hash_secret (plain : string) : M World AuthError string :=
  salt ← draw_random;
  h ← ok_or (argon2_hash salt plain) AE_Hash;
  mret (phc_to_string h).

Definition verify_secret (plain phc : string) : bool :=
  match phc_parse phc with
  | Some parsed => argon2_verify plain parsed
  | None => false
  end.

Definition issue_token (cfg : AuthConfig) (user_id role : string) :
    M World AuthError (string * Z) :=
  now ← gets (λ w, timestamp (w_now w));
  let exp := now + ac_ttl_secs cfg in
  token ← ok_or (jwt_encode (ac_secret cfg) (mkClaims user_id role now exp)) AE_Encode;
  mret (token, exp).

Definition decode_token (cfg : AuthConfig) (token : string) : M World AuthError Claims :=
  now ← gets (λ w, timestamp (w_now w));
  ok_or (jwt_decode (ac_secret cfg) now token) AE_InvalidToken.

(** *** [repo.rs]: users *)

Definition find_auth (p : UserRow → bool) : Repo UserAuth :=
  row ← map_err map_sqlx (fetch_optional (fetch Users p));
  row ← ok_or row NotFound;
  mret (user_auth row).

Definition find_auth_by_username (username : string) : Repo UserAuth :=
  find_auth (λ r, String.eqb (us_username r) username).

Definition find_auth_by_badge (badge_id : string) : Repo UserAuth :=
  find_auth (λ r, bool_decide (us_badge_id r = Some badge_id)).

(** *** [auth_routes.rs] *)

Definition unauthorized : ApiErr := err 401 "unauthorized" "invalid credentials".

(** A user that is not found is not told apart from one that may not log in. *)
Definition login_err (e : RepoError) : ApiErr :=
  match e with NotFound => unauthorized | _ => repo_err e end.

Definition finish_login (cfg : AuthConfig) (user : UserAuth) (method : string) :
    Api LoginResponse :=
  '(token, expires_at) ← map_err (λ _, err 500 "internal" "token error")
    (issue_token cfg (ua_id user) (ua_role_code user));
  pool ← gets w_pool;
  (if pool : bool then
     audit (Some (ua_id user)) "login" "user" (Some (ua_id user))
       (Some (JObj [("method"%string, JStr method)]))
   else mret tt) ;;
  mret (mkLoginResponse token (ua_id user) (ua_username user) (ua_role_code user) expires_at).

(** [is_some_and(|h| verify_secret(plain, h))]. *)
Definition secret_matches (plain : string) (hash : option string) : bool :=
  match hash with Some h => verify_secret plain h | None => false end.

Definition login (cfg : AuthConfig) (body : LoginRequest) : Api LoginResponse :=
  require_pool ;;
  user ← map_err login_err (find_auth_by_username (lq_username body));
  throw_if (negb (ua_active user && secret_matches (lq_password body) (ua_password_hash user)))
    unauthorized ;;
  finish_login cfg user "password".

Definition pin_login (cfg : AuthConfig) (body : PinLoginRequest) : Api LoginResponse :=
  require_pool ;;
  match nonempty (plq_badge_id body) with
  | Some badge =>
      user ← map_err login_err (find_auth_by_badge badge);
      throw_if (negb (ua_active user)) unauthorized ;;
      finish_login cfg user "badge"
  | None =>
      match nonempty (plq_username body), nonempty (plq_pin body) with
      | Some username, Some pin =>
          user ← map_err login_err (find_auth_by_username username);
          throw_if (negb (ua_active user && secret_matches pin (ua_pin_hash user)))
            unauthorized ;;
          finish_login cfg user "pin"
      | _, _ => throw (err 400 "bad_request" "provide badge_id, or username and pin")
      end
  end.

(** *** [extract.rs] *)

(** [AuthUser::from_request_parts] on the value of the [Authorization] header. *)
Definition from_request_parts (cfg : AuthConfig) (header : option string) : Api AuthUser :=
  header ← ok_or header (err 401 "unauthorized" "missing Authorization header");
  token ← ok_or (strip_prefix "Bearer " header)
    (err 401 "unauthorized" "expected Bearer token");
  claims ← map_err (λ _, err 401 "unauthorized" "invalid or expired token")
    (decode_token cfg token);
  mret (mkAuthUser (cl_sub claims) (cl_role claims)).

(** [MasterWriter::from_request_parts]. *)
Definition master_writer_from_request (cfg : AuthConfig) (header : option string) :
    Api AuthUser :=
  user ← from_request_parts cfg header; master_writer user.
End auth.

(** ** Lemmas *)

Section auth_lemmas.
Context {env : Env} {crypto : Crypto}.

Lemma nonempty_Some o s : nonempty o = Some s → o = Some s ∧ s ≠ ""%string.
Proof. destruct o as [[]|]; simpl; intros [= <-]; done. Qed.

(** What a response says of the user it was made for. *)
Definition issued_to (cfg : AuthConfig) (now : DateTime) (u : UserRow) (resp : LoginResponse) :
    Prop :=
  lr_user_id resp = us_id u ∧ lr_username resp = us_username u ∧
  lr_role_code resp = us_role_code u ∧
  lr_expires_at resp = timestamp now + ac_ttl_secs cfg ∧
  jwt_encode (ac_secret cfg)
    (mkClaims (us_id u) (us_role_code u) (timestamp now) (lr_expires_at resp))
    = Some (lr_token resp).

Lemma find_auth_Ok p user w w' :
  find_auth p w = (Ok user, w') →
  ∃ u, first_where p (w_db w Users) = Some u ∧ user = user_auth u ∧ w' = tick w.
Proof.
  unfold find_auth. intros H. minv. simplify_eq. eexists. split_and!; done.
Qed.

Lemma finish_login_Ok cfg u method resp w w' :
  finish_login cfg (user_auth u) method w = (Ok resp, w') → issued_to cfg (w_now w) u resp.
Proof.
  unfold finish_login, issue_token. intros H. minv. by split_and!.
Qed.

(** The run of a lookup that finds nobody, or somebody. *)
Lemma find_auth_run p w :
  healthy w →
  find_auth p w =
    match first_where p (w_db w Users) with
    | Some u => (Ok (user_auth u), w)
    | None => (Err NotFound, w)
    end.
Proof.
  intros Hh. unfold find_auth, fetch_optional, fetch, mbind, M_bind, map_err.
  rewrite query_run by done. unfold first_where. simpl. by destruct (head _).
Qed.

Lemma returns_finish_login cfg u method w (Q : LoginResponse → World → Prop) token :
  let claims := mkClaims (us_id u) (us_role_code u) (timestamp (w_now w))
    (timestamp (w_now w) + ac_ttl_secs cfg) in
  jwt_encode (ac_secret cfg) claims = Some token → w_pool w = true →
  (∀ w', Q (mkLoginResponse token (us_id u) (us_username u) (us_role_code u)
     (timestamp (w_now w) + ac_ttl_secs cfg)) w') →
  returns (finish_login cfg (user_auth u) method) w Q.
Proof.
  intros claims Ht Hp HQ. unfold finish_login, issue_token.
  apply returns_bind, returns_map_err, returns_bind, returns_gets, returns_bind.
  eapply returns_ok_or; [exact Ht|]. apply returns_ret.
  apply returns_bind, returns_gets. rewrite Hp.
  apply returns_bind, returns_best_effort, returns_ret, HQ.
Qed.
End auth_lemmas.

(** ** Properties *)

Section auth_properties.
Context {env : Env} {crypto : Crypto}.

(** C31. Nobody is let in who should not be: whatever the state of the database and the
    connection, a login that succeeds is for a stored, active user whose password (or, at
    the kiosk, whose badge, or PIN) is the one presented, and the token it returns carries
    that user's id and role and expires after the configured time. *)
Theorem login_grants cfg w :
  (∀ body resp w', login cfg body w = (Ok resp, w') →
     ∃ u, u ∈ w_db w Users ∧ us_username u = lq_username body ∧ us_active u = true ∧
       secret_matches (lq_password body) (us_password_hash u) = true ∧
       issued_to cfg (w_now w) u resp) ∧
  (∀ body resp w', pin_login cfg body w = (Ok resp, w') →
     ∃ u, u ∈ w_db w Users ∧ us_active u = true ∧ issued_to cfg (w_now w) u resp ∧
       match nonempty (plq_badge_id body) with
       | Some badge => us_badge_id u = Some badge
       | None => ∃ pin, plq_username body = Some (us_username u) ∧
           plq_pin body = Some pin ∧ secret_matches pin (us_pin_hash u) = true
       end).
Proof.
  split; intros body resp w'.
  - unfold login, find_auth_by_username. intros H. minv.
    apply find_auth_Ok in H1 as (u & [Hu Hin]%first_where_Some & -> & ->).
    apply finish_login_Ok in H. bool_to_prop. by exists u.
  - unfold pin_login. intros H. minv.
    destruct (nonempty (plq_badge_id body)) as [badge|] eqn:Eb.
    + unfold find_auth_by_badge in H. minv.
      apply find_auth_Ok in H1 as (u & [Hu Hin]%first_where_Some & -> & ->).
      apply finish_login_Ok in H. bool_to_prop. by exists u.
    + destruct (nonempty (plq_username body)) as [username|] eqn:Eu; [|by minv].
      destruct (nonempty (plq_pin body)) as [pin|] eqn:Ep; [|by minv].
      unfold find_auth_by_username in H. minv.
      apply find_auth_Ok in H1 as (u & [Hu Hin]%first_where_Some & -> & ->).
      apply finish_login_Ok in H. bool_to_prop. exists u. split_and!; [done..|].
      exists pin. apply nonempty_Some in Eu as [-> _], Ep as [-> _]. split_and!; [congruence|done..].
Qed.

(** C32. A refused login tells nothing apart: over a healthy connection an unknown user, a
    deactivated one, one without a password and a wrong password get the same response and
    leave the same, untouched, world; so do an unknown and a deactivated badge. *)
Theorem login_refusals_uniform cfg w :
  healthy w → w_pool w = true →
  (∀ body, (∀ u, first_where (λ r, String.eqb (us_username r) (lq_username body))
                 (w_db w Users) = Some u →
            us_active u && secret_matches (lq_password body) (us_password_hash u) = false) →
     login cfg body w = (Err unauthorized, w)) ∧
  (∀ body badge, nonempty (plq_badge_id body) = Some badge →
     (∀ u, first_where (λ r, bool_decide (us_badge_id r = Some badge)) (w_db w Users) = Some u →
           us_active u = false) →
     pin_login cfg body w = (Err unauthorized, w)).
Proof.
  intros Hh Hp. split; intros body.
  - intros Hno. unfold login, find_auth_by_username, mbind, M_bind, map_err, require_pool.
    rewrite Hp, find_auth_run by done. destruct (first_where _ _) as [u|]; [|done].
    simpl. by rewrite Hno.
  - intros badge Hb Hno.
    unfold pin_login, find_auth_by_badge, mbind, M_bind, map_err, require_pool.
    rewrite Hp, Hb. rewrite find_auth_run by done.
    destruct (first_where _ _) as [u|]; [|done]. simpl. by rewrite Hno.
Qed.

(** The token of a response, presented later, identifies the user it was issued to until a
    minute after it expires, and nobody afterwards. *)
Lemma issued_token_identifies `{!CryptoLaws crypto} cfg now u resp w :
  issued_to cfg now u resp →
  from_request_parts cfg (Some (String.append "Bearer " (lr_token resp))) w =
    if timestamp (w_now w) <=? lr_expires_at resp + 60
    then (Ok (mkAuthUser (us_id u) (us_role_code u)), w)
    else (Err (err 401 "unauthorized" "invalid or expired token"), w).
Proof.
  intros (_ & _ & _ & _ & Ht).
  pose proof (proj2 (strip_prefix_Some "Bearer " _ (lr_token resp)) eq_refl) as Hs.
  unfold from_request_parts, decode_token, mbind, M_bind, map_err, gets, ok_or.
  cbv beta iota zeta. unfold mret, M_ret. rewrite Hs.
  destruct (timestamp (w_now w) <=? lr_expires_at resp + 60) eqn:E; bool_to_prop.
  - by rewrite (jwt_roundtrip _ _ _ _ Ht).
  - by rewrite (jwt_expired _ _ _ _ Ht) by (simpl; lia).
Qed.
End auth_properties.

(** ** Witnesses *)

(** Crates that keep what they are given in the clear: a concrete instance of the laws. *)

Fixpoint bits (p : positive) : string :=
  match p with
  | xH => EmptyString
  | xO q => String "0"%char (bits q)
  | xI q => String "1"%char (bits q)
  end.

Fixpoint unbits (s : string) : option positive :=
  match s with
  | EmptyString => Some xH
  | String c s' =>
      if Ascii.eqb c "0"%char then xO <$> unbits s'
      else if Ascii.eqb c "1"%char then xI <$> unbits s' else None
  end.

Lemma unbits_bits p : unbits (bits p) = Some p.
Proof. induction p as [p IH|p IH|]; simpl; by rewrite ?IH. Qed.

#[global] Instance Claims_eq_dec : EqDecision Claims.
Proof. solve_decision. Defined.

#[global] Instance Claims_countable : Countable Claims :=
  inj_countable' (λ c, (cl_sub c, cl_role c, cl_iat c, cl_exp c))
    (λ x, mkClaims x.1.1.1 x.1.1.2 x.1.2 x.2) ltac:(by intros []).

Definition sample_crypto : Crypto := {|
  Phc := string;
  argon2_hash _ plain := Some plain;
  argon2_verify plain h := String.eqb plain h;
  phc_to_string h := String.append "$argon2id$" h;
  phc_parse s := strip_prefix "$argon2id$" s;
  jwt_encode secret c := Some (bits (encode (secret, c)));
  jwt_decode secret now token :=
    '(s, c) ← unbits token ≫= decode;
    if String.eqb s secret && (now <=? cl_exp c + 60) then Some c else None
|}.

#[global] Instance sample_crypto_laws : CryptoLaws sample_crypto.
Proof.
  split; simpl.
  - intros _ plain h [= <-]. apply String.eqb_refl.
  - intros _ plain h [= <-]. reflexivity.
  - by eexists.
  - intros secret now c token [= <-] Hexp. rewrite unbits_bits. simpl. rewrite decode_encode. simpl.
    rewrite String.eqb_refl. simpl. by rewrite (proj2 (Z.leb_le _ _) Hexp).
  - intros secret now c token [= <-] Hexp. rewrite unbits_bits. simpl. rewrite decode_encode. simpl.
    rewrite String.eqb_refl. simpl. by rewrite (proj2 (Z.leb_gt _ _) Hexp).
Qed.

Definition sample_auth : AuthConfig := mkAuthConfig "s3cret" 3600.

(** The plant with a password for Ada, who was deactivated, and a badge for Bob. *)
Definition staff : World := world_of
  (set_table Users [mkUserRow "u1" "ada" "Ada" "Admin" (Some "$argon2id$pw"%string) None None
                      false 0 0;
                    mkUserRow "u2" "bob" "Bob" "Admin" (Some "$argon2id$hunter2"%string) None
                      (Some "B-7"%string) true 0 0] plant_db).

Definition bob_logs_in := @login sample_env sample_crypto sample_auth
  (mkLoginRequest "bob" "hunter2") staff.

Definition sample_response (m : Result LoginResponse ApiErr * World) : LoginResponse :=
  match m.1 with Ok r => r | Err _ => mkLoginResponse "" "" "" "" 0 end.

Lemma login_grants_witness :
  bob_logs_in = (Ok (sample_response bob_logs_in), bob_logs_in.2) ∧
  lr_user_id (sample_response bob_logs_in) = "u2"%string ∧
  ∃ u, u ∈ w_db staff Users ∧ us_username u = "bob"%string ∧ us_active u = true.
Proof.
  assert (bob_logs_in = (Ok (sample_response bob_logs_in), bob_logs_in.2)) as H
    by (vm_compute; reflexivity).
  split; [exact H|]. split; [vm_compute; reflexivity|].
  destruct (proj1 (@login_grants sample_env sample_crypto sample_auth staff) _ _ _ H)
    as (u & Hu & Hn & Ha & _). exists u. split; [exact Hu|]. split; [exact Hn|exact Ha].
Defined.

(** Ada's password is right, her account inactive; Carol does not exist. *)
Lemma login_refusals_uniform_witness :
  @login sample_env sample_crypto sample_auth (mkLoginRequest "ada" "pw") staff
    = (Err unauthorized, staff) ∧
  @login sample_env sample_crypto sample_auth (mkLoginRequest "carol" "pw") staff
    = (Err unauthorized, staff).
Proof.
  assert (healthy staff ∧ w_pool staff = true) as [Hh Hp] by (split; reflexivity).
  pose proof (proj1 (@login_refusals_uniform sample_env sample_crypto sample_auth staff Hh Hp))
    as Hl.
  split; apply Hl; intros u Hu; vm_compute in Hu; [injection Hu as <-; reflexivity|discriminate].
Defined.
