(* ===== verification/Master.v ===== *)
(** * Master data

    Maintenance of the equipment hierarchy (sites, areas, work centers), of parts, users and
    programs: the endpoints of [crates/mes-edge/src/master.rs] over the queries of
    [crates/mes-db/src/repo.rs]. Deleting follows the foreign keys ([Cascade]); updating may
    set the unique codes. Every mutation goes through the master-writer gate and is followed
    by a best-effort audit entry. *)

From S2P Require Import Prelude Lifecycle Schema Sql Cascade Integrity Sample Moves Orders Auth.

(** ** Requests *)

Record SiteInput := mkSiteInput {
  si_in_code : string; si_in_name : string; si_in_timezone : option string
}.

Record AreaInput := mkAreaInput {
  ar_in_site_id : string; ar_in_code : string; ar_in_name : string
}.

Record WorkCenterInput := mkWorkCenterInput {
  wc_in_area_id : string; wc_in_code : string; wc_in_name : string;
  wc_in_external_ref : option string
}.

Record PartInput := mkPartInput {
  pt_in_code : string; pt_in_name : string; pt_in_uom : option string
}.

Record UserInput := mkUserInput {
  us_in_username : string; us_in_display_name : string; us_in_role_code : string;
  us_in_password : option string; us_in_pin : option string; us_in_badge_id : option string
}.

(** [mes_client::master::User]: a user without its secrets. *)
Record User := mkUser {
  u_id : string; u_username : string; u_display_name : string; u_role_code : string;
  u_active : bool; u_created_at : DateTime; u_updated_at : DateTime
}.

Definition user_of_row (r : UserRow) : User :=
  mkUser (us_id r) (us_username r) (us_display_name r) (us_role_code r) (us_active r)
    (us_created_at r) (us_updated_at r).

(** [ORDER BY] a text column. *)
Definition order_by_text {A} (f : A → string) (l : list A) : list A :=
  sort_by (λ a b, bool_decide (String.le (f a) (f b))) l.

Section master.
Context {env : Env} {crypto : Crypto}.
Abbreviation Repo := (M World RepoError).
Abbreviation Api := (M World ApiErr).

(** ** Repository *)

(** *** Sites *)

Definition create_site (code name timezone : string) : Repo SiteRow :=
  id ← new_id; now ← gets w_now;
  map_err map_sqlx (insert Sites (mkSiteRow id code name timezone now now)).

Definition list_sites : Repo (list SiteRow) :=
  map_err map_sqlx (query (λ db, order_by_text si_code (db Sites))).

Definition get_site (id : string) : Repo SiteRow := get_by_id Sites id.

Definition update_site (id code name timezone : string) : Repo SiteRow :=
  now ← gets w_now;
  update_unique_by_id Sites id (λ r, r <| si_code := code |> <| si_name := name |>
    <| si_timezone := timezone |> <| si_updated_at := now |>).

Definition delete_site (id : string) : Repo unit := delete_by_id Sites id.

(** *** Areas *)

Definition create_area (site_id code name : string) : Repo AreaRow :=
  id ← new_id; now ← gets w_now;
  map_err map_sqlx (insert Areas (mkAreaRow id site_id code name now now)).

Definition list_areas : Repo (list AreaRow) :=
  map_err map_sqlx (query (λ db, order_by_text ar_code (db Areas))).

Definition get_area (id : string) : Repo AreaRow := get_by_id Areas id.

Definition update_area (id code name : string) : Repo AreaRow :=
  now ← gets w_now;
  update_unique_by_id Areas id (λ r,
    r <| ar_code := code |> <| ar_name := name |> <| ar_updated_at := now |>).

Definition delete_area (id : string) : Repo unit := delete_by_id Areas id.

(** *** Work centers *)

Definition create_work_center (area_id code name : string) (external_ref : option string) :
    Repo WorkCenterRow :=
  id ← new_id; now ← gets w_now;
  map_err map_sqlx (insert Work_centers
    (mkWorkCenterRow id area_id code name external_ref None now now)).

Definition list_work_centers : Repo (list WorkCenterRow) :=
  map_err map_sqlx (query (λ db, order_by_text wc_code (db Work_centers))).

Definition get_work_center (id : string) : Repo WorkCenterRow := get_by_id Work_centers id.

Definition update_work_center (id code name : string) (external_ref : option string) :
    Repo WorkCenterRow :=
  now ← gets w_now;
  update_unique_by_id Work_centers id (λ r, r <| wc_code := code |> <| wc_name := name |>
    <| wc_external_ref := external_ref |> <| wc_updated_at := now |>).

Definition delete_work_center (id : string) : Repo unit := delete_by_id Work_centers id.

(** *** Parts *)

Definition create_part (code name uom : string) : Repo PartRow :=
  id ← new_id; now ← gets w_now;
  map_err map_sqlx (insert Parts (mkPartRow id code name uom now now)).

Definition list_parts : Repo (list PartRow) :=
  map_err map_sqlx (query (λ db, order_by_text pt_code (db Parts))).

Definition get_part (id : string) : Repo PartRow := get_by_id Parts id.

Definition update_part (id code name uom : string) : Repo PartRow :=
  now ← gets w_now;
  update_unique_by_id Parts id (λ r, r <| pt_code := code |> <| pt_name := name |>
    <| pt_uom := uom |> <| pt_updated_at := now |>).

Definition delete_part (id : string) : Repo unit := delete_by_id Parts id.

(** *** Users *)

Definition create_user (username display_name role_code : string)
    (password_hash pin_hash badge_id : option string) : Repo User :=
  id ← new_id; now ← gets w_now;
  row ← map_err map_sqlx (insert Users (mkUserRow id username display_name role_code
    password_hash pin_hash badge_id true now now));
  mret (user_of_row row).

Definition list_users : Repo (list User) :=
  map_err map_sqlx (query (λ db, map user_of_row (order_by_text us_username (db Users)))).

Definition count_audit_for_entity (entity : string) : Repo Z :=
  map_err map_sqlx (query (λ db,
    Z.of_nat (length (select (λ r, String.eqb (au_entity r) entity) (db Audit_log))))).

(** ** Endpoints *)

(** A mutation: gate, pool, repository call, audit entry. *)
Definition audited {A} (auth : AuthUser) (action entity : string) (id : A → string)
    (m : Api A) : Api A :=
  actor ← master_writer auth;
  require_pool ;;
  a ← m;
  audit (Some (user_id actor)) action entity (Some (id a)) None ;;
  mret a.

(** A read by any authenticated caller. *)
Definition reading {A} (m : Repo A) : Api A := require_pool ;; map_err repo_err m.

Definition create_site_endpoint (auth : AuthUser) (input : SiteInput) : Api SiteRow :=
  audited auth "create" "site" si_id (map_err repo_err
    (create_site (si_in_code input) (si_in_name input)
       (default "Asia/Kolkata" (si_in_timezone input)))).

Definition list_sites_endpoint (auth : AuthUser) : Api (list SiteRow) := reading list_sites.
Definition get_site_endpoint (auth : AuthUser) (id : string) : Api SiteRow :=
  reading (get_site id).

Definition update_site_endpoint (auth : AuthUser) (id : string) (input : SiteInput) :
    Api SiteRow :=
  audited auth "update" "site" (λ _, id) (map_err repo_err
    (update_site id (si_in_code input) (si_in_name input)
       (default "Asia/Kolkata" (si_in_timezone input)))).

Definition delete_site_endpoint (auth : AuthUser) (id : string) : Api unit :=
  audited auth "delete" "site" (λ _, id) (map_err repo_err (delete_site id)).

Definition create_area_endpoint (auth : AuthUser) (input : AreaInput) : Api AreaRow :=
  audited auth "create" "area" ar_id (map_err repo_err
    (create_area (ar_in_site_id input) (ar_in_code input) (ar_in_name input))).

Definition list_areas_endpoint (auth : AuthUser) : Api (list AreaRow) := reading list_areas.
Definition get_area_endpoint (auth : AuthUser) (id : string) : Api AreaRow :=
  reading (get_area id).

Definition update_area_endpoint (auth : AuthUser) (id : string) (input : AreaInput) :
    Api AreaRow :=
  audited auth "update" "area" (λ _, id) (map_err repo_err
    (update_area id (ar_in_code input) (ar_in_name input))).

Definition delete_area_endpoint (auth : AuthUser) (id : string) : Api unit :=
  audited auth "delete" "area" (λ _, id) (map_err repo_err (delete_area id)).

Definition create_work_center_endpoint (auth : AuthUser) (input : WorkCenterInput) :
    Api WorkCenterRow :=
  audited auth "create" "work_center" wc_id (map_err repo_err
    (create_work_center (wc_in_area_id input) (wc_in_code input) (wc_in_name input)
       (wc_in_external_ref input))).

Definition list_work_centers_endpoint (auth : AuthUser) : Api (list WorkCenterRow) :=
  reading list_work_centers.
Definition get_work_center_endpoint (auth : AuthUser) (id : string) : Api WorkCenterRow :=
  reading (get_work_center id).

Definition update_work_center_endpoint (auth : AuthUser) (id : string)
    (input : WorkCenterInput) : Api WorkCenterRow :=
  audited auth "update" "work_center" (λ _, id) (map_err repo_err
    (update_work_center id (wc_in_code input) (wc_in_name input) (wc_in_external_ref input))).

Definition delete_work_center_endpoint (auth : AuthUser) (id : string) : Api unit :=
  audited auth "delete" "work_center" (λ _, id) (map_err repo_err (delete_work_center id)).

Definition create_part_endpoint (auth : AuthUser) (input : PartInput) : Api PartRow :=
  audited auth "create" "part" pt_id (map_err repo_err
    (create_part (pt_in_code input) (pt_in_name input) (default "ea" (pt_in_uom input)))).

Definition list_parts_endpoint (auth : AuthUser) : Api (list PartRow) := reading list_parts.
Definition get_part_endpoint (auth : AuthUser) (id : string) : Api PartRow :=
  reading (get_part id).

Definition update_part_endpoint (auth : AuthUser) (id : string) (input : PartInput) :
    Api PartRow :=
  audited auth "update" "part" (λ _, id) (map_err repo_err
    (update_part id (pt_in_code input) (pt_in_name input) (default "ea" (pt_in_uom input)))).

Definition delete_part_endpoint (auth : AuthUser) (id : string) : Api unit :=
  audited auth "delete" "part" (λ _, id) (map_err repo_err (delete_part id)).

(** An empty secret is no secret. *)
Definition hash_optional (plain : option string) : Api (option string) :=
  match nonempty plain with
  | Some p =>
      h ← map_err (λ _, err 500 "internal" "hash error") (hash_secret p);
      mret (Some h)
  | None => mret None
  end.

Definition create_user_endpoint (auth : AuthUser) (input : UserInput) : Api User :=
  audited auth "create" "user" u_id (
    password_hash ← hash_optional (us_in_password input);
    pin_hash ← hash_optional (us_in_pin input);
    map_err repo_err (create_user (us_in_username input) (us_in_display_name input)
      (us_in_role_code input) password_hash pin_hash (nonempty (us_in_badge_id input)))).

Definition list_users_endpoint (auth : AuthUser) : Api (list User) :=
  master_writer auth ;; reading list_users.

Definition create_program_endpoint (auth : AuthUser) (input : ProgramInput) : Api ProgramRow :=
  audited auth "create" "program" pg_id (map_err repo_err (create_program input)).

Definition list_programs_endpoint (auth : AuthUser) : Api (list ProgramRow) :=
  reading list_programs.
End master.

(** ** Requests as data *)

(** The mutating routes of [routes()]. *)
Inductive master_request :=
  | CreateSite (input : SiteInput)
  | UpdateSite (id : string) (input : SiteInput)
  | DeleteSite (id : string)
  | CreateArea (input : AreaInput)
  | UpdateArea (id : string) (input : AreaInput)
  | DeleteArea (id : string)
  | CreateWorkCenter (input : WorkCenterInput)
  | UpdateWorkCenter (id : string) (input : WorkCenterInput)
  | DeleteWorkCenter (id : string)
  | CreatePart (input : PartInput)
  | UpdatePart (id : string) (input : PartInput)
  | DeletePart (id : string)
  | CreateUser (input : UserInput)
  | CreateProgram (input : ProgramInput).

Definition master_handle {env : Env} {crypto : Crypto} (auth : AuthUser) (r : master_request) :
    M World ApiErr unit :=
  match r with
  | CreateSite input => ignore (create_site_endpoint auth input)
  | UpdateSite id input => ignore (update_site_endpoint auth id input)
  | DeleteSite id => delete_site_endpoint auth id
  | CreateArea input => ignore (create_area_endpoint auth input)
  | UpdateArea id input => ignore (update_area_endpoint auth id input)
  | DeleteArea id => delete_area_endpoint auth id
  | CreateWorkCenter input => ignore (create_work_center_endpoint auth input)
  | UpdateWorkCenter id input => ignore (update_work_center_endpoint auth id input)
  | DeleteWorkCenter id => delete_work_center_endpoint auth id
  | CreatePart input => ignore (create_part_endpoint auth input)
  | UpdatePart id input => ignore (update_part_endpoint auth id input)
  | DeletePart id => delete_part_endpoint auth id
  | CreateUser input => ignore (create_user_endpoint auth input)
  | CreateProgram input => ignore (create_program_endpoint auth input)
  end.

(** What the audit trail calls a request. *)
Definition trail (r : master_request) : string * string :=
  match r with
  | CreateSite _ => ("create", "site")
  | UpdateSite _ _ => ("update", "site")
  | DeleteSite _ => ("delete", "site")
  | CreateArea _ => ("create", "area")
  | UpdateArea _ _ => ("update", "area")
  | DeleteArea _ => ("delete", "area")
  | CreateWorkCenter _ => ("create", "work_center")
  | UpdateWorkCenter _ _ => ("update", "work_center")
  | DeleteWorkCenter _ => ("delete", "work_center")
  | CreatePart _ => ("create", "part")
  | UpdatePart _ _ => ("update", "part")
  | DeletePart _ => ("delete", "part")
  | CreateUser _ => ("create", "user")
  | CreateProgram _ => ("create", "program")
  end%string.

(** The identifier in the path of a request, when it has one. *)
Definition subject (r : master_request) : option string :=
  match r with
  | UpdateSite id _ | DeleteSite id | UpdateArea id _ | DeleteArea id
  | UpdateWorkCenter id _ | DeleteWorkCenter id | UpdatePart id _ | DeletePart id => Some id
  | _ => None
  end.

(** The table a request is about, and whether it takes its subject out of it. *)
Definition kind (r : master_request) : table :=
  match r with
  | CreateSite _ | UpdateSite _ _ | DeleteSite _ => Sites
  | CreateArea _ | UpdateArea _ _ | DeleteArea _ => Areas
  | CreateWorkCenter _ | UpdateWorkCenter _ _ | DeleteWorkCenter _ => Work_centers
  | CreatePart _ | UpdatePart _ _ | DeletePart _ => Parts
  | CreateUser _ => Users
  | CreateProgram _ => Programs
  end.

Definition is_delete (r : master_request) : bool :=
  match r with
  | DeleteSite _ | DeleteArea _ | DeleteWorkCenter _ | DeletePart _ => true
  | _ => false
  end.

(** ** Lemmas *)

Section audited.
Context {env : Env} {A : Type}.
Implicit Types (m : M World ApiErr A).

Lemma audited_gate auth action entity id m w :
  can_write_master (role auth) = false →
  audited auth action entity id m w =
    (Err (err 403 "forbidden" "role may not modify master data"), w).
Proof. intros H. unfold audited, master_writer. by rewrite H. Qed.

Lemma audited_Ok auth action entity id m a w w' :
  audited auth action entity id m w = (Ok a, w') →
  can_write_master (role auth) = true ∧ w_pool w = true ∧
  ∃ w1, m w = (Ok a, w1) ∧
    w' = (insert_audit (Some (user_id auth)) action entity (Some (id a)) None w1).2.
Proof.
  unfold audited, master_writer. destruct (can_write_master (role auth)); [|done].
  unfold audit. intros H. minv. split_and!; [done..|]. eexists. split; done.
Qed.

(** A refused mutation leaves the database alone when its repository call does. *)
Lemma atomic_audited auth action entity id m :
  atomic m → atomic (audited auth action entity id m).
Proof.
  intros Hm. unfold audited, master_writer. destruct (can_write_master (role auth)).
  - apply atomic_bind_reads; [evolve|]. intros actor.
    apply atomic_bind_reads; [apply reads_require_pool|]. intros [].
    apply atomic_bind_total; [done|]. intros a. apply total_bind; [apply total_best_effort|].
    intros []. apply total_ret.
  - by intros w e w' [= <- <-].
Qed.

Lemma typed_audited auth action entity id m :
  typed m → typed (audited auth action entity id m).
Proof.
  intros Hm. unfold audited, master_writer. case_match; evolve.
Qed.

(** The run of an admitted mutation. *)
Lemma audited_run auth action entity id m w :
  can_write_master (role auth) = true → w_pool w = true →
  audited auth action entity id m w =
    match m w with
    | (Ok a, w1) =>
        (Ok a, (insert_audit (Some (user_id auth)) action entity (Some (id a)) None w1).2)
    | (Err e, w1) => (Err e, w1)
    end.
Proof.
  intros Hc Hp. unfold audited, master_writer. rewrite Hc.
  unfold mbind, M_bind, mret, M_ret, require_pool. rewrite Hp.
  by destruct (m w) as [[a|e] w1].
Qed.
End audited.

(** *** What a repository call leaves alone *)

(** The audit trail is unchanged, every user is still there, time stands still and fresh
    identifiers stay fresh. *)
Definition unaudited (w w' : World) : Prop :=
  w_db w' Audit_log = w_db w Audit_log ∧
  (∀ id, key_exists (w_db w) Users id = true → key_exists (w_db w') Users id = true) ∧
  w_now w' = w_now w ∧ (healthy w → healthy w') ∧ (w_next w <= w_next w')%nat.

#[global] Instance unaudited_preorder : PreOrder unaudited.
Proof.
  split.
  - intros w. by split_and!.
  - intros w1 w2 w3 (A1 & U1 & N1 & H1 & L1) (A2 & U2 & N2 & H2 & L2).
    split_and!; [congruence|auto|congruence|auto|lia].
Qed.

Lemma unaudited_statement {A} (f : Db → Result (A * Db) SqlError) :
  (∀ db a db', f db = Ok (a, db') → db' Audit_log = db Audit_log ∧
     ∀ id, key_exists db Users id = true → key_exists db' Users id = true) →
  evolves unaudited (statement f).
Proof.
  intros Hf w. unfold unaudited, state_after, statement, healthy. case_match; simpl.
  - split_and!; try done. by intros ->.
  - destruct (f (w_db w)) as [[a db]|] eqn:E; simpl.
    + apply Hf in E as [??]. split_and!; try done. by intros ->.
    + split_and!; try done. by intros ->.
Qed.

Lemma unaudited_insert t r : t ≠ Audit_log → evolves unaudited (insert t r).
Proof.
  intros Hne. apply unaudited_statement. intros db a db' H. case_match; simplify_eq.
  split; [by apply set_table_ne|]. intros id. apply key_exists_append.
Qed.

Section unaudited.
Context {env : Env}.

Lemma unaudited_update_unique_by_id t id f :
  t ≠ Audit_log → t ≠ Users → evolves unaudited (update_unique_by_id t id f).
Proof.
  intros Hn1 Hn2. assert (evolves unaudited (update_unique t id f)).
  { apply unaudited_statement. intros db a db' H. repeat case_match; simplify_eq; [|done].
    unfold key_exists. by rewrite !set_table_ne. }
  unfold update_unique_by_id. evolve.
Qed.

(** A table without cascading keys loses nothing to a delete elsewhere. *)
Lemma remaining_uncascaded t t' p db :
  t ≠ t' → (∀ r, cascades t' r = []) → t' ≠ Dnc_transfer_events →
  remaining (at_table t p) db t' = db t'.
Proof.
  intros Hne Hc Hd. unfold remaining, delete_rows. rewrite select_all.
  - rewrite <- (map_id (db t')) at 2. apply map_ext. intros r. by destruct t'.
  - intros r _. unfold dooms. destruct (depth t'); simpl;
      rewrite at_table_ne by done; by rewrite ?Hc.
Qed.

Lemma unaudited_delete_by_id t id :
  t ≠ Audit_log → t ≠ Users → evolves unaudited (delete_by_id t id).
Proof.
  intros Hn1 Hn2. assert (evolves unaudited (delete_cascading t (by_id t id))).
  { apply unaudited_statement. intros db a db' H. destruct (blocked _ db) as [[t1 t2]|]; simplify_eq.
    unfold key_exists. by rewrite !remaining_uncascaded. }
  unfold delete_by_id. evolve.
Qed.

Lemma unaudited_new_id {E} : evolves unaudited (new_id : M World E string).
Proof. intros w. unfold unaudited, state_after. simpl. split_and!; try done. lia. Qed.

Lemma unaudited_draw_random {E} : evolves unaudited (draw_random : M World E nat).
Proof. done. Qed.

(** The audit entry of a mutation is written when its actor exists. *)
Lemma audit_recorded `{!Inj (=) (=) ulid} actor action entity id w :
  healthy w → key_exists (w_db w) Users actor = true →
  ids_from Audit_log (w_next w) (w_db w) →
  w_db (insert_audit (Some actor) action entity (Some id) None w).2 Audit_log =
    w_db w Audit_log ++
      [mkAuditRow (ulid (w_next w)) (Some actor) action entity (Some id) None (w_now w)].
Proof.
  intros Hh Hu Hf. unfold insert_audit, mbind, M_bind, map_err, new_id, gets.
  rewrite insert_run; [|done|].
  - exact (set_table_eq Audit_log _ _).
  - apply check_row_None; [done| |by repeat constructor].
    repeat constructor. by apply (ids_from_fresh Audit_log (w_next w)).
Qed.
End unaudited.

#[export] Hint Resolve unaudited_new_id unaudited_draw_random : evolves.
#[export] Hint Extern 1 (evolves unaudited (insert _ _)) => apply unaudited_insert; discriminate : evolves.
#[export] Hint Extern 1 (evolves unaudited (update_unique_by_id _ _ _)) =>
  apply unaudited_update_unique_by_id; discriminate : evolves.
#[export] Hint Extern 1 (evolves unaudited (delete_by_id _ _)) =>
  apply unaudited_delete_by_id; discriminate : evolves.

(** Unfolds the endpoints and repository functions of this file down to statements. *)
Ltac open_master :=
  unfold create_site_endpoint, update_site_endpoint, delete_site_endpoint, create_site,
    update_site, delete_site, create_area_endpoint, update_area_endpoint,
    delete_area_endpoint, create_area, update_area, delete_area,
    create_work_center_endpoint, update_work_center_endpoint, delete_work_center_endpoint,
    create_work_center, update_work_center, delete_work_center, create_part_endpoint,
    update_part_endpoint, delete_part_endpoint, create_part, update_part, delete_part,
    create_user_endpoint, create_user, hash_optional, hash_secret, create_program_endpoint,
    create_program in *.

Section master_lemmas.
Context {env : Env} {crypto : Crypto}.

Lemma master_handle_typed auth r : typed (master_handle auth r).
Proof.
  assert (∀ A (m : M World ApiErr A), typed m → typed (ignore m)) as Hi
    by (intros; unfold ignore; evolve).
  destruct r; open_master; cbn [master_handle];
    lazymatch goal with |- typed (ignore _) => apply Hi | _ => idtac end;
    open_master; apply typed_audited; repeat case_match; evolve.
Qed.

(** What remains of the rows that carry a given key. *)
Lemma key_exists_updated t id f (db : Db) old :
  (∀ r, key t (f r) = key t r) → first_where (by_id t id) (db t) = Some old →
  key_exists (set_table t (update_rows (by_id t id) f (db t)) db) t id = true.
Proof.
  intros Hf [Hid Hin]%first_where_Some. apply key_exists_true. rewrite set_table_eq.
  exists (f old). split.
  - apply elem_of_update_rows. exists old. by rewrite Hid.
  - rewrite Hf. unfold by_id in Hid. by bool_to_prop.
Qed.

Lemma key_exists_deleted t id (db : Db) :
  key_exists (remaining (at_table t (by_id t id)) db) t id = false.
Proof.
  apply not_true_iff_false. intros (x & (r & Hr & Hn & ->)%elem_of_remaining & Hk)%key_exists_true.
  destruct (detach_facts (gone (at_table t (by_id t id)) db) t r) as (E & _).
  apply Hn, reached_root. rewrite at_table_eq. apply String.eqb_eq. congruence.
Qed.

Lemma create_Ok t (mk : string → DateTime → row t) a w w' :
  (∀ id now, key t (mk id now) = id) →
  (id ← new_id; now ← gets w_now; map_err map_sqlx (insert t (mk id now))) w = (Ok a, w') →
  key t a = ulid (w_next w) ∧ key_exists (w_db w') t (key t a) = true.
Proof.
  intros Hk H. minv. split; [by rewrite Hk|]. apply key_exists_inserted.
Qed.

Lemma update_key_Ok t id f a w w' :
  (∀ r, key t (f r) = key t r) → update_unique_by_id t id f w = (Ok a, w') →
  key_exists (w_db w') t id = true.
Proof.
  intros Hf (old & Hold & _ & _ & ->)%update_unique_by_id_Ok. by eapply key_exists_updated.
Qed.

Lemma delete_key_Ok t id u w w' :
  delete_by_id t id w = (Ok u, w') → key_exists (w_db w') t id = false.
Proof. intros (_ & _ & ->)%delete_by_id_Ok. apply key_exists_deleted. Qed.

Lemma hash_optional_state plain o w w' :
  hash_optional plain w = (Ok o, w') →
  w_db w' = w_db w ∧ w_next w' = w_next w.
Proof.
  unfold hash_optional, hash_secret, draw_random. intros H.
  destruct (nonempty plain); [|by minv]. minv. by repeat case_match; simplify_eq.
Qed.

(** An admitted mutation: a unaudited repository call, then the audit entry. *)
Lemma master_handle_Ok auth r w w' :
  master_handle auth r w = (Ok tt, w') →
  can_write_master (role auth) = true ∧ w_pool w = true ∧
  ∃ id w1, unaudited w w1 ∧
    w' = (insert_audit (Some (user_id auth)) (trail r).1 (trail r).2 (Some id) None w1).2 ∧
    key_exists (w_db w1) (kind r) id = negb (is_delete r) ∧
    (∀ i, subject r = Some i → id = i) ∧
    (subject r = None → id = ulid (w_next w)).
Proof.
  intros H. destruct r; cbn [master_handle] in H;
    try (apply ignore_Ok in H as [a H]); apply audited_Ok in H as (Hc & Hp & w1 & H & ->);
    (split_and!; [done..|]); eexists _, w1; (split; [|split; [reflexivity|]]);
    try (eapply evolves_run; [|exact H]; open_master; repeat case_match; evolve).
  all: simpl; lazymatch goal with
  | H : (_ ← hash_optional _; _) _ = _ |- _ =>
      apply bind_Ok in H as (h1 & v1 & [_ E1]%hash_optional_state & H);
      apply bind_Ok in H as (h2 & v2 & [_ E2]%hash_optional_state & H);
      unfold create_user in H
  | _ => open_master
  end; first
    [ apply map_err_Ok, delete_key_Ok in H; by split_and!; [|congruence|]
    | apply map_err_Ok in H; minv; match goal with H : update_unique_by_id ?t ?i ?f _ = _ |- _ =>
        apply (update_key_Ok t i f) in H; [|done]; by split_and!; [|congruence|] end
    | minv; split_and!; [apply key_exists_inserted|done|congruence] ].
Qed.
End master_lemmas.

(** *** A user who was just created *)

Lemma hash_optional_Ok {crypto : Crypto} plain h w w' :
  hash_optional plain w = (Ok h, w') →
  match nonempty plain with
  | Some p => ∃ salt phc, argon2_hash salt p = Some phc ∧ h = Some (phc_to_string phc)
  | None => h = None
  end.
Proof.
  unfold hash_optional, hash_secret, draw_random. intros H.
  destruct (nonempty plain) as [p|]; minv; [|done]. by eexists _, _.
Qed.

Lemma secret_matches_hashed {crypto : Crypto} `{!CryptoLaws crypto} salt p phc :
  argon2_hash salt p = Some phc → secret_matches p (Some (phc_to_string phc)) = true.
Proof.
  intros H. simpl. unfold verify_secret. rewrite (phc_roundtrip _ _ _ H).
  by eapply argon2_correct.
Qed.

(** The row of a created user is the only one of its name. *)
Lemma create_user_endpoint_Ok {env : Env} {crypto : Crypto} auth input u w w' :
  create_user_endpoint auth input w = (Ok u, w') →
  ∃ row, u = user_of_row row ∧
    first_where (λ r, String.eqb (us_username r) (us_in_username input)) (w_db w' Users)
      = Some row ∧
    us_username row = us_in_username input ∧ us_role_code row = us_in_role_code input ∧
    us_active row = true ∧ us_badge_id row = nonempty (us_in_badge_id input) ∧
    match nonempty (us_in_password input) with
    | Some p => ∃ salt phc, argon2_hash salt p = Some phc ∧
        us_password_hash row = Some (phc_to_string phc)
    | None => us_password_hash row = None
    end.
Proof.
  intros (_ & _ & w1 & H & ->)%audited_Ok.
  apply bind_Ok in H as (h1 & v1 & Hh1 & H).
  pose proof (hash_optional_state _ _ _ _ Hh1) as [E1 _]. apply hash_optional_Ok in Hh1.
  apply bind_Ok in H as (h2 & v2 & Hh2 & H).
  pose proof (hash_optional_state _ _ _ _ Hh2) as [E2 _].
  unfold create_user in H. minv.
  match goal with H : check_row Users ?r _ = None |- _ =>
    exists r; pose proof (check_row_unique Users r _ (same us_username) H
      ltac:(right; left)) as Hu end.
  match goal with |- context [insert_audit ?a ?b ?c ?d ?e ?v] =>
    destruct (insert_audit_frame a b c d e v) as (F & _) end.
  split_and!; [done| |done..|by destruct (nonempty (us_in_password input))].
  rewrite F by done. simpl. rewrite set_table_eq. unfold first_where. rewrite select_app.
  rewrite select_none; simpl; [by rewrite String.eqb_refl|].
  intros x Hx. apply not_true_iff_false. rewrite String.eqb_eq. intros En.
  rewrite exists_row_false in Hu. specialize (Hu x Hx).
  apply bool_decide_eq_false in Hu. by apply Hu.
Qed.

(** ** Properties *)

(** The row a deleting request names. *)
Definition deletes (r : master_request) : option (table * string) :=
  match r with
  | DeleteSite id => Some (Sites, id)
  | DeleteArea id => Some (Areas, id)
  | DeleteWorkCenter id => Some (Work_centers, id)
  | DeletePart id => Some (Parts, id)
  | _ => None
  end.

Lemma deletes_handle {env : Env} {crypto : Crypto} auth r t id :
  deletes r = Some (t, id) →
  ∃ entity, master_handle auth r =
      audited auth "delete" entity (λ _, id) (map_err repo_err (delete_by_id t id)) ∧
    t ≠ Work_orders ∧ t ≠ Wo_operations.
Proof.
  intros Hd. exists (trail r).2. destruct r; try discriminate Hd; injection Hd as <- <-; done.
Qed.

(** The row an updating request names. *)
Definition updates (r : master_request) : option string :=
  if is_delete r then None else subject r.

(** What an update sets. *)
Definition assign (r : master_request) (now : DateTime) : row (kind r) → row (kind r) :=
  match r with
  | UpdateSite _ input => λ x : row Sites,
      x <| si_code := si_in_code input |> <| si_name := si_in_name input |>
        <| si_timezone := default "Asia/Kolkata"%string (si_in_timezone input) |>
        <| si_updated_at := now |>
  | UpdateArea _ input => λ x : row Areas,
      x <| ar_code := ar_in_code input |> <| ar_name := ar_in_name input |>
        <| ar_updated_at := now |>
  | UpdateWorkCenter _ input => λ x : row Work_centers,
      x <| wc_code := wc_in_code input |> <| wc_name := wc_in_name input |>
        <| wc_external_ref := wc_in_external_ref input |> <| wc_updated_at := now |>
  | UpdatePart _ input => λ x : row Parts,
      x <| pt_code := pt_in_code input |> <| pt_name := pt_in_name input |>
        <| pt_uom := default "ea"%string (pt_in_uom input) |> <| pt_updated_at := now |>
  | _ => λ x, x
  end.

(** The code an update asks for is that of [x]: anywhere for sites and parts, among the
    areas of the same site and the work centers of the same area otherwise. *)
Definition clash (r : master_request) : row (kind r) → row (kind r) → Prop :=
  match r with
  | UpdateSite _ input => λ _ x : row Sites, si_code x = si_in_code input
  | UpdateArea _ input => λ old x : row Areas,
      ar_site_id x = ar_site_id old ∧ ar_code x = ar_in_code input
  | UpdateWorkCenter _ input => λ old x : row Work_centers,
      wc_area_id x = wc_area_id old ∧ wc_code x = wc_in_code input
  | UpdatePart _ input => λ _ x : row Parts, pt_code x = pt_in_code input
  | _ => λ _ _, False
  end.

Lemma updates_handle {env : Env} {crypto : Crypto} auth r id :
  updates r = Some id →
  (∃ entity, master_handle auth r = ignore (audited auth "update" entity (λ _, id)
     (map_err repo_err
        (now ← gets w_now; update_unique_by_id (kind r) id (assign r now))))) ∧
  (∀ now x, in_range (kind r) (assign r now x) = true ∧
     references (kind r) (assign r now x) = references (kind r) x) ∧
  kind r ≠ Audit_log.
Proof.
  intros Hu. split; [exists (trail r).2|]; destruct r; try discriminate Hu;
    injection Hu as <-; by split_and?.
Qed.

Lemma conflicting_clash r id now old x :
  updates r = Some id → key (kind r) old = id → key (kind r) x ≠ id →
  conflicting (kind r) (assign r now old) x ↔ clash r old x.
Proof.
  intros Hu Ho Hx. unfold conflicting.
  destruct r; try discriminate Hu; injection Hu as ->; cbn [kind assign clash uniques key] in *;
    (split;
     [intros (c & Hc & E); apply list_elem_of_In in Hc; simpl in Hc;
      destruct Hc as [<-|[<-|[]]]; apply bool_decide_eq_true in E; simplify_eq/=; done
     |intros H; eexists; split; [right; left|]; apply bool_decide_eq_true; simpl;
      repeat destruct H as [H ?]; congruence]).
Qed.

Section master_properties.
Context {env : Env} {crypto : Crypto}.

(** Master data is written by administrators and planners only: to any other role every
    mutation answers 403 and leaves the world exactly as it was, and one that fails for any
    other reason (no pool, missing row, conflict, dangling reference, lost connection)
    leaves the database as it was. *)
Theorem master_refusal auth r w :
  (can_write_master (role auth) = false →
   master_handle auth r w =
     (Err (err 403 "forbidden" "role may not modify master data"), w)) ∧
  (∀ e w', master_handle auth r w = (Err e, w') → w_db w' = w_db w).
Proof.
  split.
  - intros Hc. destruct r; cbn [master_handle]; unfold ignore, mbind, M_bind; open_master;
      by rewrite audited_gate.
  - intros e w'. revert w e w'.
    assert (∀ A (m : M World ApiErr A), atomic m → atomic (ignore m)) as Hi
      by (intros; by apply atomic_ignore).
    destruct r; cbn [master_handle];
      lazymatch goal with |- ∀ w e w', ignore _ w = _ → _ => apply Hi | _ => idtac end;
      open_master; apply atomic_audited.
    13: { do 2 (apply atomic_bind_reads; [case_match; evolve|]; intros ?).
          apply atomic_map_err.
          do 2 (apply atomic_bind_reads; [evolve|]; intros ?).
          apply atomic_bind_total; eauto with atomic. }
    all: apply atomic_map_err; past_reads; eauto with atomic.
Qed.

(** C30. Every mutation that succeeds over a healthy connection, by a user on record, adds
    exactly one entry to the audit trail: who, what was done, to which kind of entity, to
    which row. The row is the one the path names, or the new one under the next fresh
    identifier; it is in its table unless the request deleted it. *)
Theorem mutation_audited `{!Inj (=) (=) ulid} auth r w w' :
  healthy w → key_exists (w_db w) Users (user_id auth) = true →
  ids_from Audit_log (w_next w) (w_db w) →
  master_handle auth r w = (Ok tt, w') →
  ∃ id n, w_db w' Audit_log = w_db w Audit_log ++
      [mkAuditRow (ulid n) (Some (user_id auth)) (trail r).1 (trail r).2 (Some id) None
         (w_now w)] ∧
    id = default (ulid (w_next w)) (subject r) ∧
    key_exists (w_db w') (kind r) id = negb (is_delete r).
Proof.
  intros Hh Hu Hf (_ & _ & id & w1 & (Ea & Hk & Hn & Hh1 & Hle) & -> & Hex & Hs & Hc)%master_handle_Ok.
  exists id, (w_next w1). split_and!.
  - rewrite audit_recorded; [by rewrite Ea, Hn|auto..].
    intros x m Hx Hm. rewrite Ea in Hx. apply Hf; [done|lia].
  - destruct (subject r) as [i|]; [by apply Hs|by apply Hc].
  - destruct (insert_audit_frame (Some (user_id auth)) (trail r).1 (trail r).2 (Some id) None w1)
      as (F & _). unfold key_exists in *. rewrite F; [done|]. by destruct r.
Qed.

(** C29. Deleting a site, area, work center or part removes that row and precisely the rows
    that hang on it through chains of cascading references, of any length, and nothing else;
    it is refused, with nothing deleted, exactly when the row does not exist (404) or a row
    that would remain refers to one that would go (400). The delete statement searches a
    fixed number of levels; the property is about the closure. *)
Theorem delete_closure auth r t id res w w' :
  deletes r = Some (t, id) → can_write_master (role auth) = true → w_pool w = true →
  healthy w → master_handle auth r w = (res, w') →
  let goes := reached (at_table t (by_id t id)) (w_db w) in
  match res with
  | Ok _ =>
      key_exists (w_db w) t id = true ∧ deletable t id (w_db w) ∧
      ∀ t' x, t' ≠ Audit_log → x ∈ w_db w' t' ↔ x ∈ w_db w t' ∧ ¬ goes t' x
  | Err e =>
      w' = w ∧
      ((key_exists (w_db w) t id = false ∧ e = err 404 "not_found" "resource not found") ∨
       (¬ deletable t id (w_db w) ∧
        ∃ m, e = err 400 "invalid_reference" m))
  end.
Proof.
  intros Hd Hc Hp Hh H.
  apply deletes_handle with (auth := auth) in Hd as (entity & Em & Ht1 & Ht2).
  rewrite Em, audited_run in H by done. unfold map_err in H.
  destruct (delete_by_id t id w) as [res1 w1] eqn:E.
  apply (delete_by_id_outcome t id Ht1 Ht2) in E; [|done].
  destruct res1 as [[]|e1]; simplify_eq; cbv zeta.
  - destruct E as (Hk & Hok & ->). split_and!; [done..|]. intros t' x Ht'.
    match goal with |- context [insert_audit ?a ?b ?c ?d ?e ?v] =>
      destruct (insert_audit_frame a b c d e v) as (F & _) end.
    rewrite F by done. by apply elem_of_remaining_id.
  - destruct E as (-> & [[Hk ->]|(Hb & t1 & t2 & ->)]); (split; [done|]); [by left|right].
    split; [done|]. by eexists.
Qed.

(** Updating a site, area, work center or part sets what the request says on that row
    and touches no other; it is refused, with nothing changed, exactly when there is no such
    row (404) or the new code is that of another row of its scope (409). *)
Theorem update_outcome auth r id res w w' :
  updates r = Some id → can_write_master (role auth) = true → w_pool w = true →
  healthy w → master_handle auth r w = (res, w') →
  let clashes old := ∃ x, x ∈ w_db w (kind r) ∧ key (kind r) x ≠ id ∧ clash r old x in
  match res with
  | Ok _ =>
      ∃ old, first_where (by_id (kind r) id) (w_db w (kind r)) = Some old ∧ ¬ clashes old ∧
        w_db w' (kind r)
          = update_rows (by_id (kind r) id) (assign r (w_now w)) (w_db w (kind r)) ∧
        ∀ t, t ≠ kind r → t ≠ Audit_log → w_db w' t = w_db w t
  | Err e =>
      w' = w ∧
      ((key_exists (w_db w) (kind r) id = false ∧
        e = err 404 "not_found" "resource not found") ∨
       (∃ old m, first_where (by_id (kind r) id) (w_db w (kind r)) = Some old ∧
        clashes old ∧ e = err 409 "conflict" m))
  end.
Proof.
  intros Hu Hc Hp Hh H. cbv zeta.
  destruct (updates_handle auth r id Hu) as ((entity & Em) & Ha & Hk).
  pose proof (λ now old x, conflicting_clash r id now old x Hu) as Hcl.
  rewrite Em in H. unfold ignore, mbind, M_bind in H. rewrite audited_run in H by done.
  unfold map_err, gets in H. rewrite update_unique_by_id_run in H by done.
  destruct (first_where _ (w_db w (kind r))) as [old|] eqn:Eo.
  - assert (key (kind r) old = id) as Hid.
    { apply first_where_Some in Eo as [Eo _]. unfold by_id in Eo. by bool_to_prop. }
    destruct (Ha (w_now w) old) as [Hr Hrefs].
    pose proof (check_replacement_conflict _ id _ old (w_db w) Hr Hrefs) as Hch.
    destruct (check_replacement _ _ _ _ _) as [e|]; cbn -[insert_audit] in H;
      injection H as <- <-.
    + destruct Hch as (n & x & -> & Hx & Hkx & Hcx). split; [done|]. right.
      eexists old, _. split_and!; [done| |done]. exists x. split_and!; [done..|].
      by eapply Hcl.
    + exists old. match goal with |- context [insert_audit ?a ?b ?c ?d ?e ?v] =>
        destruct (insert_audit_frame a b c d e v) as (F & _) end.
      split_and!; [done| | |].
      * intros (x & Hx & Hkx & Hcx). apply (Hch x Hx Hkx). by apply Hcl.
      * rewrite F by done. exact (set_table_eq (kind r) _ _).
      * intros t Ht1 Ht2. rewrite F by done. by apply set_table_ne.
  - injection H as <- <-. split; [done|]. left. split; [|done].
    exact (proj2 (exists_row_false _ _) (first_where_None _ _ Eo)).
Qed.

(** From account to session: a user created with a password can log in with it, at any
    time later while the users are as they were left; the login returns that user's id and
    role; and the token it returns, sent as a bearer token, is taken for that user in that
    role until a minute after it expires, and refused from then on. *)
Theorem created_user_signs_in `{!CryptoLaws crypto} cfg auth input password u w1 w2 w3 :
  us_in_password input = Some password → password ≠ ""%string →
  create_user_endpoint auth input w1 = (Ok u, w2) →
  w_db w3 Users = w_db w2 Users → healthy w3 → w_pool w3 = true →
  returns (login cfg (mkLoginRequest (us_in_username input) password)) w3 (λ resp _,
    lr_user_id resp = u_id u ∧ lr_role_code resp = us_in_role_code input ∧
    lr_expires_at resp = timestamp (w_now w3) + ac_ttl_secs cfg ∧
    ∀ w4, from_request_parts cfg (Some (String.append "Bearer " (lr_token resp))) w4 =
      if timestamp (w_now w4) <=? lr_expires_at resp + 60
      then (Ok (mkAuthUser (u_id u) (us_in_role_code input)), w4)
      else (Err (err 401 "unauthorized" "invalid or expired token"), w4)).
Proof.
  intros Hpw Hne (row & -> & Hrow & Hn & Hr & Ha & _ & Hh)%create_user_endpoint_Ok EU Hh3 Hp3.
  rewrite Hpw in Hh. replace (nonempty (Some password)) with (Some password) in Hh
    by (by destruct password). destruct Hh as (salt & phc & Hphc & Eh).
  destruct (jwt_encodes (ac_secret cfg) (mkClaims (us_id row) (us_role_code row)
    (timestamp (w_now w3)) (timestamp (w_now w3) + ac_ttl_secs cfg))) as [token Ht].
  unfold login. apply returns_bind, returns_require_pool; [done|].
  apply returns_bind, returns_map_err. unfold returns at 1.
  unfold find_auth_by_username. rewrite find_auth_run by done. simpl.
  rewrite EU, Hrow. apply returns_bind, returns_throw_if.
  { simpl. rewrite Ha, Eh. by rewrite (secret_matches_hashed salt). }
  eapply returns_finish_login; [exact Ht|done|]. intros w'. simpl.
  split_and!; [done..|]. intros w4.
  pose proof (issued_token_identifies cfg (w_now w3) row (mkLoginResponse token (us_id row)
    (us_username row) (us_role_code row) (timestamp (w_now w3) + ac_ttl_secs cfg)) w4) as Hid.
  simpl in Hid. rewrite <- Hr. apply Hid. by split_and!.
Qed.
End master_properties.

(** ** Witnesses *)

(** The plant with a second site: an area, a work center and its history. *)
Definition yard : World := world_of
  (set_table Sites [mkSiteRow "s1" "S1" "Site" "Asia/Kolkata" 0 0;
                    mkSiteRow "s2" "S2" "Yard" "Asia/Kolkata" 0 0] (
   set_table Areas [mkAreaRow "a1" "s1" "A1" "Area" 0 0; mkAreaRow "a2" "s2" "A1" "Shed" 0 0] (
   set_table Work_centers
     [mkWorkCenterRow "wc1" "a1" "W1" "Lathe" None None 0 0;
      mkWorkCenterRow "wc2" "a2" "W1" "Saw" None None 0 0] (
   set_table Machine_states [mkMachineStateRow "m1" "wc2" "running" 0 10] plant_db)))).

Abbreviation sample_master := (@master_handle sample_env sample_crypto).

Definition demolished : World := (sample_master admin (DeleteSite "s2") yard).2.

Lemma delete_closure_witness :
  sample_master admin (DeleteSite "s2") yard = (Ok tt, demolished) ∧
  map si_id (w_db demolished Sites) = ["s1"%string] ∧
  w_db demolished Machine_states = [] ∧
  (∀ t x, t ≠ Audit_log → x ∈ w_db demolished t ↔
     x ∈ w_db yard t ∧ ¬ reached (at_table Sites (by_id Sites "s2")) (w_db yard) t x).
Proof.
  assert (sample_master admin (DeleteSite "s2") yard = (Ok tt, demolished)) as H
    by (vm_compute; reflexivity).
  split; [exact H|]. split; [vm_compute; reflexivity|]. split; [vm_compute; reflexivity|].
  exact (proj2 (proj2 (@delete_closure sample_env sample_crypto admin (DeleteSite "s2") Sites "s2"
    _ yard demolished eq_refl eq_refl eq_refl eq_refl H))).
Defined.

(** The first site is in use: a routing operation refers to its work center. *)
Lemma delete_in_use :
  (sample_master admin (DeleteSite "s1") yard).1
    = Err (err 400 "invalid_reference" "constraint violated").
Proof. vm_compute. reflexivity. Qed.

Lemma master_refusal_witness :
  can_write_master "Operator" = false ∧
  sample_master (mkAuthUser "u1" "Operator") (DeleteSite "s2") yard
    = (Err (err 403 "forbidden" "role may not modify master data"), yard).
Proof.
  split; [reflexivity|].
  apply (proj1 (@master_refusal sample_env sample_crypto (mkAuthUser "u1" "Operator")
    (DeleteSite "s2") yard)). reflexivity.
Defined.

Lemma mutation_audited_witness :
  sample_master admin (DeleteSite "s2") yard = (Ok tt, demolished) ∧
  ∃ n, w_db demolished Audit_log =
    [mkAuditRow (@ulid sample_env n) (Some "u1"%string) "delete" "site" (Some "s2"%string) None
       (seconds 1000)].
Proof.
  assert (sample_master admin (DeleteSite "s2") yard = (Ok tt, demolished)) as H
    by (vm_compute; reflexivity).
  split; [exact H|].
  destruct (@mutation_audited sample_env sample_crypto sample_ulid_inj admin (DeleteSite "s2")
    yard demolished eq_refl eq_refl (no_ulids_ids_from Audit_log 0 (w_db yard) eq_refl) H)
    as (id & n & E & Hid & _).
  exists n. simpl in Hid. rewrite Hid in E. exact E.
Defined.

(** An area may take a code of another site's, a second site may not take the first's. *)
Definition renamed : World :=
  (sample_master admin (UpdateSite "s2" (mkSiteInput "S1" "Yard" None)) yard).2.

Lemma update_outcome_witness :
  (sample_master admin (UpdateSite "s2" (mkSiteInput "S1" "Yard" None)) yard).1
    = Err (err 409 "conflict" "constraint violated") ∧ renamed = yard.
Proof.
  split; [vm_compute; reflexivity|].
  assert (sample_master admin (UpdateSite "s2" (mkSiteInput "S1" "Yard" None)) yard
    = (Err (err 409 "conflict" "constraint violated"), renamed)) as H
    by (vm_compute; reflexivity).
  exact (proj1 (@update_outcome sample_env sample_crypto admin
    (UpdateSite "s2" (mkSiteInput "S1" "Yard" None)) "s2" _ yard renamed
    eq_refl eq_refl eq_refl eq_refl H)).
Defined.

Definition bob_input : UserInput :=
  mkUserInput "bob" "Bob" "Admin" (Some "hunter2"%string) None None.

Definition hired := @create_user_endpoint sample_env sample_crypto admin bob_input plant.

Definition bob : User :=
  match hired.1 with Ok u => u | Err _ => mkUser "" "" "" "" false 0 0 end.

Lemma created_user_signs_in_witness :
  hired = (Ok bob, hired.2) ∧
  returns (@login sample_env sample_crypto sample_auth
             (mkLoginRequest (us_in_username bob_input) "hunter2")) hired.2
    (λ resp _, lr_user_id resp = u_id bob).
Proof.
  assert (hired = (Ok bob, hired.2)) as H by (vm_compute; reflexivity).
  assert (healthy hired.2) as Hh by (vm_compute; reflexivity).
  assert (w_pool hired.2 = true) as Hp by (vm_compute; reflexivity).
  split; [exact H|].
  eapply returns_mono.
  - exact (@created_user_signs_in sample_env sample_crypto sample_crypto_laws sample_auth
      admin bob_input "hunter2" bob plant hired.2 hired.2 eq_refl ltac:(discriminate) H eq_refl
      Hh Hp).
  - intros resp w' Hr. exact (proj1 Hr).
Defined.
