(* ===== verification/Mapping.v ===== *)
(** * JSON objects and the ERP field mapping

    [serde_json::Map] and [BTreeMap] as key-ordered association lists, and the field-mapping
    engine of [crates/mes-erp/src/mapping.rs] with the crate's error type
    ([crates/mes-erp/src/lib.rs]). *)

From S2P Require Import Prelude Schema Sql Sample Sync.

(** ** Ordered maps *)

Lemma string_compare_refl s : String.compare s s = Eq.
Proof.
  pose proof (String.compare_antisym s s) as H. by destruct (String.compare s s).
Qed.

(** The byte order of strings. *)
Definition before (a b : string) : Prop := String.compare a b = Lt.

Lemma before_le a b : before a b ↔ String.le a b ∧ a ≠ b.
Proof.
  unfold before, String.le, String.leb. split.
  - intros H. rewrite H. split; [done|]. intros ->. by rewrite string_compare_refl in H.
  - intros [Hle Hne]. destruct (String.compare a b) eqn:E; [|done|done].
    by apply String.compare_eq_iff in E.
Qed.

#[global] Instance before_trans : Transitive before.
Proof.
  intros a b c [H1 N1]%before_le [H2 N2]%before_le. apply before_le. split; [by etrans|].
  intros ->. apply N1. by apply (anti_symm String.le).
Qed.

Section btree.
Context {A : Type}.

(** [BTreeMap::insert]: the entries stay in the byte order of their keys. *)
Fixpoint bt_insert (k : string) (v : A) (l : list (string * A)) : list (string * A) :=
  match l with
  | [] => [(k, v)]
  | (k', v') :: l' =>
      match String.compare k k' with
      | Lt => (k, v) :: l
      | Eq => (k, v) :: l'
      | Gt => (k', v') :: bt_insert k v l'
      end
  end.

(** [BTreeMap::get]. *)
Definition bt_get (k : string) (l : list (string * A)) : option A :=
  snd <$> first_where (λ f, String.eqb (fst f) k) l.

Lemma bt_get_cons k k' v l :
  bt_get k ((k', v) :: l) = if String.eqb k' k then Some v else bt_get k l.
Proof. unfold bt_get, first_where. simpl. by destruct (String.eqb k' k). Qed.

Lemma bt_get_insert k v l k' :
  bt_get k' (bt_insert k v l) = if String.eqb k k' then Some v else bt_get k' l.
Proof.
  induction l as [|[k0 v0] l IH]; simpl; [apply bt_get_cons|].
  destruct (String.compare k k0) eqn:E.
  - apply String.compare_eq_iff in E as ->. rewrite !bt_get_cons.
    by destruct (String.eqb k0 k').
  - apply bt_get_cons.
  - rewrite !bt_get_cons, IH. destruct (String.eqb_spec k0 k') as [->|], (String.eqb_spec k k') as [->|];
      try done. by rewrite string_compare_refl in E.
Qed.

(** Keys in strictly increasing order. *)
Definition ordered (l : list (string * A)) : Prop := StronglySorted before (map fst l).

Lemma elem_of_bt_insert k v l x : x ∈ map fst (bt_insert k v l) ↔ x = k ∨ x ∈ map fst l.
Proof.
  induction l as [|[k0 v0] l IH]; simpl; [set_solver|].
  destruct (String.compare k k0) eqn:E; simpl; rewrite ?elem_of_cons, ?IH; [|tauto..].
  apply String.compare_eq_iff in E as ->. tauto.
Qed.

Lemma bt_insert_ordered k v l : ordered l → ordered (bt_insert k v l).
Proof.
  unfold ordered. induction l as [|[k0 v0] l IH]; simpl; intros H.
  - repeat constructor.
  - apply StronglySorted_inv in H as [Hs Hf].
    destruct (String.compare k k0) eqn:E; simpl.
    + apply String.compare_eq_iff in E as ->. by constructor.
    + constructor; [by constructor|]. constructor; [done|].
      eapply Forall_impl; [|exact Hf]. intros y. by apply before_trans.
    + constructor; [by apply IH|]. apply Forall_forall. intros y Hy%list_elem_of_In.
      apply elem_of_bt_insert in Hy as [->|Hy].
      * unfold before. by rewrite String.compare_antisym, E.
      * rewrite Forall_forall in Hf. by apply Hf, list_elem_of_In.
Qed.

Lemma ordered_NoDup l : ordered l → NoDup (map fst l).
Proof.
  unfold ordered. generalize (map fst l). intros ks H.
  induction H as [|k ks _ IH Hf]; [constructor|]. constructor; [|done].
  intros Hk. rewrite Forall_forall in Hf. apply list_elem_of_In, Hf in Hk.
  unfold before in Hk. by rewrite string_compare_refl in Hk.
Qed.

Lemma bt_get_elem k v l : NoDup (map fst l) → (k, v) ∈ l → bt_get k l = Some v.
Proof.
  induction l as [|[k0 v0] l IH]; simpl; [by intros _ ?%elem_of_nil|].
  intros [Hn Hd]%list.NoDup_cons Hin. rewrite bt_get_cons.
  apply elem_of_cons in Hin as [[= -> ->]|Hin]; [by rewrite String.eqb_refl|].
  destruct (String.eqb_spec k0 k) as [->|]; [|by apply IH].
  destruct Hn. apply list_elem_of_fmap. by exists (k, v).
Qed.

Lemma bt_get_None k l : k ∉ map fst l → bt_get k l = None.
Proof.
  induction l as [|[k0 v0] l IH]; simpl; intros Hn; [done|]. rewrite bt_get_cons.
  apply not_elem_of_cons in Hn as [Hne Hn]. destruct (String.eqb_spec k0 k); [congruence|].
  by apply IH.
Qed.
End btree.

(** ** Field mapping *)

Inductive ErpError :=
  | MappingError (m : string)
  | CryptoError
  | HttpError (m : string).

(** [Display]. *)
Definition erp_error_text (e : ErpError) : string :=
  match e with
  | MappingError m => String.append "field mapping error: " m
  | CryptoError => "token encryption error"
  | HttpError m => String.append "erp request failed: " m
  end.

(** Canonical field name to external field name. *)
Record FieldMapping := mkFieldMapping { fm_fields : list (string * string) }.

Definition as_object (v : Json) : option (list (string * Json)) :=
  match v with JObj fields => Some fields | _ => None end.

(** The loop of [from_json]. *)
Fixpoint read_fields (map : list (string * Json)) (fields : list (string * string)) :
    Result (list (string * string)) ErpError :=
  match map with
  | [] => Ok fields
  | (canonical, ext) :: map' =>
      match as_string ext with
      | Some e => read_fields map' (bt_insert canonical e fields)
      | None => Err (MappingError (String.append "mapping for '"
          (String.append canonical "' must be a string")))
      end
  end.

Definition from_json (v : Json) : Result FieldMapping ErpError :=
  match as_object (default v (field "fields" v)) with
  | None => Err (MappingError "field_mapping must be an object")
  | Some map =>
      match read_fields map [] with
      | Ok fields => Ok (mkFieldMapping fields)
      | Err e => Err e
      end
  end.

(** One record under new names: every pair (source, target) whose source it has. *)
Definition rename (pairs : list (string * string)) (record : Json) : list (string * Json) :=
  foldl (λ out p, match field (fst p) record with
                  | Some v => bt_insert (snd p) v out
                  | None => out
                  end) [] pairs.

Definition to_canonical (m : FieldMapping) (external : Json) : Json :=
  JObj (rename (map (λ p, (snd p, fst p)) (fm_fields m)) external).

Definition to_external (m : FieldMapping) (canonical : Json) : Json :=
  JObj (rename (fm_fields m) canonical).

Definition mapping_len (m : FieldMapping) : nat := length (fm_fields m).
Definition mapping_is_empty (m : FieldMapping) : bool := bool_decide (fm_fields m = []).

(** ** Lemmas *)

Lemma field_JObj name fields : field name (JObj fields) = bt_get name fields.
Proof. done. Qed.

(** Several targets: the last source wins. Distinct targets: each is its source. *)
Lemma rename_get pairs record s t :
  NoDup (map snd pairs) → (s, t) ∈ pairs → bt_get t (rename pairs record) = field s record.
Proof.
  unfold rename. intros Hd Hin.
  assert (∀ ps out, NoDup (map snd ps) → t ∉ map snd ps →
    bt_get t (foldl (λ out p, match field (fst p) record with
      | Some v => bt_insert (snd p) v out | None => out end) out ps) = bt_get t out) as Hskip.
  { clear. induction ps as [|[a b] ps IH]; intros out Hd Hn; simpl; [done|].
    apply list.NoDup_cons in Hd as [_ Hd]. apply not_elem_of_cons in Hn as [Hne Hn].
    rewrite IH by done. destruct (field a record); [|done]. simpl. rewrite bt_get_insert.
    destruct (String.eqb_spec b t); [|done]. simpl in *. congruence. }
  assert (∀ out, bt_get t out = None → bt_get t (foldl (λ out p,
      match field (fst p) record with
      | Some v => bt_insert (snd p) v out | None => out end) out pairs) = field s record) as H.
  { revert Hd Hin. induction pairs as [|[a b] ps IH]; intros Hd Hin out Hout;
      [by apply elem_of_nil in Hin|].
    simpl in *. apply list.NoDup_cons in Hd as [Hn Hd].
    apply elem_of_cons in Hin as [[= -> ->]|Hin].
    - rewrite Hskip by done. destruct (field a record); [|done]. simpl.
      rewrite bt_get_insert. by rewrite String.eqb_refl.
    - apply IH; [done..|]. destruct (field a record); [|done]. simpl. rewrite bt_get_insert.
      destruct (String.eqb_spec b t) as [->|]; [|done].
      destruct Hn. apply list_elem_of_fmap. by exists (s, t). }
  by apply H.
Qed.

Lemma rename_targets pairs record :
  (∀ t, t ∈ map fst (rename pairs record) → t ∈ map snd pairs) ∧ ordered (rename pairs record).
Proof.
  unfold rename.
  assert (∀ ps out, ordered out →
    (∀ t, t ∈ map fst (foldl (λ out p, match field (fst p) record with
      | Some v => bt_insert (snd p) v out | None => out end) out ps) →
      t ∈ map fst out ∨ t ∈ map snd ps) ∧
    ordered (foldl (λ out p, match field (fst p) record with
      | Some v => bt_insert (snd p) v out | None => out end) out ps)) as H.
  { induction ps as [|[a b] ps IH]; intros out Ho; simpl; [by split; [left|]|].
    destruct (field a record) as [v|] eqn:E; simpl.
    - destruct (IH (bt_insert b v out)) as [Ht Hord]; [by apply bt_insert_ordered|].
      split; [|done]. intros t [Ht'|Ht']%Ht.
      + apply elem_of_bt_insert in Ht' as [->|]; [right; left|by left].
      + right. by right.
    - destruct (IH out Ho) as [Ht Hord]. split; [|done]. intros t [|]%Ht; [by left|].
      right. by right. }
  destruct (H pairs []) as [Ht Ho]; [constructor|]. split; [|done].
  intros t [Hn|]%Ht; [by apply elem_of_nil in Hn|done].
Qed.

Lemma read_fields_ordered map fields out :
  read_fields map fields = Ok out → ordered fields → ordered out.
Proof.
  revert fields. induction map as [|[c e] map IH]; intros fields; simpl; [by intros [= <-]|].
  destruct (as_string e); [|done]. intros H Ho. eapply IH; [exact H|].
  by apply bt_insert_ordered.
Qed.

Lemma from_json_ordered v m : from_json v = Ok m → ordered (fm_fields m).
Proof.
  unfold from_json. destruct (as_object _) as [map|]; [|done].
  destruct (read_fields map []) eqn:E; [|done]. intros [= <-].
  eapply read_fields_ordered; [exact E|]. constructor.
Qed.

(** ** Properties *)

(** The external names of a mapping are distinct. *)
Definition injective_mapping (m : FieldMapping) : Prop := NoDup (map snd (fm_fields m)).

(** C33. A record exported through a mapping read from a connection and imported back through
    it is the record restricted to the mapped fields, and a record of the ERP imported and
    exported back is that record restricted to the fields the mapping names, provided no two
    canonical fields share an external name. What is exported has no field the mapping does
    not name. *)
Theorem mapping_roundtrip v m record :
  from_json v = Ok m → injective_mapping m →
  (∀ name, field name (to_canonical m (to_external m record)) =
     if bool_decide (name ∈ map fst (fm_fields m)) then field name record else None) ∧
  (∀ name, field name (to_external m (to_canonical m record)) =
     if bool_decide (name ∈ map snd (fm_fields m)) then field name record else None) ∧
  (∀ name, name ∉ map snd (fm_fields m) → field name (to_external m record) = None).
Proof.
  intros Hv Hinj. apply from_json_ordered, ordered_NoDup in Hv as Hkeys.
  unfold injective_mapping in Hinj.
  assert (map snd (map (λ p : string * string, (p.2, p.1)) (fm_fields m)) = map fst (fm_fields m))
    as Es by (rewrite map_map; done).
  assert (∀ a b, (a, b) ∈ fm_fields m →
    (b, a) ∈ map (λ p : string * string, (p.2, p.1)) (fm_fields m)) as Hswap.
  { intros a b H. apply list_elem_of_fmap. by exists (a, b). }
  unfold to_canonical, to_external. split_and!; intros name; rewrite field_JObj;
    try case_bool_decide as Hin.
  - apply list_elem_of_fmap in Hin as ([c e] & -> & Hin).
    rewrite (rename_get _ _ e c); [|by rewrite Es|by apply Hswap].
    rewrite field_JObj. by apply rename_get.
  - apply bt_get_None. intros Ht. by apply rename_targets in Ht; rewrite Es in Ht.
  - apply list_elem_of_fmap in Hin as ([c e] & -> & Hin).
    rewrite (rename_get _ _ c e) by done. rewrite field_JObj.
    rewrite (rename_get _ _ e c); [done|by rewrite Es|by apply Hswap].
  - apply bt_get_None. intros Ht. by apply rename_targets in Ht.
  - intros Hn. apply bt_get_None. intros Ht. by apply rename_targets in Ht.
Qed.

(** ** Witness *)

Definition sample_mapping_json : Json :=
  JObj [("fields"%string, JObj [("qty_ordered"%string, JStr "Qty"); ("wo_number"%string, JStr "OrderNo")])].

Lemma mapping_roundtrip_witness :
  let m := mkFieldMapping [("qty_ordered", "Qty"); ("wo_number", "OrderNo")]%string in
  let record := JObj [("note"%string, JNull); ("wo_number"%string, JStr "WO-1")] in
  from_json sample_mapping_json = Ok m ∧
  to_external m record = JObj [("OrderNo"%string, JStr "WO-1")] ∧
  field "wo_number" (to_canonical m (to_external m record)) = Some (JStr "WO-1") ∧
  field "note" (to_canonical m (to_external m record)) = None.
Proof.
  cbv zeta. split; [reflexivity|]. split; [reflexivity|].
  assert (injective_mapping
    (mkFieldMapping [("qty_ordered", "Qty"); ("wo_number", "OrderNo")]%string)) as Hinj.
  { apply (bool_decide_unpack (NoDup ["Qty"; "OrderNo"]%string)). reflexivity. }
  pose proof (proj1 (mapping_roundtrip sample_mapping_json _
    (JObj [("note"%string, JNull); ("wo_number"%string, JStr "WO-1")]) eq_refl Hinj)) as H.
  split; rewrite H; reflexivity.
Defined.

(** Two canonical fields under one external name: the later one overwrites the earlier. *)
Lemma mapping_collision :
  to_external (mkFieldMapping [("name", "label"); ("stock", "label")]%string)
    (JObj [("name"%string, JStr "Bearing"); ("stock"%string, JInt 4)])
  = JObj [("label"%string, JInt 4)].
Proof. reflexivity. Qed.
