(* ===== verification/Erp.v ===== *)
(** * ERP integration

    Connections to external ERPs, imports and exports: [crates/mes-erp/src/crypto.rs] and
    [push.rs], the queries of [crates/mes-db/src/repo_erp.rs], and the endpoints of
    [crates/mes-edge/src/erp.rs]. The cipher, base64, the random source and the ERP itself
    are parameters ([ErpEnv]); what the code relies on of the crates is [ErpLaws]. *)

From stdpp Require Import pretty.
From S2P Require Import Prelude Lifecycle Schema Sql Cascade Integrity Sample Sync Moves.
From S2P Require Import Orders Cmms Auth Master Mapping.

(** ** Outside the sources *)

(** What a request to an ERP comes to. *)
Inductive reply :=
  | Unreachable (m : string)
  | Replied (status : Z) (body : option Json).

Class ErpEnv := {
  random_bytes : nat → option (list Byte.byte);             (** [getrandom], 24 bytes *)
  aead_encrypt : list Byte.byte → list Byte.byte → list Byte.byte → option (list Byte.byte);
  aead_decrypt : list Byte.byte → list Byte.byte → list Byte.byte → option (list Byte.byte);
  base64_encode : list Byte.byte → string;
  base64_decode : string → option (list Byte.byte);
  erp_reply : list Post → reply;       (** to the last of the requests sent so far *)
  status_text : Z → string;            (** [StatusCode]'s [Display] *)
  repo_error_debug : RepoError → string
}.

(** Documented behaviour of the crates: nonces have the length asked for, what was encrypted
    (never to nothing: an authentication tag is added) decrypts under the same key and
    nonce, base64 decodes what it encoded. *)
Class ErpLaws (erp : ErpEnv) : Prop := {
  random_length n b : random_bytes n = Some b → length b = 24%nat;
  aead_roundtrip k n p c : aead_encrypt k n p = Some c → aead_decrypt k n c = Some p;
  aead_nonempty k n p c : aead_encrypt k n p = Some c → c ≠ [];
  base64_roundtrip b : base64_decode (base64_encode b) = Some b
}.

(** ** UTF-8 *)

(** A byte of the range [lo..hi]. *)
Definition byte_in (lo hi : N) (b : Byte.byte) : bool :=
  (lo <=? Byte.to_N b)%N && (Byte.to_N b <=? hi)%N.
Definition is_cont (b : Byte.byte) : bool := byte_in 128 191 b.

(** [str::from_utf8] succeeds. *)
Fixpoint utf8_valid (l : list Byte.byte) : bool :=
  match l with
  | [] => true
  | a :: l1 =>
      if byte_in 0 127 a then utf8_valid l1
      else match l1 with
      | b :: l2 =>
          if byte_in 194 223 a then is_cont b && utf8_valid l2
          else match l2 with
          | c :: l3 =>
              if byte_in 224 224 a then byte_in 160 191 b && is_cont c && utf8_valid l3
              else if byte_in 237 237 a then byte_in 128 159 b && is_cont c && utf8_valid l3
              else if byte_in 225 239 a then is_cont b && is_cont c && utf8_valid l3
              else match l3 with
              | d :: l4 =>
                  (if byte_in 240 240 a then byte_in 144 191 b
                   else if byte_in 244 244 a then byte_in 128 143 b
                   else byte_in 241 243 a && is_cont b)
                  && is_cont c && is_cont d && utf8_valid l4
              | [] => false
              end
          | [] => false
          end
      | [] => false
      end
  end.

(** ** Requests and responses *)

Record ErpConnectionInput := mkErpConnectionInput {
  ci_site_id : option string; ci_name : string; ci_endpoint_url : string;
  ci_auth_token : option string; ci_field_mapping : Json; ci_direction : option string;
  ci_enabled : option bool
}.

(** A connection without its token. *)
Record ErpConnection := mkErpConnection {
  cn_id : string; cn_site_id : option string; cn_name : string; cn_endpoint_url : string;
  cn_has_token : bool; cn_field_mapping : Json; cn_direction : string; cn_enabled : bool;
  cn_created_at : DateTime; cn_updated_at : DateTime
}.

Definition into_public (r : ErpConnRow) : ErpConnection :=
  mkErpConnection (ec_id r) (ec_site_id r) (ec_name r) (ec_endpoint_url r)
    (bool_decide (is_Some (ec_auth_token_enc r))) (ec_field_mapping r) (ec_direction r)
    (ec_enabled r) (ec_created_at r) (ec_updated_at r).

Record ConnectionSecret := mkConnectionSecret {
  cs_id : string; cs_endpoint_url : string; cs_auth_token_enc : option string;
  cs_field_mapping : Json; cs_direction : string; cs_enabled : bool
}.

Record ErpImportRequest := mkErpImportRequest {
  iq_connection_id : string; iq_entity : string; iq_records : list Json
}.

Record ErpImportResult := mkErpImportResult {
  ir_entity : string; ir_imported : nat; ir_ids : list string; ir_sync_log_id : string
}.

Record ErpExportRequest := mkErpExportRequest { eq_connection_id : string; eq_entity : string }.

Record ErpExportResult := mkErpExportResult {
  er_entity : string; er_record_count : nat; er_pushed : bool; er_payload : list Json;
  er_sync_log_id : string
}.

(** [n as i32]. *)
Definition as_i32_cast (n : nat) : Z := (Z.of_nat n + 2 ^ 31) mod 2 ^ 32 - 2 ^ 31.

(** *** Decoding an order, as derived by serde *)

Definition as_array {A} (dec : Json → option A) (v : Json) : option (list A) :=
  match v with JArr l => mapM dec l | _ => None end.

Section decode_order.
Context {text : WireText}.

Definition wo_operation_input_of_json (v : Json) : option WoOperationInput :=
  v ← as_struct ["op_no"; "routing_op_id"; "work_center_id"]%string 3 v;
  op_no ← required as_i32 "op_no" v;
  routing_op_id ← optional as_text "routing_op_id" v;
  work_center_id ← optional as_text "work_center_id" v;
  Some (mkWoOperationInput op_no routing_op_id work_center_id).

Definition work_order_input_of_json (v : Json) : option WorkOrderInput :=
  v ← as_struct ["wo_number"; "part_id"; "routing_id"; "qty_ordered"; "priority";
                 "planned_start"; "planned_end"; "operations"]%string 7 v;
  wo_number ← required as_text "wo_number" v;
  part_id ← required as_text "part_id" v;
  routing_id ← optional as_text "routing_id" v;
  qty_ordered ← required as_quantity "qty_ordered" v;
  priority ← optional as_i32 "priority" v;
  planned_start ← optional as_instant "planned_start" v;
  planned_end ← optional as_instant "planned_end" v;
  operations ← defaulted [] (as_array wo_operation_input_of_json) "operations" v;
  Some (mkWorkOrderInput wo_number part_id routing_id qty_ordered priority planned_start
          planned_end operations).
End decode_order.

Section erp.
Context {env : Env} {senv : SyncEnv} {erp : ErpEnv}.
Abbreviation Repo := (M World RepoError).
Abbreviation Api := (M World ApiErr).

(** ** [crypto.rs] *)

Definition NONCE_LEN : nat := 24.

Definition derive_key (secret : string) : list Byte.byte :=
  sha256 (String.append "mes-erp-token-encryption-v1" secret).

Definition encrypt (key : list Byte.byte) (plaintext : string) : M World ErpError string :=
  n ← draw_random;
  nonce ← ok_or (random_bytes n) CryptoError;
  ct ← ok_or (aead_encrypt key nonce (String.list_byte_of_string plaintext)) CryptoError;
  mret (base64_encode (nonce ++ ct)).

Definition decrypt (key : list Byte.byte) (token : string) : Result string ErpError :=
  match base64_decode token with
  | None => Err CryptoError
  | Some buf =>
      if (length buf <=? NONCE_LEN)%nat then Err CryptoError
      else match aead_decrypt key (take NONCE_LEN buf) (drop NONCE_LEN buf) with
           | None => Err CryptoError
           | Some pt =>
               if utf8_valid pt then Ok (String.string_of_list_byte pt) else Err CryptoError
           end
  end.

(** ** [push.rs] *)

Definition is_success (status : Z) : bool := (200 <=? status) && (status <? 300).

(** [ErpClient::post_json]; the request leaves whatever becomes of it. *)
Definition post_json (url : string) (token : option string) (body : Json) :
    M World ErpError Json := λ w,
  let posts := w_posts w ++ [mkPost url token body] in
  (match erp_reply posts with
   | Unreachable m => Err (HttpError m)
   | Replied status body =>
       if is_success status then Ok (default JNull body)
       else Err (HttpError (String.append "erp returned " (status_text status)))
   end, w <| w_posts := posts |>).

(** ** Repository *)

Definition create_connection (site_id : option string) (name endpoint_url : string)
    (auth_token_enc : option string) (field_mapping : Json) (direction : string)
    (enabled : bool) : Repo ErpConnection :=
  id ← new_id; now ← gets w_now;
  row ← map_err map_sqlx (insert Erp_connections
    (mkErpConnRow id site_id name endpoint_url auth_token_enc field_mapping direction enabled
       now now));
  mret (into_public row).

Definition get_connection (id : string) : Repo ErpConnection :=
  row ← get_by_id Erp_connections id; mret (into_public row).

Definition get_connection_secret (id : string) : Repo ConnectionSecret :=
  row ← get_by_id Erp_connections id;
  mret (mkConnectionSecret (ec_id row) (ec_endpoint_url row) (ec_auth_token_enc row)
          (ec_field_mapping row) (ec_direction row) (ec_enabled row)).

Definition list_connections : Repo (list ErpConnection) :=
  map_err map_sqlx (query (λ db,
    map into_public (order_by ec_created_at (db Erp_connections)))).

Definition update_connection (id : string) (site_id : option string)
    (name endpoint_url : string) (auth_token_enc : option string) (field_mapping : Json)
    (direction : string) (enabled : bool) : Repo ErpConnection :=
  now ← gets w_now;
  row ← update_by_id Erp_connections id (λ r,
    r <| ec_site_id := site_id |> <| ec_name := name |> <| ec_endpoint_url := endpoint_url |>
      <| ec_auth_token_enc := coalesce auth_token_enc (ec_auth_token_enc r) |>
      <| ec_field_mapping := field_mapping |> <| ec_direction := direction |>
      <| ec_enabled := enabled |> <| ec_updated_at := now |>);
  mret (into_public row).

Definition delete_connection (id : string) : Repo unit := delete_by_id Erp_connections id.

Definition insert_sync_log (connection_id direction entity : string) (record_count : Z)
    (status : string) (detail : option string) : Repo string :=
  id ← new_id; now ← gets w_now;
  map_err map_sqlx (insert Erp_sync_log
    (mkErpLogRow id (Some connection_id) direction entity record_count status detail now)) ;;
  mret id.

Definition list_sync_log (connection_id : option string) : Repo (list ErpLogRow) :=
  map_err map_sqlx (query (λ db, order_by_desc el_ts
    (select (λ r, match connection_id with
                  | None => true
                  | Some c => bool_decide (el_connection_id r = Some c)
                  end) (db Erp_sync_log)))).

(** The [SET] of the update. *)
Definition sent (erp_reference : option string) (now : DateTime) (r : ProcRow) : ProcRow :=
  r <| pr_status := "sent_to_erp"%string |>
    <| pr_erp_reference := coalesce erp_reference (pr_erp_reference r) |>
    <| pr_pushed_at := Some now |> <| pr_updated_at := now |>.

Definition is_requested (r : ProcRow) : bool := String.eqb (pr_status r) "requested".

Definition mark_procurement_sent (ids : list string) (erp_reference : option string) :
    Repo nat :=
  if bool_decide (ids = []) then mret 0%nat
  else
    now ← gets w_now;
    rows ← map_err map_sqlx (update Procurement_requests
      (λ r, bool_decide (pr_id r ∈ ids) && is_requested r) (sent erp_reference now));
    mret (length rows).

(** ** Endpoints *)

Definition normalize_direction (d : option string) : Result string ApiErr :=
  let v := default "both"%string d in
  if bool_decide (v ∈ ["import"; "export"; "both"]%string) then Ok v
  else Err (err 400 "bad_direction" "direction must be import|export|both").

Definition field_mapping_or_default (v : Json) : Json :=
  match v with JNull => JObj [] | _ => v end.

Definition encrypt_token (key : list Byte.byte) (plain : option string) :
    Api (option string) :=
  match nonempty plain with
  | Some t =>
      map_err (λ _, err 500 "internal" "token encryption failed")
        (enc ← encrypt key t; mret (Some enc))
  | None => mret None
  end.

Definition lift {A} (r : Result A ApiErr) : Api A := λ w, (r, w).

Definition create_connection_endpoint (key : list Byte.byte) (auth : AuthUser)
    (input : ErpConnectionInput) : Api ErpConnection :=
  audited auth "create" "erp_connection" cn_id (
    direction ← lift (normalize_direction (ci_direction input));
    token_enc ← encrypt_token key (ci_auth_token input);
    map_err repo_err (create_connection (ci_site_id input) (ci_name input)
      (ci_endpoint_url input) token_enc (field_mapping_or_default (ci_field_mapping input))
      direction (default true (ci_enabled input)))).

Definition list_connections_endpoint (auth : AuthUser) : Api (list ErpConnection) :=
  master_writer auth ;; reading list_connections.

Definition get_connection_endpoint (auth : AuthUser) (id : string) : Api ErpConnection :=
  master_writer auth ;; reading (get_connection id).

Definition update_connection_endpoint (key : list Byte.byte) (auth : AuthUser) (id : string)
    (input : ErpConnectionInput) : Api ErpConnection :=
  audited auth "update" "erp_connection" (λ _, id) (
    direction ← lift (normalize_direction (ci_direction input));
    token_enc ← encrypt_token key (ci_auth_token input);
    map_err repo_err (update_connection id (ci_site_id input) (ci_name input)
      (ci_endpoint_url input) token_enc (field_mapping_or_default (ci_field_mapping input))
      direction (default true (ci_enabled input)))).

Definition delete_connection_endpoint (auth : AuthUser) (id : string) : Api unit :=
  audited auth "delete" "erp_connection" (λ _, id) (map_err repo_err (delete_connection id)).

(** The checks an import and an export share. *)
Definition open_connection (connection_id way : string) : Api (ConnectionSecret * FieldMapping) :=
  conn ← map_err repo_err (get_connection_secret connection_id);
  throw_if (negb (cs_enabled conn)) (err 409 "disabled" "connection is disabled") ;;
  throw_if (negb (String.eqb (cs_direction conn) way || String.eqb (cs_direction conn) "both"))
    (err 400 "bad_direction" (String.append "connection does not allow " way)) ;;
  mapping ← lift (match from_json (cs_field_mapping conn) with
                  | Ok m => Ok m
                  | Err e => Err (err 400 "bad_mapping" (erp_error_text e))
                  end);
  mret (conn, mapping).

(** ["record {i}: {text}"] *)
Definition record_error (i : nat) (text : string) : string :=
  String.append "record " (String.append (pretty i) (String.append ": " text)).

(** The loop of [import_work_orders] from the [i]-th record on. *)
Fixpoint import_loop (mapping : FieldMapping) (i : nat) (records : list Json)
    (ids : list string) : M World string (list string) :=
  match records with
  | [] => mret ids
  | rec :: records' =>
      let canonical := to_canonical mapping rec in
      input ← ok_or (work_order_input_of_json canonical) (record_error i (serde_error canonical));
      detail ← map_err (λ e, record_error i (repo_error_debug e)) (create_work_order input);
      import_loop mapping (S i) records' (ids ++ [wo_id (work_order detail)])
  end.

Definition import_work_orders (mapping : FieldMapping) (records : list Json) :
    M World string (list string) := import_loop mapping 0 records [].

Definition count_detail (entity : string) (n : nat) : Json :=
  JObj [("count"%string, JInt (Z.of_nat n)); ("entity"%string, JStr entity)].

Definition import (auth : AuthUser) (req : ErpImportRequest) : Api ErpImportResult :=
  actor ← master_writer auth;
  require_pool ;;
  '(conn, mapping) ← open_connection (iq_connection_id req) "import";
  throw_if (negb (String.eqb (iq_entity req) "work_order"))
    (err 400 "bad_entity" (String.append "import not supported for entity '"
       (String.append (iq_entity req) "'"))) ;;
  ids ← attempt (import_work_orders mapping (iq_records req));
  match ids with
  | Ok ids =>
      log_id ← map_err repo_err (insert_sync_log (iq_connection_id req) "import"
         (iq_entity req) (as_i32_cast (length ids)) "success" None);
      audit (Some (user_id actor)) "import" "erp" (Some (iq_connection_id req))
        (Some (count_detail (iq_entity req) (length ids))) ;;
      mret (mkErpImportResult (iq_entity req) (length ids) ids log_id)
  | Err detail =>
      best_effort (insert_sync_log (iq_connection_id req) "import" (iq_entity req) 0 "error"
        (Some detail)) ;;
      throw (err 400 "import_failed" detail)
  end.

(** The canonical records of an entity, and the requests a successful push moves on. *)
Definition stock_record (s : SparePart) : Json :=
  JObj [("code"%string, JStr (sp_code (spare_row s))); ("name"%string, JStr (sp_name (spare_row s)));
        ("reorder_point"%string, JDecimal (sp_reorder_point (spare_row s)));
        ("stock"%string, JDecimal (stock s))].

Definition request_record (r : ProcRow) : Json :=
  JObj [("qty_requested"%string, JDecimal (pr_qty_requested r)); ("request_id"%string, JStr (pr_id r));
        ("spare_part_id"%string, JStr (pr_spare_part_id r))].

Definition gather (entity : string) : Api (list Json * list string) :=
  if String.eqb entity "stock_level" then
    spares ← map_err repo_err list_spare_parts;
    mret (map stock_record spares, [])
  else if String.eqb entity "procurement_request" then
    all ← map_err repo_err list_procurement_requests;
    let requested := select is_requested all in
    mret (map request_record requested, map pr_id requested)
  else throw (err 400 "bad_entity" (String.append "export not supported for entity '"
                (String.append entity "'"))).

Definition decrypt_token (key : list Byte.byte) (enc : option string) : Api (option string) :=
  match enc with
  | None => mret None
  | Some e =>
      match decrypt key e with
      | Ok t => mret (Some t)
      | Err _ => throw (err 500 "internal" "token decrypt failed")
      end
  end.

(** After the push. *)
Definition export_pushed (actor : AuthUser) (req : ErpExportRequest) (payload : list Json)
    (procurement_ids : list string) (resp : Json) : Api ErpExportResult :=
  (if bool_decide (procurement_ids = []) then mret tt
   else ignore (map_err repo_err
          (mark_procurement_sent procurement_ids (field "reference" resp ≫= as_string)))) ;;
  log_id ← map_err repo_err (insert_sync_log (eq_connection_id req) "export" (eq_entity req)
    (as_i32_cast (length payload)) "success" None);
  audit (Some (user_id actor)) "export" "erp" (Some (eq_connection_id req))
    (Some (count_detail (eq_entity req) (length payload))) ;;
  mret (mkErpExportResult (eq_entity req) (length payload) true payload log_id).

Definition export_refused (req : ErpExportRequest) (payload : list Json) (e : ErpError) :
    Api ErpExportResult :=
  best_effort (insert_sync_log (eq_connection_id req) "export" (eq_entity req)
    (as_i32_cast (length payload)) "error" (Some (erp_error_text e))) ;;
  throw (err 502 "export_failed" (erp_error_text e)).

Definition export (key : list Byte.byte) (auth : AuthUser) (req : ErpExportRequest) :
    Api ErpExportResult :=
  actor ← master_writer auth;
  require_pool ;;
  '(conn, mapping) ← open_connection (eq_connection_id req) "export";
  '(canonical, procurement_ids) ← gather (eq_entity req);
  let payload := map (to_external mapping) canonical in
  token ← decrypt_token key (cs_auth_token_enc conn);
  push ← attempt (post_json (cs_endpoint_url conn) token (JArr payload));
  match push with
  | Ok resp => export_pushed actor req payload procurement_ids resp
  | Err e => export_refused req payload e
  end.

Definition list_sync_log_endpoint (auth : AuthUser) (connection_id : option string) :
    Api (list ErpLogRow) :=
  master_writer auth ;; reading (list_sync_log connection_id).

(** The routes that write, of [routes()]. *)
Inductive erp_request :=
  | CreateConnection (input : ErpConnectionInput)
  | UpdateConnection (id : string) (input : ErpConnectionInput)
  | DeleteConnection (id : string)
  | Import (req : ErpImportRequest)
  | Export (req : ErpExportRequest).

Definition erp_handle (key : list Byte.byte) (auth : AuthUser) (r : erp_request) : Api unit :=
  match r with
  | CreateConnection input => ignore (create_connection_endpoint key auth input)
  | UpdateConnection id input => ignore (update_connection_endpoint key auth id input)
  | DeleteConnection id => delete_connection_endpoint auth id
  | Import req => ignore (import auth req)
  | Export req => ignore (export key auth req)
  end.
End erp.

(** ** Lemmas *)

Lemma bind_outcome {S E A B} (m : M S E A) (k : A → M S E B) s r s' :
  (m ≫= k) s = (r, s') →
  (∃ e, m s = (Err e, s') ∧ r = Err e) ∨ (∃ a s1, m s = (Ok a, s1) ∧ k a s1 = (r, s')).
Proof. unfold mbind, M_bind. destruct (m s) as [[a|e] s1]; [right|left]; naive_solver. Qed.

Lemma attempt_Ok {S E F A} (m : M S E A) r (s s' : S) :
  (attempt m : M S F _) s = (Ok r, s') → m s = (r, s').
Proof. unfold attempt. destruct (m s). by intros [= <- <-]. Qed.

Lemma master_writer_Ok auth a w w' :
  master_writer auth w = (Ok a, w') → a = auth ∧ w' = w ∧ can_write_master (role auth) = true.
Proof.
  unfold master_writer. destruct (can_write_master (role auth)); [by intros [= <- <-]|done].
Qed.

Section erp_lemmas.
Context {env : Env} {senv : SyncEnv} {erp : ErpEnv}.

Lemma reads_open_connection c way : reads (open_connection c way).
Proof.
  unfold open_connection, get_connection_secret, lift. pose proof reads_get_by_id. evolve.
Qed.

Lemma reads_encrypt key t : reads (encrypt key t).
Proof. unfold encrypt. evolve. Qed.

Lemma reads_encrypt_token key t : reads (encrypt_token key t).
Proof. unfold encrypt_token. pose proof reads_encrypt. evolve. Qed.

Lemma reads_decrypt_token key t : reads (decrypt_token key t).
Proof. unfold decrypt_token. evolve. Qed.

Lemma reads_gather entity : reads (gather entity).
Proof. unfold gather, list_spare_parts, list_procurement_requests. evolve. Qed.

Lemma reads_post_json url token body : reads (post_json url token body).
Proof. done. Qed.

(** A token that was encrypted decrypts to itself. *)
Lemma decrypt_encrypt `{!ErpLaws erp} key t enc w w' :
  encrypt key t w = (Ok enc, w') → utf8_valid (String.list_byte_of_string t) = true →
  decrypt key enc = Ok t.
Proof.
  unfold encrypt, draw_random. intros H Hv. apply bind_Ok in H as (n & w1 & _ & H). minv.
  match goal with H : random_bytes _ = Some ?b, H' : aead_encrypt _ ?b _ = Some ?c |- _ =>
    pose proof (random_length _ _ H) as Hl; pose proof (aead_nonempty _ _ _ _ H') as Hc;
    pose proof (aead_roundtrip _ _ _ _ H') as Hr end.
  unfold decrypt, NONCE_LEN. rewrite base64_roundtrip.
  match type of Hl with length ?b = _ =>
    rewrite <- Hl, take_app_length, drop_app_length, length_app end.
  rewrite Hr, Hv, String.string_of_list_byte_of_string.
  match type of Hc with ?c ≠ [] => destruct c; [done|] end.
  match goal with |- context [(?a + length (_ :: _) <=? ?a)%nat] =>
    rewrite (proj2 (Nat.leb_gt (a + length _) a)) by (simpl; lia) end.
  done.
Qed.

(** *** Import *)

(** The clock stands still while an order is created. *)
Definition same_clock (w w' : World) : Prop := w_now w' = w_now w.

#[global] Instance same_clock_preorder : PreOrder same_clock.
Proof. split; unfold same_clock; [done|]. intros ???. congruence. Qed.

Lemma same_clock_statement {A} (f : Db → Result (A * Db) SqlError) :
  evolves same_clock (statement f).
Proof. intros w. unfold same_clock, state_after, statement. by repeat case_match. Qed.

Lemma same_clock_insert t r : evolves same_clock (insert t r).
Proof. apply same_clock_statement. Qed.

Lemma same_clock_new_id {E} : evolves same_clock (new_id : M World E string).
Proof. done. Qed.

Lemma same_clock_created input : evolves same_clock (create_work_order input).
Proof.
  intros w. unfold create_work_order, transaction, state_after.
  pose proof @same_clock_statement. pose proof @same_clock_insert. pose proof @same_clock_new_id.
  match goal with |- context [enclosed ?l ?m w] =>
    assert (evolves same_clock (enclosed l m)) as H' end.
  { unfold enclosed, begin_, commit, query, insert_operation, enqueue. evolve. }
  specialize (H' w). unfold state_after in H'. by destruct (enclosed _ _ w) as [[]].
Qed.

(** The order a record of the ERP stands for. *)
Definition order_of (m : FieldMapping) (now : DateTime) (rec : Json) (wo : WorkOrderRow) : Prop :=
  ∃ input, work_order_input_of_json (to_canonical m rec) = Some input ∧
    wo = order_row (wo_id wo) now input.

(** Records turned into orders one after the other, from [w] to [v]. *)
Inductive imports (m : FieldMapping) : list Json → list WorkOrderRow → World → World → Prop :=
  | imports_nil w : imports m [] [] w w
  | imports_cons rec input d recs orders w w1 v :
      work_order_input_of_json (to_canonical m rec) = Some input →
      create_work_order input w = (Ok d, w1) →
      imports m recs orders w1 v →
      imports m (rec :: recs) (work_order d :: orders) w v.

(** A record that cannot be turned into an order in [v]. *)
Definition stuck (m : FieldMapping) (rec : Json) (v : World) : Prop :=
  ∀ input, work_order_input_of_json (to_canonical m rec) = Some input →
    is_ok (create_work_order input v).1 = false.

Lemma imports_rows m recs orders w v :
  imports m recs orders w v →
  Forall2 (order_of m (w_now w)) recs orders ∧
  w_db v Work_orders = w_db w Work_orders ++ orders ∧
  w_db v Erp_sync_log = w_db w Erp_sync_log.
Proof.
  induction 1 as [w|rec input d recs orders w w1 v Hin Hc _ (Hf & Ewo & El)].
  { rewrite app_nil_r. by split_and!. }
  pose proof (evolves_run _ _ _ _ _ (same_clock_created input) Hc) as Hn.
  apply create_work_order_Ok in Hc as (E1 & _ & _ & Ef & Hrow & _). unfold same_clock in Hn.
  rewrite Hn in Hf. split_and!.
  - constructor; [by exists input|done].
  - by rewrite Ewo, E1, <- app_assoc.
  - rewrite El. by apply Ef.
Qed.

Lemma import_loop_outcome m i recs ids res w w' :
  import_loop m i recs ids w = (res, w') →
  ∃ taken rest orders v, recs = taken ++ rest ∧ imports m taken orders w v ∧
    w_db w' = w_db v ∧
    match res with
    | Ok out => rest = [] ∧ out = ids ++ map wo_id orders ∧ w' = v
    | Err _ => ∃ rec rest', rest = rec :: rest' ∧ stuck m rec v
    end.
Proof.
  revert i ids w. induction recs as [|rec recs IH]; intros i ids w; cbn [import_loop].
  { intros [= <- <-]. exists [], [], [], w.
    split_and!; [done|constructor|done|done|by rewrite app_nil_r|done]. }
  cbv zeta. intros [(e & H & ->)|(input & w1 & H & Hk)]%bind_outcome.
  { unfold ok_or, throw in H. exists [], (rec :: recs), [], w.
    destruct (work_order_input_of_json _) eqn:E; simplify_eq.
    split_and!; [done|constructor|done|]. exists rec, recs. split; [done|]. intros input. by rewrite E. }
  apply ok_or_Ok in H as [Hin ->].
  apply bind_outcome in Hk as [(e & H & ->)|(d & w2 & H%map_err_Ok & Hk)].
  { exists [], (rec :: recs), [], w. split_and!; [done|constructor| |].
    - eapply atomic_map_err; [|exact H]. apply atomic_transaction.
    - exists rec, recs. split; [done|]. intros ? E. simplify_eq. unfold map_err in H.
      by destruct (create_work_order _ w) as [[]]. }
  apply IH in Hk as (taken & rest & orders & v & -> & Hi & Edb & Hres).
  exists (rec :: taken), rest, (work_order d :: orders), v.
  split_and!; [done|by econstructor|done|].
  destruct res; [|done]. destruct Hres as (-> & -> & ->). by rewrite <- app_assoc.
Qed.

(** What the sync log gains from one entry, written or lost. *)
Lemma insert_sync_log_Ok c d e n s detail id w w' :
  insert_sync_log c d e n s detail w = (Ok id, w') →
  ∃ log, w_db w' Erp_sync_log = w_db w Erp_sync_log ++ [log] ∧
    el_record_count log = n ∧ el_status log = s ∧ el_direction log = d ∧
    (∀ t, t ≠ Erp_sync_log → w_db w' t = w_db w t) ∧ w_posts w' = w_posts w.
Proof.
  unfold insert_sync_log. intros H. minv. eexists.
  split; [exact (set_table_eq Erp_sync_log _ _)|]. split_and!; [done..| |done].
  intros t Ht. by apply set_table_ne.
Qed.

Lemma atomic_insert_sync_log c d e n s detail : atomic (insert_sync_log c d e n s detail).
Proof.
  unfold insert_sync_log. past_reads. apply atomic_bind_total; [|intros; apply total_ret].
  eauto with atomic.
Qed.
End erp_lemmas.

(** *** What precedes a push *)

(** Database, clock and outbound requests are as they were. *)
Definition still (w w' : World) : Prop :=
  w_db w' = w_db w ∧ w_now w' = w_now w ∧ w_posts w' = w_posts w.

#[global] Instance still_preorder : PreOrder still.
Proof.
  split; unfold still; [done|]. intros w1 w2 w3 (?&?&?) (?&?&?). split_and!; congruence.
Qed.

Section still.
Context {env : Env} {senv : SyncEnv} {erp : ErpEnv}.

Lemma still_query {A} (f : Db → A) : evolves still (query f).
Proof. intros w. unfold still, state_after, query, statement. by case_match. Qed.

Lemma still_get_by_id t id : evolves still (get_by_id t id).
Proof. unfold get_by_id, fetch_optional, fetch. pose proof @still_query. evolve. Qed.

#[local] Hint Extern 1 (evolves still (get_by_id ?t ?i)) => exact (still_get_by_id t i) : evolves.

Lemma still_require_pool : evolves still require_pool.
Proof. intros w. unfold still, state_after, require_pool. by case_match. Qed.

Lemma still_open_connection c way : evolves still (open_connection c way).
Proof.
  unfold open_connection, get_connection_secret, lift. evolve.
Qed.

Lemma still_gather entity : evolves still (gather entity).
Proof.
  unfold gather, list_spare_parts, list_procurement_requests. pose proof @still_query. evolve.
Qed.

Lemma still_decrypt_token key t : evolves still (decrypt_token key t).
Proof. unfold decrypt_token. evolve. Qed.

Lemma still_master_writer auth : evolves still (master_writer auth).
Proof. unfold master_writer. evolve. Qed.

Lemma open_connection_Ok c way conn m w w' :
  open_connection c way w = (Ok (conn, m), w') →
  ∃ row, first_where (by_id Erp_connections c) (w_db w Erp_connections) = Some row ∧
    ec_enabled row = true ∧ (ec_direction row = way ∨ ec_direction row = "both"%string) ∧
    from_json (ec_field_mapping row) = Ok m ∧ cs_endpoint_url conn = ec_endpoint_url row ∧
    cs_auth_token_enc conn = ec_auth_token_enc row.
Proof.
  unfold open_connection, get_connection_secret, lift. intros H. minv.
  match goal with H : first_where _ _ = Some ?r |- _ => exists r end. bool_to_prop.
  destruct (from_json _) eqn:E; simplify_eq. split_and!; try done.
  match goal with H : _ || _ = true |- _ =>
    apply orb_true_iff in H as [H|H]; apply String.eqb_eq in H; auto end.
Qed.

Lemma gather_Ok entity recs ids w w' :
  gather entity w = (Ok (recs, ids), w') →
  if String.eqb entity "procurement_request" then
    ∃ requested, recs = map request_record requested ∧ ids = map pr_id requested ∧
      ∀ r, r ∈ requested ↔ r ∈ w_db w Procurement_requests ∧ is_requested r = true
  else ids = [].
Proof.
  unfold gather. destruct (String.eqb_spec entity "stock_level") as [->|].
  { simpl. intros. minv. by simplify_eq. }
  destruct (String.eqb_spec entity "procurement_request"); [|by intros; minv].
  unfold list_procurement_requests. intros H. minv. simplify_eq.
  eexists. split_and!; [done..|]. intros r. rewrite elem_of_select.
  unfold order_by_desc. rewrite elem_of_sort_by. tauto.
Qed.

(** An export up to its push. *)
Lemma export_opened key auth req res w w' :
  export key auth req w = (res, w') →
  (∃ e, res = Err e ∧ still w w') ∨
  (∃ row mapping recs ids token w1 push w2, still w w1 ∧
    first_where (by_id Erp_connections (eq_connection_id req)) (w_db w Erp_connections)
      = Some row ∧
    ec_enabled row = true ∧ (ec_direction row = "export" ∨ ec_direction row = "both")%string ∧
    from_json (ec_field_mapping row) = Ok mapping ∧
    (∃ w0, w_db w0 = w_db w ∧ gather (eq_entity req) w0 = (Ok (recs, ids), w1)) ∧
    (match ec_auth_token_enc row with
     | None => token = None
     | Some e => ∃ t, decrypt key e = Ok t ∧ token = Some t
     end) ∧
    post_json (ec_endpoint_url row) token (JArr (map (to_external mapping) recs)) w1
      = (push, w2) ∧
    match push with
    | Ok resp => export_pushed auth req (map (to_external mapping) recs) ids resp w2 = (res, w')
    | Err e => export_refused req (map (to_external mapping) recs) e w2 = (res, w')
    end).
Proof.
  unfold export. intros [(e & H & ->)|(actor & v & H & Hk)]%bind_outcome.
  { left. exists e. split; [done|]. exact (evolves_run _ _ _ _ _ (still_master_writer _) H). }
  apply master_writer_Ok in H as (-> & -> & _).
  apply bind_outcome in Hk as [(e & H & ->)|(u & v & [_ ->]%require_pool_Ok & Hk)].
  { left. exists e. split; [done|]. exact (evolves_run _ _ _ _ _ still_require_pool H). }
  apply bind_outcome in Hk as [(e & H & ->)|([conn mapping] & v & H & Hk)].
  { left. exists e. split; [done|]. exact (evolves_run _ _ _ _ _ (still_open_connection _ _) H). }
  pose proof (evolves_run _ _ _ _ _ (still_open_connection _ _) H) as Hs1.
  apply open_connection_Ok in H as (row & Hrow & Hen & Hdir & Hm & Eurl & Etok).
  apply bind_outcome in Hk as [(e & H & ->)|([recs ids] & v1 & H & Hk)].
  { left. exists e. split; [done|]. etrans; [exact Hs1|].
    exact (evolves_run _ _ _ _ _ (still_gather _) H). }
  assert (still w v1) as Hs2.
  { etrans; [exact Hs1|]. exact (evolves_run _ _ _ _ _ (still_gather _) H). }
  cbv zeta in Hk. rewrite Etok, Eurl in Hk.
  apply bind_outcome in Hk as [(e & H1 & ->)|(token & v2 & H1 & Hk)].
  { left. exists e. split; [done|]. etrans; [exact Hs2|].
    exact (evolves_run _ _ _ _ _ (still_decrypt_token _ _) H1). }
  apply bind_outcome in Hk as [(e & H2 & ->)|(push & w2 & H2%attempt_Ok & Hk)]; [done|].
  right. exists row, mapping, recs, ids, token.
  assert (v2 = v1 ∧ match ec_auth_token_enc row with
    | None => token = None | Some e => ∃ t, decrypt key e = Ok t ∧ token = Some t end) as [-> Ht].
  { unfold decrypt_token in H1. destruct (ec_auth_token_enc row) as [enc|]; [|by minv].
    destruct (decrypt key enc) as [t|] eqn:Ed; minv; eauto. }
  exists v1, push, w2. split_and!; [done..| | |done|by destruct push].
  - exists v. split; [apply Hs1|done].
  - done.
Qed.
End still.

Section erp_properties.
Context {env : Env} {senv : SyncEnv} {erp : ErpEnv}.

Lemma reads_outcome {E A} (m : M World E A) r w w' : reads m → m w = (r, w') → w_db w' = w_db w.
Proof. intros Hm H. exact (evolves_run _ _ _ _ _ Hm H). Qed.

Lemma reads_master_writer auth : reads (master_writer auth).
Proof. unfold master_writer. evolve. Qed.

(** What an import needs before it reads a record: a role that may write, and an enabled
    connection that takes imports, with the mapping [m] stored in its row. *)
Definition importable (auth : AuthUser) (req : ErpImportRequest) (m : FieldMapping) (w : World) :
    Prop :=
  can_write_master (role auth) = true ∧ w_pool w = true ∧ iq_entity req = "work_order"%string ∧
  ∃ row, first_where (by_id Erp_connections (iq_connection_id req)) (w_db w Erp_connections)
      = Some row ∧ ec_enabled row = true ∧
    (ec_direction row = "import" ∨ ec_direction row = "both")%string ∧
    from_json (ec_field_mapping row) = Ok m.

Lemma open_connection_run c way row m w :
  healthy w → first_where (by_id Erp_connections c) (w_db w Erp_connections) = Some row →
  ec_enabled row = true → (ec_direction row = way ∨ ec_direction row = "both"%string) →
  from_json (ec_field_mapping row) = Ok m →
  ∃ conn, open_connection c way w = (Ok (conn, m), w).
Proof.
  intros Hh Hrow Hen Hdir Hm. unfold open_connection, get_connection_secret, mbind, M_bind, map_err.
  rewrite (get_by_id_run Erp_connections c row) by done. simpl. rewrite Hen. simpl.
  assert (String.eqb (ec_direction row) way || String.eqb (ec_direction row) "both" = true) as ->.
  { destruct Hdir as [->| ->]; [by rewrite String.eqb_refl|by rewrite orb_true_r]. }
  unfold lift. rewrite Hm. eauto.
Qed.

(** What follows the loop of an import. *)
Definition import_rest (auth : AuthUser) (req : ErpImportRequest)
    (ids : Result (list string) string) : M World ApiErr ErpImportResult :=
  match ids with
  | Ok ids =>
      log_id ← map_err repo_err (insert_sync_log (iq_connection_id req) "import"
         (iq_entity req) (as_i32_cast (length ids)) "success" None);
      audit (Some (user_id auth)) "import" "erp" (Some (iq_connection_id req))
        (Some (count_detail (iq_entity req) (length ids))) ;;
      mret (mkErpImportResult (iq_entity req) (length ids) ids log_id)
  | Err detail =>
      best_effort (insert_sync_log (iq_connection_id req) "import" (iq_entity req) 0 "error"
        (Some detail)) ;;
      throw (err 400 "import_failed" detail)
  end.

(** An import, once the connection is open. *)
Lemma import_opened auth req res w w' :
  import auth req w = (res, w') →
  (∃ e, res = Err e ∧ w_db w' = w_db w ∧ (healthy w → ∀ m, ¬ importable auth req m w)) ∨
  (∃ m ids w1 w2, importable auth req m w ∧ still w w1 ∧ (healthy w → w1 = w) ∧
    import_work_orders m (iq_records req) w1 = (ids, w2) ∧
    import_rest auth req ids w2 = (res, w')).
Proof.
  unfold import. intros [(e & H & ->)|(actor & v & H & Hk)]%bind_outcome.
  { left. exists e. split_and!; [done|exact (reads_outcome _ _ _ _ (reads_master_writer _) H)|].
    intros _ m (Hr & _). unfold master_writer in H. by rewrite Hr in H. }
  apply master_writer_Ok in H as (-> & -> & Hrole).
  apply bind_outcome in Hk as [(e & H1 & ->)|(u & v & [Hpool ->]%require_pool_Ok & Hk)].
  { left. exists e. split_and!; [done|exact (reads_outcome _ _ _ _ reads_require_pool H1)|].
    intros _ m (_ & Hp & _). unfold require_pool in H1. by rewrite Hp in H1. }
  apply bind_outcome in Hk as [(e & H1 & ->)|([conn mapping] & v & H1 & Hk)].
  { left. exists e.
    split_and!; [done|exact (reads_outcome _ _ _ _ (reads_open_connection _ _) H1)|].
    intros Hh m (_ & _ & _ & row & Hrow & Hen & Hdir & Hm).
    destruct (open_connection_run _ _ _ _ _ Hh Hrow Hen Hdir Hm) as [c Hc]. congruence. }
  pose proof (evolves_run _ _ _ _ _ (still_open_connection _ _) H1) as Hstill.
  assert (healthy w → v = w) as Hv.
  { intros Hh. apply open_connection_Ok in H1 as H2. destruct H2 as (row & Hrow & Hen & Hdir & Hm & _).
    destruct (open_connection_run _ _ _ _ _ Hh Hrow Hen Hdir Hm) as [c Hc]. congruence. }
  apply open_connection_Ok in H1 as (row & Hrow & Hen & Hdir & Hm & _).
  apply bind_outcome in Hk as [(e & H2 & ->)|(u' & v' & [Hent ->]%throw_if_Ok & Hk)].
  { left. exists e. split_and!; [done| |].
    - rewrite <- (proj1 Hstill). exact (reads_outcome _ _ _ _ (evolves_throw_if _ _ _) H2).
    - intros _ m (_ & _ & He & _). rewrite He in H2. done. }
  apply bind_outcome in Hk as [(e & H2 & ->)|(ids & w2 & H2%attempt_Ok & Hk)]; [done|].
  right. exists mapping, ids, v, w2. bool_to_prop.
  split_and!; [repeat split; eauto 10|done..|]. by destruct ids.
Qed.

(** What is left of an import after the loop touches only the sync log and the audit log. *)
Lemma import_rest_outcome auth req ids res w w' :
  import_rest auth req ids w = (res, w') →
  (∀ t, t ≠ Erp_sync_log → t ≠ Audit_log → w_db w' t = w_db w t) ∧
  ∃ logs, w_db w' Erp_sync_log = w_db w Erp_sync_log ++ logs ∧
  match ids, res with
  | Ok ids, Ok r => ir_ids r = ids ∧ ∃ log, logs = [log] ∧ el_status log = "success"%string ∧
      el_record_count log = as_i32_cast (length ids)
  | Ok ids, Err _ => logs = [] ∧ is_ok (insert_sync_log (iq_connection_id req) "import"
      (iq_entity req) (as_i32_cast (length ids)) "success" None w).1 = false
  | Err text, Ok _ => False
  | Err text, Err e => e = err 400 "import_failed" text ∧
      ∀ log, log ∈ logs → el_status log = "error"%string ∧ el_record_count log = 0
  end.
Proof.
  destruct ids as [ids|detail]; cbn [import_rest].
  - intros [(e & H & ->)|(log_id & w3 & H%map_err_Ok & Hk)]%bind_outcome.
    + assert (is_ok (insert_sync_log (iq_connection_id req) "import" (iq_entity req)
        (as_i32_cast (length ids)) "success" None w).1 = false).
      { unfold map_err in H. by destruct (insert_sync_log _ _ _ _ _ _ w) as [[]]. }
      apply atomic_map_err in H; [|apply atomic_insert_sync_log]. rewrite H.
      split; [done|]. exists []. by rewrite app_nil_r.
    + apply insert_sync_log_Ok in H as (log & Elog & Hn & Hs & _ & F & _).
      injection Hk as <- <-.
      match goal with |- context [insert_audit ?a ?b ?c ?d ?e ?v] =>
        destruct (insert_audit_frame a b c d e v) as (Fa & _) end.
      split; [intros t ? ?; by rewrite Fa, F|]. exists [log]. rewrite Fa by done.
      split_and!; [done..|]. by exists log.
  - intros [= <- <-].
    destruct (insert_sync_log _ _ _ _ _ _ w) as [[id|e] w3] eqn:Elog.
    + apply insert_sync_log_Ok in Elog as (log & Elog & Hn & Hs & _ & F & _).
      split; [intros; by apply F|]. exists [log]. split_and!; [done..|].
      by intros x ->%list_elem_of_singleton.
    + apply atomic_insert_sync_log in Elog. simpl. rewrite Elog. split; [done|].
      exists []. rewrite app_nil_r. split_and!; [done..|]. by intros log ?%elem_of_nil.
Qed.

(** C34. An import turns the records it is given, in order, into the draft orders that the
    mapping stored with its connection makes of them, and keeps those it made. It is refused
    untouched only where the role may not write, no database is configured, the connection is
    missing, disabled, not for imports or has no readable mapping, the entity is another one,
    or a statement was lost.
    Otherwise it gets as far as it can: the orders of the records before some point are
    created one after the other, in full, and stay; if it stops before the end, the next
    record does not decode or its order cannot be created in the state reached, and every
    table but the sync log and the audit log is as that state has it. When it succeeds all
    records were taken, their identifiers are returned and the sync log gains one success
    entry with their number; when it fails, the entries it leaves in the log, if any, say that
    nothing was imported, even where orders were. *)
Theorem import_outcome auth req res w w' :
  import auth req w = (res, w') →
  (∃ e, res = Err e ∧ w_db w' = w_db w ∧ (healthy w → ∀ m, ¬ importable auth req m w)) ∨
  ∃ m taken rest orders w1 v logs, importable auth req m w ∧
    still w w1 ∧ (healthy w → w1 = w) ∧
    iq_records req = taken ++ rest ∧ imports m taken orders w1 v ∧
    Forall2 (order_of m (w_now w)) taken orders ∧
    w_db w' Work_orders = w_db w Work_orders ++ orders ∧
    (∀ t, t ≠ Erp_sync_log → t ≠ Audit_log → w_db w' t = w_db v t) ∧
    w_db w' Erp_sync_log = w_db w Erp_sync_log ++ logs ∧
    match res with
    | Ok r => rest = [] ∧ ir_ids r = map wo_id orders ∧
        ∃ log, logs = [log] ∧ el_status log = "success"%string ∧
          el_record_count log = as_i32_cast (length orders)
    | Err e =>
        (∀ log, log ∈ logs → el_status log = "error"%string ∧ el_record_count log = 0) ∧
        ((∃ rec rest' text, rest = rec :: rest' ∧ stuck m rec v ∧
            e = err 400 "import_failed" text) ∨
         (rest = [] ∧ is_ok (insert_sync_log (iq_connection_id req) "import" (iq_entity req)
            (as_i32_cast (length orders)) "success" None v).1 = false))
    end.
Proof.
  intros [?|(m & ids & w1 & w2 & Hm & Hs & Hw & Hl & Hk)]%import_opened; [by left|right].
  apply import_loop_outcome in Hl as (taken & rest & orders & v & Er & Hi & Edb & Hres).
  apply import_rest_outcome in Hk as (F & logs & El & Hk).
  destruct (imports_rows _ _ _ _ _ Hi) as (Hf & Ewo & Elog).
  destruct Hs as (Hdb & Hnow & Hp). rewrite Hnow in Hf. rewrite Edb in El. rewrite Hdb in Ewo, Elog.
  exists m, taken, rest, orders, w1, v, logs.
  split_and!; [done..|by rewrite F, Edb|intros t ? ?; by rewrite F, Edb|congruence|].
  destruct ids as [ids|text], res as [r|e]; [..|done|].
  - destruct Hres as (-> & -> & ->), Hk as (Eids & Hlog). rewrite app_nil_l, length_map in Hlog.
    by split_and!.
  - destruct Hres as (-> & -> & ->), Hk as (-> & Hlog). rewrite app_nil_l, length_map in Hlog.
    split; [by intros log ?%elem_of_nil|by right].
  - destruct Hres as (rec & rest' & -> & Hst), Hk as (-> & Hlog). split; [done|]. left.
    by exists rec, rest', text.
Qed.

Lemma mark_outcome ids ref res w w' requested :
  ids = map pr_id requested → ids ≠ [] →
  (∀ r, r ∈ requested ↔ r ∈ w_db w Procurement_requests ∧ is_requested r = true) →
  mark_procurement_sent ids ref w = (res, w') →
  w_posts w' = w_posts w ∧
  match res with
  | Ok _ => w_db w' Procurement_requests =
      update_rows is_requested (sent ref (w_now w)) (w_db w Procurement_requests)
  | Err _ => w_db w' = w_db w
  end.
Proof.
  intros -> Hne Hreq. unfold mark_procurement_sent. case_bool_decide; [done|].
  unfold mbind, M_bind, map_err, gets.
  destruct (update Procurement_requests _ _ w) as [[rows|e] w1] eqn:Eu; intros [= <- <-].
  - apply update_Ok in Eu as (_ & _ & ->). split; [done|]. simpl.
    rewrite set_table_eq. apply map_ext_in. intros r Hr%list_elem_of_In.
    destruct (is_requested r) eqn:E; [|by rewrite andb_false_r].
    rewrite bool_decide_eq_true_2; [done|]. apply list_elem_of_fmap. exists r.
    split; [done|]. by apply Hreq.
  - apply statement_Err in Eu as ->. done.
Qed.

Lemma log_frame c d e n s detail w w' res :
  insert_sync_log c d e n s detail w = (res, w') →
  w_db w' Procurement_requests = w_db w Procurement_requests ∧ w_posts w' = w_posts w.
Proof.
  destruct res as [id|err]; intros H.
  - apply insert_sync_log_Ok in H as (log & _ & _ & _ & _ & F & Hp). split; [by apply F|done].
  - split.
    + apply atomic_insert_sync_log in H. by rewrite H.
    + unfold insert_sync_log, new_id, gets, mbind, M_bind, map_err, insert, statement in H.
      simpl in H. repeat case_match; by simplify_eq.
Qed.

(** Nothing more is sent after the push. *)
Definition same_posts (w w' : World) : Prop := w_posts w' = w_posts w.

#[local] Instance same_posts_preorder : PreOrder same_posts.
Proof. split; unfold same_posts; [done|]. intros w1 w2 w3. congruence. Qed.

Lemma posts_statement {A} (f : Db → Result (A * Db) SqlError) :
  evolves same_posts (statement f).
Proof.
  intros w. unfold same_posts, state_after, statement. case_match; [done|].
  by destruct (f (w_db w)) as [[]|].
Qed.

Lemma export_posts auth req payload ids resp res w w' :
  export_pushed auth req payload ids resp w = (res, w') → w_posts w' = w_posts w.
Proof.
  intros H. refine (evolves_run same_posts _ _ _ _ _ H).
  assert (∀ E, evolves same_posts (new_id : M World E string)) by done.
  pose proof (λ t r, posts_statement (λ db, match check_row t r db with
    | Some e => Err e | None => Ok (r, set_table t (db t ++ [r]) db) end)) as Hi.
  pose proof (λ t p f, posts_statement (λ db, match check_update t f db (select p (db t)) with
    | Some e => Err e
    | None => Ok (map f (select p (db t)), set_table t (update_rows p f (db t)) db) end)) as Hu.
  unfold export_pushed, ignore, mark_procurement_sent, insert_sync_log, audit, insert_audit,
    insert, update. evolve.
Qed.

Lemma export_pushed_outcome auth req payload ids resp res w w' requested :
  (ids = [] ∨ ids = map pr_id requested ∧
   ∀ r, r ∈ requested ↔ r ∈ w_db w Procurement_requests ∧ is_requested r = true) →
  export_pushed auth req payload ids resp w = (res, w') →
  w_posts w' = w_posts w ∧
  ((w_db w' Procurement_requests = w_db w Procurement_requests ∧ (is_ok res = true → ids = [])) ∨
   (ids ≠ [] ∧ ∃ ref, w_db w' Procurement_requests =
      update_rows is_requested (sent ref (w_now w)) (w_db w Procurement_requests))).
Proof.
  intros Hids H. unfold export_pushed in H.
  assert (∀ v, w_posts v = w_posts w →
    (log_id ← map_err repo_err (insert_sync_log (eq_connection_id req) "export" (eq_entity req)
       (as_i32_cast (length payload)) "success" None);
     audit (Some (user_id auth)) "export" "erp" (Some (eq_connection_id req))
       (Some (count_detail (eq_entity req) (length payload))) ;;
     mret (mkErpExportResult (eq_entity req) (length payload) true payload log_id)) v = (res, w') →
    w_posts w' = w_posts w ∧ w_db w' Procurement_requests = w_db v Procurement_requests) as Hrest.
  { intros v Hv. unfold mbind, M_bind, map_err.
    destruct (insert_sync_log _ _ _ _ _ _ v) as [r1 v1] eqn:El.
    apply log_frame in El as [E1 E2]. destruct r1 as [id|e]; intros [= <- <-].
    - match goal with |- context [insert_audit ?a ?b ?c ?d ?e ?v] =>
        destruct (insert_audit_frame a b c d e v) as (Fa & _) end. simpl.
      rewrite Fa by done. split; [|done]. rewrite insert_audit_posts. congruence.
    - split; congruence. }
  destruct Hids as [->|[Eids Hreq]].
  { rewrite bool_decide_eq_true_2 in H by done.
    apply (Hrest w) in H as [? ?]; [|done]. split; [done|]. by left. }
  destruct (decide (ids = [])) as [E0|Hne].
  { rewrite bool_decide_eq_true_2 in H by done.
    apply (Hrest w) in H as [? ?]; [|done]. split; [done|]. by left. }
  rewrite bool_decide_eq_false_2 in H by done.
  apply bind_outcome in H as [(e & H & ->)|(u & v & H & Hk)];
    unfold ignore, mbind, M_bind, map_err in H;
    destruct (mark_procurement_sent _ _ w) as [r1 v1] eqn:Em;
    apply (mark_outcome _ _ _ _ _ requested Eids Hne Hreq) in Em as [Ep Em];
    destruct r1; simplify_eq.
  - split; [done|]. left. by split; [rewrite Em|].
  - injection H as _ <-. apply Hrest in Hk as [E1 E2]; [|done].
    split; [done|]. right. split; [done|]. eexists. by rewrite E2, Em.
Qed.

(** The requests behind the records gathered for an export. *)
Lemma gathered_requests entity recs ids w w' :
  gather entity w = (Ok (recs, ids), w') →
  ∃ requested, (ids = [] ∨ ids = map pr_id requested ∧
    ∀ r, r ∈ requested ↔ r ∈ w_db w Procurement_requests ∧ is_requested r = true) ∧
    (ids ≠ [] → recs = map request_record requested) ∧
    (entity = "procurement_request"%string → ids = [] →
       ∀ r, r ∈ w_db w Procurement_requests → is_requested r = false).
Proof.
  intros Hg%gather_Ok.
  destruct (String.eqb_spec entity "procurement_request") as [He|Hne].
  - destruct Hg as (requested & -> & -> & Hreq). exists requested.
    split_and!; [by right|done|]. intros _ Hnil r Hr. apply not_true_iff_false. intros Hr'.
    assert (r ∈ requested) as Hin by (by apply Hreq). apply map_eq_nil in Hnil as ->.
    by apply elem_of_nil in Hin.
  - exists []. subst. by split_and!; [left|..].
Qed.

(** C35. A procurement request counts as sent only when it was: an export makes at most one
    request to the ERP, and only through a connection that is enabled for export; requests
    change status only if the ERP answered it with success, then all those that were open
    change, and each was in the payload sent. After a successful export of procurement
    requests none is left open. *)
Theorem export_marks_only_delivered key auth req res w w' :
  export key auth req w = (res, w') →
  (w_posts w' = w_posts w ∧ is_ok res = false ∧
   w_db w' Procurement_requests = w_db w Procurement_requests) ∨
  (∃ row mapping token body,
    first_where (by_id Erp_connections (eq_connection_id req)) (w_db w Erp_connections)
      = Some row ∧
    ec_enabled row = true ∧ (ec_direction row = "export" ∨ ec_direction row = "both")%string ∧
    from_json (ec_field_mapping row) = Ok mapping ∧
    w_posts w' = w_posts w ++ [mkPost (ec_endpoint_url row) token body] ∧
    (w_db w' Procurement_requests = w_db w Procurement_requests ∨
     ∃ status answer requested ref,
       erp_reply (w_posts w') = Replied status answer ∧ is_success status = true ∧
       body = JArr (map (λ r, to_external mapping (request_record r)) requested) ∧
       (∀ r, r ∈ requested ↔ r ∈ w_db w Procurement_requests ∧ is_requested r = true) ∧
       w_db w' Procurement_requests =
         update_rows is_requested (sent ref (w_now w)) (w_db w Procurement_requests)) ∧
    (is_ok res = true → eq_entity req = "procurement_request"%string →
     ∀ r, r ∈ w_db w' Procurement_requests → is_requested r = false)).
Proof.
  intros [(e & -> & Ed & _ & Ep)|H]%export_opened; [left; by rewrite Ed|right].
  destruct H as (row & mapping & recs & ids & token & w1 & push & w2 & (Ed1 & En1 & Ep1) & Hrow
    & Hen & Hdir & Hm & (w0 & Ed0 & Hg) & Ht & Hpost & Hk).
  exists row, mapping, token, (JArr (map (to_external mapping) recs)).
  assert (w_posts w2 = w_posts w ++ [mkPost (ec_endpoint_url row) token
    (JArr (map (to_external mapping) recs))] ∧ w_db w2 = w_db w ∧ w_now w2 = w_now w)
    as (Ep2 & Ed2 & En2).
  { unfold post_json in Hpost. injection Hpost as _ <-. simpl. by rewrite Ep1, Ed1, En1. }
  destruct push as [resp|e].
  - assert (∃ status answer, erp_reply (w_posts w2) = Replied status answer ∧
      is_success status = true) as (status & answer & Hrep & Hsucc).
    { unfold post_json in Hpost. injection Hpost as Hpush <-. simpl.
      destruct (erp_reply _) as [|status answer]; [done|].
      destruct (is_success status) eqn:Es; [|done]. by exists status, answer. }
    destruct (gathered_requests _ _ _ _ _ Hg) as (requested & Hids & Hrecs & Hnone).
    rewrite Ed0, <- Ed2 in Hids. rewrite Ed0 in Hnone.
    pose proof (export_pushed_outcome _ _ _ _ _ _ _ _ requested Hids Hk) as [Ep3 Hout].
    rewrite Ed2, En2 in Hout. split_and!; [done..|congruence| |].
    + destruct Hout as [[-> _]|[Hne [ref ->]]]; [by left|right].
      destruct Hids as [|[_ Hreq]]; [done|]. rewrite Ed2 in Hreq.
      exists status, answer, requested, ref. rewrite Ep3. split_and!; try done.
      rewrite (Hrecs Hne), map_map. done.
    + intros Hok He r. destruct Hout as [[-> Hnil]|[_ [ref ->]]].
      * by apply Hnone; [|apply Hnil].
      * intros (y & Hy & ->)%elem_of_update_rows. by destruct (is_requested y) eqn:E.
  - assert (is_ok res = false ∧ w_posts w' = w_posts w2 ∧
      w_db w' Procurement_requests = w_db w2 Procurement_requests) as (Hok & Ep3 & Ed3).
    { unfold export_refused in Hk. injection Hk as <- <-.
      destruct (insert_sync_log _ _ _ _ _ _ w2) as [r1 w3] eqn:El.
      by apply log_frame in El as [??]. }
    rewrite Hok, Ep3, Ed3, Ed2. split_and!; [done..|by left|done].
Qed.

(** The row of a created connection. *)
Lemma create_connection_endpoint_Ok key auth input c w w' :
  create_connection_endpoint key auth input w = (Ok c, w') →
  ∃ row, c = into_public row ∧
    first_where (by_id Erp_connections (ec_id row)) (w_db w' Erp_connections) = Some row ∧
    ec_endpoint_url row = ci_endpoint_url input ∧
    match nonempty (ci_auth_token input) with
    | Some t => ∃ enc v v', encrypt key t v = (Ok enc, v') ∧ ec_auth_token_enc row = Some enc
    | None => ec_auth_token_enc row = None
    end.
Proof.
  intros (_ & _ & w1 & H & ->)%audited_Ok.
  apply bind_Ok in H as (direction & v1 & _ & H).
  apply bind_Ok in H as (token_enc & v2 & Henc & H). apply map_err_Ok in H.
  unfold create_connection in H. minv.
  match goal with H : check_row Erp_connections ?r _ = None |- _ =>
    exists r; pose proof (check_row_unique Erp_connections r _ (same ec_id) H
      ltac:(left)) as Hu end.
  match goal with |- context [insert_audit ?a ?b ?c ?d ?e ?v] =>
    destruct (insert_audit_frame a b c d e v) as (F & _) end.
  split_and!; [done| |done|].
  - rewrite F by done. simpl. rewrite set_table_eq. unfold first_where. rewrite select_app.
    rewrite select_none; simpl; [by unfold by_id; rewrite String.eqb_refl|].
    intros x Hx. rewrite exists_row_false in Hu. specialize (Hu x Hx).
    apply bool_decide_eq_false in Hu. apply String.eqb_neq. simpl in *. congruence.
  - simpl. unfold encrypt_token in Henc. destruct (nonempty (ci_auth_token input)); [|by minv].
    apply map_err_Ok, bind_Ok in Henc as (enc & v3 & Henc & [-> ->]%ret_Ok). eauto.
Qed.

(** The token of a connection is kept for its ERP: a connection created with one says
    only that it has one, and whatever is sent through the connection later, while it is as
    it was created, goes to its address with that very token, although what was stored is
    its encryption. *)
Theorem connection_token_roundtrip `{!ErpLaws erp} key auth auth' input token c req res w1 w2 w3 w4 :
  ci_auth_token input = Some token → token ≠ ""%string →
  utf8_valid (String.list_byte_of_string token) = true →
  create_connection_endpoint key auth input w1 = (Ok c, w2) →
  w_db w3 Erp_connections = w_db w2 Erp_connections → eq_connection_id req = cn_id c →
  export key auth' req w3 = (res, w4) →
  cn_has_token c = true ∧
  (w_posts w4 = w_posts w3 ∨
   ∃ body, w_posts w4 = w_posts w3 ++ [mkPost (ci_endpoint_url input) (Some token) body]).
Proof.
  intros Ht Hne Hv (row & -> & Hrow & Hurl & Htok)%create_connection_endpoint_Ok Ec Hid Hex.
  rewrite Ht in Htok. replace (nonempty (Some token)) with (Some token) in Htok
    by (by destruct token). destruct Htok as (enc & v & v' & Henc & Etok).
  split; [simpl; by rewrite Etok|].
  apply export_opened in Hex as [(e & -> & _ & _ & Ep)|Hex]; [by left|right].
  destruct Hex as (row' & mapping & recs & ids & tok & u1 & push & u2 & (_ & _ & Ep1) & Hrow'
    & _ & _ & _ & _ & Ht' & Hpost & Hk).
  change (cn_id (into_public row)) with (ec_id row) in Hid.
  rewrite Ec, Hid, Hrow in Hrow'. injection Hrow' as <-.
  rewrite Etok in Ht'. destruct Ht' as (t & Hd & ->).
  rewrite (decrypt_encrypt key token enc v v' Henc Hv) in Hd. injection Hd as <-.
  exists (JArr (map (to_external mapping) recs)). rewrite <- Hurl, <- Ep1.
  assert (w_posts u2 = w_posts u1 ++ [mkPost (ec_endpoint_url row) (Some token)
    (JArr (map (to_external mapping) recs))]) as <-
    by (unfold post_json in Hpost; by injection Hpost as _ <-).
  destruct push as [resp|e].
  - by eapply export_posts.
  - unfold export_refused in Hk. injection Hk as _ <-.
    destruct (insert_sync_log _ _ _ _ _ _ u2) as [r1 u3] eqn:El. by apply log_frame in El as [_ ?].
Qed.
End erp_properties.

(** ** The properties on a concrete plant *)

#[local] Existing Instances sample_env sample_sync.

(** A toy cipher with the shape of the crate's: a fixed nonce, a one-byte tag. *)
Definition sample_erp : ErpEnv := {|
  random_bytes _ := Some (repeat Byte.x00 24);
  aead_encrypt _ _ p := Some (Byte.x01 :: p);
  aead_decrypt _ _ c := match c with [] => None | _ :: p => Some p end;
  base64_encode := String.string_of_list_byte;
  base64_decode s := Some (String.list_byte_of_string s);
  erp_reply _ := Replied 200 (Some (JObj [("reference"%string, JStr "PO-7")]));
  status_text _ := "200 OK";
  repo_error_debug _ := "Db"
|}.

Lemma sample_erp_laws : ErpLaws sample_erp.
Proof.
  split.
  - by intros n b [= <-].
  - by intros k n p c [= <-].
  - by intros k n p c [= <-].
  - intros b. simpl. by rewrite String.list_byte_of_string_of_list_byte.
Qed.

#[local] Existing Instance sample_erp.

Definition connection_input : ErpConnectionInput :=
  mkErpConnectionInput None "SAP" "https://erp" (Some "s3cret"%string)
    (JObj [("part_id"%string, JStr "part_id"); ("qty_ordered"%string, JStr "qty_ordered");
           ("qty_requested"%string, JStr "Menge"); ("request_id"%string, JStr "Bedarf");
           ("wo_number"%string, JStr "wo_number")]) None None.

Definition sample_key : list Byte.byte := [Byte.x02].

(** A plant with one open procurement request. *)
Definition store : World := world_of
  (set_table Procurement_requests
     [mkProcRow "pr1" "sp1" (3 * 10 ^ 28) "manual" "requested" None None 0 0] workshop_db).

Definition connected := create_connection_endpoint sample_key admin connection_input store.
Definition sap : ErpConnection :=
  match connected.1 with
  | Ok c => c
  | Err _ => mkErpConnection "" None "" "" false JNull "" false 0 0
  end.

Definition push_request : ErpExportRequest :=
  mkErpExportRequest (@ulid sample_env 0) "procurement_request".
Definition pushed := export sample_key admin push_request connected.2.

(** The mapped fields of the one request. *)
Definition pushed_body : Json :=
  JArr [JObj [("Bedarf"%string, JStr "pr1"); ("Menge"%string, JDecimal (3 * 10 ^ 28))]].

Lemma connection_token_roundtrip_witness :
  create_connection_endpoint sample_key admin connection_input store = (Ok sap, connected.2) ∧
  cn_has_token sap = true ∧
  w_posts pushed.2 = [mkPost "https://erp" (Some "s3cret"%string) pushed_body] ∧
  (w_posts pushed.2 = w_posts connected.2 ∨
   ∃ body, w_posts pushed.2 =
     w_posts connected.2 ++ [mkPost "https://erp" (Some "s3cret"%string) body]).
Proof.
  assert (create_connection_endpoint sample_key admin connection_input store
    = (Ok sap, connected.2)) as H by (vm_compute; reflexivity).
  assert (export sample_key admin push_request connected.2 = (pushed.1, pushed.2)) as Hp
    by (vm_compute; reflexivity).
  split; [exact H|]. split; [vm_compute; reflexivity|]. split; [vm_compute; reflexivity|].
  assert (eq_connection_id push_request = cn_id sap) as Hid by (vm_compute; reflexivity).
  exact (proj2 (@connection_token_roundtrip _ _ sample_erp_laws sample_key admin admin
    connection_input "s3cret" sap push_request pushed.1 store connected.2 connected.2 pushed.2
    eq_refl ltac:(discriminate) eq_refl H eq_refl Hid Hp)).
Defined.

Lemma export_marks_only_delivered_witness :
  is_ok pushed.1 = true ∧
  map (λ r, (pr_status r, pr_erp_reference r)) (w_db pushed.2 Procurement_requests)
    = [("sent_to_erp"%string, Some "PO-7"%string)] ∧
  (∀ r, r ∈ w_db pushed.2 Procurement_requests → is_requested r = false).
Proof.
  assert (export sample_key admin push_request connected.2 = (pushed.1, pushed.2)) as Hp
    by (vm_compute; reflexivity).
  assert (is_ok pushed.1 = true) as Hok by (vm_compute; reflexivity).
  split; [exact Hok|]. split; [vm_compute; reflexivity|].
  destruct (@export_marks_only_delivered _ _ sample_key admin push_request pushed.1
    connected.2 pushed.2 Hp) as [(_ & Hn & _)|(row & m & t & b & _ & _ & _ & _ & _ & _ & H)].
  - rewrite Hok in Hn. discriminate.
  - exact (H Hok eq_refl).
Defined.

(** Two records of which the second has an unknown part: the first order stays, and the sync
    log says that nothing was imported. *)
Definition incoming (number part : string) : Json :=
  JObj [("part_id"%string, JStr part); ("qty_ordered"%string, JDecimal (5 * 10 ^ 28));
        ("wo_number"%string, JStr number)].
Definition import_request : ErpImportRequest :=
  mkErpImportRequest (@ulid sample_env 0) "work_order"
    [incoming "WO-1" "p1"; incoming "WO-2" "unknown"].
Definition imported := import admin import_request connected.2.

Lemma import_outcome_witness :
  imported.1 = Err (err 400 "import_failed" "record 1: Db") ∧
  map wo_wo_number (w_db imported.2 Work_orders) = ["WO-1"%string] ∧
  map (λ l, (el_status l, el_record_count l)) (w_db imported.2 Erp_sync_log)
    = [("error"%string, 0)] ∧
  ∃ m orders v,
    imports m [incoming "WO-1" "p1"] orders connected.2 v ∧ w_db imported.2 Work_orders = orders.
Proof.
  assert (import admin import_request connected.2 = (imported.1, imported.2)) as Hi
    by (vm_compute; reflexivity).
  split; [vm_compute; reflexivity|]. split; [vm_compute; reflexivity|].
  split; [vm_compute; reflexivity|].
  assert (w_db connected.2 Work_orders = []) as E0 by (vm_compute; reflexivity).
  assert (length (w_db imported.2 Work_orders) = 1%nat) as E1 by (vm_compute; reflexivity).
  destruct (@import_outcome _ _ _ admin import_request imported.1 connected.2 imported.2 Hi)
    as [(e & _ & Hdb & _)|(m & taken & rest & orders & w1 & v & logs & _ & _ & Hw & E & Him & Hf & Ho & _)].
  { rewrite Hdb, E0 in E1. discriminate E1. }
  rewrite E0 in Ho. rewrite (Hw eq_refl) in Him. exists m, orders, v.
  rewrite Ho in E1. apply Forall2_length in Hf. simpl in E1. rewrite E1 in Hf.
  destruct taken as [|a [|]]; [discriminate Hf| |discriminate Hf].
  injection E as <- _. split; [exact Him|exact Ho].
Defined.
