(* ===== verification/Process.v ===== *)
(** * The processes: configuration, state, health

    How the two servers start and say how they are: [crates/mes-edge/src/config.rs],
    [http.rs], [ws.rs] and the boot sequence of [lib.rs], and the same of
    [crates/mes-cloud]. Each handler's access to the process state is part of [World]; here
    is how a process comes to that state. *)

From Stdlib Require Import Ascii.
From S2P Require Import Prelude Lifecycle Schema Sql Sample Sync Auth Mapping Orders Dnc Erp.

(** The environment of a process, the version it was built as, and the description of its API
    that utoipa makes at build time. *)
Class ProcessEnv := {
  VERSION : string;
  openapi : Json;
  env_var : string → option string           (** [std::env::var] *)
}.

(** Connecting and migrating: [None] is success, else the text of the error. *)
Class DatabaseEnv := {
  connect : string → Z → option string;
  run_migrations : string → option string
}.

(** ** Numbers in variables *)

Fixpoint digits (acc : Z) (s : string) : option Z :=
  match s with
  | EmptyString => Some acc
  | String a s' =>
      let n := Z.of_N (N_of_ascii a) in
      if (48 <=? n) && (n <=? 57) then digits (acc * 10 + (n - 48)) s' else None
  end.

(** Digits, at least one. *)
Definition unsigned (s : string) : option Z :=
  match s with EmptyString => None | _ => digits 0 s end.

(** [str::parse] of integers of a width; a sign is allowed, a minus only for signed ones. *)
Definition parse_int (lo hi : Z) (s : string) : option Z :=
  n ← match s with
      | String a s' =>
          if Ascii.eqb a "+"%char then unsigned s'
          else if Ascii.eqb a "-"%char && (lo <? 0) then Z.opp <$> unsigned s'
          else unsigned s
      | EmptyString => None
      end;
  if (lo <=? n) && (n <=? hi) then Some n else None.

Definition parse_u32 : string → option Z := parse_int 0 (2 ^ 32 - 1).
Definition parse_i64 : string → option Z := parse_int (- 2 ^ 63) (2 ^ 63 - 1).

(** ** Configuration *)

Record EdgeConfig := mkEdgeConfig {
  cf_bind : string; cf_database_url : option string; cf_db_max_connections : Z;
  cf_jwt_secret : string; cf_jwt_ttl_secs : Z
}.

Record CloudConfig := mkCloudConfig {
  cc_bind : string; cc_database_url : option string; cc_db_max_connections : Z;
  cc_admin_token : option string
}.

(** ** Health *)

Record HealthResponse := mkHealthResponse {
  hr_service : string; hr_status : string; hr_version : string
}.

Definition health_ok (service version : string) : HealthResponse :=
  mkHealthResponse service "ok" version.

Definition EDGE_SERVICE : string := "mes-edge".
Definition CLOUD_SERVICE : string := "mes-cloud".

(** ** State *)

(** [AppState] of the edge: the pool is up or there is none. *)
Record AppState := mkAppState {
  as_pool : bool; as_auth : AuthConfig; as_dnc : DncDaemon; as_erp_key : list Byte.byte
}.

Inductive BootError := ConnectError (m : string) | MigrateError (m : string).

Section process.
Context {env : Env} {senv : SyncEnv} {proc : ProcessEnv} {dbenv : DatabaseEnv}.

Definition edge_config_from_env {E} : M World E EdgeConfig :=
  let bind := default "0.0.0.0:8080"%string (env_var "MES_EDGE_BIND") in
  let database_url := nonempty (env_var "DATABASE_URL") in
  let db_max_connections := default 10 (env_var "MES_DB_MAX_CONN" ≫= parse_u32) in
  jwt_secret ← match nonempty (env_var "MES_JWT_SECRET") with
               | Some s => mret s
               | None => new_id
               end;
  let jwt_ttl_secs := default 43200 (env_var "MES_JWT_TTL_SECS" ≫= parse_i64) in
  mret (mkEdgeConfig bind database_url db_max_connections jwt_secret jwt_ttl_secs).

Definition cloud_config_from_env : CloudConfig :=
  mkCloudConfig (default "0.0.0.0:8090"%string (env_var "MES_CLOUD_BIND"))
    (nonempty (env_var "DATABASE_URL"))
    (default 20 (env_var "MES_DB_MAX_CONN" ≫= parse_u32))
    (nonempty (env_var "MES_CLOUD_ADMIN_TOKEN")).

Definition app_state_new (pool : bool) (auth : AuthConfig) : AppState :=
  mkAppState pool auth DisconnectedDaemon (derive_key (ac_secret auth)).

Definition with_dnc (state : AppState) (dnc : DncDaemon) : AppState :=
  mkAppState (as_pool state) (as_auth state) dnc (as_erp_key state).

(** Connect and migrate, when a database is configured. *)
Definition open_pool {S} (database_url : option string) (max_connections : Z) :
    M S BootError bool :=
  match database_url with
  | Some url =>
      match connect url max_connections with
      | Some m => throw (ConnectError m)
      | None =>
          match run_migrations url with
          | Some m => throw (MigrateError m)
          | None => mret true
          end
      end
  | None => mret false
  end.

(** [run] of the edge up to the listener; the outcomes of the daemon's connections are the
    network's. *)
Definition edge_boot (outcomes : list (option string)) : M World BootError (string * AppState) :=
  cfg ← edge_config_from_env;
  pool ← open_pool (cf_database_url cfg) (cf_db_max_connections cfg);
  let auth := mkAuthConfig (cf_jwt_secret cfg) (cf_jwt_ttl_secs cfg) in
  let state := app_state_new pool auth in
  let state := match nonempty (env_var "MES_DNC_ADDR") with
               | Some _ => with_dnc state (TcpDncClient outcomes 0)
               | None => state
               end in
  mret (cf_bind cfg, state).

(** [SELECT 1], when there is a database. *)
Definition is_ready {E} : M World E bool :=
  pool ← gets w_pool;
  if pool : bool then
    r ← attempt (query (λ _, tt));
    mret (is_ok r)
  else mret false.

Definition healthz (service : string) : HealthResponse := health_ok service VERSION.

Definition readyz {E} (service : string) : M World E (Z * HealthResponse) :=
  ready ← is_ready;
  mret (if ready : bool then (200, health_ok service VERSION)
        else (503, mkHealthResponse service "not_ready" VERSION)).
End process.

(** ** Live events *)

(** What [recv] of a broadcast receiver comes to. *)
Inductive Received := Event (ev : WsEvent) | Lagged (missed : Z) | Closed.

(** [forward]: the frames a client is sent, given what is received and how many frames its
    socket takes before it fails; [ser] fails where serialisation does. *)
Fixpoint forward (ser : WsEvent → option string) (takes : nat) (rx : list Received) :
    list string :=
  match rx with
  | [] => []
  | Event ev :: rx' =>
      match ser ev with
      | None => forward ser takes rx'
      | Some text =>
          match takes with
          | O => []
          | S takes' => text :: forward ser takes' rx'
          end
      end
  | Lagged _ :: rx' => forward ser takes rx'
  | Closed :: _ => []
  end.

(** ** Properties *)

(** The world a booted edge serves its first request in. *)
Definition serving (state : AppState) (w : World) : World :=
  w <| w_pool := as_pool state |> <| w_dnc := as_dnc state |>.

Section process_properties.
Context {env : Env} {senv : SyncEnv} {proc : ProcessEnv} {dbenv : DatabaseEnv}.

(** A server says it is ready exactly when it can work: readiness is 200 exactly when a
    database is configured and answers, and 503 otherwise, and asking changes no data. *)
Theorem readiness_exact {E} service w :
  (readyz service w : Result (Z * HealthResponse) E * World).1 =
    Ok (if w_pool w && is_ok (query (λ _, tt) w).1 then (200, healthz service)
        else (503, mkHealthResponse service "not_ready" VERSION)) ∧
  w_db (readyz service w : Result (Z * HealthResponse) E * World).2 = w_db w.
Proof.
  unfold readyz, is_ready, attempt, gets, mbind, M_bind. destruct (w_pool w); [|done]. simpl.
  pose proof (reads_query (λ _, tt) w) as Hr. unfold same_db, state_after in Hr.
  by destruct (query (λ _, tt) w) as [[u|e] w'].
Qed.

(** What a booted edge serves: a database it has connected to and migrated, when one is
    configured; none otherwise, and then every handler that needs one refuses with 503.
    Tokens are signed with the configured secret, or with a fresh one when none is set (or
    an empty one), and the key for stored ERP tokens derives from that same secret. A boot
    fails only over a configured database that refuses the connection or a migration. *)
Theorem edge_boot_outcome outcomes w :
  match edge_boot outcomes w with
  | (Ok (bind, state), w') =>
      as_pool state = bool_decide (is_Some (nonempty (env_var "DATABASE_URL"))) ∧
      (∀ url, nonempty (env_var "DATABASE_URL") = Some url →
         (∃ n, connect url n = None) ∧ run_migrations url = None) ∧
      (as_pool state = false → ∀ v, require_pool (serving state v) =
         (Err (err 503 "unavailable" "database not configured"), serving state v)) ∧
      ac_secret (as_auth state)
        = default (ulid (w_next w)) (nonempty (env_var "MES_JWT_SECRET")) ∧
      as_erp_key state = derive_key (ac_secret (as_auth state)) ∧
      w_db w' = w_db w
  | (Err e, w') =>
      ∃ url, nonempty (env_var "DATABASE_URL") = Some url ∧
        ((∃ n m, connect url n = Some m ∧ e = ConnectError m) ∨
         (∃ m, run_migrations url = Some m ∧ e = MigrateError m))
  end.
Proof.
  unfold edge_boot, edge_config_from_env, open_pool, new_id, throw, mbind, M_bind, mret, M_ret.
  destruct (nonempty (env_var "MES_JWT_SECRET")) as [secret|];
    (destruct (nonempty (env_var "DATABASE_URL")) as [url|]; simpl;
     [destruct (connect url _) as [m|] eqn:Ec; [by eauto 10|];
      destruct (run_migrations url) as [m|] eqn:Em; [by eauto 10|]|]);
    destruct (nonempty (env_var "MES_DNC_ADDR")) as [addr|]; naive_solver.
Qed.
End process_properties.

(** The events received before the bus closed. *)
Fixpoint before_close (rx : list Received) : list WsEvent :=
  match rx with
  | [] | Closed :: _ => []
  | Event ev :: rx' => ev :: before_close rx'
  | Lagged _ :: rx' => before_close rx'
  end.

(** A client of the live stream gets the events in the order they were published, none
    twice: the frames are those of the events received before the bus closed that have a
    serialisation, up to what its socket takes; a lag skips events but does not end the
    stream. *)
Theorem forward_exact ser takes rx :
  forward ser takes rx = take takes (omap ser (before_close rx)).
Proof.
  revert takes. induction rx as [|[ev|n|] rx IH]; intros takes; simpl; try done.
  - by destruct takes.
  - destruct (ser ev); simpl; [|apply IH]. destruct takes; simpl; [done|]. by rewrite IH.
  - by destruct takes.
Qed.

(** ** The properties on a concrete process *)

Definition sample_process : ProcessEnv := {|
  VERSION := "0.1.0";
  openapi := JObj [("openapi"%string, JStr "3.0.3")];
  env_var name :=
    if String.eqb name "DATABASE_URL" then Some "postgres://mes"%string
    else if String.eqb name "MES_JWT_SECRET" then Some "s3cret"%string
    else if String.eqb name "MES_DIAG_REPO" then Some "acme/diag"%string
    else None
|}.

Definition sample_database : DatabaseEnv := {|
  connect url n := if n =? 10 then None else Some "too many"%string;
  run_migrations _ := None
|}.

Definition booted := @edge_boot sample_env sample_sync sample_process sample_database [] plant.

Lemma edge_boot_outcome_witness :
  is_ok booted.1 = true ∧ ∃ n, @connect sample_database "postgres://mes" n = None.
Proof.
  assert (∃ bind state, booted = (Ok (bind, state), plant)) as (bind & state & H)
    by (eexists _, _; vm_compute; reflexivity).
  split; [rewrite H; reflexivity|].
  pose proof (@edge_boot_outcome sample_env sample_sync sample_process sample_database [] plant)
    as Hb.
  change (@edge_boot sample_env sample_sync sample_process sample_database [] plant)
    with booted in Hb.
  rewrite H in Hb. destruct Hb as (_ & Hb & _).
  destruct (Hb "postgres://mes"%string eq_refl) as [Hc _]. exact Hc.
Defined.
