(* ===== verification/Diagnostics.v ===== *)
(** * Diagnostics

    [crates/mes-diagnostics]: the redaction of what may leave the plant ([redact.rs]), the
    ring buffer of recent events ([buffer.rs]), the reports ([heartbeat.rs], [manual.rs],
    [error_trigger.rs], [crash.rs]), the opt-in path that ships them ([lib.rs],
    [github.rs]), and the endpoint of [crates/mes-edge/src/diagnostics.rs].

    Strings are the bytes of their UTF-8 form. The payloads are made of JSON's own kinds of
    value (no [JDecimal], no [JTime]). *)

From Stdlib Require Import Ascii.
From S2P Require Import Prelude Lifecycle Schema Sql Sample Sync Protocol Orders Master Erp Process.

(** ** Characters *)

(** A character, as the bytes that encode it. *)
Abbreviation Char := string (only parsing).

(** How many bytes a character has, from its first. *)
Definition width (a : Ascii.ascii) : nat :=
  let n := Ascii.N_of_ascii a in
  if (n <? 192)%N then 1 else if (n <? 224)%N then 2 else if (n <? 240)%N then 3 else 4.

(** The rest of a character that lacks [n] bytes, and the characters after it. *)
Fixpoint next_chars (n : nat) (s : string) : string * list Char :=
  match s with
  | EmptyString => (EmptyString, [])
  | String a s' =>
      match n with
      | S n' => let '(c, cs) := next_chars n' s' in (String a c, cs)
      | O => let '(c, cs) := next_chars (width a - 1) s' in (EmptyString, String a c :: cs)
      end
  end.

(** [str::chars]. *)
Definition chars (s : string) : list Char := (next_chars 0 s).2.

(** The text of a run of characters. *)
Definition text (cs : list Char) : string := foldr String.append EmptyString cs.

Definition bytes (l : list N) : Char :=
  String.string_of_list_ascii (map Ascii.ascii_of_N l).

(** The characters with the Unicode property [White_Space]. *)
Definition white_space : list Char :=
  map bytes ([[9]; [10]; [11]; [12]; [13]; [32]; [194; 133]; [194; 160]; [225; 154; 128];
    [226; 128; 128]; [226; 128; 129]; [226; 128; 130]; [226; 128; 131]; [226; 128; 132];
    [226; 128; 133]; [226; 128; 134]; [226; 128; 135]; [226; 128; 136]; [226; 128; 137];
    [226; 128; 138]; [226; 128; 168]; [226; 128; 169]; [226; 128; 175]; [226; 129; 159];
    [227; 128; 128]]%N).

(** [char::is_whitespace]. *)
Definition is_whitespace (c : Char) : bool := bool_decide (c ∈ white_space).

(** [str::split_inclusive] with [char::is_whitespace], after [cur]. *)
Fixpoint split_inclusive (cur cs : list Char) : list (list Char) :=
  match cs with
  | [] => match cur with [] => [] | _ => [cur] end
  | c :: cs' =>
      if is_whitespace c then (cur ++ [c]) :: split_inclusive [] cs'
      else split_inclusive (cur ++ [c]) cs'
  end.

(** [str::trim_end]. *)
Fixpoint trim_end (cs : list Char) : list Char :=
  match cs with
  | [] => []
  | c :: cs' =>
      match trim_end cs' with
      | [] => if is_whitespace c then [] else [c]
      | cs'' => c :: cs''
      end
  end.

(** ** [redact.rs] *)

Definition SAFE_KEYS : list string :=
  ["service"; "version"; "build"; "commit"; "os"; "arch"; "cpu_count"; "mem_bytes";
   "level"; "target"; "event"; "kind"; "code"; "status"; "timestamp"; "ts"; "uptime_secs";
   "elapsed_ms"; "count"; "seq"; "error"; "error_type"; "message"; "panic"; "location";
   "thread"; "backtrace_hash"; "span"; "spans"; "reason_code"]%string.

Definition is_safe (k : string) : bool := bool_decide (k ∈ SAFE_KEYS).

Definition contains (a : Ascii.ascii) (s : string) : bool :=
  existsb (Ascii.eqb a) (String.list_ascii_of_string s).

(** What follows the first [a]. *)
Fixpoint after (a : Ascii.ascii) (s : string) : option string :=
  match s with
  | EmptyString => None
  | String b s' => if Ascii.eqb a b then Some s' else after a s'
  end.

(** [i > 0]: the text does not start with the sign. *)
Definition looks_like_email (w : string) : bool :=
  match w with
  | EmptyString => false
  | String a _ =>
      negb (Ascii.eqb a "@"%char) &&
      match after "@"%char w with Some rest => contains "."%char rest | None => false end
  end.

Definition in_codes (lo hi : N) (a : Ascii.ascii) : bool :=
  (lo <=? Ascii.N_of_ascii a)%N && (Ascii.N_of_ascii a <=? hi)%N.
Definition is_ascii_digit : Ascii.ascii → bool := in_codes 48 57.
Definition is_ascii_alphanumeric (a : Ascii.ascii) : bool :=
  is_ascii_digit a || in_codes 65 90 a || in_codes 97 122 a.

Definition looks_like_token (w : string) : bool :=
  (24 <=? String.length w)%nat
  && forallb (λ c, is_ascii_alphanumeric c || Ascii.eqb c "_"%char || Ascii.eqb c "-"%char
                   || Ascii.eqb c "+"%char || Ascii.eqb c "/"%char) (String.list_ascii_of_string w)
  && existsb is_ascii_digit (String.list_ascii_of_string w).

Definition flagged (w : string) : bool := looks_like_email w || looks_like_token w.

(** One round of the loop: the word, or its replacement, with its white space. *)
Definition scrub_word (word : list Char) : list Char :=
  let trimmed := trim_end word in
  let ws := drop (length trimmed) word in
  (if flagged (text trimmed) then chars "[redacted]" else trimmed) ++ ws.

Definition words (s : string) : list (list Char) := split_inclusive [] (chars s).

Definition scrub_string (s : string) : string := text (concat (map scrub_word (words s))).

Fixpoint redact (value : Json) : Json :=
  match value with
  | JObj map =>
      JObj ((fix go (map : list (string * Json)) : list (string * Json) :=
        match map with
        | [] => []
        | (k, v) :: map' => if is_safe k then (k, redact v) :: go map' else go map'
        end) map)
  | JArr items => JArr (map redact items)
  | JStr s => JStr (scrub_string s)
  | other => other
  end.

(** ** [buffer.rs] *)

Record DiagBuffer := mkDiagBuffer { cap : nat; events : list Json }.

Definition buffer_new (cap : nat) : DiagBuffer := mkDiagBuffer (Nat.max cap 1) [].

Definition buffer_push (b : DiagBuffer) (event : Json) : DiagBuffer :=
  let kept := if (length (events b) =? cap b)%nat then tail (events b) else events b in
  mkDiagBuffer (cap b) (kept ++ [redact event]).

Definition snapshot (b : DiagBuffer) : list Json := events b.
Definition buffer_len (b : DiagBuffer) : nat := length (events b).
Definition buffer_is_empty (b : DiagBuffer) : bool := bool_decide (events b = []).

(** ** Outside the sources *)

Class DiagEnv := {
  OS : string; ARCH : string;                (** [std::env::consts] *)
  sip_hash : string → N;                     (** [DefaultHasher], 64 bits *)
  to_string_pretty : Json → string;          (** of [serde_json] *)
  github_reply : list Post → reply;          (** to the last of the requests sent so far *)
  github_status_text : Z → string            (** [StatusCode]'s [Display] *)
}.

Section diagnostics.
Context {proc : ProcessEnv} {diag : DiagEnv}.

(** ** Reports *)

Definition heartbeat_payload (service version : string) (uptime_secs : Z) : Json :=
  JObj [("arch", JStr ARCH); ("event", JStr "heartbeat"); ("os", JStr OS);
        ("service", JStr service); ("uptime_secs", JInt uptime_secs);
        ("version", JStr version)]%string.

Definition manual_report (service version note : string) (recent : list Json) : Json :=
  JObj [("event", JStr "manual"); ("message", JStr note); ("service", JStr service);
        ("spans", JArr recent); ("version", JStr version)]%string.

Definition error_report (service version error_type error : string) : Json :=
  JObj [("error", JStr error); ("error_type", JStr error_type);
        ("event", JStr "error_trigger"); ("level", JStr "error"); ("service", JStr service);
        ("version", JStr version)]%string.

(** The last [n] hexadecimal digits. *)
Fixpoint hex_digits (n : nat) (x : N) : list Ascii.ascii :=
  match n with
  | O => []
  | S n' => hex_digits n' (x / 16) ++ [hex_digit (x mod 16)]
  end.

(** [format!("{:016x}")] of 64 bits. *)
Definition crash_hash (s : string) : string :=
  String.string_of_list_ascii (hex_digits 16 (sip_hash s)).

Definition crash_report (service version message : string) (location : option string) : Json :=
  JObj [("backtrace_hash", JStr (crash_hash message)); ("event", JStr "crash");
        ("level", JStr "error"); ("location", JOpt JStr location); ("panic", JBool true);
        ("service", JStr service); ("version", JStr version)]%string.

(** ** Shipping *)

Inductive DiagnosticsError := Failed (m : string) | Ship (m : string).

Definition diagnostics_error_text (e : DiagnosticsError) : string :=
  match e with
  | Failed m => String.append "diagnostics error: " m
  | Ship m => String.append "diagnostics shipping failed: " m
  end.

Inductive SendOutcome := Skipped | Shipped.

Record ShipConfig := mkShipConfig { sc_enabled : bool; sc_repo : string; sc_token : string }.

Definition from_env : ShipConfig :=
  mkShipConfig (bool_decide (env_var "MES_DIAG_ENABLED" = Some "true"%string))
    (default ""%string (env_var "MES_DIAG_REPO")) (default ""%string (env_var "MES_DIAG_TOKEN")).

(** [Shipper::ship] of a [GitHubShipper] with the configuration's repository and token. *)
Definition ship (config : ShipConfig) (title body : string) : M World DiagnosticsError unit :=
  λ w,
  let url := String.append "https://api.github.com/repos/"
               (String.append (sc_repo config) "/issues") in
  let issue := JObj [("body", JStr body); ("labels", JArr [JStr "diagnostics"]);
                     ("title", JStr title)]%string in
  let posts := w_posts w ++ [mkPost url (Some (sc_token config)) issue] in
  (match github_reply posts with
   | Unreachable m => Err (Ship m)
   | Replied status _ =>
       if is_success status then Ok tt
       else Err (Ship (String.append "github returned " (github_status_text status)))
   end, w <| w_posts := posts |>).

(** The text of a field of a report. *)
Definition text_field (name default_ : string) (v : Json) : string :=
  default default_ (field name v ≫= as_string).

Definition bundle_title (redacted : Json) : string :=
  String.append "[diagnostics] " (String.append (text_field "service" "mes" redacted)
    (String.append ": " (text_field "event" "diagnostics" redacted))).

Definition new_line : string := String (Ascii.ascii_of_N 10) EmptyString.

Definition bundle_body (redacted : Json) : string :=
  String.append "```json" (String.append new_line (String.append (to_string_pretty redacted)
    (String.append new_line "```"))).

Definition send_diagnostics (config : ShipConfig) (payload : Json) :
    M World DiagnosticsError SendOutcome :=
  if negb (sc_enabled config) then mret Skipped
  else
    let redacted := redact payload in
    ship config (bundle_title redacted) (bundle_body redacted) ;;
    mret Shipped.

(** [POST /v1/diagnostics/send], given the note of the body if it has one. *)
Definition send (auth : AuthUser) (note : option string) : M World ApiErr Json :=
  master_writer auth ;;
  let note := default "manual diagnostics from supervisor console"%string note in
  let config := from_env in
  let payload := manual_report "mes-edge" VERSION note [] in
  outcome ← map_err (λ e, err 502 "diagnostics_failed" (diagnostics_error_text e))
    (send_diagnostics config payload);
  mret (JObj [("outcome"%string,
    JStr match outcome with Shipped => "shipped" | Skipped => "skipped" end)]).
End diagnostics.

(** ** Lemmas: characters and words *)

(** A character with all its bytes, and one that the end of the text may have cut short. *)
Definition whole (c : Char) : Prop :=
  match c with EmptyString => False | String a s => String.length s = (width a - 1)%nat end.
Definition begun (c : Char) : Prop :=
  match c with EmptyString => False | String a s => (String.length s <= width a - 1)%nat end.

(** Only the last character of a text is cut short. *)
Inductive proper : list Char → Prop :=
  | proper_nil : proper []
  | proper_last c : begun c → proper [c]
  | proper_cons c cs : whole c → proper cs → proper (c :: cs).

Lemma whole_begun c : whole c → begun c.
Proof. destruct c; simpl; [done|lia]. Qed.

Lemma proper_app a b : proper (a ++ b) → b ≠ [] → Forall whole a ∧ proper b.
Proof.
  induction a as [|c a IH]; simpl; intros H Hb; [by split|].
  inversion H as [|c' Hc E|c' cs Hc Hcs]; subst.
  - by destruct a; [destruct b|].
  - destruct (IH Hcs Hb). by split; [constructor|].
Qed.

Lemma app_proper a b : Forall whole a → proper b → proper (a ++ b).
Proof. intros Ha Hb. induction Ha; simpl; [done|]. by constructor. Qed.

Lemma text_app a b : text (a ++ b) = String.append (text a) (text b).
Proof. induction a as [|c a IH]; simpl; [done|]. by rewrite IH, append_assoc. Qed.

(** The bytes a pending character takes before the next begins. *)
Lemma next_chars_app n p s :
  (String.length p <= n)%nat →
  next_chars n (String.append p s) =
  (String.append p (next_chars (n - String.length p) s).1,
   (next_chars (n - String.length p) s).2).
Proof.
  revert n. induction p as [|a p IH]; intros n Hn; simpl in Hn |- *.
  - rewrite Nat.sub_0_r, !append_empty. by destruct (next_chars n s).
  - destruct n as [|n]; [lia|]. simpl. rewrite IH by lia. done.
Qed.

Lemma chars_cons c s : whole c → chars (String.append c s) = c :: chars s.
Proof.
  destruct c as [|a p]; [done|]. simpl. intros Hw. rewrite append_cons. unfold chars. simpl.
  rewrite next_chars_app by lia. rewrite Hw, Nat.sub_diag. simpl. f_equal.
  destruct s; simpl; [by rewrite append_nil|].
  case_match. simpl. by rewrite append_nil.
Qed.

Lemma chars_last c : begun c → chars c = [c].
Proof.
  destruct c as [|a p]; [done|]. simpl. intros Hl. unfold chars. simpl.
  pose proof (next_chars_app (width a - 1) p EmptyString Hl) as E.
  rewrite append_nil in E. by rewrite E; simpl; rewrite append_nil.
Qed.

(** Taking a text apart recovers the characters it was put together from. *)
Lemma chars_text cs : proper cs → chars (text cs) = cs.
Proof.
  induction 1 as [|c Hc|c cs Hc _ IH]; simpl; [done| |].
  - by rewrite append_nil, chars_last.
  - by rewrite chars_cons, IH.
Qed.

Lemma next_chars_spec n s :
  let '(c, cs) := next_chars n s in
  String.append c (text cs) = s ∧ proper cs ∧ (String.length c <= n)%nat ∧
  (cs ≠ [] → String.length c = n).
Proof.
  revert n. induction s as [|a s IH]; intros n; simpl.
  { split_and!; [done|constructor|lia|done]. }
  destruct n as [|n].
  - specialize (IH (width a - 1)%nat). destruct (next_chars _ s) as [c cs].
    destruct IH as (<- & Hp & Hl & Hn). split_and!; [done| |simpl; lia|done].
    destruct cs as [|c' cs]; [by apply proper_last|].
    apply proper_cons; [|done]. by apply Hn.
  - specialize (IH n). destruct (next_chars _ s) as [c cs].
    destruct IH as (<- & Hp & Hl & Hn). split_and!; [done|done|simpl; lia|].
    intros Hcs. simpl. by rewrite Hn.
Qed.

Lemma chars_proper s : proper (chars s).
Proof.
  pose proof (next_chars_spec 0 s) as H. unfold chars. destruct (next_chars 0 s). apply H.
Qed.

Lemma text_chars s : text (chars s) = s.
Proof.
  pose proof (next_chars_spec 0 s) as H. unfold chars. destruct (next_chars 0 s) as [c cs].
  destruct H as (<- & _ & Hl & _). by destruct c; simpl in *; [|lia].
Qed.

Lemma whitespace_whole c : is_whitespace c = true → whole c.
Proof.
  unfold is_whitespace. rewrite bool_decide_eq_true. intros H.
  assert (Forall whole white_space) as Hall by (repeat constructor).
  rewrite Forall_forall in Hall. by apply Hall, list_elem_of_In.
Qed.

(** Words: characters other than white space, then one white space character, which only the
    last may lack. *)
Definition solid (b : list Char) : Prop := Forall (λ c, is_whitespace c = false) b.

Inductive worded : list (list Char) → Prop :=
  | worded_nil : worded []
  | worded_last b : b ≠ [] → solid b → worded [b]
  | worded_cons b c ws : solid b → is_whitespace c = true → worded ws →
      worded ((b ++ [c]) :: ws).

Lemma split_worded cur cs : solid cur → worded (split_inclusive cur cs).
Proof.
  revert cur. induction cs as [|c cs IH]; intros cur Hc; simpl.
  - destruct cur; by constructor.
  - destruct (is_whitespace c) eqn:E; [by constructor; [..|apply IH; constructor]|].
    apply IH. apply Forall_app. by repeat constructor.
Qed.

Lemma split_solid b cur cs : solid b → split_inclusive cur (b ++ cs) = split_inclusive (cur ++ b) cs.
Proof.
  intros Hb. revert cur. induction Hb as [|c b Hc _ IH]; intros cur; simpl.
  - by rewrite app_nil_r.
  - by rewrite Hc, IH, <- app_assoc.
Qed.

Lemma split_concat ws : worded ws → split_inclusive [] (concat ws) = ws.
Proof.
  induction 1 as [|b Hb Hs|b c ws Hb Hc _ IH]; simpl; [done| |].
  - rewrite split_solid by done. by destruct b.
  - rewrite <- app_assoc, split_solid by done. simpl. by rewrite Hc, IH.
Qed.

Lemma concat_split cur cs : concat (split_inclusive cur cs) = cur ++ cs.
Proof.
  revert cur. induction cs as [|c cs IH]; intros cur; simpl.
  - rewrite app_nil_r. destruct cur; simpl; [done|]. by rewrite app_nil_r.
  - destruct (is_whitespace c); simpl; rewrite IH; [by rewrite <- app_assoc|].
    by rewrite <- app_assoc.
Qed.

Lemma trim_solid b : solid b → trim_end b = b.
Proof. induction 1 as [|c b Hc _ IH]; simpl; [done|]. rewrite IH, Hc. by destruct b. Qed.

Lemma trim_word b c : solid b → is_whitespace c = true → trim_end (b ++ [c]) = b.
Proof.
  intros Hb Hc. induction Hb as [|d b Hd _ IH]; simpl; [by rewrite Hc|].
  rewrite IH, Hd. by destruct b.
Qed.

(** What a word becomes, by its shape. *)
Definition scrubbed (b : list Char) : list Char :=
  if flagged (text b) then chars "[redacted]" else b.

Lemma scrub_solid b : solid b → scrub_word b = scrubbed b.
Proof.
  intros Hb. unfold scrub_word. by rewrite trim_solid, drop_all, app_nil_r.
Qed.

Lemma scrub_spaced b c :
  solid b → is_whitespace c = true → scrub_word (b ++ [c]) = scrubbed b ++ [c].
Proof.
  intros Hb Hc. unfold scrub_word. by rewrite trim_word, drop_app_length.
Qed.

Lemma redacted_solid : solid (chars "[redacted]").
Proof. repeat constructor. Qed.

Lemma scrubbed_solid b : solid b → solid (scrubbed b).
Proof. unfold scrubbed. destruct (flagged _); [intros _; apply redacted_solid|done]. Qed.

Lemma scrubbed_clean b : flagged (text (scrubbed b)) = false.
Proof. unfold scrubbed. destruct (flagged (text b)) eqn:E; [reflexivity|done]. Qed.

Lemma scrubbed_twice b : scrubbed (scrubbed b) = scrubbed b.
Proof. unfold scrubbed at 1. by rewrite scrubbed_clean. Qed.

Lemma scrub_worded ws : worded ws → worded (map scrub_word ws).
Proof.
  induction 1 as [|b Hb Hs|b c ws Hb Hc _ IH]; simpl; [constructor| |].
  - rewrite scrub_solid by done. constructor; [|by apply scrubbed_solid].
    unfold scrubbed. by destruct (flagged _).
  - rewrite scrub_spaced by done. by constructor; [apply scrubbed_solid|..].
Qed.

Lemma scrub_proper ws :
  worded ws → proper (concat ws) → proper (concat (map scrub_word ws)).
Proof.
  assert (∀ b, Forall whole b → Forall whole (scrubbed b)) as Hw.
  { intros b Hb. unfold scrubbed. destruct (flagged _); [by repeat constructor|done]. }
  induction 1 as [|b Hb Hs|b c ws Hb Hc _ IH]; simpl; [done| |].
  - rewrite !app_nil_r, scrub_solid by done. unfold scrubbed.
    destruct (flagged _); [|done]. intros _.
    rewrite <- (app_nil_r (chars _)). apply app_proper; [by repeat constructor|constructor].
  - rewrite scrub_spaced by done. rewrite <- !app_assoc. intros H.
    apply proper_app in H as [Hb' H]; [|done]. apply app_proper; [by apply Hw|].
    simpl in *. apply proper_cons; [by apply whitespace_whole|]. apply IH.
    by inversion H; [constructor|].
Qed.

(** The words of a scrubbed text are the scrubbed words of the text. *)
Lemma words_scrub s : words (scrub_string s) = map scrub_word (words s).
Proof.
  assert (worded (words s)) as Hw by (apply split_worded; constructor).
  unfold scrub_string. unfold words at 1. rewrite chars_text.
  - by apply split_concat, scrub_worded.
  - apply scrub_proper; [done|]. unfold words. rewrite concat_split. apply chars_proper.
Qed.

Lemma scrub_word_twice ws :
  worded ws → map scrub_word (map scrub_word ws) = map scrub_word ws.
Proof.
  induction 1 as [|b Hb Hs|b c ws Hb Hc _ IH]; simpl; [done| |].
  - by rewrite (scrub_solid b), scrub_solid, scrubbed_twice
      by (done || by apply scrubbed_solid).
  - rewrite IH. rewrite (scrub_spaced b) by done.
    by rewrite scrub_spaced, scrubbed_twice by (done || by apply scrubbed_solid).
Qed.

Lemma scrub_string_twice s : scrub_string (scrub_string s) = scrub_string s.
Proof.
  unfold scrub_string at 1. rewrite words_scrub.
  rewrite scrub_word_twice by (apply split_worded; constructor). done.
Qed.

Lemma worded_clean ws w :
  worded ws → w ∈ map scrub_word ws → flagged (text (trim_end w)) = false.
Proof.
  induction 1 as [|b Hb Hs|b c ws Hb Hc _ IH]; simpl.
  - by intros ?%elem_of_nil.
  - intros ->%list_elem_of_singleton.
    rewrite scrub_solid, trim_solid by (done || by apply scrubbed_solid).
    apply scrubbed_clean.
  - intros [->|Hw]%elem_of_cons; [|by apply IH].
    rewrite scrub_spaced, trim_word by (done || by apply scrubbed_solid).
    apply scrubbed_clean.
Qed.

(** ** Lemmas: values *)

(** An object keeps its safe fields. *)
Lemma redact_object fields :
  redact (JObj fields) =
  JObj (map (λ f, (f.1, redact f.2)) (select (λ f, is_safe f.1) fields)).
Proof.
  simpl. f_equal. induction fields as [|[k v] fields IH]; simpl; [done|].
  destruct (is_safe k); simpl; by rewrite IH.
Qed.

Lemma redact_twice v : redact (redact v) = redact v.
Proof.
  induction v as [| | | | | | |l IH|fields IH] using json_induction; try done.
  - simpl. by rewrite scrub_string_twice.
  - simpl. f_equal. rewrite map_map. induction IH as [|x l Hx _ IHl]; simpl; congruence.
  - rewrite !redact_object. f_equal.
    induction IH as [|[k v] fields Hv _ IHf]; simpl; [done|].
    destruct (is_safe k) eqn:E; simpl; [|done]. rewrite E. simpl. simpl in Hv. congruence.
Qed.

Lemma field_redact k v :
  field k (redact v) = if is_safe k then redact <$> field k v else None.
Proof.
  destruct v as [| | | | | | | |fields]; try by destruct (is_safe k).
  rewrite redact_object. unfold field. induction fields as [|[k' v] fields IH].
  { by destruct (is_safe k). }
  unfold first_where in *. simpl. destruct (String.eqb_spec k' k) as [->|Hne].
  - destruct (is_safe k) eqn:E; simpl.
    + by rewrite String.eqb_refl.
    + done.
  - destruct (is_safe k') eqn:E; simpl; [|done].
    destruct (String.eqb_spec k' k); [done|]. done.
Qed.

(** Where a value is inside another. *)
Inductive position := Key (k : string) | Index (i : nat).

Fixpoint at_path (path : list position) (v : Json) : option Json :=
  match path with
  | [] => Some v
  | Key k :: path' => field k v ≫= at_path path'
  | Index i :: path' => match v with JArr l => l !! i ≫= at_path path' | _ => None end
  end.

(** No key on the way is unsafe. *)
Definition exposed (path : list position) : bool :=
  forallb (λ x, match x with Key k => is_safe k | Index _ => true end) path.

Lemma at_path_redact path v :
  at_path path (redact v) = if exposed path then redact <$> at_path path v else None.
Proof.
  revert v. induction path as [|[k|i] path IH]; intros v; simpl; [done| |].
  - rewrite field_redact. destruct (is_safe k); simpl; [|done].
    destruct (field k v) as [x|]; simpl; [apply IH|]. by destruct (exposed path).
  - destruct v as [| | | | | | |l|]; simpl; try by destruct (exposed path).
    rewrite list_lookup_fmap. destruct (l !! i) as [x|]; simpl; [apply IH|].
    by destruct (exposed path).
Qed.

(** ** Lemmas: reports *)

Definition is_hex (a : Ascii.ascii) : bool := in_codes 48 57 a || in_codes 97 102 a.

Lemma hex_digits_hex n x : Forall (λ a, is_hex a = true) (hex_digits n x).
Proof.
  revert x. induction n as [|n IH]; intros x; simpl; [constructor|].
  apply Forall_app. split; [apply IH|]. constructor; [|constructor].
  assert (∀ m, (m < 16)%nat → is_hex (hex_digit (N.of_nat m)) = true) as H.
  { intros m Hm. do 16 (destruct m as [|m]; [reflexivity|]). lia. }
  rewrite <- (N2Nat.id (x mod 16)). apply H.
  pose proof (N.mod_lt x 16 ltac:(done)). lia.
Qed.

Lemma hex_ascii a : is_hex a = true →
  width a = 1%nat ∧ is_whitespace (String a EmptyString) = false ∧
  Ascii.eqb "@"%char a = false.
Proof. destruct a as [[] [] [] [] [] [] [] []]; try done; by intros _. Qed.

Lemma hex_no_at l : Forall (λ a, is_hex a = true) l →
  after "@"%char (String.string_of_list_ascii l) = None.
Proof.
  induction 1 as [|a l Ha _ IH]; cbn [String.string_of_list_ascii after]; [done|].
  apply hex_ascii in Ha as (_ & _ & ->). done.
Qed.

Lemma hex_chars l : Forall (λ a, is_hex a = true) l →
  chars (String.string_of_list_ascii l) = map (λ a, String a EmptyString) l ∧
  solid (map (λ a, String a EmptyString) l).
Proof.
  induction 1 as [|a l Ha _ [IH1 IH2]]; simpl; [by split; [|constructor]|].
  apply hex_ascii in Ha as (Hw & Hs & _). split; [|by constructor].
  rewrite <- IH1. by apply (chars_cons (String a EmptyString)); simpl; rewrite Hw.
Qed.

(** A short run of hexadecimal digits is not taken for a secret. *)
Lemma scrub_hex l :
  Forall (λ a, is_hex a = true) l → (length l < 24)%nat →
  scrub_string (String.string_of_list_ascii l) = String.string_of_list_ascii l.
Proof.
  intros Hl Hn. destruct (hex_chars l Hl) as [Ec Hs]. destruct l as [|a l]; [done|].
  rewrite <- Ec in Hs. unfold scrub_string, words.
  assert (split_inclusive [] (chars (String.string_of_list_ascii (a :: l)))
    = [chars (String.string_of_list_ascii (a :: l))]) as ->.
  { rewrite <- (app_nil_r (chars _)) at 1. rewrite split_solid by done. by rewrite Ec. }
  cbn [map concat]. rewrite app_nil_r, scrub_solid by done. unfold scrubbed.
  rewrite text_chars.
  assert (flagged (String.string_of_list_ascii (a :: l)) = false) as ->; [|by rewrite text_chars].
  unfold flagged, looks_like_email, looks_like_token. apply orb_false_iff. split.
  - rewrite (hex_no_at (a :: l) Hl). simpl. by rewrite andb_false_r.
  - assert (∀ k, String.length (String.string_of_list_ascii k) = length k) as ->
      by (intros k; induction k; simpl; congruence).
    by rewrite (proj2 (Nat.leb_gt 24 _) Hn).
Qed.

(** ** Lemmas: the ring *)

(** A buffer after a history of events: the last ones it has room for. *)
Definition records (cap : nat) (history : list Json) (b : DiagBuffer) : Prop :=
  b = mkDiagBuffer (Nat.max cap 1)
        (drop (length history - Nat.max cap 1) (map redact history)).

Lemma records_push cap history b e :
  records cap history b → records cap (history ++ [e]) (buffer_push b e).
Proof.
  intros ->. unfold records, buffer_push. simpl. f_equal.
  rewrite length_drop, length_map, map_app, length_app. simpl.
  set (n := length history). set (c := Nat.max cap 1).
  assert (1 <= c)%nat by (unfold c; lia).
  rewrite drop_app_le by (rewrite length_map; fold n; lia). f_equal.
  destruct (Nat.eqb_spec (n - (n - c)) c).
  - assert (∀ l : list Json, tail l = drop 1 l) as -> by (by intros []).
    rewrite drop_drop. f_equal. lia.
  - f_equal. lia.
Qed.

Lemma records_history cap history :
  records cap history (foldl buffer_push (buffer_new cap) history).
Proof.
  induction history as [|e history IH] using rev_ind; [done|].
  rewrite foldl_app. by apply records_push.
Qed.

(** ** Properties *)

Section diagnostics_properties.
Context {proc : ProcessEnv} {diag : DiagEnv}.

(** C36. What redaction leaves of a report: a value survives exactly where every key on the
    way to it is on the allowlist, at whatever depth; texts that survive have the words of
    the original, with every word that looks like an address or a token replaced, and no
    such word is left; redacting again changes nothing. *)
Theorem redact_exact v :
  (∀ path, at_path path (redact v) =
     if exposed path then redact <$> at_path path v else None) ∧
  (∀ path s, at_path path (redact v) = Some (JStr s) →
     (∃ s0, at_path path v = Some (JStr s0) ∧ words s = map scrub_word (words s0)) ∧
     ∀ w, w ∈ words s → flagged (text (trim_end w)) = false) ∧
  redact (redact v) = redact v.
Proof.
  split_and!; [intros path; apply at_path_redact| |apply redact_twice].
  intros path s. rewrite at_path_redact. destruct (exposed path); [|done].
  destruct (at_path path v) as [[| | | | | |s0| |]|]; simpl; try done.
  intros [= <-]. rewrite words_scrub. split; [by exists s0|].
  intros w Hw. eapply worded_clean; [|exact Hw]. apply split_worded. constructor.
Qed.

(** The ring buffer is the end of the history: whatever was pushed, it holds the last
    events it has room for (at least one), oldest first, redacted; and a manual report that
    attaches them loses none of them when it is redacted again. *)
Theorem ring_refines cap history :
  let b := foldl buffer_push (buffer_new cap) history in
  snapshot b = drop (length history - Nat.max cap 1) (map redact history) ∧
  (buffer_len b <= Nat.max cap 1)%nat ∧
  (buffer_is_empty b = true ↔ history = []) ∧
  ∀ service version note,
    field "spans" (redact (manual_report service version note (snapshot b)))
      = Some (JArr (snapshot b)).
Proof.
  cbv zeta. rewrite (records_history cap history). unfold snapshot, buffer_len. cbn [events].
  split_and!; [done|rewrite length_drop, length_map; lia| |].
  - unfold buffer_is_empty. rewrite bool_decide_eq_true. simpl. split; [|by intros ->].
    intros E%(f_equal length). rewrite length_drop, length_map in E. simpl in E.
    apply length_zero_iff_nil. lia.
  - intros service version note. rewrite field_redact. simpl. do 2 f_equal.
    rewrite (records_history cap history). simpl.
    rewrite skipn_map, map_map. apply map_ext. intros v. apply redact_twice.
Qed.

(** C37. Diagnostics leave the plant only with the customer's consent and only redacted: while
    shipping is off, sending does nothing; while it is on, sending makes one request, to the
    configured repository, and everything in it is determined by the redacted report: the
    report and its redaction are indistinguishable from outside. *)
Theorem send_discloses_redacted config payload w :
  (sc_enabled config = false → send_diagnostics config payload w = (Ok Skipped, w)) ∧
  (sc_enabled config = true → ∃ post,
     (send_diagnostics config payload w).2 = w <| w_posts := w_posts w ++ [post] |> ∧
     po_url post = String.append "https://api.github.com/repos/"
                     (String.append (sc_repo config) "/issues") ∧
     field "body" (po_body post) = Some (JStr (bundle_body (redact payload))) ∧
     field "title" (po_body post) = Some (JStr (bundle_title (redact payload))) ∧
     (is_ok (send_diagnostics config payload w).1 = true ↔
      ∃ status body, github_reply (w_posts w ++ [post]) = Replied status body ∧
        is_success status = true)) ∧
  (∀ payload', redact payload' = redact payload →
     send_diagnostics config payload' w = send_diagnostics config payload w) ∧
  send_diagnostics config (redact payload) w = send_diagnostics config payload w.
Proof.
  unfold send_diagnostics. split_and!.
  - by intros ->.
  - intros ->. simpl. unfold ship, mbind, M_bind. eexists. split_and!.
    + destruct (github_reply _) as [|status body]; [done|]. by destruct (is_success status).
    + done.
    + done.
    + done.
    + destruct (github_reply _) as [m|status body] eqn:E; [naive_solver|].
      destruct (is_success status) eqn:Es; naive_solver.
  - by intros payload' ->.
  - by rewrite redact_twice.
Qed.

Definition object_keys (v : Json) : list string :=
  match v with JObj fields => map fst fields | _ => [] end.

(** The reports are made to be sent: redaction drops no field of a heartbeat, of a
    manual, an error or a crash report; a crash report carries its panic message only as a
    hash, and that hash reaches the other side unchanged, so that crashes can be grouped. *)
Theorem reports_survive service version uptime note recent error_type error message location :
  let reports := [heartbeat_payload service version uptime;
                  manual_report service version note recent;
                  error_report service version error_type error;
                  crash_report service version message location] in
  Forall (λ r, object_keys (redact r) = object_keys r) reports ∧
  field "backtrace_hash" (redact (crash_report service version message location))
    = Some (JStr (crash_hash message)) ∧
  ∀ message', sip_hash message' = sip_hash message →
    crash_report service version message' location = crash_report service version message location.
Proof.
  split_and!.
  - repeat constructor.
  - rewrite field_redact. simpl. do 2 f_equal. unfold crash_hash.
    apply scrub_hex; [apply hex_digits_hex|]. simpl. lia.
  - intros message' E. unfold crash_report, crash_hash. by rewrite E.
Qed.

(** The endpoint: only a master-data writer may send, nothing is sent without consent, and
    no data of the plant is touched. *)
Theorem send_endpoint_outcome auth note w :
  (can_write_master (role auth) = false →
   send auth note w = (Err (err 403 "forbidden" "role may not modify master data"), w)) ∧
  (can_write_master (role auth) = true → env_var "MES_DIAG_ENABLED" ≠ Some "true"%string →
   send auth note w = (Ok (JObj [("outcome"%string, JStr "skipped")]), w)) ∧
  w_db (send auth note w).2 = w_db w.
Proof.
  unfold send, master_writer, send_diagnostics, from_env. split_and!.
  - by intros ->.
  - intros -> Hn. simpl. by rewrite bool_decide_eq_false_2 by done.
  - destruct (can_write_master (role auth)); [|done]. simpl.
    case_bool_decide; [|done]. unfold mbind, M_bind, map_err, ship. simpl.
    destruct (github_reply _) as [|status body]; [done|]. by destruct (is_success status).
Qed.
End diagnostics_properties.

(** ** The properties on concrete reports *)

Definition sample_diag : DiagEnv := {|
  OS := "linux"; ARCH := "x86_64";
  sip_hash s := N.of_nat (String.length s);
  to_string_pretty v := match field "message" v with Some (JStr s) => s | _ => "{}" end;
  github_reply _ := Replied 201 None;
  github_status_text _ := "201 Created"
|}.

#[local] Existing Instances sample_process sample_diag.

Definition fault : Json :=
  JObj [("customer_name", JStr "Acme");
        ("message", JStr "user jane@acme.com token abcdef0123456789ABCDEF9999 failed");
        ("spans", JArr [JObj [("part_number", JStr "PN-7"); ("status", JStr "fail")]])]%string.

Lemma redact_exact_witness :
  redact fault = JObj [("message", JStr "user [redacted] token [redacted] failed");
                       ("spans", JArr [JObj [("status", JStr "fail")]])]%string ∧
  ∀ w, w ∈ words "user [redacted] token [redacted] failed" →
    flagged (text (trim_end w)) = false.
Proof.
  split; [vm_compute; reflexivity|].
  apply (proj1 (proj2 (redact_exact fault)) [Key "message"]). vm_compute. reflexivity.
Defined.

Definition consent : ShipConfig := mkShipConfig true "acme/diag" "t".

Lemma send_discloses_redacted_witness :
  (∃ post, (send_diagnostics consent fault plant).2
     = plant <| w_posts := w_posts plant ++ [post] |>) ∧
  send_diagnostics consent (JObj [("price"%string, JInt 5)]) plant
    = send_diagnostics consent (JObj []) plant.
Proof.
  split.
  - destruct (proj1 (proj2 (send_discloses_redacted consent fault plant)) eq_refl)
      as (post & H & _).
    exists post. exact H.
  - exact (proj1 (proj2 (proj2 (send_discloses_redacted consent (JObj []) plant)))
      (JObj [("price"%string, JInt 5)]) eq_refl).
Defined.

Lemma reports_survive_witness :
  crash_report "mes-edge" "0.1.0" "part PN-1" None
    = crash_report "mes-edge" "0.1.0" "part PN-2" None.
Proof.
  exact (proj2 (proj2 (reports_survive "mes-edge" "0.1.0" 0 "" [] "" "" "part PN-2" None))
    "part PN-1"%string eq_refl).
Defined.

Lemma send_endpoint_outcome_witness :
  send admin None plant = (Ok (JObj [("outcome"%string, JStr "skipped")]), plant) ∧
  send (mkAuthUser "u2" "Operator") None plant
    = (Err (err 403 "forbidden" "role may not modify master data"), plant).
Proof.
  assert (env_var "MES_DIAG_ENABLED" ≠ Some "true"%string) as Hn by (intros H; discriminate H).
  split.
  - exact (proj1 (proj2 (send_endpoint_outcome admin None plant)) eq_refl Hn).
  - exact (proj1 (send_endpoint_outcome (mkAuthUser "u2" "Operator") None plant) eq_refl).
Defined.
