(* ===== verification/Agent.v ===== *)
(** * The agent tools and the copilot

    The read-only tools of [crates/mes-agent-tools], the tool-use loop and the model backends
    of [crates/mes-cloud/src/copilot.rs], and the two front doors of [agent.rs]: the copilot
    endpoint and the MCP server. The model's service, the text of JSON values and of database
    errors are parameters. *)

From S2P Require Import Prelude Lifecycle Schema Sql Sample Sync Protocol Auth Mapping Orders Erp Process.

Class AgentEnv := {
  sql_error_text : SqlError → string;
  anthropic_reply : string → Json → reply;       (** to a request with a key and a body *)
  anthropic_status_text : Z → string;
  body_error : string                            (** of a response that is not JSON *)
}.

(** ** Tools *)

Inductive AgentToolError := UnknownTool (name : string) | QueryError (m : string).

Definition tool_error_text (e : AgentToolError) : string :=
  match e with
  | UnknownTool name => String.append "unknown tool: " name
  | QueryError m => String.append "query error: " m
  end.

Record TenantScope := mkTenantScope { sc_org_id : string }.

Record ToolDef := mkToolDef { td_name : string; td_description : string; td_input_schema : Json }.

(** A JSON schema of an object with the given properties. *)
Definition object_schema (properties : list (string * Json)) : Json :=
  JObj [("properties", JObj properties); ("type", JStr "object")]%string.
Definition string_schema (extra : list (string * Json)) : Json :=
  JObj (extra ++ [("type"%string, JStr "string")]).

Definition catalog : list ToolDef :=
  [mkToolDef "get_wo_status"
     "Work-order status and counts for the caller's plants. Optional `status` filters to one lifecycle status."
     (object_schema [("status", string_schema [("description", JStr "Filter to a WO status")])]);
   mkToolDef "get_oee" "OEE (A×P×Q) for a work center over a window."
     (object_schema [("end", string_schema [("description", JStr "RFC3339")]);
                     ("start", string_schema [("description", JStr "RFC3339")]);
                     ("work_center_id", string_schema [])]);
   mkToolDef "get_downtime_pareto" "Ranked downtime loss by reason for a work center over a window."
     (object_schema [("work_center_id", string_schema [])]);
   mkToolDef "get_ncr_queue" "Open non-conformances (NCRs) for the caller's plants."
     (object_schema []);
   mkToolDef "get_trace" "Forward/backward genealogy for a lot or serial."
     (object_schema
        [("direction", string_schema [("enum", JArr [JStr "forward"; JStr "backward"])]);
         ("entity_id", string_schema []);
         ("entity_type", string_schema [("enum", JArr [JStr "lot"; JStr "serial"])])]);
   mkToolDef "get_maintenance_due" "Preventive-maintenance schedules currently due."
     (object_schema [])]%string.

(** [work_orders JOIN plants] on the plant, for the plants of an org. *)
Definition tenant_orders (org : string) (db : Db) : list WorkOrderRow :=
  flat_map (λ w, map (λ _, w)
    (select (λ p, bool_decide (wo_plant_id w = Some (pn_id p)) && String.eqb (pn_org_id p) org)
       (db Plants))) (db Work_orders).

Definition has_status (status : option string) (w : WorkOrderRow) : bool :=
  match status with None => true | Some s => String.eqb (wo_status w) s end.

(** [*counts.entry(status).or_default() += 1] for every order. *)
Definition count_statuses (rows : list WorkOrderRow) : list (string * Z) :=
  foldl (λ counts w, bt_insert (wo_status w) (default 0 (bt_get (wo_status w) counts) + 1) counts)
    [] rows.

Definition order_item (w : WorkOrderRow) : Json :=
  JObj [("plant_id", JOpt JStr (wo_plant_id w)); ("qty_ordered", JDecimal (wo_qty_ordered w));
        ("status", JStr (wo_status w)); ("wo_number", JStr (wo_wo_number w))]%string.

Definition status_answer (rows : list WorkOrderRow) : Json :=
  JObj [("counts_by_status", JObj (map (λ c, (c.1, JInt c.2)) (count_statuses rows)));
        ("total", JInt (Z.of_nat (length rows)));
        ("work_orders", JArr (map order_item rows))]%string.

Definition pending (aggregate : string) : Json :=
  JObj [("items", JArr []); ("note", JStr (String.append aggregate
    " is available per-plant on the edge; cloud aggregation for this tool arrives when that aggregate is added to the sync set (additive)."))]%string.

(** ** The conversation *)

Inductive CopilotError := Unavailable (m : string) | Llm (m : string) | NoConverge.

Inductive Block :=
  | Text (text : string)
  | ToolUse (id name : string) (input : Json)
  | ToolResult (tool_use_id content : string).

Record Message := mkMessage { mg_role : string; mg_content : list Block }.

Record CopilotToolCall := mkCopilotToolCall { ct_name : string; ct_arguments : Json }.

Record CopilotResponse := mkCopilotResponse {
  cr_reply : string; cr_tool_calls : list CopilotToolCall
}.

(** The trait: an assistant turn, or an error. The messages of a run grow from turn to turn,
    so that a function of them can answer with any sequence of replies. *)
Class LlmBackend := {
  turn : string → list Message → list ToolDef → Result (list Block) CopilotError
}.

Definition SYSTEM : string :=
  "You are the ElectronIx MES supervisor copilot. Answer questions about this plant's production using the read-only tools provided. All tool results are already scoped to the caller's organisation. Be concise and specific.".

Definition MAX_TURNS : nat := 8.

Definition tool_uses (content : list Block) : list (string * string * Json) :=
  omap (λ b, match b with ToolUse id name input => Some (id, name, input) | _ => None end) content.

Definition texts (content : list Block) : list string :=
  omap (λ b, match b with Text text => Some text | _ => None end) content.

Definition call_of (use : string * string * Json) : CopilotToolCall :=
  mkCopilotToolCall use.1.2 use.2.

(** *** Blocks on the wire, as derived by serde *)

Definition block_to_json (b : Block) : Json :=
  match b with
  | Text text => JObj [("type", JStr "text"); ("text", JStr text)]%string
  | ToolUse id name input =>
      JObj [("type", JStr "tool_use"); ("id", JStr id); ("name", JStr name); ("input", input)]%string
  | ToolResult tool_use_id content =>
      JObj [("type", JStr "tool_result"); ("tool_use_id", JStr tool_use_id);
            ("content", JStr content)]%string
  end.

Definition block_of_json (v : Json) : option Block :=
  tag ← required as_string "type" v;
  if String.eqb tag "text" then
    text ← required as_string "text" v; Some (Text text)
  else if String.eqb tag "tool_use" then
    id ← required as_string "id" v;
    name ← required as_string "name" v;
    input ← field "input" v;
    Some (ToolUse id name input)
  else if String.eqb tag "tool_result" then
    tool_use_id ← required as_string "tool_use_id" v;
    content ← required as_string "content" v;
    Some (ToolResult tool_use_id content)
  else None.

Definition message_to_json (m : Message) : Json :=
  JObj [("content", JArr (map block_to_json (mg_content m))); ("role", JStr (mg_role m))]%string.

(** *** Backends *)

Definition NullBackend : LlmBackend := {|
  turn _ _ _ := Err (Unavailable "no model backend configured")
|}.

Section agent.
Context {env : Env} {senv : SyncEnv} {serde : SerdeJson} {proc : ProcessEnv} {agent : AgentEnv}.
Abbreviation Api := (M World ApiErr).

Definition anthropic_body (model system : string) (messages : list Message)
    (tools : list ToolDef) : Json :=
  JObj [("max_tokens", JInt 1024);
        ("messages", JArr (map message_to_json messages));
        ("model", JStr model);
        ("system", JStr system);
        ("tools", JArr (map (λ t, JObj [("description", JStr (td_description t));
           ("input_schema", td_input_schema t); ("name", JStr (td_name t))]) tools))]%string.

Definition AnthropicBackend (api_key model : string) : LlmBackend := {|
  turn system messages tools :=
    match anthropic_reply api_key (anthropic_body model system messages tools) with
    | Unreachable m => Err (Llm m)
    | Replied status body =>
        if negb (is_success status) then
          Err (Llm (String.append "anthropic returned " (anthropic_status_text status)))
        else match body with
        | None => Err (Llm body_error)
        | Some v =>
            let content := default (JArr []) (field "content" v) in
            match as_array block_of_json content with
            | Some blocks => Ok blocks
            | None => Err (Llm (String.append "bad content: " (serde_error content)))
            end
        end
    end
|}.

(** [AnthropicBackend::from_env], and the fallback of [run]. *)
Definition backend_from_env : LlmBackend :=
  match nonempty (env_var "ANTHROPIC_API_KEY") with
  | Some api_key =>
      AnthropicBackend api_key (default "claude-sonnet-5"%string (env_var "MES_COPILOT_MODEL"))
  | None => NullBackend
  end.

(** *** Dispatch *)

Definition qerr (e : SqlError) : AgentToolError := QueryError (sql_error_text e).

Definition get_wo_status (scope : TenantScope) (args : Json) : M World AgentToolError Json :=
  let status_filter := field "status" args ≫= as_string in
  rows ← map_err qerr (query_limit 200 (λ db,
    order_by_desc wo_created_at
      (select (has_status status_filter) (tenant_orders (sc_org_id scope) db))));
  mret (status_answer rows).

Definition get_oee (scope : TenantScope) (args : Json) : M World AgentToolError Json :=
  mret (pending "OEE").
Definition get_downtime_pareto (scope : TenantScope) (args : Json) : M World AgentToolError Json :=
  mret (pending "Downtime Pareto").
Definition get_ncr_queue (scope : TenantScope) (args : Json) : M World AgentToolError Json :=
  mret (pending "The NCR queue").
Definition get_trace (scope : TenantScope) (args : Json) : M World AgentToolError Json :=
  mret (pending "Traceability").
Definition get_maintenance_due (scope : TenantScope) (args : Json) : M World AgentToolError Json :=
  mret (pending "Maintenance-due").

Definition dispatch (scope : TenantScope) (name : string) (args : Json) :
    M World AgentToolError Json :=
  if String.eqb name "get_wo_status" then get_wo_status scope args
  else if String.eqb name "get_oee" then get_oee scope args
  else if String.eqb name "get_downtime_pareto" then get_downtime_pareto scope args
  else if String.eqb name "get_ncr_queue" then get_ncr_queue scope args
  else if String.eqb name "get_trace" then get_trace scope args
  else if String.eqb name "get_maintenance_due" then get_maintenance_due scope args
  else throw (UnknownTool name).

(** *** The loop *)

Definition run_tool (scope : TenantScope) (use : string * string * Json) :
    M World CopilotError Block :=
  r ← attempt (dispatch scope use.1.2 use.2);
  mret (ToolResult use.1.1
    (json_to_string match r with
                    | Ok v => v
                    | Err e => JObj [("error"%string, JStr (tool_error_text e))]
                    end)).

Fixpoint run_tools (scope : TenantScope) (uses : list (string * string * Json)) :
    M World CopilotError (list Block) :=
  match uses with
  | [] => mret []
  | use :: uses' =>
      result ← run_tool scope use;
      results ← run_tools scope uses';
      mret (result :: results)
  end.

(** The rounds that are left, with the conversation and the calls so far. *)
Fixpoint copilot_loop {backend : LlmBackend} (turns : nat) (scope : TenantScope)
    (messages : list Message) (tool_calls : list CopilotToolCall) :
    M World CopilotError CopilotResponse :=
  match turns with
  | O => throw NoConverge
  | S turns' =>
      content ← (λ w, (turn SYSTEM messages catalog, w));
      let messages := messages ++ [mkMessage "assistant" content] in
      match tool_uses content with
      | [] => mret (mkCopilotResponse (String.concat line_feed (texts content)) tool_calls)
      | uses =>
          results ← run_tools scope uses;
          copilot_loop turns' scope (messages ++ [mkMessage "user" results])
            (tool_calls ++ map call_of uses)
      end
  end.

Definition first_message (user_message : string) : list Message :=
  [mkMessage "user" [Text user_message]].

Definition run_copilot {backend : LlmBackend} (scope : TenantScope) (user_message : string) :
    M World CopilotError CopilotResponse :=
  copilot_loop MAX_TURNS scope (first_message user_message) [].

(** ** The front doors *)

Definition resolve_scope (authorization : option string) : Api TenantScope :=
  require_pool ;;
  token ← ok_or (bearer authorization) (err 401 "unauthorized" "missing tenant token");
  tenant ← map_err repo_err (resolve_tenant_by_token token);
  match tenant with
  | Some (_, org_id) => mret (mkTenantScope org_id)
  | None => throw (err 401 "unauthorized" "invalid tenant token")
  end.

Definition copilot_err (e : CopilotError) : ApiErr :=
  match e with
  | Unavailable m => err 503 "copilot_unavailable" m
  | Llm m => err 502 "llm_error" m
  | NoConverge => err 500 "no_converge" "tool loop did not converge"
  end.

Definition call_to_json (c : CopilotToolCall) : Json :=
  JObj [("arguments", ct_arguments c); ("name", JStr (ct_name c))]%string.

(** One entry of the audit trail of the conversations. *)
Definition log_message (scope : TenantScope) (role content : string) (tool_calls : option Json) :
    M World SqlError unit :=
  id ← new_id; now ← gets w_now;
  insert Copilot_messages (mkCopilotRow id (Some (sc_org_id scope)) role content tool_calls now) ;;
  mret tt.

Definition answer_message {backend : LlmBackend} (scope : TenantScope) (message : string) :
    Api CopilotResponse :=
  resp ← map_err copilot_err (run_copilot scope message);
  best_effort (log_message scope "user" message None) ;;
  best_effort (log_message scope "assistant" (cr_reply resp)
    (Some (JArr (map call_to_json (cr_tool_calls resp))))) ;;
  mret resp.

Definition copilot {backend : LlmBackend} (authorization : option string) (message : string) :
    Api CopilotResponse :=
  scope ← resolve_scope authorization;
  require_pool ;;
  answer_message scope message.

(** The answer to [tools/call]. *)
Definition call_answer (r : Result Json AgentToolError) : Json :=
  let answer text is_error :=
    JObj [("content", JArr [JObj [("text", JStr text); ("type", JStr "text")]]);
          ("isError", JBool is_error)]%string in
  match r with
  | Ok v => answer (json_to_string v) false
  | Err e => answer (tool_error_text e) true
  end.

Definition envelope (id : Json) (r : Result Json (Z * string)) : Json :=
  match r with
  | Ok r => JObj [("id", id); ("jsonrpc", JStr "2.0"); ("result", r)]%string
  | Err (code, message) =>
      JObj [("error", JObj [("code", JInt code); ("message", JStr message)]); ("id", id);
            ("jsonrpc", JStr "2.0")]%string
  end.

Definition initialize_answer : Json :=
  JObj [("capabilities", JObj [("tools", JObj [])]); ("protocolVersion", JStr "2024-11-05");
        ("serverInfo", JObj [("name", JStr "electronix-mes"); ("version", JStr VERSION)])]%string.

Definition list_answer : Json :=
  JObj [("tools"%string, JArr (map (λ t, JObj [("description", JStr (td_description t));
    ("inputSchema", td_input_schema t); ("name", JStr (td_name t))]%string) catalog))].

Definition answer_request (scope : TenantScope) (req : Json) : Api Json :=
  let id := default JNull (field "id" req) in
  let method := default ""%string (field "method" req ≫= as_string) in
  if String.eqb method "initialize" then mret (envelope id (Ok initialize_answer))
  else if String.eqb method "notifications/initialized" then mret JNull
  else if String.eqb method "tools/list" then mret (envelope id (Ok list_answer))
  else if String.eqb method "tools/call" then
    let params := default (JObj []) (field "params" req) in
    let name := default ""%string (field "name" params ≫= as_string) in
    let args := default (JObj []) (field "arguments" params) in
    r ← attempt (dispatch scope name args);
    mret (envelope id (Ok (call_answer r)))
  else mret (envelope id (Err (-32601, String.append "method not found: " method))).

Definition mcp (authorization : option string) (req : Json) : Api Json :=
  scope ← resolve_scope authorization;
  require_pool ;;
  answer_request scope req.
End agent.

(** ** Lemmas *)

(** A plant of an org. *)
Definition owned_by (org : string) (plants : list PlantRow) (w : WorkOrderRow) : bool :=
  exists_row (λ p, bool_decide (wo_plant_id w = Some (pn_id p)) && String.eqb (pn_org_id p) org)
    plants.

(** The orders of the plants of an org. *)
Definition own_orders (org : string) (db : Db) : list WorkOrderRow :=
  select (owned_by org (db Plants)) (db Work_orders).

Lemma tenant_orders_own org (db : Db) :
  tenant_orders org db =
  flat_map (λ w, map (λ _, w) (select (λ p, bool_decide (wo_plant_id w = Some (pn_id p)) &&
    String.eqb (pn_org_id p) org) (db Plants))) (own_orders org db).
Proof.
  unfold tenant_orders, own_orders. induction (db Work_orders) as [|w l IH]; simpl; [done|].
  rewrite IH. destruct (owned_by org (db Plants) w) eqn:E; simpl; [done|].
  rewrite select_none; [done|]. unfold owned_by in E. by rewrite exists_row_false in E.
Qed.

Lemma elem_of_tenant_orders org db w :
  w ∈ tenant_orders org db ↔ w ∈ db Work_orders ∧ ∃ p, p ∈ db Plants ∧
    wo_plant_id w = Some (pn_id p) ∧ pn_org_id p = org.
Proof.
  unfold tenant_orders. rewrite list_elem_of_In, in_flat_map. split.
  - intros (x & Hx & (p & <- & Hp)%in_map_iff). split; [by apply list_elem_of_In|].
    apply list_elem_of_In, elem_of_select in Hp as [Hp Hin]. exists p. bool_to_prop. naive_solver.
  - intros (Hw & p & Hp & Hid & Horg). exists w. split; [by apply list_elem_of_In|].
    apply in_map_iff. exists p. split; [done|]. apply list_elem_of_In, elem_of_select.
    split; [|done]. apply andb_true_iff. split; [by apply bool_decide_eq_true|].
    by apply String.eqb_eq.
Qed.

(** Each order once: the plants have distinct identifiers. *)
Lemma tenant_orders_once org (db : Db) :
  NoDup (map pn_id (db Plants)) → tenant_orders org db = own_orders org db.
Proof.
  intros Hd. rewrite tenant_orders_own. unfold own_orders at 1.
  assert (∀ w, owned_by org (db Plants) w = true →
    length (select (λ p, bool_decide (wo_plant_id w = Some (pn_id p)) &&
      String.eqb (pn_org_id p) org) (db Plants)) = 1%nat) as Hone.
  { intros w. unfold owned_by. induction (db Plants) as [|p l IH]; simpl; [done|].
    apply list.NoDup_cons in Hd as [Hn Hd]. case_bool_decide as E; simpl; [|by apply IH].
    assert (select (λ q, bool_decide (wo_plant_id w = Some (pn_id q)) &&
      String.eqb (pn_org_id q) org) l = []) as El.
    { apply select_none. intros q Hq. rewrite bool_decide_eq_false_2; [done|].
      rewrite E. intros [= Eq]. apply Hn. rewrite Eq. by apply list_elem_of_fmap_2. }
    destruct (String.eqb (pn_org_id p) org); simpl; [by rewrite El|].
    intros (q & Hq & Hq')%exists_row_true. assert (q ∈ (@nil PlantRow)) as Hf.
    { rewrite <- El. by apply elem_of_select. } by apply elem_of_nil in Hf. }
  unfold own_orders. induction (db Work_orders) as [|w l IH]; simpl; [done|].
  destruct (owned_by org (db Plants) w) eqn:E; simpl; [|done]. specialize (Hone w E).
  match type of Hone with length ?s = _ => destruct s as [|p [|]]; [done| |done] end.
  simpl. by rewrite IH.
Qed.

Lemma elem_of_take_subset {A} (x : A) n l : x ∈ take n l → x ∈ l.
Proof. intros (i & Hi & _)%elem_of_take. by eapply list_elem_of_lookup_2. Qed.

Lemma StronglySorted_take {A} (R : relation A) n l :
  StronglySorted R l → StronglySorted R (take n l).
Proof.
  intros H. revert n. induction H as [|x l Hl IH Hx]; intros [|n]; simpl; try constructor.
  - apply IH.
  - apply Forall_forall. intros y Hy. rewrite Forall_forall in Hx. apply Hx.
    apply list_elem_of_In in Hy. apply list_elem_of_In. revert Hy. apply elem_of_take_subset.
Qed.

(** How often a status occurs. *)
Definition occurrences (s : string) (rows : list WorkOrderRow) : Z :=
  Z.of_nat (length (select (λ w, String.eqb (wo_status w) s) rows)).

Lemma count_statuses_get rows s :
  default 0 (bt_get s (count_statuses rows)) = occurrences s rows.
Proof.
  unfold count_statuses, occurrences.
  induction rows as [|w rows IH] using rev_ind; [done|].
  rewrite foldl_app, select_app, length_app. simpl. rewrite bt_get_insert.
  destruct (String.eqb_spec (wo_status w) s) as [->|Hne]; simpl; [rewrite IH; lia|].
  rewrite IH. lia.
Qed.

Section agent_lemmas.
Context {env : Env} {senv : SyncEnv} {serde : SerdeJson} {proc : ProcessEnv} {agent : AgentEnv}.
Context {backend : LlmBackend}.

(** ** What a call depends on *)

(** Worlds a call answers alike in, and leaves as they are. *)
Definition blind (R : relation World) {E A} (m : M World E A) : Prop :=
  ∀ w1 w2, R w1 w2 → ∃ r, m w1 = (r, w1) ∧ m w2 = (r, w2).

Lemma blind_pure R {E A} (r : Result A E) : blind R (λ w, (r, w)).
Proof. intros w1 w2 _. by exists r. Qed.

Lemma blind_bind R {E A B} (m : M World E A) (k : A → M World E B) :
  blind R m → (∀ a, blind R (k a)) → blind R (m ≫= k).
Proof.
  intros Hm Hk w1 w2 HR. destruct (Hm w1 w2 HR) as ([a|e] & E1 & E2);
    unfold mbind, M_bind; rewrite E1, E2; [by apply Hk|]. by exists (Err e).
Qed.

Lemma blind_map_err R {E F A} (f : E → F) (m : M World E A) : blind R m → blind R (map_err f m).
Proof.
  intros Hm w1 w2 HR. destruct (Hm w1 w2 HR) as ([a|e] & E1 & E2);
    unfold map_err; rewrite E1, E2; eauto.
Qed.

Lemma blind_attempt R {E F A} (m : M World E A) : blind R m → blind R (attempt m : M World F _).
Proof.
  intros Hm w1 w2 HR. destruct (Hm w1 w2 HR) as (r & E1 & E2).
  unfold attempt. rewrite E1, E2. eauto.
Qed.

(** Two clouds that an org cannot tell apart: healthy, with the same plants and the same
    orders of its plants. *)
Definition same_plants (w1 w2 : World) : Prop :=
  healthy w1 ∧ healthy w2 ∧ w_pool w1 = w_pool w2 ∧ w_db w1 Plants = w_db w2 Plants.
Definition same_view (org : string) (w1 w2 : World) : Prop :=
  same_plants w1 w2 ∧ own_orders org (w_db w1) = own_orders org (w_db w2).

Lemma blind_get_wo_status scope args :
  blind (same_view (sc_org_id scope)) (get_wo_status scope args).
Proof.
  intros w1 w2 ((H1 & H2 & _ & Hp) & Ho). unfold get_wo_status, query_limit.
  unfold mbind, M_bind, map_err. rewrite !statement_run by done.
  cbn -[take status_answer]. rewrite !tenant_orders_own, Ho, Hp. destruct w1, w2. eauto.
Qed.

Lemma blind_dispatch scope name args :
  blind (same_view (sc_org_id scope)) (dispatch scope name args).
Proof.
  unfold dispatch. repeat case_match; try apply blind_pure. apply blind_get_wo_status.
Qed.

Lemma blind_run_tools scope uses : blind (same_view (sc_org_id scope)) (run_tools scope uses).
Proof.
  induction uses as [|use uses IH]; simpl; [apply blind_pure|]. apply blind_bind.
  - unfold run_tool. apply blind_bind; [apply blind_attempt, blind_dispatch|].
    intros r. apply blind_pure.
  - intros b. apply blind_bind; [done|]. intros l. apply blind_pure.
Qed.

Lemma blind_copilot_loop n scope messages calls :
  blind (same_view (sc_org_id scope)) (copilot_loop n scope messages calls).
Proof.
  revert messages calls. induction n as [|n IH]; intros messages calls; simpl;
    [apply blind_pure|].
  apply blind_bind; [apply blind_pure|]. intros content.
  destruct (tool_uses content) as [|use uses]; [apply blind_pure|].
  apply blind_bind; [exact (blind_run_tools scope (use :: uses))|]. intros results. apply IH.
Qed.

Lemma blind_resolve_scope authorization : blind same_plants (resolve_scope authorization).
Proof.
  apply blind_bind.
  { intros w1 w2 (_ & _ & Hp & _). unfold require_pool. rewrite Hp.
    destruct (w_pool w2); eauto. }
  intros _. apply blind_bind; [unfold ok_or; case_match; apply blind_pure|]. intros token.
  apply blind_bind; [|intros [[plant org]|]; apply blind_pure].
  apply blind_map_err. intros w1 w2 (H1 & H2 & _ & Hp).
  unfold resolve_tenant_by_token, fetch_optional, fetch, mbind, M_bind, map_err.
  rewrite !query_run by done. rewrite Hp. eauto.
Qed.

Lemma blind_answer_request scope req :
  blind (same_view (sc_org_id scope)) (answer_request scope req).
Proof.
  unfold answer_request. cbv zeta.
  repeat (case_match; [|]); try apply blind_pure.
  apply blind_bind; [apply blind_attempt, blind_dispatch|]. intros r. apply blind_pure.
Qed.

(** ** What a call changes *)

Lemma reads_dispatch scope name args : reads (dispatch scope name args).
Proof.
  unfold dispatch, get_wo_status. pose proof @reads_query_limit.
  repeat case_match; try done. evolve.
Qed.

Lemma reads_run_tools scope uses : reads (run_tools scope uses).
Proof.
  induction uses as [|use uses IH]; simpl; [evolve|]. unfold run_tool.
  pose proof (reads_dispatch scope use.1.2 use.2). evolve.
Qed.

Lemma reads_answer_request scope req : reads (answer_request scope req).
Proof.
  unfold answer_request. cbv zeta. pose proof reads_dispatch. repeat case_match; evolve.
Qed.

Lemma reads_resolve_scope authorization : reads (resolve_scope authorization).
Proof. unfold resolve_scope, resolve_tenant_by_token. evolve. Qed.

(** An entry of the audit trail, or none. *)
Lemma log_message_rows scope role content calls w :
  ∃ k, (length k <= 1)%nat ∧ (∀ r, r ∈ k → cm_org_id r = Some (sc_org_id scope)) ∧
    w_db (log_message scope role content calls w).2 Copilot_messages
      = w_db w Copilot_messages ++ k ∧
    ∀ t, t ≠ Copilot_messages → w_db (log_message scope role content calls w).2 t = w_db w t.
Proof.
  unfold log_message, new_id, gets, mbind, M_bind.
  destruct (insert Copilot_messages _ _) as [[r|e] w'] eqn:Ei; simpl.
  - apply (insert_Ok Copilot_messages) in Ei as (-> & _ & ->).
    exists [mkCopilotRow (ulid (w_next w)) (Some (sc_org_id scope)) role content calls (w_now w)].
    simpl. rewrite set_table_eq. split_and!; [lia|by intros r ->%list_elem_of_singleton|done|].
    intros t Ht. by rewrite set_table_ne.
  - apply statement_Err in Ei. exists []. rewrite app_nil_r, Ei.
    split_and!; [simpl; lia|by intros r ?%elem_of_nil|done..].
Qed.

(** Rounds of tool use: from a world, a conversation and the calls made to the next ones. *)
Inductive tool_rounds (scope : TenantScope) :
    nat → World → list Message → list CopilotToolCall →
    World → list Message → list CopilotToolCall → Prop :=
  | tool_rounds_O w messages calls : tool_rounds scope 0 w messages calls w messages calls
  | tool_rounds_S n w w1 w' messages messages' calls calls' content results :
      turn SYSTEM messages catalog = Ok content → tool_uses content ≠ [] →
      run_tools scope (tool_uses content) w = (Ok results, w1) →
      tool_rounds scope n w1
        (messages ++ [mkMessage "assistant" content; mkMessage "user" results])
        (calls ++ map call_of (tool_uses content)) w' messages' calls' →
      tool_rounds scope (S n) w messages calls w' messages' calls'.

Lemma run_tools_total scope uses w : ∃ results w', run_tools scope uses w = (Ok results, w') ∧
  map (λ b, match b with ToolResult id _ => Some id | _ => None end) results =
  map (λ use, Some use.1.1) uses.
Proof.
  revert w. induction uses as [|use uses IH]; intros w; simpl; [by exists [], w|].
  unfold run_tool, attempt, mbind, M_bind.
  destruct (dispatch scope use.1.2 use.2 w) as [r w1]. simpl.
  destruct (IH w1) as (results & w' & -> & Hm). eexists _, w'. split; [done|].
  simpl. by rewrite Hm.
Qed.

Lemma copilot_loop_outcome turns scope messages calls w :
  ∃ n w' messages' calls', tool_rounds scope n w messages calls w' messages' calls' ∧
    (n <= turns)%nat ∧ (length messages' = length messages + 2 * n)%nat ∧
    w_db w' = w_db w ∧
    copilot_loop turns scope messages calls w =
      (if (n =? turns)%nat then Err NoConverge
       else match turn SYSTEM messages' catalog with
            | Ok content => Ok (mkCopilotResponse (String.concat line_feed (texts content)) calls')
            | Err e => Err e
            end, w') ∧
    (n ≠ turns → ∀ content, turn SYSTEM messages' catalog = Ok content → tool_uses content = []).
Proof.
  revert messages calls w. induction turns as [|turns IH]; intros messages calls w.
  { exists 0%nat, w, messages, calls. split_and!; [constructor|lia|lia|done..]. }
  cbn [copilot_loop]. unfold mbind at 1, M_bind at 1.
  destruct (turn SYSTEM messages catalog) as [content|e] eqn:Et.
  2:{ exists 0%nat, w, messages, calls. rewrite Et.
      split_and!; [constructor|lia|lia|done|done|]. by intros _ content. }
  destruct (tool_uses content) as [|use uses] eqn:Eu.
  { exists 0%nat, w, messages, calls. rewrite Et.
    split_and!; [constructor|lia|lia|done|done|]. intros _ c [= <-]. done. }
  destruct (run_tools_total scope (use :: uses) w) as (results & w1 & Er & _).
  unfold mbind, M_bind. rewrite Er, <- app_assoc. cbn [app].
  destruct (IH (messages ++ [mkMessage "assistant" content; mkMessage "user" results])
    (calls ++ map call_of (use :: uses)) w1)
    as (n & w' & messages' & calls' & Hr & Hn & Hl & Hd & E & Hu).
  exists (S n), w', messages', calls'. split_and!.
  - rewrite <- Eu in *. econstructor; [done|by rewrite Eu|done|done].
  - lia.
  - rewrite Hl, length_app. simpl. lia.
  - rewrite Hd. pose proof (reads_run_tools scope (use :: uses) w) as Hread.
    unfold same_db, state_after in Hread. by rewrite Er in Hread.
  - exact E.
  - intros Hne. apply Hu. lia.
Qed.
End agent_lemmas.

(** ** Properties *)

Section agent_properties.
Context {env : Env} {senv : SyncEnv} {serde : SerdeJson} {proc : ProcessEnv} {agent : AgentEnv}.
Context {backend : LlmBackend}.

(** C16. Tenants are isolated at both front doors: two clouds with the same plants, in which
    the orders of the caller's own org are the same, answer an MCP request and a copilot
    message alike, whatever the orders of the others, everything else the cloud stores, and
    whatever tools the request or the model asks for. *)
Theorem tenants_isolated authorization req message w1 w2 :
  same_plants w1 w2 →
  (∀ scope, (resolve_scope authorization w1).1 = Ok scope →
     own_orders (sc_org_id scope) (w_db w1) = own_orders (sc_org_id scope) (w_db w2)) →
  (mcp authorization req w1).1 = (mcp authorization req w2).1 ∧
  (copilot authorization message w1).1 = (copilot authorization message w2).1.
Proof.
  intros Hp Ho. destruct (blind_resolve_scope authorization w1 w2 Hp) as ([scope|e] & E1 & E2);
    unfold mcp, copilot, mbind, M_bind; rewrite E1, E2; [|done].
  rewrite E1 in Ho. specialize (Ho scope eq_refl).
  assert (same_view (sc_org_id scope) w1 w2) as Hv by done.
  unfold require_pool. replace (w_pool w2) with (w_pool w1) by apply Hp.
  destruct (w_pool w1); [|done]. split.
  - by destruct (blind_answer_request scope req w1 w2 Hv) as (r & -> & ->).
  - unfold answer_message, run_copilot, mbind, M_bind, map_err.
    destruct (blind_copilot_loop MAX_TURNS scope (first_message message) [] w1 w2 Hv)
      as (r & -> & ->). by destruct r.
Qed.

(** The agents only read: an MCP request changes nothing in the database; a copilot
    request appends at most two entries, its audit trail under the caller's org, and changes
    nothing else; a caller whose token belongs to no plant is refused with 401 by both. *)
Theorem agents_read_only authorization req message w :
  w_db (mcp authorization req w).2 = w_db w ∧
  (∃ entries, w_db (copilot authorization message w).2 Copilot_messages
      = w_db w Copilot_messages ++ entries ∧ (length entries <= 2)%nat ∧
    ∀ r, r ∈ entries → ∃ scope, (resolve_scope authorization w).1 = Ok scope ∧
      cm_org_id r = Some (sc_org_id scope)) ∧
  (∀ t, t ≠ Copilot_messages → w_db (copilot authorization message w).2 t = w_db w t) ∧
  (∀ e, (resolve_scope authorization w).1 = Err e →
     (mcp authorization req w).1 = Err e ∧ (copilot authorization message w).1 = Err e).
Proof.
  pose proof (reads_resolve_scope authorization w) as Hs. unfold same_db, state_after in Hs.
  unfold mcp, copilot, mbind, M_bind.
  destruct (resolve_scope authorization w) as [[scope|e] v]; simpl in *; rewrite <- Hs.
  2:{ split_and!; [done| |done|by intros e' [= ->]]. exists [].
      rewrite app_nil_r. split_and!; [done|simpl; lia|by intros r ?%elem_of_nil]. }
  unfold require_pool. destruct (w_pool v); simpl.
  2:{ split_and!; [done| |done|done]. exists [].
      rewrite app_nil_r. split_and!; [done|simpl; lia|by intros r ?%elem_of_nil]. }
  split; [exact (reads_answer_request scope req v)|].
  unfold answer_message, run_copilot, mbind, M_bind, map_err, best_effort.
  destruct (copilot_loop_outcome MAX_TURNS scope (first_message message) [] v)
    as (n & v' & ms & cs & _ & _ & _ & <- & E & _). rewrite E.
  match goal with |- context [match ?x with Ok _ => _ | Err _ => _ end] =>
    destruct x as [resp|e]; simpl end.
  2:{ split_and!; [|done|done]. exists [].
      rewrite app_nil_r. split_and!; [done|simpl; lia|by intros r ?%elem_of_nil]. }
  destruct (log_message_rows scope "user" message None v') as (k1 & L1 & O1 & R1 & F1).
  match goal with |- context [log_message scope "assistant" ?c ?t ?u] =>
    destruct (log_message_rows scope "assistant" c t u) as (k2 & L2 & O2 & R2 & F2) end.
  split_and!; [|intros t Ht; by rewrite F2, F1|done].
  exists (k1 ++ k2). rewrite R2, R1, app_assoc, length_app. split_and!; [done|lia|].
  intros r [Hr|Hr]%elem_of_app; exists scope; split; auto.
Qed.

(** C38. The tool loop ends after at most eight turns of the model, whatever the model does:
    it went through some number of rounds of tool use, and then the model answered without
    asking for a tool, or failed, or the eighth round was over. The reply is the texts of the
    last answer, the calls reported are those of the rounds in order, and the conversation
    has two messages per round. *)
Theorem run_copilot_outcome scope message w :
  ∃ n w' messages calls,
    tool_rounds scope n w (first_message message) [] w' messages calls ∧ (n <= 8)%nat ∧
    (length messages = 1 + 2 * n)%nat ∧ w_db w' = w_db w ∧
    match run_copilot scope message w with
    | (Ok resp, w1) => w1 = w' ∧ (n < 8)%nat ∧ ∃ content,
        turn SYSTEM messages catalog = Ok content ∧ tool_uses content = [] ∧
        resp = mkCopilotResponse (String.concat line_feed (texts content)) calls
    | (Err e, w1) => w1 = w' ∧
        (n = 8%nat ∧ e = NoConverge ∨ (n < 8)%nat ∧ turn SYSTEM messages catalog = Err e)
    end.
Proof.
  destruct (copilot_loop_outcome MAX_TURNS scope (first_message message) [] w)
    as (n & w' & messages & calls & Hr & Hn & Hl & Hd & E & Hu).
  exists n, w', messages, calls. unfold MAX_TURNS in *. split_and!; [done..|].
  unfold run_copilot, MAX_TURNS. rewrite E.
  destruct (Nat.eqb_spec n 8) as [->|Hne]; [split; [done|by left]|].
  destruct (turn SYSTEM messages catalog) as [content|e].
  - split_and!; [done|lia|]. exists content. split_and!; [done|by apply Hu|done].
  - split; [done|]. right. split; [lia|done].
Qed.

(** What the status tool answers over a healthy connection: orders of the org's plants
    only, with the status asked for, newest first, and no more than 200; all of them when
    there are no more than that. The total is the number of orders listed, and every status
    is counted as often as it is listed. *)
Theorem get_wo_status_exact scope args w :
  healthy w → NoDup (map pn_id (w_db w Plants)) →
  ∃ rows, get_wo_status scope args w = (Ok (status_answer rows), w) ∧
    (length rows <= 200)%nat ∧
    StronglySorted (λ a b, wo_created_at b <= wo_created_at a) rows ∧
    (∀ r, r ∈ rows → r ∈ w_db w Work_orders ∧
       has_status (field "status" args ≫= as_string) r = true ∧
       ∃ p, p ∈ w_db w Plants ∧ wo_plant_id r = Some (pn_id p) ∧ pn_org_id p = sc_org_id scope) ∧
    (let all := select (has_status (field "status" args ≫= as_string))
                  (own_orders (sc_org_id scope) (w_db w)) in
     (length all <= 200)%nat → rows ≡ₚ all) ∧
    (∀ s, default 0 (bt_get s (count_statuses rows)) = occurrences s rows).
Proof.
  intros Hh Hd. unfold get_wo_status, query_limit, mbind, M_bind, map_err.
  rewrite statement_run by done. simpl. rewrite tenant_orders_once by done.
  set (all := select _ (own_orders _ _)).
  exists (take 200 (order_by_desc wo_created_at all)).
  split_and!.
  - by destruct w.
  - rewrite length_take. lia.
  - apply StronglySorted_take, order_by_desc_sorted.
  - intros r Hr%elem_of_take_subset.
    apply elem_of_sort_by, elem_of_select in Hr as [Hst Hr].
    rewrite <- tenant_orders_once in Hr by done.
    apply elem_of_tenant_orders in Hr as [Hr Hp]. done.
  - cbv zeta. intros Hl. rewrite take_ge; [apply sort_by_perm|].
    unfold order_by_desc. by rewrite sort_by_perm.
  - intros s. apply count_statuses_get.
Qed.

(** What the model's service says is what the loop sees, and what the loop sends is
    what was said: content blocks survive the wire format. *)
Theorem blocks_roundtrip content :
  as_array block_of_json (JArr (map block_to_json content)) = Some content.
Proof.
  simpl. induction content as [|b content IH]; simpl; [done|].
  rewrite IH. by destruct b.
Qed.
End agent_properties.

(** ** The properties on a concrete cloud *)

Definition sample_agent : AgentEnv := {|
  sql_error_text _ := "error";
  anthropic_reply _ _ := Unreachable "offline";
  anthropic_status_text _ := "";
  body_error := ""
|}.

(** A model that asks for one tool, then answers. *)
Definition sample_backend : LlmBackend := {|
  turn _ messages _ :=
    if (length messages =? 1)%nat
    then Ok [Text "Let me see."; ToolUse "t1" "get_wo_status" (JObj [])]
    else Ok [Text "One order,"; Text "released."]
|}.

#[local] Existing Instances sample_env sample_sync sample_serde sample_process sample_agent
  sample_backend.

Definition order_of_plant (id number status plant : string) : WorkOrderRow :=
  mkWorkOrderRow id number "p1" None (10 ^ 28) 100 status None None 0 0 (Some plant).

(** Two orgs with a plant each; the second plant's orders vary. *)
Definition two_tenants (others : list WorkOrderRow) : World := world_of
  (set_table Orgs [mkOrgRow "o1" "O1" "One" 0 0; mkOrgRow "o2" "O2" "Two" 0 0] (
   set_table Plants
     [mkPlantRow "pA" "o1" "A" "Plant A" (Some (token_hash "tokA")) (Some 0) None 0 0;
      mkPlantRow "pB" "o2" "B" "Plant B" (Some (token_hash "tokB")) (Some 0) None 0 0] (
   set_table Work_orders (order_of_plant "w1" "WO-1" "released" "pA" :: others) plant_db))).

Definition cloud1 : World := two_tenants [].
Definition cloud2 : World := two_tenants [order_of_plant "w2" "WO-SECRET" "released" "pB"].

Definition call_status : Json :=
  JObj [("id", JInt 1); ("method", JStr "tools/call");
        ("params", JObj [("name", JStr "get_wo_status")])]%string.

Lemma tenants_isolated_witness :
  is_ok (copilot (Some "Bearer tokA"%string) "How many?" cloud1).1 = true ∧
  (mcp (Some "Bearer tokA"%string) call_status cloud1).1
    = (mcp (Some "Bearer tokA"%string) call_status cloud2).1.
Proof.
  split; [vm_compute; reflexivity|].
  apply (tenants_isolated (Some "Bearer tokA"%string) call_status "How many?" cloud1 cloud2).
  - split_and!; reflexivity.
  - intros scope H.
    assert (resolve_scope (Some "Bearer tokA"%string) cloud1 = (Ok (mkTenantScope "o1"), cloud1))
      as E by (vm_compute; reflexivity).
    rewrite E in H. injection H as <-. vm_compute. reflexivity.
Defined.

Lemma agents_read_only_witness :
  (mcp (Some "Bearer nobody"%string) call_status cloud1).1
    = Err (err 401 "unauthorized" "invalid tenant token") ∧
  (∀ t, t ≠ Copilot_messages →
     w_db (copilot (Some "Bearer tokA"%string) "How many?" cloud1).2 t = w_db cloud1 t).
Proof.
  split.
  - apply (proj2 (proj2 (proj2 (agents_read_only (Some "Bearer nobody"%string) call_status
      "" cloud1)))). vm_compute. reflexivity.
  - exact (proj1 (proj2 (proj2 (agents_read_only (Some "Bearer tokA"%string) call_status
      "How many?" cloud1)))).
Defined.

(** One round of tool use, then the texts of the answer. *)
Lemma one_round :
  (run_copilot (mkTenantScope "o1") "How many?" cloud1).1
    = Ok (mkCopilotResponse (String.append "One order," (String.append line_feed "released."))
        [mkCopilotToolCall "get_wo_status" (JObj [])]).
Proof. vm_compute. reflexivity. Qed.

Lemma get_wo_status_exact_witness :
  ∃ rows, get_wo_status (mkTenantScope "o1") (JObj []) cloud2 = (Ok (status_answer rows), cloud2) ∧
    (length rows <= 200)%nat ∧ ∀ r, r ∈ rows → r ∈ w_db cloud2 Work_orders.
Proof.
  assert (NoDup (map pn_id (w_db cloud2 Plants))) as Hd by evaluate_prop.
  destruct (get_wo_status_exact (mkTenantScope "o1") (JObj []) cloud2 eq_refl Hd)
    as (rows & E & Hl & _ & Hin & _).
  exists rows. split; [exact E|]. split; [exact Hl|]. intros r Hr. exact (proj1 (Hin r Hr)).
Defined.
