(* ===== verification/Concurrency.v ===== *)
(** * Requests that run at the same time

    The servers answer requests concurrently, each over a connection of its own, and
    PostgreSQL runs them under READ COMMITTED. Here a call is a tree of statements
    ([Prog]) that can be suspended after each of them; a [Session] is a call under way with
    the transaction it has open; a [Cluster] is the shared world and its sessions.

    - A statement sees what is committed when it runs and the writes of its own transaction.
    - The row versions a transaction writes and the rows it locks ([UPDATE], [DELETE],
      [FOR UPDATE]) are its own until it ends: a statement that wants one of these rows, or
      would write a version that a unique index tells to be the same, waits.
    - A transaction that ends by COMMIT publishes its versions at once; one that fails, or
      whose connection is lost, vanishes.
    - A subquery in the values of an INSERT ([Peek]) is read before the row is written.
    - The machine daemon is called in one step ([Consult]).

    A statement that waits is taken to run when its wait is over. Locks that foreign keys
    take are left out, which allows more interleavings than the server does. [alone] runs a
    program by itself, and [plays] relates it to the calls of the other files. *)

From S2P Require Import Prelude Schema Sql.

(** ** Programs *)

(** The statements of [Sql], and [SELECT ... FOR UPDATE]. *)
Inductive Stmt : Type → Type :=
  | Select {A : Type} (f : Db → Result A SqlError) : Stmt A
  | SelectForUpdate (t : table) (p : row t → bool) : Stmt (list (row t))
  | InsertRow (t : table) (r : row t) : Stmt (row t)
  | InsertOrIgnore (t : table) (c : row t → row t → bool) (r : row t) : Stmt (option (row t))
  | UpdateRows (t : table) (p : row t → bool) (f : row t → row t) : Stmt (list (row t))
  | Upsert (t : table) (r : row t) (merge : row t → row t) : Stmt unit
  | DeleteRows (t : table) (p : row t → bool) : Stmt unit.

Inductive Prog (E A : Type) : Type :=
  | Return (r : Result A E)
  | Exec {B : Type} (s : Stmt B) (k : Result B SqlError → Prog E A)
  | Begin (k : Result unit SqlError → Prog E A)
  | Commit (k : Result unit SqlError → Prog E A)
  | Rollback (k : Prog E A)
  | NewId (k : string → Prog E A)
  | Now (k : DateTime → Prog E A)
  | Publish (ev : WsEvent) (k : Prog E A)
  | HasPool (k : bool → Prog E A)
  | Consult {B : Type} (f : DncDaemon → B * DncDaemon) (k : B → Prog E A)
  | Peek {B : Type} (f : Db → B) (k : B → Prog E A).
Arguments Return {E A} r.
Arguments Exec {E A B} s k.
Arguments Begin {E A} k.
Arguments Commit {E A} k.
Arguments Rollback {E A} k.
Arguments NewId {E A} k.
Arguments Now {E A} k.
Arguments Publish {E A} ev k.
Arguments HasPool {E A} k.
Arguments Consult {E A B} f k.
Arguments Peek {E A B} f k.

(** Goes on with the outcome of a program. *)
Fixpoint resume {E F A B} (p : Prog E A) (f : Result A E → Prog F B) : Prog F B :=
  match p with
  | Return r => f r
  | Exec s k => Exec s (λ r, resume (k r) f)
  | Begin k => Begin (λ r, resume (k r) f)
  | Commit k => Commit (λ r, resume (k r) f)
  | Rollback k => Rollback (resume k f)
  | NewId k => NewId (λ i, resume (k i) f)
  | Now k => Now (λ t, resume (k t) f)
  | Publish ev k => Publish ev (resume k f)
  | HasPool k => HasPool (λ b, resume (k b) f)
  | Consult g k => Consult g (λ b, resume (k b) f)
  | Peek g k => Peek g (λ b, resume (k b) f)
  end.

#[global] Instance Prog_ret {E} : MRet (Prog E) := λ A a, Return (Ok a).
#[global] Instance Prog_bind {E} : MBind (Prog E) := λ A B f p,
  resume p (λ r, match r with Ok a => f a | Err e => Return (Err e) end).

(** The operations of [Prelude] and [Sql], for programs. *)
Module Steps.
Definition throw {E A} (e : E) : Prog E A := Return (Err e).

Definition ok_or {E A} (o : option A) (e : E) : Prog E A :=
  match o with Some a => mret a | None => throw e end.

Definition throw_if {E} (b : bool) (e : E) : Prog E unit := if b then throw e else mret tt.

Definition map_err {E F A} (f : E → F) (p : Prog E A) : Prog F A :=
  resume p (λ r, Return (match r with Ok a => Ok a | Err e => Err (f e) end)).

Definition best_effort {E F A} (p : Prog E A) : Prog F unit := resume p (λ _, Return (Ok tt)).

Fixpoint forM_ {E A} (l : list A) (f : A → Prog E unit) : Prog E unit :=
  match l with
  | [] => mret tt
  | x :: l' => f x ;; forM_ l' f
  end.

Fixpoint mapM_list {E A B} (f : A → Prog E B) (l : list A) : Prog E (list B) :=
  match l with
  | [] => mret []
  | x :: l' => y ← f x; ys ← mapM_list f l'; mret (y :: ys)
  end.

Definition new_id {E} : Prog E string := NewId (λ i, mret i).
Definition now {E} : Prog E DateTime := Now (λ t, mret t).
Definition publish {E} (ev : WsEvent) : Prog E unit := Publish ev (mret tt).

(** Calls the machine daemon. *)
Definition consult {E A} (f : DncDaemon → Result A E * DncDaemon) : Prog E A :=
  Consult f Return.

Definition require_pool : Prog ApiErr unit :=
  HasPool (λ b, if b then mret tt else throw (err 503 "unavailable" "database not configured")).

Abbreviation Sql := (Prog SqlError).

Definition select_ {A} (f : Db → Result A SqlError) : Sql A := Exec (Select f) Return.
Definition query {A} (f : Db → A) : Sql A := select_ (λ db, Ok (f db)).
Definition fetch (t : table) (p : row t → bool) : Sql (list (row t)) :=
  query (λ db, select p (db t)).
Definition fetch_for_update (t : table) (p : row t → bool) : Sql (list (row t)) :=
  Exec (SelectForUpdate t p) Return.
Definition insert (t : table) (r : row t) : Sql (row t) := Exec (InsertRow t r) Return.
Definition insert_or_ignore (t : table) (c : row t → row t → bool) (r : row t) :
    Sql (option (row t)) := Exec (InsertOrIgnore t c r) Return.
(** [INSERT ... VALUES] with a subquery, which reads the snapshot the statement began with:
    others may write between the subquery and the insertion. *)
Definition insert_from (t : table) (f : Db → row t) : Sql (row t) :=
  Peek f (λ r, insert t r).
Definition update (t : table) (p : row t → bool) (f : row t → row t) : Sql (list (row t)) :=
  Exec (UpdateRows t p f) Return.
Definition upsert (t : table) (r : row t) (merge : row t → row t) : Sql unit :=
  Exec (Upsert t r merge) Return.

Definition delete (t : table) (p : row t → bool) : Sql unit := Exec (DeleteRows t p) Return.

Definition fetch_optional {A} (m : Sql (list A)) : Sql (option A) :=
  rows ← m; mret (head rows).
Definition fetch_one {A} (m : Sql (list A)) : Sql A :=
  rows ← m; ok_or (head rows) RowNotFound.

(** [begin; p; commit]; an error drops the transaction. *)
Definition transaction {E A} (lift : SqlError → E) (p : Prog E A) : Prog E A :=
  Begin (λ b, match b with
    | Err e => throw (lift e)
    | Ok _ => resume p (λ r, match r with
        | Ok a => Commit (λ c, Return (match c with Ok _ => Ok a | Err e => Err (lift e) end))
        | Err e => Rollback (throw e)
        end)
    end).

Section translation.
Context {env : Env}.

Definition get_by_id (t : table) (id : string) : Prog RepoError (row t) :=
  row ← map_err map_sqlx (fetch_optional (fetch t (by_id t id))); ok_or row NotFound.

Definition update_by_id (t : table) (id : string) (f : row t → row t) : Prog RepoError (row t) :=
  row ← map_err map_sqlx (fetch_optional (update t (by_id t id) f)); ok_or row NotFound.

Definition insert_audit (actor_id : option string) (action entity : string)
    (entity_id : option string) (detail : option Json) : Prog RepoError string :=
  id ← new_id;
  t ← now;
  map_err map_sqlx (insert Audit_log (mkAuditRow id actor_id action entity entity_id detail t)) ;;
  mret id.

Definition audit {E} (actor_id : option string) (action entity : string)
    (entity_id : option string) (detail : option Json) : Prog E unit :=
  best_effort (insert_audit actor_id action entity entity_id detail).
End translation.
End Steps.

(** ** A program by itself *)

Section alone.
Context {env : Env}.

Definition perform {B} (s : Stmt B) : M World SqlError B :=
  match s with
  | Select f =>
      statement (λ db, match f db with Ok a => Ok (a, db) | Err e => Err e end)
  | SelectForUpdate t p => fetch t p
  | InsertRow t r => insert t r
  | InsertOrIgnore t c r => insert_or_ignore t c r
  | UpdateRows t p f => update t p f
  | DeleteRows t p => delete t p
  | Upsert t r merge => upsert t r merge
  end.

(** Ends the open transaction, if there is one, without a trace. *)
Definition rollback (sw : option Db * World) : option Db * World :=
  (None, sw.2 <| w_db := default (w_db sw.2) sw.1 |>).

(** Runs a program with no one else around. Beside the world, the state holds what the
    database was when the open transaction began. An error aborts the transaction. *)
Fixpoint alone {E A} (p : Prog E A) : M (option Db * World) E A := λ '(saved, w),
  match p with
  | Return r => (r, (saved, w))
  | Exec s k =>
      match perform s w with
      | (Ok b, w') => alone (k (Ok b)) (saved, w')
      | (Err e, w') => alone (k (Err e)) (rollback (saved, w'))
      end
  | Begin k =>
      match begin_ w with
      | (Ok _, w') => alone (k (Ok tt)) (Some (w_db w), w')
      | (Err e, w') => alone (k (Err e)) (None, w')
      end
  | Commit k =>
      match commit w with
      | (Ok _, w') => alone (k (Ok tt)) (None, w')
      | (Err e, w') => alone (k (Err e)) (rollback (saved, w'))
      end
  | Rollback k => alone k (rollback (saved, w))
  | NewId k => alone (k (ulid (w_next w))) (saved, w <| w_next := S (w_next w) |>)
  | Now k => alone (k (w_now w)) (saved, w)
  | Publish ev k => alone k (saved, w <| w_events := w_events w ++ [ev] |>)
  | HasPool k => alone (k (w_pool w)) (saved, w)
  | Consult f k => let '(b, d) := f (w_dnc w) in alone (k b) (saved, w <| w_dnc := d |>)
  | Peek f k => alone (k (f (w_db w))) (saved, w)
  end.

(** How a program that stands for a call may leave the state: as the call does, except that
    an error inside a transaction may already have aborted it. *)
Definition ends {A E} (saved : option Db) (r : Result A E) (w' : World)
    (sw : option Db * World) : Prop :=
  match saved, r with
  | Some _, Err _ => rollback sw = rollback (saved, w')
  | _, _ => sw = (saved, w')
  end.

(** The program does by itself what the call [m] does, in and out of a transaction. *)
Definition plays_in {E A} (saved : option Db) (p : Prog E A) (m : M World E A) : Prop :=
  ∀ w, ∃ sw, alone p (saved, w) = ((m w).1, sw) ∧ ends saved (m w).1 (m w).2 sw.

Definition plays {E A} (p : Prog E A) (m : M World E A) : Prop :=
  ∀ w, alone p (None, w) = let '(r, w') := m w in (r, (None, w')).

Lemma alone_resume {E F A B} (p : Prog E A) (f : Result A E → Prog F B) sw :
  alone (resume p f) sw = let '(r, sw') := alone p sw in alone (f r) sw'.
Proof.
  revert sw. induction p; intros [saved w]; simpl; try done.
  - destruct (perform s w) as [[]]; apply H.
  - destruct (begin_ w) as [[]]; apply H.
  - destruct (commit w) as [[]]; apply H.
  - destruct (f0 (w_dnc w)) as [b d]. apply H.
Qed.
End alone.

Create HintDb plays.

Section plays.
Context {env : Env}.

Lemma plays_outside {E A} (p : Prog E A) m : plays_in None p m ↔ plays p m.
Proof.
  unfold plays_in, plays. split; intros H w; specialize (H w).
  - destruct H as (sw & -> & E0). destruct (m w) as [[a|e] w']; simpl in *; by subst.
  - rewrite H. destruct (m w) as [[a|e] w']; by eexists.
Qed.

Context (saved : option Db).

(** A call that leaves the open transaction open. *)
Lemma plays_exact {E A} (p : Prog E A) m :
  (∀ w, alone p (saved, w) = ((m w).1, (saved, (m w).2))) → plays_in saved p m.
Proof. intros H w. eexists. split; [apply H|]. by destruct saved, (m w) as [[]]. Qed.

Lemma plays_ret {E A} (a : A) : plays_in saved (mret a : Prog E A) (mret a).
Proof. by apply plays_exact. Qed.

Lemma plays_throw {E A} (e : E) : plays_in saved (Steps.throw e : Prog E A) (throw e).
Proof. by apply plays_exact. Qed.

Lemma plays_bind {E A B} (p : Prog E A) (f : A → Prog E B) m g :
  plays_in saved p m → (∀ a, plays_in saved (f a) (g a)) →
  plays_in saved (p ≫= f) (m ≫= g).
Proof.
  intros Hp Hf w. destruct (Hp w) as (sw & E1 & E2).
  unfold mbind at 1, Prog_bind. rewrite alone_resume, E1. unfold mbind, M_bind.
  destruct (m w) as [[a|e] w']; simpl in *.
  - assert (sw = (saved, w')) as -> by (by destruct saved). apply Hf.
  - exists sw. split; [by destruct sw|]. by destruct saved.
Qed.

Lemma plays_map_err {E F A} (f : E → F) (p : Prog E A) m :
  plays_in saved p m → plays_in saved (Steps.map_err f p) (map_err f m).
Proof.
  intros Hp w. destruct (Hp w) as (sw & E1 & E2). exists sw.
  unfold Steps.map_err, map_err. rewrite alone_resume, E1.
  destruct (m w) as [[]]; simpl in *; (split; [by destruct sw|by destruct saved]).
Qed.

Lemma plays_ok_or {E A} (o : option A) (e : E) : plays_in saved (Steps.ok_or o e) (ok_or o e).
Proof. destruct o; by apply plays_exact. Qed.

Lemma plays_throw_if {E} b (e : E) : plays_in saved (Steps.throw_if b e) (throw_if b e).
Proof. destruct b; by apply plays_exact. Qed.

Lemma plays_forM {E A} (l : list A) (f : A → Prog E unit) g :
  (∀ a, plays_in saved (f a) (g a)) → plays_in saved (Steps.forM_ l f) (forM_ l g).
Proof.
  intros Hf. induction l; simpl; [apply plays_ret|]. by apply plays_bind.
Qed.

Lemma plays_mapM {E A B} (f : A → Prog E B) g l :
  (∀ a, plays_in saved (f a) (g a)) → plays_in saved (Steps.mapM_list f l) (mapM_list g l).
Proof.
  intros Hf. induction l; simpl; [apply plays_ret|]. apply plays_bind; [done|]. intros b.
  apply plays_bind; [done|]. intros bs. apply plays_ret.
Qed.

Lemma plays_new_id {E} : plays_in saved (Steps.new_id : Prog E string) new_id.
Proof. by apply plays_exact. Qed.

Lemma plays_now {E} : plays_in saved (Steps.now : Prog E DateTime) (gets w_now).
Proof. by apply plays_exact. Qed.

Lemma plays_publish {E} ev : plays_in saved (Steps.publish ev : Prog E unit) (publish ev).
Proof. by apply plays_exact. Qed.

Lemma plays_consult {E A} (f : DncDaemon → Result A E * DncDaemon) :
  plays_in saved (Steps.consult f)
    (λ w, let '(r, d) := f (w_dnc w) in (r, w <| w_dnc := d |>)).
Proof. apply plays_exact. intros w. simpl. by destruct (f (w_dnc w)). Qed.

Lemma plays_require_pool : plays_in saved Steps.require_pool require_pool.
Proof. apply plays_exact. intros w. unfold require_pool. simpl. by destruct (w_pool w). Qed.

Lemma plays_exec {B} (s : Stmt B) : plays_in saved (Exec s Return) (perform s).
Proof.
  intros w. simpl. destruct (perform s w) as [[b|e] w']; simpl; eexists; (split; [done|]);
    destruct saved; try done. by destruct w'.
Qed.

Lemma plays_insert_from t (f : Db → row t) :
  plays_in saved (Steps.insert_from t f) (statement (λ db,
    match check_row t (f db) db with
    | Some e => Err e
    | None => Ok (f db, set_table t (db t ++ [f db]) db)
    end)).
Proof. intros w. apply (plays_exec (InsertRow t (f (w_db w)))). Qed.

Lemma plays_select {A} (f : Db → Result A SqlError) g :
  (∀ db, g db = match f db with Ok a => Ok (a, db) | Err e => Err e end) →
  plays_in saved (Steps.select_ f) (statement g).
Proof.
  intros H. enough (∀ w, statement g w = perform (Select f) w) as E.
  { intros w. rewrite E. apply plays_exec. }
  intros w. simpl. unfold statement. rewrite H. done.
Qed.

Lemma plays_fetch_optional {A} (p : Prog SqlError (list A)) m :
  plays_in saved p m → plays_in saved (Steps.fetch_optional p) (fetch_optional m).
Proof. intros. apply plays_bind; [done|]. intros. apply plays_ret. Qed.

Lemma plays_fetch_one {A} (p : Prog SqlError (list A)) m :
  plays_in saved p m → plays_in saved (Steps.fetch_one p) (fetch_one m).
Proof. intros. apply plays_bind; [done|]. intros. apply plays_ok_or. Qed.

Lemma plays_if {E A} (b : bool) (p q : Prog E A) m n :
  plays_in saved p m → plays_in saved q n →
  plays_in saved (if b then p else q) (if b then m else n).
Proof. by destruct b. Qed.

Lemma plays_option {E A C} (o : option C) (f : C → Prog E A) (q : Prog E A) g n :
  (∀ c, plays_in saved (f c) (g c)) → plays_in saved q n →
  plays_in saved (match o with Some c => f c | None => q end)
    (match o with Some c => g c | None => n end).
Proof. by destruct o. Qed.
End plays.

#[export] Hint Resolve plays_ret plays_throw plays_ok_or plays_throw_if plays_new_id plays_now
  plays_publish plays_require_pool : plays.

Section plays_calls.
Context {env : Env}.

Lemma plays_best_effort {E F A} (p : Prog E A) m :
  plays_in None p m → plays_in None (Steps.best_effort p : Prog F unit) (best_effort m).
Proof.
  intros Hp%plays_outside. apply plays_outside. intros w.
  unfold Steps.best_effort, best_effort. rewrite alone_resume, Hp. by destruct (m w) as [[]].
Qed.

Lemma plays_transaction {E A} (lift : SqlError → E) (p : Prog E A) m :
  (∀ saved, plays_in (Some saved) p m) →
  plays_in None (Steps.transaction lift p) (transaction lift m).
Proof.
  intros Hp. apply plays_outside. intros w. unfold Steps.transaction, transaction, enclosed.
  simpl. unfold mbind, M_bind, map_err. destruct (begin_ w) as [[[]|e] w1] eqn:E1; simpl.
  - destruct (Hp (w_db w) w1) as (sw & E2 & E3). rewrite alone_resume, E2.
    destruct (m w1) as [[a|e] w2]; simpl in *; [subst|].
    + by destruct (commit w2) as [[[]|e] w3].
    + destruct sw as [o w3]. simpl. unfold rollback in *. simpl in *. congruence.
  - apply statement_Err in E1 as ->. by destruct w.
Qed.

End plays_calls.

(** Matches a program with a call, construct by construct. *)
Ltac play :=
  repeat lazymatch goal with
  | |- ∀ _, plays_in _ _ _ => intros
  | |- plays_in _ (_ ≫= _) _ => apply plays_bind
  | |- plays_in _ (Steps.map_err _ _) _ => apply plays_map_err
  | |- plays_in _ (Steps.best_effort _) _ => apply plays_best_effort
  | |- plays_in _ (Steps.transaction _ _) _ => apply plays_transaction
  | |- plays_in _ (Steps.fetch_optional _) _ => apply plays_fetch_optional
  | |- plays_in _ (Steps.fetch_one _) _ => apply plays_fetch_one
  | |- plays_in _ (Steps.forM_ _ _) _ => apply plays_forM
  | |- plays_in _ (Steps.mapM_list _ _) _ => apply plays_mapM
  | |- plays_in _ (Steps.select_ _) _ =>
      apply plays_select; intros ?; repeat case_match; congruence
  | |- plays_in _ (Steps.consult _) _ => apply plays_consult
  | |- plays_in ?s (Steps.insert_from ?t ?f) _ => exact (plays_insert_from s t f)
  | |- plays_in _ (Steps.query _) _ => apply plays_exec
  | |- plays_in _ (Steps.fetch _ _) _ => apply plays_exec
  | |- plays_in ?s (Steps.fetch_for_update ?t ?p) _ =>
      exact (plays_exec s (SelectForUpdate t p))
  | |- plays_in ?s (Steps.insert ?t ?r) _ => exact (plays_exec s (InsertRow t r))
  | |- plays_in ?s (Steps.insert_or_ignore ?t ?c ?r) _ =>
      exact (plays_exec s (InsertOrIgnore t c r))
  | |- plays_in ?s (Steps.update ?t ?p ?f) _ => exact (plays_exec s (UpdateRows t p f))
  | |- plays_in ?s (Steps.upsert ?t ?r ?f) _ => exact (plays_exec s (Upsert t r f))
  | |- plays_in ?s (Steps.delete ?t ?p) _ => exact (plays_exec s (DeleteRows t p))
  | |- plays_in _ (if ?b then _ else _) _ => destruct b
  | |- plays_in _ (match ?x with _ => _ end) _ => destruct x
  | |- plays_in _ _ _ => solve [auto with plays]
  end.

Section plays_composed.
Context {env : Env}.

Lemma plays_get_by_id saved t id : plays_in saved (Steps.get_by_id t id) (get_by_id t id).
Proof. unfold Steps.get_by_id, get_by_id. play. Qed.

Lemma plays_update_by_id saved t id f :
  plays_in saved (Steps.update_by_id t id f) (update_by_id t id f).
Proof. unfold Steps.update_by_id, update_by_id. play. Qed.

Lemma plays_audit {E} a b c d e :
  plays_in None (Steps.audit a b c d e : Prog E unit) (audit a b c d e).
Proof. unfold Steps.audit, audit, Steps.insert_audit, insert_audit. play. Qed.
End plays_composed.

#[export] Hint Resolve plays_audit : plays.
#[export] Hint Extern 1 (plays_in ?s (Steps.get_by_id ?t ?i) _) =>
  exact (plays_get_by_id s t i) : plays.
#[export] Hint Extern 1 (plays_in ?s (Steps.update_by_id ?t ?i ?f) _) =>
  exact (plays_update_by_id s t i f) : plays.

(** ** Row versions *)

(** A version a transaction has written, of a new row or of the row with its key; or the row
    with its key, removed. *)
Inductive Write :=
  | Added (t : table) (r : row t)
  | Changed (t : table) (r : row t)
  | Removed (t : table) (r : row t).

Definition apply_write (db : Db) (x : Write) : Db :=
  match x with
  | Added t r => set_table t (db t ++ [r]) db
  | Changed t r => set_table t (update_rows (by_id t (key t r)) (λ _, r) (db t)) db
  | Removed t r => set_table t (delete_rows (by_id t (key t r)) (db t)) db
  end.

Definition apply_writes (ws : list Write) (db : Db) : Db := foldl apply_write db ws.

Definition written (x : Write) : {t & row t} :=
  match x with Added t r | Changed t r | Removed t r => existT t r end.

(** Whether a unique index tells two versions to be the same row. *)
Definition clash (x y : Write) : bool :=
  let 'existT t r := written x in
  let 'existT t' r' := written y in
  match decide (t' = t) with
  | left e => existsb (λ c, c r (eq_rect t' row r' t e)) (uniques t)
  | right _ => false
  end.

(** What a statement does where it sees [db]: its result, the versions it writes, the rows
    it locks. *)
Definition effect {B} (s : Stmt B) (db : Db) :
    Result (B * list Write * list (table * string)) SqlError :=
  match s with
  | Select f => match f db with Ok a => Ok (a, [], []) | Err e => Err e end
  | SelectForUpdate t p =>
      let rows := select p (db t) in Ok (rows, [], map (λ r, (t, key t r)) rows)
  | InsertRow t r =>
      match check_row t r db with
      | Some e => Err e
      | None => Ok (r, [Added t r], [])
      end
  | InsertOrIgnore t c r =>
      if exists_row (c r) (db t) then Ok (None, [], [])
      else match check_row t r db with
           | Some e => Err e
           | None => Ok (Some r, [Added t r], [])
           end
  | UpdateRows t p f =>
      let rows := select p (db t) in
      match check_update t f db rows with
      | Some e => Err e
      | None => Ok (map f rows, map (λ r, Changed t (f r)) rows, map (λ r, (t, key t r)) rows)
      end
  | Upsert t r merge =>
      match first_where (by_id t (key t r)) (db t) with
      | None =>
          match check_row t r db with
          | Some e => Err e
          | None => Ok (tt, [Added t r], [])
          end
      | Some old =>
          if negb (in_range t (merge old)) then Err OutOfRange
          else match violated 0 (uniques t) (merge old)
                       (delete_rows (by_id t (key t r)) (db t)) with
               | Some n => Err (UniqueViolation t n)
               | None =>
                   match dangling db (new_references t old (merge old)) with
                   | Some t' => Err (ForeignKeyViolation t t')
                   | None => Ok (tt, [Changed t (merge old)], [(t, key t old)])
                   end
               end
      end
  | DeleteRows t p =>
      let rows := select p (db t) in
      Ok (tt, map (Removed t) rows, map (λ r, (t, key t r)) rows)
  end.

(** ** Sessions *)

(** The transaction a session has open, if any: [now()] is the time it began. *)
Record Tx := mkTx {
  tx_open : bool;
  tx_now : DateTime;
  tx_writes : list Write;
  tx_locks : list (table * string)
}.

Definition idle : Tx := mkTx false 0 [] [].
Definition opened (t : DateTime) : Tx := mkTx true t [] [].

(** The transaction after a statement. *)
Definition grow (tx : Tx) (ws : list Write) (ls : list (table * string)) : Tx :=
  mkTx true (tx_now tx) (tx_writes tx ++ ws) (tx_locks tx ++ ls).

Definition visible (tx : Tx) (db : Db) : Db := apply_writes (tx_writes tx) db.

Record Session (A : Type) := mkSession { s_prog : Prog ApiErr A; s_tx : Tx }.
Arguments mkSession {A} s_prog s_tx.
Arguments s_prog {A} s.
Arguments s_tx {A} s.

(** Whether a statement with this effect has to wait for one of the other transactions. *)
Definition blocked (others : list Tx) (ws : list Write) (ls : list (table * string)) : bool :=
  existsb (λ o,
    existsb (λ x, existsb (clash x) (tx_writes o)) ws ||
    existsb (λ l, bool_decide (l ∈ tx_locks o)) ls) others.

(** What becomes of the next step of a session: it goes through, or the connection is lost
    before the server acts or before its answer arrives. *)
Inductive Fate := Through | Lost | ReplyLost.

Record Cluster (A : Type) := mkCluster { c_world : World; c_sessions : list (Session A) }.
Arguments mkCluster {A} c_world c_sessions.
Arguments c_world {A} c.
Arguments c_sessions {A} c.

Section cluster.
Context {env : Env} {A : Type}.

(** One step of a session. [None] when there is none to take or it has to wait. *)
Definition take_step (fate : Fate) (others : list Tx) (w : World) (s : Session A) :
    option (World * Session A) :=
  let tx := s_tx s in
  match s_prog s with
  | Return _ => None
  | Exec st k =>
      match fate, effect st (visible tx (w_db w)) with
      | Lost, _ => Some (w, mkSession (k (Err Io)) idle)
      | _, Err e => Some (w, mkSession (k (Err e)) idle)
      | _, Ok (b, ws, ls) =>
          let answer := match fate with Through => Ok b | _ => Err Io end in
          if blocked others ws ls then None
          else if tx_open tx then
            Some (w, mkSession (k answer)
                       (match fate with
                        | Through => grow tx ws ls
                        | _ => idle
                        end))
          else Some (w <| w_db := apply_writes ws (w_db w) |>, mkSession (k answer) idle)
      end
  | Begin k =>
      match fate with
      | Through => Some (w, mkSession (k (Ok tt)) (opened (w_now w)))
      | _ => Some (w, mkSession (k (Err Io)) idle)
      end
  | Commit k =>
      match fate with
      | Through => Some (w <| w_db := visible tx (w_db w) |>, mkSession (k (Ok tt)) idle)
      | ReplyLost => Some (w <| w_db := visible tx (w_db w) |>, mkSession (k (Err Io)) idle)
      | Lost => Some (w, mkSession (k (Err Io)) idle)
      end
  | Rollback k => Some (w, mkSession k idle)
  | NewId k => Some (w <| w_next := S (w_next w) |>, mkSession (k (ulid (w_next w))) tx)
  | Now k => Some (w, mkSession (k (if tx_open tx then tx_now tx else w_now w)) tx)
  | Publish ev k => Some (w <| w_events := w_events w ++ [ev] |>, mkSession k tx)
  | HasPool k => Some (w, mkSession (k (w_pool w)) tx)
  | Consult f k => let '(b, d) := f (w_dnc w) in Some (w <| w_dnc := d |>, mkSession (k b) tx)
  | Peek f k => Some (w, mkSession (k (f (visible tx (w_db w)))) tx)
  end.

Definition others (i : nat) (ss : list (Session A)) : list Tx := map s_tx (base.delete i ss).

Inductive cstep (request : Prog ApiErr A → Prop) : Cluster A → Cluster A → Prop :=
  (** A request arrives. *)
  | step_arrive p w ss :
      request p → cstep request (mkCluster w ss) (mkCluster w (ss ++ [mkSession p idle]))
  (** A session takes its next step. *)
  | step_session fate i s w ss w' s' :
      ss !! i = Some s → take_step fate (others i ss) w s = Some (w', s') →
      cstep request (mkCluster w ss) (mkCluster w' (<[i := s']> ss))
  (** Time passes. *)
  | step_clock t w ss :
      w_now w <= t → cstep request (mkCluster w ss) (mkCluster (w <| w_now := t |>) ss).

(** Lets the sessions go through their next steps in the order given. *)
Fixpoint play_schedule (schedule : list nat) (c : Cluster A) : option (Cluster A) :=
  match schedule with
  | [] => Some c
  | i :: schedule' =>
      s ← c_sessions c !! i;
      '(w', s') ← take_step Through (others i (c_sessions c)) (c_world c) s;
      play_schedule schedule' (mkCluster w' (<[i := s']> (c_sessions c)))
  end.

Lemma play_schedule_steps request schedule c c' :
  play_schedule schedule c = Some c' → rtc (cstep request) c c'.
Proof.
  revert c. induction schedule as [|i schedule IH]; intros [w ss]; simpl.
  - intros [= <-]. apply rtc_refl.
  - destruct (ss !! i) as [s|] eqn:Es; simpl; [|done].
    destruct (take_step Through (others i ss) w s) as [[w' s']|] eqn:Ea; simpl; [|done].
    intros H%IH. eapply rtc_l; [|exact H]. by eapply step_session.
Qed.

(** Requests that have arrived and not begun. *)
Definition waiting (ps : list (Prog ApiErr A)) (w : World) : Cluster A :=
  mkCluster w (map (λ p, mkSession p idle) ps).

Lemma waiting_reachable request ps w :
  Forall request ps → rtc (cstep request) (mkCluster w []) (waiting ps w).
Proof.
  induction ps as [|p ps IH] using rev_ind; [done|].
  intros [Hps Hp]%Forall_app. etrans; [by apply IH|]. apply rtc_once.
  unfold waiting. rewrite map_app. apply step_arrive. by inversion Hp.
Qed.

(** What the sessions have answered. *)
Definition answers (c : Cluster A) : list (option (Result A ApiErr)) :=
  map (λ s, match s_prog s with Return r => Some r | _ => None end) (c_sessions c).

(** Evaluates a run, from no requests to one schedule and on to another. *)
Lemma run_schedules request ps w schedule schedule' (P : Cluster A → Cluster A → Prop)
    `{∀ c c', Decision (P c c')} :
  Forall request ps →
  match play_schedule schedule (waiting ps w) with
  | Some c => match play_schedule schedule' c with
              | Some c' => bool_decide (P c c')
              | None => false
              end
  | None => false
  end = true →
  ∃ c c', rtc (cstep request) (mkCluster w []) c ∧ rtc (cstep request) c c' ∧ P c c'.
Proof.
  intros Hps. destruct (play_schedule schedule _) as [c|] eqn:E1; [|done].
  destruct (play_schedule schedule' c) as [c'|] eqn:E2; [|done].
  intros HP%bool_decide_eq_true. exists c, c'. split_and!; [|by eapply play_schedule_steps|done].
  etrans; [by apply waiting_reachable|by eapply play_schedule_steps].
Qed.
End cluster.

#[global] Instance ApiErr_eq_dec : EqDecision ApiErr.
Proof. solve_decision. Defined.
#[global] Instance Result_eq_dec {A E} `{EqDecision A, EqDecision E} : EqDecision (Result A E).
Proof. solve_decision. Defined.
