(* ===== verification/Isolation.v ===== *)
(** * Reasoning about requests that run at the same time

    A logic for the programs of [Concurrency]: [wp] follows one program against whatever
    the others may commit between its steps, [cluster_sound] puts the programs together, and
    [solo_run] shows that a program no one interferes with does in a cluster what [alone]
    says. *)

From Stdlib Require Import FunctionalExtensionality.
From S2P Require Import Prelude Schema Sql Integrity Concurrency.

(** ** Versions in a database

    Validity of a write depends on which versions there are and not on their order, so
    databases are compared by the versions they hold. *)

Abbreviation Version := {t & row t}.

Definition key_of (v : Version) : table * string := (projT1 v, key (projT1 v) (projT2 v)).

Definition stored (v : Version) (db : Db) : Prop := projT2 v ∈ db (projT1 v).

Definition key_in (db : Db) (k : table * string) : Prop := ∃ v, stored v db ∧ key_of v = k.

Definition conflicts (v v' : Version) : Prop :=
  ∃ t a b, v = existT t a ∧ v' = existT t b ∧ conflicting t a b.

Definition same_versions (db db' : Db) : Prop := ∀ v, stored v db ↔ stored v db'.

#[global] Instance same_versions_equivalence : Equivalence same_versions.
Proof.
  split; [by intros db v|by intros db db' H v; rewrite (H v)|].
  intros db1 db2 db3 H12 H23 v. by rewrite (H12 v).
Qed.

#[global] Instance stored_proper : Proper (eq ==> same_versions ==> iff) stored.
Proof. by intros v ? <- db db' H. Qed.

#[global] Instance key_in_proper : Proper (same_versions ==> eq ==> iff) key_in.
Proof. intros db db' H k ? <-. unfold key_in. by setoid_rewrite (H _). Qed.

#[global] Instance conflicts_symmetric : Symmetric conflicts.
Proof. intros v v' (t & a & b & -> & -> & H). exists t, b, a. by apply conflicting_sym in H. Qed.

Lemma key_in_exists db k : key_in db k ↔ key_exists db k.1 k.2 = true.
Proof.
  rewrite key_exists_true. destruct k as [t id]. simpl. split.
  - intros ([t' r] & Hr & E). unfold key_of in E. simpl in E. injection E as -> E. by exists r.
  - intros (r & Hr & <-). by exists (existT t r).
Qed.

Lemma conflicts_key v v' : keyed (projT1 v) → key_of v = key_of v' → conflicts v v'.
Proof.
  destruct v as [t a], v' as [t' b]. unfold key_of. simpl. intros Hk [= -> E].
  exists t', a, b. split_and!; [done..|]. exists (same (key t')). split; [done|].
  by apply bool_decide_eq_true.
Qed.

Lemma version_eq t (a b : row t) : existT t a = existT t b → a = b.
Proof. apply (Eqdep_dec.inj_pair2_eq_dec _ table_eq_dec). Qed.

(** Takes equations between versions apart. *)
Ltac versions :=
  repeat match goal with
  | E : existT ?t ?a = existT ?t ?b |- _ => apply version_eq in E; subst
  | E : existT ?t _ = existT ?t' _ |- _ =>
      let H := fresh in pose proof (eq_sigT_fst E) as H; simpl in H; subst
  | E : existT _ _ = existT _ _ |- _ => clear E
  end.

Lemma clash_true x y : clash x y = true ↔ conflicts (written x) (written y).
Proof.
  unfold clash. destruct (written x) as [t a], (written y) as [t' b].
  destruct (decide (t' = t)) as [->|Hne]; simpl.
  - rewrite existsb_exists. split.
    + intros (c & Hc & E). exists t, a, b. split_and!; [done..|]. exists c.
      by rewrite list_elem_of_In.
    + intros (t' & a' & b' & E & E' & c & Hc & H).
      versions. exists c. by rewrite <- list_elem_of_In.
  - split; [done|]. intros (t'' & a' & b' & E & E' & _).
    pose proof (eq_sigT_fst E). pose proof (eq_sigT_fst E'). simpl in *. congruence.
Qed.

(** *** The versions after a write *)

(** Whether the write is one of a row that is there. *)
Definition changes (x : Write) : bool := match x with Added _ _ => false | _ => true end.
Definition removes (x : Write) : bool := match x with Removed _ _ => true | _ => false end.

Lemma stored_set v t rows db :
  stored v (set_table t rows db) ↔
  (projT1 v ≠ t ∧ stored v db) ∨ (∃ r, r ∈ rows ∧ v = existT t r).
Proof.
  destruct v as [t' r]. unfold stored. simpl. destruct (decide (t = t')) as [->|Hne].
  - rewrite set_table_eq. split; [intros; right; eauto|].
    intros [[]|(r' & Hr & E)]; [done|]. by apply version_eq in E as ->.
  - rewrite set_table_ne by done. split; [by left|].
    intros [[]|(r' & Hr & E)]; [done|]. by pose proof (eq_sigT_fst E).
Qed.

Lemma stored_apply v x db :
  stored v (apply_write db x) ↔
  if removes x then stored v db ∧ key_of v ≠ key_of (written x)
  else if changes x
  then (stored v db ∧ key_of v ≠ key_of (written x)) ∨
       (v = written x ∧ key_in db (key_of (written x)))
  else stored v db ∨ v = written x.
Proof.
  destruct x as [t r|t r|t r]; simpl; rewrite stored_set.
  - setoid_rewrite elem_of_app. setoid_rewrite list_elem_of_singleton.
    destruct v as [t' r']. destruct (decide (t' = t)) as [->|Hne]; unfold stored; simpl.
    + split; [intros [[]|(r0 & [Hr| ->] & E)]; [done|..]; apply version_eq in E; subst; eauto|].
      intros [H|E]; right; [by exists r'; split; [left|]|].
      exists r'. split; [right; by apply version_eq in E|done].
    + split; [intros [[_ H]|(r0 & _ & E)]; [by left|by pose proof (eq_sigT_fst E)]|].
      intros [H|E]; [by left|by pose proof (eq_sigT_fst E)].
  - setoid_rewrite elem_of_update_rows. unfold by_id.
    destruct v as [t' r']. unfold key_of. simpl. split.
    + intros [[Hne H]|(r0 & (y & Hy & ->) & E)]; [left; split; [done|]; congruence|].
      destruct (String.eqb_spec (key t y) (key t r)) as [Ek|Ek].
      * right. split; [done|]. exists (existT t y). split; [done|]. unfold key_of. simpl.
        congruence.
      * left. pose proof (eq_sigT_fst E). simpl in *. subst. apply version_eq in E. subst.
        split; [done|]. congruence.
    + intros [[H Hne]|[E (y & Hy & Ek)]].
      * destruct (decide (t' = t)) as [->|]; [right|by left]. exists r'. split; [|done].
        exists r'. split; [done|]. destruct (String.eqb_spec (key t r') (key t r)); congruence.
      * right. exists r. split; [|done]. destruct y as [t0 y]. unfold key_of in Ek.
        simpl in Ek. injection Ek as -> Ek. exists y. split; [done|].
        by rewrite Ek, String.eqb_refl.
  - setoid_rewrite elem_of_delete_rows. unfold by_id. setoid_rewrite String.eqb_neq.
    destruct v as [t' r']. unfold key_of. simpl. split.
    + intros [[Hne H]|(r0 & [Hr Hk] & E)]; [split; [done|congruence]|].
      versions. split; [done|congruence].
    + intros [H Hne]. destruct (decide (t' = t)) as [->|]; [right|by left].
      exists r'. split_and!; [done|congruence|done].
Qed.

#[global] Instance apply_write_proper : Proper (same_versions ==> eq ==> same_versions) apply_write.
Proof.
  intros db db' H x ? <- v. rewrite !stored_apply.
  destruct (removes x), (changes x); by rewrite H.
Qed.

Lemma key_in_apply db x k :
  key_in (apply_write db x) k ↔
  if removes x then key_in db k ∧ k ≠ key_of (written x)
  else key_in db k ∨ (changes x = false ∧ k = key_of (written x)).
Proof.
  unfold key_in at 1. setoid_rewrite stored_apply. destruct (removes x); [|destruct (changes x)].
  - unfold key_in. naive_solver.
  - split.
    + intros (v & [[H _]|[-> H]] & <-); left; [by exists v|done].
    + intros [(v & H & <-)|[? _]]; [|done].
      destruct (decide (key_of v = key_of (written x))) as [E|E]; [|eauto].
      exists (written x). split; [right; split; [done|]|done]. by exists v.
  - split; [intros (v & [H| ->] & <-); [left; by exists v|by right]|].
    intros [(v & H & <-)|[_ ->]]; eauto.
Qed.

Lemma stored_writes v ws db :
  stored v (apply_writes ws db) → stored v db ∨ ∃ x, x ∈ ws ∧ v = written x.
Proof.
  revert db. induction ws as [|x ws IH]; intros db; simpl; [by left|].
  intros [H|(y & Hy & ->)]%IH; [|right; exists y; split; [by right|done]].
  apply stored_apply in H. destruct (removes x); [|destruct (changes x)].
  - left. apply H.
  - destruct H as [[H _]|[-> _]]; [by left|right]. exists x. split; [left|done].
  - destruct H as [H| ->]; [by left|right]. exists x. split; [left|done].
Qed.

(** A key stays unless its row is removed. *)
Lemma key_in_kept db x k :
  key_in db k → (removes x = true → k ≠ key_of (written x)) → key_in (apply_write db x) k.
Proof. intros H Hn. apply key_in_apply. destruct (removes x); auto. Qed.

Lemma key_in_writes ws db db' k :
  (key_in db k → key_in db' k) →
  key_in (apply_writes ws db) k → key_in (apply_writes ws db') k.
Proof.
  revert db db'. induction ws as [|x ws IH]; intros db db' H; simpl; [apply H|].
  apply IH. rewrite !key_in_apply. destruct (removes x); naive_solver.
Qed.

Definition removed_by (ws : list Write) (k : table * string) : Prop :=
  ∃ x, x ∈ ws ∧ removes x = true ∧ k = key_of (written x).

Lemma removed_by_app ws ws' k : removed_by (ws ++ ws') k ↔ removed_by ws k ∨ removed_by ws' k.
Proof. unfold removed_by. setoid_rewrite elem_of_app. naive_solver. Qed.

Lemma key_in_more ws db k : key_in db k → key_in (apply_writes ws db) k ∨ removed_by ws k.
Proof.
  revert db. induction ws as [|x ws IH]; intros db H; simpl; [by left|].
  destruct (decide (removes x = true ∧ k = key_of (written x))) as [[Hx ->]|Hn].
  - right. exists x. split_and!; [left|done|done].
  - destruct (IH (apply_write db x)) as [|(y & Hy & ?)]; [|by left|].
    + apply key_in_kept; [done|]. intros Hx ->. by apply Hn.
    + right. exists y. split; [by right|done].
Qed.

(** *** Valid writes *)

Definition valid_write (db : Db) (x : Write) : Prop :=
  let v := written x in
  in_range (projT1 v) (projT2 v) = true ∧
  (∀ y, stored y db → (changes x = true → key_of y ≠ key_of v) → ¬ conflicts v y) ∧
  (∀ k, k ∈ references (projT1 v) (projT2 v) → key_in (apply_write db x) k) ∧
  (changes x = true → keyed (projT1 v) ∧ key_in db (key_of v)) ∧
  (removes x = true → unreferenced (projT1 v)).

#[global] Instance valid_write_proper : Proper (same_versions ==> eq ==> iff) valid_write.
Proof.
  assert (∀ db db' x, same_versions db db' → valid_write db x → valid_write db' x) as Hone.
  { intros db db' x H (Hr & Hc & Hf & Hk & Hu). split_and!; [done|..|done].
    - intros y Hy. apply Hc. by apply H.
    - intros k Hin. rewrite <- H. by apply Hf.
    - intros Hx. rewrite <- H. by apply Hk. }
  intros db db' H x ? <-. split; apply Hone; [done|by symmetry].
Qed.

Fixpoint valid_writes (db : Db) (ws : list Write) : Prop :=
  match ws with
  | [] => True
  | x :: ws' => valid_write db x ∧ valid_writes (apply_write db x) ws'
  end.

#[global] Instance valid_writes_proper : Proper (same_versions ==> eq ==> iff) valid_writes.
Proof.
  intros db db' H ws ? <-. revert db db' H.
  induction ws as [|x ws IH]; intros db db' H; simpl; [done|].
  rewrite (IH (apply_write db x) (apply_write db' x)) by (by rewrite H). by rewrite H.
Qed.

Lemma valid_writes_app db ws ws' :
  valid_writes db (ws ++ ws') ↔ valid_writes db ws ∧ valid_writes (apply_writes ws db) ws'.
Proof. revert db. induction ws as [|x ws IH]; intros db; simpl; [tauto|]. rewrite IH. tauto. Qed.

Lemma valid_write_ok db x : schema_ok db → valid_write db x → schema_ok (apply_write db x).
Proof.
  intros Hok (Hr & Hc & Hf & Hk & Hu).
  destruct x as [t r|t r|t r]; simpl in *.
  - apply schema_ok_set; [done|..].
    + apply keys_kept_set. intros y Hy. exists y. by split; [apply elem_of_app; left|].
    + intros y [Hy| ->%list_elem_of_singleton]%elem_of_app; [|done]. by apply (ok_range _ Hok).
    + intros y k [Hy| ->%list_elem_of_singleton]%elem_of_app Hin.
      * left. by eapply ok_refs.
      * right. rewrite <- key_in_exists. by apply Hf.
    + apply pairs_snoc; [by apply ok_unique|]. intros y Hy Hn.
      apply (Hc (existT t y)); [done..|]. exists t, r, y. by apply conflicting_sym in Hn.
  - destruct Hk as [Hk (v & Hv & Ev)]; [done|]. unfold by_id.
    apply schema_ok_set; [done|..].
    + apply keys_kept_set. intros y Hy. eexists.
      split; [apply elem_of_update_rows; exists y; by split|].
      by destruct (String.eqb_spec (key t y) (key t r)).
    + intros y (z & Hz & ->)%elem_of_update_rows.
      destruct (String.eqb _ _); [done|]. by apply (ok_range _ Hok).
    + intros y k (z & Hz & ->)%elem_of_update_rows Hin. destruct (String.eqb _ _).
      * right. rewrite <- key_in_exists. by apply Hf.
      * left. by eapply ok_refs.
    + apply (pairs_map _ (λ y, if String.eqb (key t y) (key t r) then r else y));
        [|by apply ok_unique].
      assert (∀ y, y ∈ db t → key t y ≠ key t r → ¬ conflicting t r y) as Hother.
      { intros y Hy Hne Hn. apply (Hc (existT t y)); [done| |by exists t, r, y].
        intros _. unfold key_of. simpl. congruence. }
      intros a b Ha Hb Hn.
      destruct (String.eqb_spec (key t a) (key t r)), (String.eqb_spec (key t b) (key t r)).
      * exfalso. apply Hn. exists (same (key t)). split; [done|].
        apply bool_decide_eq_true. congruence.
      * by apply Hother.
      * intros H%conflicting_sym. by apply (Hother a).
      * done.
  - by apply schema_ok_delete; [apply Hu|].
Qed.

Lemma valid_writes_ok db ws :
  schema_ok db → valid_writes db ws → schema_ok (apply_writes ws db).
Proof.
  revert db. induction ws as [|x ws IH]; intros db Hok; simpl; [done|].
  intros [Hx Hws]. apply IH; [|done]. by apply valid_write_ok.
Qed.

(** *** Writes of different transactions

    Two valid writes that no unique index tells to be the same row can be made in either
    order, and neither makes the other invalid. *)

Lemma keys_differ db x y :
  valid_write db x → changes x = true → ¬ conflicts (written x) (written y) →
  key_of (written x) ≠ key_of (written y).
Proof.
  intros (_ & _ & _ & Hk & _) Hx Hn E. apply Hn, conflicts_key; [|done]. by apply Hk.
Qed.

Lemma writes_commute db x y :
  valid_write db x → valid_write db y → ¬ conflicts (written x) (written y) →
  same_versions (apply_write (apply_write db y) x) (apply_write (apply_write db x) y).
Proof.
  intros Hx Hy Hn v.
  pose proof (λ H, keys_differ db x y Hx H Hn) as Dx.
  pose proof (λ H, keys_differ db y x Hy H (λ Hc, Hn (symmetry Hc))) as Dy.
  destruct Hx as (_ & _ & _ & Kx & _), Hy as (_ & _ & _ & Ky & _).
  pose proof (stored_apply v x (apply_write db y)) as H1.
  pose proof (stored_apply v y (apply_write db x)) as H2.
  pose proof (stored_apply v x db) as H3. pose proof (stored_apply v y db) as H4.
  pose proof (key_in_apply db x (key_of (written y))) as H5.
  pose proof (key_in_apply db y (key_of (written x))) as H6.
  set (kx := key_of (written x)) in *. set (ky := key_of (written y)) in *.
  assert (v = written x → key_of v = kx) as Ex by (by intros ->).
  assert (v = written y → key_of v = ky) as Ey by (by intros ->).
  destruct x as [tx rx|tx rx|tx rx], y as [ty ry|ty ry|ty ry];
    cbn [removes changes] in *; rewrite H1, H2, H3, H4, ?H5, ?H6; clear H1 H2 H3 H4 H5 H6 Hn;
    repeat match goal with H : true = true → _ |- _ => specialize (H eq_refl) end;
    intuition congruence.
Qed.

Lemma valid_write_stable db x y :
  valid_write db x → valid_write db y → ¬ conflicts (written x) (written y) →
  valid_write (apply_write db y) x.
Proof.
  intros Hx Hy Hn. pose proof (λ H, keys_differ db x y Hx H Hn) as Hd.
  destruct Hx as (Hr & Hc & Hf & Hk & Hu), Hy as (_ & _ & _ & _ & Huy).
  split_and!; [done|..|done].
  - intros z Hz Hne. apply stored_apply in Hz. destruct (removes y); [|destruct (changes y)].
    + by apply Hc; [apply Hz|].
    + destruct Hz as [[Hz _]|[-> _]]; [by apply Hc|done].
    + destruct Hz as [Hz| ->]; [by apply Hc|done].
  - intros k Hin. apply (key_in_writes [x] db); [|by apply Hf]. intros H.
    apply key_in_kept; [done|]. intros Hy ->. by apply (Huy Hy _ _ _ Hin).
  - intros H. split; [by apply Hk|]. apply key_in_kept; [by apply Hk|]. intros _. by apply Hd.
Qed.

Lemma valid_writes_stable db ws y :
  valid_writes db ws → valid_write db y →
  (∀ x, x ∈ ws → ¬ conflicts (written x) (written y)) →
  valid_writes (apply_write db y) ws.
Proof.
  revert db. induction ws as [|x ws IH]; intros db; simpl; [done|].
  intros [Hx Hws] Hy Hn. pose proof (Hn x ltac:(left)) as Hxy. split.
  - by apply valid_write_stable.
  - rewrite writes_commute by done. apply IH; [done| |intros; apply Hn; by right].
    apply valid_write_stable; [done..|]. intros H. by apply Hxy.
Qed.

(** *** The writes of a statement are valid *)

Definition wf_stmt {B} (s : Stmt B) : Prop :=
  match s with
  | SelectForUpdate t _ => keyed t
  | UpdateRows t _ f => keyed t ∧ harmless t f
  | Upsert t _ merge => keyed t ∧ ∀ o, key t (merge o) = key t o
  | DeleteRows t _ => keyed t ∧ unreferenced t
  | _ => True
  end.

Lemma check_row_valid t r db : check_row t r db = None → valid_write db (Added t r).
Proof.
  unfold check_row. destruct (in_range t r) eqn:Hr; [simpl|done].
  destruct (violated 0 (uniques t) r (db t)) eqn:Hv; [done|].
  destruct (dangling _ _) eqn:Hd; [done|]. intros _. apply dangling_None in Hd.
  rewrite Forall_forall in Hd. split_and!; simpl; [done|..|done|done].
  - intros [t' y] Hy _ (t0 & a & b & E & E' & Hc).
    simpl in *. versions. by apply (violated_None_conflict _ _ _ Hv b).
  - intros k Hk. apply key_in_exists. by apply Hd, list_elem_of_In.
Qed.

(** A version of a stored row that conflicts with no other row. *)
Lemma replacement_valid t new old db :
  schema_ok db → keyed t → old ∈ db t → key t new = key t old → in_range t new = true →
  (∀ y, y ∈ db t → key t y ≠ key t new → ¬ conflicting t new y) →
  (∀ k, k ∈ references t new → key_exists db k.1 k.2 = true) →
  valid_write db (Changed t new).
Proof.
  intros Hok Hk Hold Ekey Hr Hc Hf. split_and!; simpl; [done|..|done].
  - intros [t' y] Hy Hne (t0 & a & b & E & E' & Hn). specialize (Hne eq_refl).
    simpl in *. versions. apply (Hc b); [done| |done].
    intros E. apply Hne. unfold key_of. simpl. by rewrite E.
  - intros k Hin. apply (key_in_apply db (Changed t new)). left. apply key_in_exists. by apply Hf.
  - intros _. split; [done|]. exists (existT t old). split; [done|]. unfold key_of. simpl.
    by rewrite Ekey.
Qed.

Lemma update_valid t f rows db :
  keyed t → harmless t f → schema_ok db →
  (∀ r, r ∈ rows → r ∈ db t ∧ in_range t (f r) = true ∧
     ∀ k, k ∈ references t (f r) → key_exists db k.1 k.2 = true) →
  NoDup (map (key t) rows) →
  valid_writes db (map (λ r, Changed t (f r)) rows).
Proof.
  intros Hk Hf. revert db. induction rows as [|r rows IH]; intros db Hok Hrows Hd; [done|].
  simpl in Hd. apply list.NoDup_cons in Hd as [Hr Hd].
  destruct (Hrows r ltac:(left)) as (Hin & Hrange & Hrefs).
  assert (valid_write db (Changed t (f r))) as Hv.
  { eapply (replacement_valid t (f r) r); [done..|apply Hf|done| |done].
    intros y Hy Hne Hc. apply (harmless_conflicting t f) in Hc; [|done].
    destruct (pairs_lookup _ _ _ _ (ok_unique _ Hok t) Hin Hy) as [<-|]; [|done].
    apply Hne. symmetry. apply Hf. }
  simpl. split; [done|]. apply IH; [by apply (valid_write_ok db (Changed t (f r)))| |done].
  intros y Hy. destruct (Hrows y ltac:(by right)) as (Hy' & Hyr & Hyf). split_and!; [|done|].
  - apply (stored_apply (existT t y) (Changed t (f r)) db). left. split; [done|].
    unfold key_of. simpl. intros [= E]. apply Hr. rewrite (proj1 (Hf r)) in E. rewrite <- E.
    by apply list_elem_of_fmap_2.
  - intros k Hkin. apply key_in_exists. apply (key_in_apply db (Changed t (f r))). left.
    apply key_in_exists. by apply Hyf.
Qed.

Lemma select_keys_nodup t p db :
  schema_ok db → keyed t → NoDup (map (key t) (select p (db t))).
Proof.
  intros Hok Hk. pose proof (ok_unique _ Hok t) as Hu. induction Hu as [|x l Hx Hl IH]; [constructor|].
  simpl. destruct (p x); [|done]. simpl. apply list.NoDup_cons. split; [|done].
  intros (y & E & [_ Hy]%elem_of_select)%list_elem_of_fmap.
  rewrite Forall_forall in Hx. apply (Hx y); [by apply list_elem_of_In|].
  exists (same (key t)). split; [done|]. by apply bool_decide_eq_true.
Qed.

(** A stored row of a table nothing refers to. *)
Lemma removal_valid t r db :
  schema_ok db → keyed t → unreferenced t → r ∈ db t → valid_write db (Removed t r).
Proof.
  intros Hok Hk Hu Hr. split_and!; simpl; [by apply (ok_range _ Hok)|..|done].
  - intros [t' y] Hy Hne (t0 & a & b & E & E' & Hn). specialize (Hne eq_refl).
    simpl in *. versions.
    destruct (pairs_lookup _ _ _ _ (ok_unique _ Hok t0) Hr Hy) as [E|]; [|done].
    simpl in E. subst. by apply Hne.
  - intros k Hin. apply (key_in_kept db (Removed t r)).
    + apply key_in_exists. by apply (ok_refs _ Hok t r).
    + intros _ ->. by apply (Hu t r (key t r)).
  - intros _. split; [done|]. by exists (existT t r).
Qed.

Lemma remove_valid t rows db :
  schema_ok db → keyed t → unreferenced t → (∀ r, r ∈ rows → r ∈ db t) →
  NoDup (map (key t) rows) → valid_writes db (map (Removed t) rows).
Proof.
  intros Hok Hk Hu. revert db Hok. induction rows as [|r rows IH]; intros db Hok Hin Hd; [done|].
  simpl in Hd. apply list.NoDup_cons in Hd as [Hr Hd].
  assert (valid_write db (Removed t r)) as Hv by (apply removal_valid; try done; apply Hin; left).
  simpl. split; [done|]. apply IH; [by apply (valid_write_ok db (Removed t r))| |done].
  intros y Hy. apply (stored_apply (existT t y) (Removed t r) db). simpl.
  split; [apply Hin; by right|]. unfold key_of. simpl. intros [= E]. apply Hr. rewrite <- E.
  by apply list_elem_of_fmap_2.
Qed.

Record lawful (db : Db) (ws : list Write) (ls : list (table * string)) : Prop := {
  law_valid : valid_writes db ws;
  law_changed x : x ∈ ws → changes x = true → key_of (written x) ∈ ls;
  law_locks k : k ∈ ls → keyed k.1 ∧ key_in db k
}.

Lemma lawful_added t r db : check_row t r db = None → lawful db [Added t r] [].
Proof.
  intros H%check_row_valid. split; [done|..].
  - by intros ? ->%list_elem_of_singleton.
  - by intros k ?%elem_of_nil.
Qed.

Lemma lawful_none db : lawful db [] [].
Proof. split; [done|..]; by intros; set_solver. Qed.

Lemma lawful_locks t p db : keyed t → lawful db [] (map (λ r, (t, key t r)) (select p (db t))).
Proof.
  intros Hk. split; [done|by intros ? ?%elem_of_nil|].
  intros k (r & -> & [_ Hr]%elem_of_select)%list_elem_of_fmap. split; [done|].
  by exists (existT t r).
Qed.

(** What a statement writes and locks. *)
Lemma effect_lawful {B} (s : Stmt B) db b ws ls :
  schema_ok db → wf_stmt s → effect s db = Ok (b, ws, ls) → lawful db ws ls.
Proof.
  intros Hok Hwf. destruct s as [A f|t p|t r|t c r|t p f|t r merge|t p]; simpl in *.
  - destruct (f db); [|done]. intros [= <- <- <-]. apply lawful_none.
  - intros [= <- <- <-]. by apply lawful_locks.
  - destruct (check_row t r db) eqn:Hc; [done|]. intros [= <- <- <-]. by apply lawful_added.
  - destruct (exists_row _ _); [intros [= <- <- <-]; apply lawful_none|].
    destruct (check_row t r db) eqn:Hc; [done|]. intros [= <- <- <-]. by apply lawful_added.
  - destruct Hwf as [Hk Hf].
    destruct (check_update t f db (select p (db t))) eqn:Hc; [done|]. intros [= <- <- <-].
    split.
    + apply update_valid; [done..| |by apply select_keys_nodup]. intros r Hr.
      pose proof Hr as [_ Hin]%elem_of_select. split_and!; [done|by eapply check_update_range|].
      intros k Hkin. by eapply (check_update_refs_ok t f db _ r).
    + intros x (y & -> & Hy)%list_elem_of_fmap _. unfold key_of. simpl.
      apply list_elem_of_fmap. exists y. by rewrite (proj1 (Hf y)).
    + by apply (lawful_locks t p db).
  - destruct Hwf as [Hk Hm].
    destruct (first_where _ _) as [old|] eqn:Eold;
      [|destruct (check_row t r db) eqn:Hc; [done|]; intros [= <- <- <-]; by apply lawful_added].
    apply first_where_Some in Eold as [Eid Hold]. unfold by_id in Eid. apply String.eqb_eq in Eid.
    destruct (in_range t (merge old)) eqn:Hr; [simpl|done].
    destruct (violated _ _ _ _) eqn:Hv; [done|]. destruct (dangling _ _) eqn:Hd; [done|].
    intros [= <- <- <-]. split.
    + split; [|done]. apply (replacement_valid t (merge old) old); [done..| |].
      * intros y Hy Hne. apply (violated_None_conflict _ _ _ Hv). apply elem_of_delete_rows.
        split; [done|]. apply String.eqb_neq. rewrite Hm in Hne. congruence.
      * intros k Hkin. by eapply new_references_None.
    + intros x ->%list_elem_of_singleton _. unfold key_of. simpl.
      apply list_elem_of_singleton. by rewrite Hm.
    + intros k ->%list_elem_of_singleton. split; [done|]. by exists (existT t old).
  - destruct Hwf as [Hk Hu]. intros [= <- <- <-]. split.
    + apply remove_valid; [done..| |by apply select_keys_nodup].
      by intros r [_ Hr]%elem_of_select.
    + intros x (y & -> & Hy)%list_elem_of_fmap _. apply list_elem_of_fmap. by exists y.
    + by apply (lawful_locks t p db).
Qed.

(** ** A logic for programs

    [G] is what every commit is to guarantee. A program is followed from a transaction state
    and the committed database it last saw: at each step the others may have committed,
    keeping [G], as long as the rows it has locked stay as they were and its own writes stay
    valid. *)

Definition agree (ls : list (table * string)) (db db' : Db) : Prop :=
  ∀ t id, (t, id) ∈ ls → select (by_id t id) (db t) = select (by_id t id) (db' t).

#[global] Instance agree_equivalence ls : Equivalence (agree ls).
Proof.
  split; [by intros db t id|intros db db' H t id Hin; by rewrite H|].
  intros db1 db2 db3 H12 H23 t id Hin. by rewrite H12, H23.
Qed.

Lemma agree_sub ls ls' db db' : agree ls db db' → ls' ⊆ ls → agree ls' db db'.
Proof. intros H Hs t id Hin. apply H. by apply Hs. Qed.

(** *** Open transactions *)

Record tx_ok (db : Db) (tx : Tx) : Prop := {
  to_valid : valid_writes db (tx_writes tx);
  to_changed x : x ∈ tx_writes tx → changes x = true → key_of (written x) ∈ tx_locks tx;
  to_locks k : k ∈ tx_locks tx →
    keyed k.1 ∧ (key_in (visible tx db) k ∨ removed_by (tx_writes tx) k);
  to_idle : tx_open tx = false → tx = idle
}.

Record compatible (tx tx' : Tx) : Prop := {
  no_clash x y : x ∈ tx_writes tx → y ∈ tx_writes tx' → ¬ conflicts (written x) (written y);
  no_wait k : k ∈ tx_locks tx → k ∉ tx_locks tx'
}.

#[global] Instance compatible_symmetric : Symmetric compatible.
Proof.
  intros tx tx' [Hc Hl]. split.
  - intros x y Hx Hy Hn. by apply (Hc y x).
  - intros k Hk Hk'. by apply (Hl k).
Qed.

(** A transaction that has done nothing. *)
Lemma compatible_fresh tx tx' : tx_writes tx = [] → tx_locks tx = [] → compatible tx tx'.
Proof. intros Ew El. split; rewrite ?Ew, ?El; by intros; set_solver. Qed.

Lemma tx_ok_opened db t : tx_ok db (opened t).
Proof. by split; simpl; [|intros ? ?%elem_of_nil|intros ? ?%elem_of_nil|]. Qed.

Lemma tx_ok_idle db : tx_ok db idle.
Proof. by split; simpl; [|intros ? ?%elem_of_nil|intros ? ?%elem_of_nil|]. Qed.

(** A write of another transaction is published. *)
Lemma agree_write ls db x : key_of (written x) ∉ ls → agree ls db (apply_write db x).
Proof.
  intros Hn t id Hin. destruct x as [t' r|t' r|t' r]; simpl in *;
    unfold key_of in Hn; simpl in Hn;
    (destruct (decide (t' = t)) as [->|Hne]; [rewrite set_table_eq|by rewrite set_table_ne]);
    assert (by_id t id r = false) as Hr by (apply String.eqb_neq; congruence).
  - rewrite select_app. simpl. by rewrite Hr, app_nil_r.
  - induction (db t) as [|y l IH]; simpl; [done|].
    destruct (by_id t (key t r) y) eqn:E; simpl.
    + unfold by_id in E. apply String.eqb_eq in E.
      assert (by_id t id y = false) as -> by (unfold by_id in *; by rewrite E).
      rewrite Hr. apply IH.
    + destruct (by_id t id y); [by rewrite IH|done].
  - induction (db t) as [|y l IH]; simpl; [done|].
    destruct (by_id t (key t r) y) eqn:E; simpl.
    + unfold by_id in E. apply String.eqb_eq in E.
      assert (by_id t id y = false) as -> by (unfold by_id in *; by rewrite E). apply IH.
    + destruct (by_id t id y); [by rewrite IH|done].
Qed.

Lemma locked_not_added db tx t r :
  tx_ok db tx → valid_write db (Added t r) →
  (∀ x, x ∈ tx_writes tx → ¬ conflicts (written x) (existT t r)) →
  (t, key t r) ∉ tx_locks tx.
Proof.
  intros Hs (_ & Hc & _) Hn Hin.
  destruct (to_locks _ _ Hs _ Hin) as [Hk [(v & Hv & E)|(x & Hx & _ & E)]].
  - assert (conflicts (existT t r) v) as Hconf by (by apply conflicts_key).
    apply stored_writes in Hv as [Hv|(x & Hx & ->)]; [by apply (Hc v)|by apply (Hn x)].
  - apply (Hn x Hx). symmetry. by apply conflicts_key.
Qed.

Lemma tx_ok_write db tx y :
  tx_ok db tx → valid_write db y →
  (∀ x, x ∈ tx_writes tx → ¬ conflicts (written x) (written y)) →
  (changes y = true → key_of (written y) ∉ tx_locks tx) →
  tx_ok (apply_write db y) tx ∧ agree (tx_locks tx) db (apply_write db y).
Proof.
  intros Hs Hy Hn Hl.
  assert (key_of (written y) ∉ tx_locks tx) as Hfree.
  { destruct y as [t r|t r|t r]; [|by apply Hl..]. by eapply locked_not_added. }
  split; [|by apply agree_write]. destruct Hs as [Hv Hc Hk Hi]. split; [|done| |done].
  - by apply valid_writes_stable.
  - intros k Hin. destruct (Hk k Hin) as [? [H|H]]; (split; [done|]); [left|by right].
    eapply key_in_writes; [|exact H]. intros H'. apply key_in_kept; [done|]. by intros _ ->.
Qed.

Lemma tx_ok_writes db tx ws :
  tx_ok db tx → valid_writes db ws →
  (∀ x y, x ∈ tx_writes tx → y ∈ ws → ¬ conflicts (written x) (written y)) →
  (∀ y, y ∈ ws → changes y = true → key_of (written y) ∉ tx_locks tx) →
  tx_ok (apply_writes ws db) tx ∧ agree (tx_locks tx) db (apply_writes ws db).
Proof.
  revert db. induction ws as [|y ws IH]; intros db Hs Hv Hn Hl; [done|].
  destruct Hv as [Hy Hv]. destruct (tx_ok_write db tx y) as [Hs1 Ha1]; [done..| | |].
  - intros x Hx. apply Hn; [done|left].
  - apply Hl. left.
  - destruct (IH _ Hs1 Hv) as [Hs2 Ha2]; [| |split; [done|by etrans]].
    + intros x z Hx Hz. apply Hn; [done|by right].
    + intros z Hz. apply Hl. by right.
Qed.

Section safe.
Context (G : relation Db).

(** The committed databases a session may meet next. *)
Record admissible (tx : Tx) (db0 db : Db) : Prop := {
  adm_ok : schema_ok db;
  adm_valid : valid_writes db (tx_writes tx);
  adm_agree : agree (tx_locks tx) db0 db;
  adm_rely : G db0 db
}.

(** [wp p Q tx db0]: from the transaction [tx] and the database [db0], every commit of [p]
    keeps [G], and where [p] returns, [Q] holds of the result, the transaction and the
    committed database then. *)
Fixpoint wp {E A} (p : Prog E A) (Q : Result A E → Tx → Db → Prop) (tx : Tx) (db0 : Db) :
    Prop :=
  match p with
  | Return r => Q r tx db0
  | Exec s k =>
      wf_stmt s ∧ ∀ db, admissible tx db0 db →
        wp (k (Err Io)) Q idle db ∧
        match effect s (visible tx db) with
        | Err e => wp (k (Err e)) Q idle db
        | Ok (b, ws, ls) =>
            if tx_open tx then
              wp (k (Ok b)) Q (grow tx ws ls) db
            else
              let db' := apply_writes ws db in
              G db db' ∧ wp (k (Ok b)) Q idle db' ∧ wp (k (Err Io)) Q idle db'
        end
  | Begin k =>
      tx = idle ∧ ∀ db t, admissible tx db0 db →
        wp (k (Ok tt)) Q (opened t) db ∧ wp (k (Err Io)) Q idle db
  | Commit k =>
      ∀ db, admissible tx db0 db →
        let db' := visible tx db in
        G db db' ∧ wp (k (Ok tt)) Q idle db' ∧ wp (k (Err Io)) Q idle db' ∧
        wp (k (Err Io)) Q idle db
  | Rollback k => ∀ db, G db0 db → wp k Q idle db
  | NewId k => ∀ id, wp (k id) Q tx db0
  | Now k => ∀ t, (tx_open tx = true → t = tx_now tx) → wp (k t) Q tx db0
  | Publish _ k => wp k Q tx db0
  | HasPool k => ∀ b, wp (k b) Q tx db0
  | Consult _ k => ∀ b, wp (k b) Q tx db0
  | Peek _ k => ∀ b, wp (k b) Q tx db0
  end.

Definition anything {E A} : Result A E → Tx → Db → Prop := λ _ _ _, True.

(** [Post] is what a request promises of the database when it answers. *)
Section sessions.
Context {A : Type} (Post : Result A ApiErr → Db → Prop).

Record session_ok (db : Db) (s : Session A) : Prop := {
  so_tx : tx_ok db (s_tx s);
  so_safe : ∃ db0, agree (tx_locks (s_tx s)) db0 db ∧ G db0 db ∧
    wp (s_prog s) (λ r _ db, Post r db) (s_tx s) db0
}.

Lemma session_ok_writes `{!PreOrder G} db s ws :
  session_ok db s → valid_writes db ws → (ws = [] ∨ G db (apply_writes ws db)) →
  (∀ x y, x ∈ tx_writes (s_tx s) → y ∈ ws → ¬ conflicts (written x) (written y)) →
  (∀ y, y ∈ ws → changes y = true → key_of (written y) ∉ tx_locks (s_tx s)) →
  session_ok (apply_writes ws db) s.
Proof.
  intros [Hs (db0 & Ha & HG & Hp)] Hv [->|HG'] Hn Hl; [split; eauto|].
  destruct (tx_ok_writes db (s_tx s) ws) as [Hs' Ha']; [done..|]. split; [done|].
  exists db0. split_and!; [by etrans..|done].
Qed.

(** A session that follows on where the database is now. *)
Lemma session_ok_at `{!PreOrder G} db p tx :
  tx_ok db tx → wp p (λ r _ db, Post r db) tx db → session_ok db (mkSession p tx).
Proof. intros Ht Hp. split; [done|]. by exists db. Qed.
End sessions.
End safe.

(** *** Soundness *)

Lemma blocked_false os ws ls o :
  blocked os ws ls = false → o ∈ os →
  (∀ x y, x ∈ ws → y ∈ tx_writes o → ¬ conflicts (written x) (written y)) ∧
  (∀ k, k ∈ ls → k ∉ tx_locks o).
Proof.
  intros Hb Ho. pose proof (proj1 (exists_row_false _ _) Hb o Ho) as H.
  apply orb_false_iff in H as [Hw Hl]. split.
  - intros x y Hx Hy Hc%clash_true.
    pose proof (proj1 (exists_row_false _ _) Hw x Hx) as Hx'.
    by rewrite (proj1 (exists_row_false _ _) Hx' y Hy) in Hc.
  - intros k Hk Hin. pose proof (proj1 (exists_row_false _ _) Hl k Hk) as H.
    by apply bool_decide_eq_false in H.
Qed.

Section sound.
Context {env : Env} (G : relation Db) `{!PreOrder G}.
Context {A : Type} (Post : Result A ApiErr → Db → Prop).

(** What one step of a session does, to the database and to the session. *)
Record advanced (os : list Tx) (db db' : Db) (ws : list Write) (s' : Session A) : Prop := {
  av_db : db' = apply_writes ws db;
  av_guarantee : ws = [] ∨ G db db';
  av_valid : valid_writes db ws;
  av_free o : o ∈ os →
    (∀ x y, x ∈ tx_writes o → y ∈ ws → ¬ conflicts (written x) (written y)) ∧
    (∀ y, y ∈ ws → changes y = true → key_of (written y) ∉ tx_locks o);
  av_session : session_ok G Post db' s';
  av_compatible o : o ∈ os → compatible (s_tx s') o
}.

Abbreviation safe p := (wp G p (λ r _ db, Post r db)).

Lemma advanced_quiet os db s' :
  session_ok G Post db s' → (∀ o, o ∈ os → compatible (s_tx s') o) → advanced os db db [] s'.
Proof. intros Hs Hc. split; [done|by left|done| |done..]. intros. split; by intros; set_solver. Qed.

Lemma advanced_idle os db p : safe p idle db → advanced os db db [] (mkSession p idle).
Proof.
  intros. apply advanced_quiet; [by apply session_ok_at; [|apply tx_ok_idle|]|].
  intros. by apply compatible_fresh.
Qed.

(** The writes of a transaction that ends are published. *)
Lemma advanced_publish os db t0 ws ls p :
  valid_writes db ws → (∀ x, x ∈ ws → changes x = true → key_of (written x) ∈ ls) →
  (∀ o, o ∈ os → compatible (mkTx true t0 ws ls) o) →
  G db (apply_writes ws db) → safe p idle (apply_writes ws db) →
  advanced os db (apply_writes ws db) ws (mkSession p idle).
Proof.
  intros Hv Hch Hc HG Hs. split; [done|by right|done|..].
  - intros o Ho. destruct (Hc o Ho) as [Hn Hl]. split.
    + intros x y Hx Hy Hcf. by apply (Hn y x).
    + intros y Hy Hx. by apply Hl, Hch.
  - by apply session_ok_at; [|apply tx_ok_idle|].
  - intros. by apply compatible_fresh.
Qed.

(** A session inside a transaction has executed a statement. *)
Lemma advanced_grown os db tx p ws ls :
  schema_ok db → tx_ok db tx → lawful (visible tx db) ws ls →
  blocked os ws ls = false → (∀ o, o ∈ os → compatible tx o) →
  safe p (grow tx ws ls) db → advanced os db db [] (mkSession p (grow tx ws ls)).
Proof.
  intros Hok [Hv Hch Hk _] [Lv Lc Ll] Hb Hc Hp. simpl in *. apply advanced_quiet.
  - apply session_ok_at; [done| |done]. split; simpl; [by apply valid_writes_app| | |done].
    + intros x [H|H]%elem_of_app ?; apply elem_of_app; [left|right]; eauto.
    + intros k. unfold visible, apply_writes in *. simpl. rewrite foldl_app, removed_by_app.
      intros [H|H]%elem_of_app; [destruct (Hk k H) as [? [H'|?]]|destruct (Ll k H) as [? H']];
        (split; [done|]); [|by auto|]; destruct (key_in_more ws _ _ H'); auto.
  - intros o Ho. destruct (Hc o Ho) as [Hn Hl]. destruct (blocked_false _ _ _ _ Hb Ho) as [Bn Bl].
    split; simpl.
    + intros x y [Hx|Hx]%elem_of_app; eauto.
    + intros k [Hx|Hx]%elem_of_app; eauto.
Qed.

(** A statement outside a transaction is published at once. *)
Lemma advanced_statement os db ws ls p :
  lawful db ws ls → blocked os ws ls = false → G db (apply_writes ws db) →
  safe p idle (apply_writes ws db) →
  advanced os db (apply_writes ws db) ws (mkSession p idle).
Proof.
  intros [Lv Lc _] Hb HG Hp. eapply (advanced_publish _ _ 0); [done..| |done|done].
  intros o Ho. destruct (blocked_false _ _ _ _ Hb Ho). by split.
Qed.

Lemma session_admissible db s db0 :
  schema_ok db → tx_ok db (s_tx s) → agree (tx_locks (s_tx s)) db0 db → G db0 db →
  admissible G (s_tx (A := A) s) db0 db.
Proof. intros Hok Hs Ha HG. split; [done|apply Hs|done..]. Qed.

Lemma advance_exec fate os w tx {B} (st : Stmt B) k w' s' :
  schema_ok (w_db w) → session_ok G Post (w_db w) (mkSession (Exec st k) tx) →
  (∀ o, o ∈ os → compatible tx o) →
  take_step fate os w (mkSession (Exec st k) tx) = Some (w', s') →
  ∃ ws, advanced os (w_db w) (w_db w') ws s'.
Proof.
  intros Hok [Htx (db0 & Hagree & HG0 & [Hwf Hsafe])] Hc Ha.
  pose proof (session_admissible _ _ _ Hok Htx Hagree HG0) as Hadm.
  pose proof (valid_writes_ok _ _ Hok (to_valid _ _ Htx)) as Hvis.
  unfold take_step in Ha. simpl in *. destruct (Hsafe _ Hadm) as [Hlost Hnext].
  destruct (effect st (visible tx (w_db w))) as [[[b ws] ls]|e] eqn:He.
  2: { destruct fate; injection Ha as <- <-; exists []; by apply advanced_idle. }
  pose proof (effect_lawful _ _ _ _ _ Hvis Hwf He) as Hlaw.
  destruct (tx_open tx) eqn:Ho.
  - destruct fate; [|injection Ha as <- <-; exists []; by apply advanced_idle|];
      (destruct (blocked os ws ls) eqn:Hb; [done|]); injection Ha as <- <-; exists [].
    + by apply advanced_grown.
    + by apply advanced_idle.
  - rewrite (to_idle _ _ Htx) in * by done. destruct Hnext as (HG & Hn & Hr).
    destruct fate; [|injection Ha as <- <-; exists []; by apply advanced_idle|];
      (destruct (blocked os ws ls) eqn:Hb; [done|]); injection Ha as <- <-; exists ws;
      by eapply advanced_statement.
Qed.

Lemma advance_local fate os w s w' s' :
  schema_ok (w_db w) → session_ok G Post (w_db w) s →
  (∀ o, o ∈ os → compatible (s_tx s) o) → take_step fate os w s = Some (w', s') →
  ∃ ws, advanced os (w_db w) (w_db w') ws s'.
Proof.
  intros Hok Hs Hc Ha. pose proof Hs as [Htx (db0 & Hagree & HG0 & Hsafe)].
  pose proof (session_admissible _ _ _ Hok Htx Hagree HG0) as Hadm.
  destruct s as [p tx]. simpl in *.
  assert (∀ p', safe p' tx db0 → advanced os (w_db w) (w_db w) [] (mkSession p' tx)) as Hgo.
  { intros p' Hp'. apply advanced_quiet; [|done]. split; eauto. }
  destruct p as [r|B st k|k|k|k|k|k|ev k|k|B f k|B f k]; [done|by eapply advance_exec|..];
    unfold take_step in Ha; simpl in Hsafe, Ha.
  - destruct Hsafe as [-> Hsafe]. destruct (Hsafe _ (w_now w) Hadm) as [Ht Hl].
    assert (advanced os (w_db w) (w_db w) [] (mkSession (k (Ok tt)) (opened (w_now w)))).
    { apply advanced_quiet; [|intros; by apply compatible_fresh].
      by apply session_ok_at; [|apply tx_ok_opened|]. }
    destruct fate; injection Ha as <- <-; exists []; [done|by apply advanced_idle..].
  - destruct (Hsafe _ Hadm) as (HG & Ht & Hr & Hl). destruct tx as [open t0 ws ls].
    destruct Htx as [Hv Hch _ _]. simpl in *.
    assert (∀ o, o ∈ os → compatible (mkTx true t0 ws ls) o).
    { intros o Ho. destruct (Hc o Ho). by split. }
    destruct fate; injection Ha as <- <-; [exists ws|exists []|exists ws]; simpl;
      [by eapply advanced_publish|by apply advanced_idle|by eapply advanced_publish].
  - injection Ha as <- <-. exists []. by apply advanced_idle, Hsafe.
  - injection Ha as <- <-. exists []. apply Hgo, Hsafe.
  - injection Ha as <- <-. exists []. apply Hgo, Hsafe. intros Ho. by rewrite Ho.
  - injection Ha as <- <-. exists []. apply Hgo, Hsafe.
  - injection Ha as <- <-. exists []. apply Hgo, Hsafe.
  - destruct (f (w_dnc w)) as [b d]. injection Ha as <- <-. exists []. apply Hgo, Hsafe.
  - injection Ha as <- <-. exists []. apply Hgo, Hsafe.
Qed.

Record cluster_ok (c : Cluster A) : Prop := {
  co_db : schema_ok (w_db (c_world c));
  co_session i s : c_sessions c !! i = Some s → session_ok G Post (w_db (c_world c)) s;
  co_pairs i j s s' : i ≠ j → c_sessions c !! i = Some s → c_sessions c !! j = Some s' →
    compatible (s_tx s) (s_tx s')
}.

Lemma cluster_ok_empty w : schema_ok (w_db w) → cluster_ok (mkCluster w []).
Proof. intros Hok. by split; simpl; [|intros ? ?; rewrite lookup_nil|intros ???? _; rewrite lookup_nil]. Qed.

Lemma elem_of_others i (ss : list (Session A)) o :
  o ∈ others i ss ↔ ∃ j s, j ≠ i ∧ ss !! j = Some s ∧ o = s_tx s.
Proof.
  unfold others. rewrite list_elem_of_fmap. setoid_rewrite list_elem_of_lookup. split.
  - intros (s & -> & j & Hj). destruct (decide (j < i)%nat).
    + rewrite list_lookup_delete_lt in Hj by done. exists j, s. split; [lia|done].
    + rewrite list_lookup_delete_ge in Hj by lia. exists (S j), s. split; [lia|done].
  - intros (j & s & Hne & Hj & ->). exists s. split; [done|].
    destruct (decide (j < i)%nat); [exists j; by rewrite list_lookup_delete_lt|].
    exists (pred j). rewrite list_lookup_delete_ge by lia. by replace (S (pred j)) with j by lia.
Qed.

Lemma advance_ok fate i s w ss w' s' :
  cluster_ok (mkCluster w ss) → ss !! i = Some s →
  take_step fate (others i ss) w s = Some (w', s') →
  cluster_ok (mkCluster w' (<[i := s']> ss)) ∧ (w_db w' = w_db w ∨ G (w_db w) (w_db w')).
Proof.
  intros [Hok Hses Hpair] Hi Ha. simpl in *.
  apply advance_local in Ha as (ws & [Edb HG Hv Hfree Hs' Hc']);
    [|done|by eapply Hses|].
  2: { intros o (j & s0 & Hne & Hj & ->)%elem_of_others. by apply (Hpair i j). }
  split; [|destruct HG as [->|]; [left; by rewrite Edb|by right]].
  assert (∀ j s0, j ≠ i → ss !! j = Some s0 → s_tx s0 ∈ others i ss) as Hother
    by (intros; apply elem_of_others; eauto).
  split; simpl.
  - rewrite Edb. by apply valid_writes_ok.
  - intros j s0 [(<- & <- & _)|[Hne Hj]]%list_lookup_insert_Some; [done|]. rewrite Edb.
    destruct (Hfree _ (Hother j s0 ltac:(done) Hj)).
    apply session_ok_writes; rewrite <- ?Edb; eauto.
  - assert (∀ j s0, i ≠ j → ss !! j = Some s0 → compatible (s_tx s') (s_tx s0)) as Hnew.
    { intros j s0 Hne Hj. apply Hc'. by eapply Hother. }
    intros j1 j2 s1 s2 Hne [(<- & <- & _)|[H1 Hj1]]%list_lookup_insert_Some
      [(<- & <- & _)|[H2 Hj2]]%list_lookup_insert_Some; [done|by eapply (Hnew j2)| |by eapply (Hpair j1 j2)].
    symmetry. by eapply (Hnew j1).
Qed.

Context (request : Prog ApiErr A → Prop).
Hypothesis requests_safe : ∀ p, request p → ∀ db, safe p idle db.

Lemma cstep_ok c c' :
  cluster_ok c → cstep request c c' →
  cluster_ok c' ∧ (w_db (c_world c') = w_db (c_world c) ∨
                   G (w_db (c_world c)) (w_db (c_world c'))).
Proof.
  intros Hc Hstep. destruct Hstep as [p w ss Hp|fate i s w ss w' s' Hi Ha|t w ss _].
  - split; [|by left]. destruct Hc as [Hok Hses Hpair]. simpl in *. split; simpl; [done|..].
    + intros i s [Hi|[_ [_ <-]%list_lookup_singleton_Some]]%lookup_app_Some; [eauto|].
      apply session_ok_at; [done|apply tx_ok_idle|by apply requests_safe].
    + intros i j s s' Hne [Hi|[? [? <-]%list_lookup_singleton_Some]]%lookup_app_Some
        [Hj|[? [? <-]%list_lookup_singleton_Some]]%lookup_app_Some; [eauto|..].
      * symmetry. by apply compatible_fresh.
      * by apply compatible_fresh.
      * by apply compatible_fresh.
  - by eapply advance_ok.
  - split; [|by left]. by destruct Hc.
Qed.

(** Whatever is committed along the way keeps the schema and the guarantee, ... *)
Theorem cluster_sound c c' :
  cluster_ok c → rtc (cstep request) c c' →
  cluster_ok c' ∧ G (w_db (c_world c)) (w_db (c_world c')).
Proof.
  intros Hc H. induction H as [c|c c1 c' Hstep _ IH]; [done|].
  destruct (cstep_ok _ _ Hc Hstep) as [H1 HG]. destruct (IH H1) as [H2 HG']. split; [done|].
  destruct HG as [E|HG]; [by rewrite <- E|by etrans].
Qed.

(** ... and what a request promised when it answered still holds. *)
Lemma answers_kept c r :
  (∀ r db db', G db db' → Post r db → Post r db') →
  cluster_ok c → Some r ∈ answers c → Post r (w_db (c_world c)).
Proof.
  intros Hst Hc (s & E & (i & Hi)%list_elem_of_lookup)%list_elem_of_fmap.
  destruct (co_session _ Hc i s Hi) as [_ (db0 & _ & HG & Hp)].
  destruct (s_prog s); [|done..]. injection E as ->. by eapply Hst.
Qed.
End sound.

(** ** Writes as updates *)

Lemma set_table_set t rows rows' db :
  set_table t rows (set_table t rows' db) = set_table t rows db.
Proof.
  apply functional_extensionality_dep. intros t'. destruct (decide (t = t')) as [<-|Hne].
  - by rewrite !set_table_eq.
  - by rewrite !set_table_ne.
Qed.

(** The rows of an update, rewritten one by one. *)
Lemma update_one_by_one t f rows db :
  (∀ r, key t (f r) = key t r) → NoDup (map (key t) rows) →
  (∀ x y, x ∈ db t → y ∈ rows → key t x = key t y → x = y) →
  apply_writes (map (λ r, Changed t (f r)) rows) db =
  set_table t (update_rows (λ x, bool_decide (key t x ∈ map (key t) rows)) f (db t)) db.
Proof.
  intros Hf. revert db. induction rows as [|r rows IH]; intros db Hd Hu; simpl.
  - rewrite update_rows_none; [by rewrite set_table_id|].
    by intros x _.
  - simpl in Hd. apply list.NoDup_cons in Hd as [Hr Hd].
    rewrite IH; [|done|]; rewrite set_table_eq.
    + rewrite set_table_set. f_equal. unfold update_rows. rewrite map_map. apply map_ext_in.
      intros x Hx%list_elem_of_In. unfold by_id. rewrite Hf.
      destruct (String.eqb_spec (key t x) (key t r)) as [E|E].
      * rewrite (Hu x r Hx ltac:(left) E), Hf, !bool_decide_eq_false_2 by done.
        rewrite bool_decide_eq_true_2; [done|left].
      * destruct (decide (key t x ∈ map (key t) rows)) as [Hin|Hin].
        -- rewrite !bool_decide_eq_true_2; [done| |done]. by right.
        -- rewrite !bool_decide_eq_false_2; [done| |done]. by intros [|]%elem_of_cons.
    + intros x y (z & Hz & ->)%elem_of_update_rows Hy. unfold by_id. rewrite Hf.
      destruct (String.eqb_spec (key t z) (key t r)) as [E|E].
      * rewrite Hf. intros E'. destruct Hr. rewrite E'. by apply list_elem_of_fmap_2.
      * intros E'. apply Hu; [done|by right|done].
Qed.

Lemma update_writes t p f db :
  schema_ok db → keyed t → (∀ r, key t (f r) = key t r) →
  apply_writes (map (λ r, Changed t (f r)) (select p (db t))) db =
  set_table t (update_rows p f (db t)) db.
Proof.
  intros Hok Hk Hf. rewrite update_one_by_one; [|done|by apply select_keys_nodup|].
  - f_equal. apply map_ext_in. intros x Hx%list_elem_of_In.
    destruct (p x) eqn:Ep; [rewrite bool_decide_eq_true_2; [done|]|].
    + apply list_elem_of_fmap_2. by apply elem_of_select.
    + rewrite bool_decide_eq_false_2; [done|].
      intros (y & E & [Hy Hin]%elem_of_select)%list_elem_of_fmap.
      rewrite (keyed_eq t db x y) in Ep; congruence.
  - intros x y Hx [_ Hy]%elem_of_select. by apply (keyed_eq t db).
Qed.

(** The rows of a delete, removed one by one. *)
Lemma delete_one_by_one t rows db :
  apply_writes (map (Removed t) rows) db =
  set_table t (delete_rows (λ x, bool_decide (key t x ∈ map (key t) rows)) (db t)) db.
Proof.
  revert db. induction rows as [|r rows IH]; intros db; simpl.
  - unfold delete_rows. rewrite (select_all _ (db t)); [by rewrite set_table_id|]. by intros x _.
  - rewrite IH, set_table_eq, set_table_set. f_equal. unfold delete_rows.
    rewrite select_select. apply select_ext. intros x _. unfold by_id.
    destruct (String.eqb_spec (key t x) (key t r)) as [E|E].
    + rewrite (bool_decide_eq_true_2 (_ ∈ _ :: _)); [done|]. rewrite E. left.
    + simpl. f_equal. apply bool_decide_ext. rewrite elem_of_cons. naive_solver.
Qed.

Lemma delete_writes t p db :
  schema_ok db → keyed t →
  apply_writes (map (Removed t) (select p (db t))) db = set_table t (delete_rows p (db t)) db.
Proof.
  intros Hok Hk. rewrite delete_one_by_one. f_equal. apply select_ext. intros x Hx. f_equal.
  destruct (p x) eqn:Ep; [apply bool_decide_eq_true_2|apply bool_decide_eq_false_2].
  - apply list_elem_of_fmap_2. by apply elem_of_select.
  - intros (y & E & [Hy Hin]%elem_of_select)%list_elem_of_fmap.
    rewrite (keyed_eq t db x y) in Ep; congruence.
Qed.

(** The row with a given key. *)
Lemma select_by_id t id old db :
  schema_ok db → keyed t → first_where (by_id t id) (db t) = Some old →
  select (by_id t id) (db t) = [old].
Proof.
  intros Hok Hk Hold. unfold first_where in Hold.
  pose proof (select_keys_nodup t (by_id t id) db Hok Hk) as Hd.
  destruct (select (by_id t id) (db t)) as [|x [|y l]] eqn:E; [done|by injection Hold as ->|].
  exfalso. assert (by_id t id x = true ∧ by_id t id y = true) as [Hx Hy].
  { split; apply (elem_of_select (by_id t id) (db t)); rewrite E; set_solver. }
  unfold by_id in Hx, Hy. bool_to_prop. simpl in Hd. rewrite Hx, Hy in Hd.
  apply list.NoDup_cons in Hd as [Hn _]. apply Hn. left.
Qed.

Lemma select_by_id_and t id p old db :
  schema_ok db → keyed t → (∀ r, p r = true → by_id t id r = true) →
  head (select p (db t)) = Some old →
  select p (db t) = [old] ∧ select (by_id t id) (db t) = [old].
Proof.
  intros Hok Hk Hp Hold. pose proof (first_where_Some p (db t) old Hold) as [Ho Hin].
  destruct (first_where_exists (by_id t id) (db t) old Hin (Hp _ Ho)) as [x Hx].
  assert (x = old) as ->.
  { apply first_where_Some in Hx as [Hid Hx]. apply Hp in Ho. unfold by_id in *. bool_to_prop.
    apply (keyed_eq t db); congruence. }
  pose proof (select_by_id t id old db Hok Hk Hx) as Hone. split; [|done].
  assert (select p (db t) = select p (select (by_id t id) (db t))) as ->.
  { rewrite select_select. apply select_ext. intros r _.
    destruct (p r) eqn:E; [by rewrite Hp|by rewrite andb_false_r]. }
  rewrite Hone. simpl. by rewrite Ho.
Qed.

(** The new version of a row found by its key. *)
Lemma change_by_id t id f old db :
  (∀ r, key t (f r) = key t r) → select (by_id t id) (db t) = [old] →
  apply_write db (Changed t (f old)) = set_table t (update_rows (by_id t id) f (db t)) db.
Proof.
  intros Hf Hs. simpl. f_equal. rewrite Hf.
  assert (key t old = id) as ->.
  { apply String.eqb_eq, (elem_of_select (by_id t id) (db t)). rewrite Hs. left. }
  apply map_ext_in. intros x Hx%list_elem_of_In. destruct (by_id t id x) eqn:E; [|done].
  assert (x ∈ select (by_id t id) (db t)) as Hin by (by apply elem_of_select).
  rewrite Hs in Hin. by apply list_elem_of_singleton in Hin as ->.
Qed.

(** ** Rules

    A program is [quiet] when, from outside a transaction, every commit of it keeps the
    guarantee and it ends outside a transaction. *)

Create HintDb quiet.

Section rules.
Context (G : relation Db) `{!PreOrder G}.

Lemma wp_mono {E A} (p : Prog E A) (Q Q' : Result A E → Tx → Db → Prop) tx db :
  (∀ r tx db, Q r tx db → Q' r tx db) → wp G p Q tx db → wp G p Q' tx db.
Proof.
  intros HQ. revert tx db. induction p as [r|B st k IH|k IH|k IH|k IH|k IH|k IH|ev k IH|k IH|D g k IH|D g k IH];
    intros tx db; simpl; [apply HQ|..].
  - intros [Hwf H]. split; [done|]. intros d Hd. destruct (H d Hd) as [Hl Hn]. split; [eauto|].
    destruct (effect st (visible tx d)) as [[[b ws] ls]|e]; [|eauto].
    destruct (tx_open tx); [eauto|]. naive_solver.
  - naive_solver.
  - intros H d Hd. destruct (H d Hd) as (? & ? & ? & ?). split_and!; eauto.
  - eauto.
  - eauto.
  - eauto.
  - eauto.
  - eauto.
  - eauto.
  - eauto.
Qed.

(** Whatever is committed while a program runs keeps the guarantee. *)
Lemma wp_rely {E A} (p : Prog E A) (Q : Result A E → Tx → Db → Prop) tx db0 :
  wp G p Q tx db0 → wp G p (λ r tx db, G db0 db ∧ Q r tx db) tx db0.
Proof.
  assert (∀ tx db db1, G db1 db → wp G p Q tx db → wp G p (λ r tx db, G db1 db ∧ Q r tx db) tx db)
    as H; [|by apply H]. clear tx db0.
  induction p as [r|B st k IH|k IH|k IH|k IH|k IH|k IH|ev k IH|k IH|D g k IH|D g k IH];
    intros tx db db1 H1; simpl; [done|..].
  - intros [Hwf H]. split; [done|]. intros d Hd. destruct (H d Hd) as [Hl Hn].
    assert (G db1 d) as H2 by (by etrans; [|apply Hd]). split; [eauto|].
    destruct (effect st (visible tx d)) as [[[b ws] ls]|e]; [|eauto].
    destruct (tx_open tx); [eauto|]. destruct Hn as (HG & ? & ?).
    assert (G db1 (apply_writes ws d)) by (by etrans). eauto.
  - intros [-> H]. split; [done|]. intros d t Hd. destruct (H d t Hd).
    assert (G db1 d) by (by etrans; [|apply Hd]). eauto.
  - intros H d Hd. destruct (H d Hd) as (HG & ? & ? & ?).
    assert (G db1 d) by (by etrans; [|apply Hd]).
    assert (G db1 (visible tx d)) by (by etrans). split_and!; eauto.
  - intros H d Hd. apply IH; [by etrans|auto].
  - eauto.
  - eauto.
  - eauto.
  - eauto.
  - eauto.
  - eauto.
Qed.

Lemma wp_resume {E F A B} (p : Prog E A) (f : Result A E → Prog F B) Q tx db :
  wp G p (λ r tx db, wp G (f r) Q tx db) tx db → wp G (resume p f) Q tx db.
Proof.
  revert tx db. induction p as [r|C st k IH|k IH|k IH|k IH|k IH|k IH|ev k IH|k IH|D g k IH|D g k IH];
    intros tx db; simpl; [done|..].
  - intros [Hwf H]. split; [done|]. intros d Hd. destruct (H d Hd) as [Hl Hn]. split; [eauto|].
    destruct (effect st (visible tx d)) as [[[b ws] ls]|e]; [|eauto].
    destruct (tx_open tx); [eauto|]. naive_solver.
  - naive_solver.
  - intros H d Hd. destruct (H d Hd) as (? & ? & ? & ?). split_and!; eauto.
  - eauto.
  - eauto.
  - eauto.
  - eauto.
  - eauto.
  - eauto.
  - eauto.
Qed.

Lemma wp_bind {E A B} (p : Prog E A) (f : A → Prog E B) Q tx db :
  wp G p (λ r tx db, match r with
                     | Ok a => wp G (f a) Q tx db
                     | Err e => Q (Err e) tx db
                     end) tx db → wp G (p ≫= f) Q tx db.
Proof.
  intros H. apply wp_resume. eapply wp_mono; [|exact H]. by intros [].
Qed.

Lemma wp_map_err {E F A} (f : E → F) (p : Prog E A) Q tx db :
  wp G p (λ r, Q (match r with Ok a => Ok a | Err e => Err (f e) end)) tx db →
  wp G (Steps.map_err f p) Q tx db.
Proof. intros H. apply wp_resume. eapply wp_mono; [|exact H]. done. Qed.

Lemma wp_ok_or {E A} (o : option A) (e : E) (Q : Result A E → Tx → Db → Prop) tx db :
  (∀ a, o = Some a → Q (Ok a) tx db) → (o = None → Q (Err e) tx db) →
  wp G (Steps.ok_or o e) Q tx db.
Proof. destruct o; simpl; auto. Qed.

Lemma wp_throw_if {E} b (e : E) (Q : Result unit E → Tx → Db → Prop) tx db :
  (b = false → Q (Ok tt) tx db) → (b = true → Q (Err e) tx db) →
  wp G (Steps.throw_if b e) Q tx db.
Proof. destruct b; simpl; auto. Qed.

Definition quiet {E A} (p : Prog E A) : Prop :=
  ∀ Q db0, (∀ r db, G db0 db → Q r idle db) → wp G p Q idle db0.

Lemma quiet_safe {E A} (p : Prog E A) db : quiet p → wp G p anything idle db.
Proof. intros Hp. by apply Hp. Qed.

Lemma quiet_resume {E F A B} (p : Prog E A) (f : Result A E → Prog F B) :
  quiet p → (∀ r, quiet (f r)) → quiet (resume p f).
Proof.
  intros Hp Hf Q db0 HQ. apply wp_resume, Hp. intros r db Hdb. apply Hf. intros r' db' Hdb'.
  apply HQ. by etrans.
Qed.

Lemma quiet_return {E A} (r : Result A E) : quiet (Return r).
Proof. intros Q db0 HQ. by apply HQ. Qed.

Lemma quiet_bind {E A B} (p : Prog E A) (f : A → Prog E B) :
  quiet p → (∀ a, quiet (f a)) → quiet (p ≫= f).
Proof. intros Hp Hf. apply quiet_resume; [done|]. intros []; [apply Hf|apply quiet_return]. Qed.

Lemma quiet_map_err {E F A} (f : E → F) (p : Prog E A) : quiet p → quiet (Steps.map_err f p).
Proof. intros Hp. apply quiet_resume; [done|]. intros. apply quiet_return. Qed.

Lemma quiet_best_effort {E F A} (p : Prog E A) :
  quiet p → quiet (Steps.best_effort p : Prog F unit).
Proof. intros Hp. apply quiet_resume; [done|]. intros. apply quiet_return. Qed.

Lemma quiet_ok_or {E A} (o : option A) (e : E) : quiet (Steps.ok_or o e).
Proof. destruct o; apply quiet_return. Qed.

Lemma quiet_throw_if {E} b (e : E) : quiet (Steps.throw_if b e).
Proof. destruct b; apply quiet_return. Qed.

Lemma quiet_new_id {E} : quiet (Steps.new_id : Prog E string).
Proof. intros Q db0 HQ id. by apply HQ. Qed.

Lemma quiet_now {E} : quiet (Steps.now : Prog E DateTime).
Proof. intros Q db0 HQ t _. by apply HQ. Qed.

Lemma quiet_publish {E} ev : quiet (Steps.publish ev : Prog E unit).
Proof. intros Q db0 HQ. by apply HQ. Qed.

Lemma quiet_consult {E A} (f : DncDaemon → Result A E * DncDaemon) : quiet (Steps.consult f).
Proof. intros Q db0 HQ r. by apply HQ. Qed.

Lemma quiet_insert_from t f :
  (∀ r, quiet (Steps.insert t r)) → quiet (Steps.insert_from t f).
Proof. intros H Q db0 HQ r. by apply H. Qed.

Lemma quiet_require_pool : quiet Steps.require_pool.
Proof. intros Q db0 HQ []; by apply HQ. Qed.

Lemma quiet_exec {B} (s : Stmt B) :
  wf_stmt s →
  (∀ db b ws ls, schema_ok db → effect s db = Ok (b, ws, ls) → G db (apply_writes ws db)) →
  quiet (Exec s Return).
Proof.
  intros Hwf HG Q db0 HQ. simpl. split; [done|]. intros db [Hok _ _ Hdb]. split; [by apply HQ|].
  destruct (effect s (visible idle db)) as [[[b ws] ls]|e] eqn:He; [|by apply HQ].
  assert (G db (apply_writes ws db)) as HG' by (by eapply HG).
  split_and!; [done|..]; apply HQ; by etrans.
Qed.

Lemma quiet_select {A} (f : Db → Result A SqlError) : quiet (Steps.select_ f).
Proof.
  apply quiet_exec; [done|]. intros db b ws ls _. simpl. destruct (f db); [|done].
  intros [= <- <- <-]. reflexivity.
Qed.

Lemma quiet_insert t r :
  (∀ db, schema_ok db → check_row t r db = None → G db (apply_write db (Added t r))) →
  quiet (Steps.insert t r).
Proof.
  intros H. apply quiet_exec; [done|]. intros db b ws ls Hok. simpl.
  destruct (check_row t r db) eqn:Hc; [done|]. intros [= <- <- <-]. by apply H.
Qed.

Lemma quiet_update t p f :
  keyed t → harmless t f →
  (∀ db, schema_ok db → G db (set_table t (update_rows p f (db t)) db)) →
  quiet (Steps.update t p f).
Proof.
  intros Hk Hf H. apply quiet_exec; [done|]. intros db b ws ls Hok. simpl.
  destruct (check_update _ _ _ _) eqn:Hc; [done|]. intros [= <- <- <-].
  rewrite update_writes; [by apply H|done..|]. intros r. apply Hf.
Qed.

Lemma quiet_delete t p :
  keyed t → unreferenced t →
  (∀ db, schema_ok db → G db (set_table t (delete_rows p (db t)) db)) →
  quiet (Steps.delete t p).
Proof.
  intros Hk Hu H. apply quiet_exec; [done|]. intros db b ws ls Hok [= <- <- <-].
  rewrite delete_writes by done. by apply H.
Qed.

(** A transaction keeps the guarantee when it commits, and its result is what is promised
    of the database then. *)
Lemma wp_transaction {E A} (lift : SqlError → E) (p : Prog E A) Q db0 :
  (∀ e db, G db0 db → Q (Err e) idle db) →
  (∀ db t, schema_ok db → G db0 db →
     wp G p (λ r tx d, match r with
       | Ok a => ∀ db, admissible G tx d db → G db0 db →
           G db (visible tx db) ∧ Q (Ok a) idle (visible tx db)
       | Err _ => True
       end) (opened t) db) →
  wp G (Steps.transaction lift p) Q idle db0.
Proof.
  intros He Hp. split; [done|]. intros db t [Hok _ _ Hdb]. split; [|by apply He].
  apply wp_resume. eapply wp_mono; [|by apply wp_rely, Hp].
  intros [a|e] tx d [Hd Hc]; simpl in *.
  - intros db' Hadm. pose proof (adm_rely _ _ _ _ Hadm) as Hd'.
    assert (G db0 db') as H0 by (by do 2 (etrans; [done|])).
    destruct (Hc db' Hadm H0) as [HG HQ]. split_and!; [done..|by apply He; etrans|by apply He].
  - intros d' Hd'. apply He. by do 2 (etrans; [done|]).
Qed.

(** What a transaction has to show when it commits. *)
Definition committable {E A} (r : Result A E) (tx : Tx) (db0 : Db) : Prop :=
  match r with
  | Ok _ => ∀ db, admissible G tx db0 db → G db (visible tx db)
  | Err _ => True
  end.

Lemma quiet_transaction {E A} (lift : SqlError → E) (p : Prog E A) :
  (∀ db t, schema_ok db → wp G p committable (opened t) db) → quiet (Steps.transaction lift p).
Proof.
  intros Hp Q db0 HQ. apply wp_transaction; [intros; by apply HQ|]. intros db t Hok _.
  eapply wp_mono; [|by apply Hp]. intros [a|e] tx d Hc; [|done]. intros db' Hadm H0.
  split; [by apply Hc|]. apply HQ. etrans; [done|]. by apply Hc.
Qed.

Lemma quiet_fetch_optional {A} (p : Prog SqlError (list A)) :
  quiet p → quiet (Steps.fetch_optional p).
Proof. intros. apply quiet_bind; [done|]. intros. apply quiet_return. Qed.

Lemma quiet_forM {E A} (l : list A) (f : A → Prog E unit) :
  (∀ a, quiet (f a)) → quiet (Steps.forM_ l f).
Proof. intros Hf. induction l; simpl; [apply quiet_return|by apply quiet_bind]. Qed.

Lemma quiet_mapM {E B C} (f : B → Prog E C) l :
  (∀ b, quiet (f b)) → quiet (Steps.mapM_list f l).
Proof.
  intros Hf. induction l; simpl; [apply quiet_return|].
  apply quiet_bind; [done|intros]. apply quiet_bind; [done|intros]. apply quiet_return.
Qed.

(** *** Inside a transaction *)

Section inside.
Context (tx : Tx) (db0 : Db) (Hopen : tx_open tx = true).

Lemma wp_exec {B} (s : Stmt B) (Q : Result B SqlError → Tx → Db → Prop) :
  wf_stmt s → (∀ e db, Q (Err e) idle db) →
  (∀ db b ws ls, admissible G tx db0 db → effect s (visible tx db) = Ok (b, ws, ls) →
     Q (Ok b) (grow tx ws ls) db) →
  wp G (Exec s Return) Q tx db0.
Proof.
  intros Hwf He Hn. simpl. split; [done|]. intros db Hadm. split; [apply He|].
  destruct (effect s (visible tx db)) as [[[b ws] ls]|e] eqn:E0; [|apply He].
  rewrite Hopen. by eapply Hn.
Qed.

Lemma wp_query {A} (f : Db → A) (Q : Result A SqlError → Tx → Db → Prop) :
  (∀ e db, Q (Err e) idle db) →
  (∀ db, admissible G tx db0 db → Q (Ok (f (visible tx db))) (grow tx [] []) db) →
  wp G (Steps.query f) Q tx db0.
Proof.
  intros He H. apply wp_exec; [done..|]. intros db b ws ls Hadm [= <- <- <-]. by apply H.
Qed.

Lemma wp_insert t r (Q : Result (row t) SqlError → Tx → Db → Prop) :
  (∀ e db, Q (Err e) idle db) →
  (∀ db, admissible G tx db0 db → Q (Ok r) (grow tx [Added t r] []) db) →
  wp G (Steps.insert t r) Q tx db0.
Proof.
  intros He H. apply wp_exec; [done..|]. intros db b ws ls Hadm E0. simpl in E0.
  destruct (check_row _ _ _); [done|]. injection E0 as <- <- <-. by apply H.
Qed.

Lemma wp_insert_or_ignore t c r (Q : Result (option (row t)) SqlError → Tx → Db → Prop) :
  (∀ e db, Q (Err e) idle db) →
  (∀ db, admissible G tx db0 db → Q (Ok (Some r)) (grow tx [Added t r] []) db) →
  (∀ db, admissible G tx db0 db → exists_row (c r) (visible tx db t) = true →
     Q (Ok None) (grow tx [] []) db) →
  wp G (Steps.insert_or_ignore t c r) Q tx db0.
Proof.
  intros He H Hn. apply wp_exec; [done..|]. intros db b ws ls Hadm E0. simpl in E0.
  destruct (exists_row _ _) eqn:Ex; [injection E0 as <- <- <-; by apply Hn|].
  destruct (check_row _ _ _); [done|]. injection E0 as <- <- <-. by apply H.
Qed.

Lemma wp_update t p f (Q : Result (list (row t)) SqlError → Tx → Db → Prop) :
  keyed t → harmless t f → (∀ e db, Q (Err e) idle db) →
  (∀ db rows, admissible G tx db0 db → rows = select p (visible tx db t) →
     Q (Ok (map f rows))
       (grow tx (map (λ r, Changed t (f r)) rows) (map (λ r, (t, key t r)) rows)) db) →
  wp G (Steps.update t p f) Q tx db0.
Proof.
  intros Hk Hf He H. apply wp_exec; [done..|]. intros db b ws ls Hadm E0. simpl in E0.
  destruct (check_update _ _ _ _); [done|]. injection E0 as <- <- <-. by apply H.
Qed.

Lemma wp_delete t p (Q : Result unit SqlError → Tx → Db → Prop) :
  keyed t → unreferenced t → (∀ e db, Q (Err e) idle db) →
  (∀ db rows, admissible G tx db0 db → rows = select p (visible tx db t) →
     Q (Ok tt) (grow tx (map (Removed t) rows) (map (λ r, (t, key t r)) rows)) db) →
  wp G (Steps.delete t p) Q tx db0.
Proof.
  intros Hk Hu He H. apply wp_exec; [done..|]. intros db b ws ls Hadm [= <- <- <-]. by apply H.
Qed.

Lemma wp_for_update t p (Q : Result (list (row t)) SqlError → Tx → Db → Prop) :
  keyed t → (∀ e db, Q (Err e) idle db) →
  (∀ db rows, admissible G tx db0 db → rows = select p (visible tx db t) →
     Q (Ok rows) (grow tx [] (map (λ r, (t, key t r)) rows)) db) →
  wp G (Steps.fetch_for_update t p) Q tx db0.
Proof.
  intros Hk He H. apply wp_exec; [done..|]. intros db b ws ls Hadm E0. simpl in E0.
  injection E0 as <- <- <-. by apply H.
Qed.

Lemma wp_upsert t r merge (Q : Result unit SqlError → Tx → Db → Prop) :
  keyed t → (∀ o, key t (merge o) = key t o) → (∀ e db, Q (Err e) idle db) →
  (∀ db, admissible G tx db0 db → Q (Ok tt) (grow tx [Added t r] []) db) →
  (∀ db old, admissible G tx db0 db →
     first_where (by_id t (key t r)) (visible tx db t) = Some old →
     Q (Ok tt) (grow tx [Changed t (merge old)] [(t, key t old)]) db) →
  wp G (Steps.upsert t r merge) Q tx db0.
Proof.
  intros Hk Hm He Ha Hc. apply wp_exec; [done..|]. intros db b ws ls Hadm E0. simpl in E0.
  destruct (first_where _ _) as [old|] eqn:Eold.
  - destruct (in_range _ _); [simpl in E0|done]. destruct (violated _ _ _ _); [done|].
    destruct (dangling _ _); [done|]. injection E0 as <- <- <-. by apply Hc.
  - destruct (check_row _ _ _); [done|]. injection E0 as <- <- <-. by apply Ha.
Qed.
End inside.

(** A row found by its key and updated is locked: at a later time it is still the same. *)
Lemma update_locked t id f old db1 db db' ls :
  (∀ r, key t (f r) = key t r) → agree ls db1 db → (t, key t old) ∈ ls →
  select (by_id t id) (db1 t) = [old] → db' t = db t →
  select (by_id t id) (db t) = [old] ∧
  apply_write db' (Changed t (f old)) = set_table t (update_rows (by_id t id) f (db t)) db'.
Proof.
  intros Hf Ha Hl Hs E.
  assert (key t old = id) as <-.
  { apply String.eqb_eq, (elem_of_select (by_id t id) (db1 t)). rewrite Hs. left. }
  assert (select (by_id t (key t old)) (db t) = [old]) as Hs' by (by rewrite <- (Ha _ _ Hl)).
  split; [done|]. rewrite <- E. apply change_by_id; [done|by rewrite E].
Qed.
End rules.

#[export] Hint Resolve quiet_return quiet_ok_or quiet_throw_if quiet_new_id quiet_now
  quiet_publish quiet_require_pool : quiet.
#[export] Hint Extern 0 (PreOrder _) => apply _ : quiet.
#[export] Hint Extern 1 (quiet ?G (mret _)) => apply (quiet_return G) : quiet.
#[export] Hint Extern 1 (quiet ?G (Steps.throw _)) => apply (quiet_return G) : quiet.

(** Computes what a program that returns owes. *)
Ltac wp_return := cbn [wp mret Prog_ret].

(** Composes the rules along a program, leaving the statements that write. *)
Ltac hush :=
  repeat lazymatch goal with
  | |- ∀ _, quiet _ _ => intros
  | |- quiet ?G (_ ≫= _) => apply (quiet_bind G)
  | |- quiet ?G (Steps.map_err _ _) => apply (quiet_map_err G)
  | |- quiet ?G (Steps.best_effort _) => apply (quiet_best_effort G)
  | |- quiet ?G (Steps.fetch_optional _) => apply (quiet_fetch_optional G)
  | |- quiet ?G (Steps.forM_ _ _) => apply (quiet_forM G)
  | |- quiet ?G (Steps.mapM_list _ _) => apply (quiet_mapM G)
  | |- quiet ?G (Steps.consult _) => apply (quiet_consult G)
  | |- quiet ?G (Steps.insert_from ?t ?f) => apply (quiet_insert_from G t f)
  | |- quiet ?G (Steps.select_ _) => apply (quiet_select G)
  | |- quiet ?G (Steps.query _) => apply (quiet_select G)
  | |- quiet ?G (Steps.fetch _ _) => apply (quiet_select G)
  | |- quiet _ (if ?b then _ else _) => destruct b
  | |- quiet _ (match ?x with _ => _ end) => destruct x
  | |- quiet _ _ => progress auto with quiet
  end.

(** *** Statements that would do the same again

    Where the writes of a statement are still valid, the statement would write them. *)

Lemma no_conflict_violated t r rows :
  (∀ y, y ∈ rows → ¬ conflicting t r y) → violated 0 (uniques t) r rows = None.
Proof.
  intros H. assert (∀ cs n, (∀ c, c ∈ cs → c ∈ uniques t) → violated n cs r rows = None) as Hcs.
  { induction cs as [|c cs IH]; intros n Hin; simpl; [done|].
    rewrite (proj2 (exists_row_false (c r) rows)); [apply IH; intros; apply Hin; by right|].
    intros y Hy. apply not_true_iff_false. intros E. apply (H y Hy). exists c.
    split; [apply Hin; left|done]. }
  by apply Hcs.
Qed.

Lemma keys_dangling db refs :
  (∀ k, k ∈ refs → key_in db k) → dangling db refs = None.
Proof.
  induction refs as [|[t id] refs IH]; intros H; simpl; [done|].
  pose proof (proj1 (key_in_exists db (t, id)) (H _ ltac:(left))) as E. simpl in E. rewrite E.
  apply IH. intros k Hk. apply H. by right.
Qed.

Lemma valid_check_row t r db : valid_write db (Added t r) → check_row t r db = None.
Proof.
  intros (Hr & Hc & Hf & _). simpl in *. unfold check_row. rewrite Hr. simpl.
  rewrite no_conflict_violated, keys_dangling; [done..|].
  intros y Hy Hn. apply (Hc (existT t y)); [done..|]. by exists t, r, y.
Qed.

Lemma upsert_inserts t r merge db :
  keyed t → valid_write db (Added t r) →
  effect (Upsert t r merge) db = Ok (tt, [Added t r], []).
Proof.
  intros Hk Hv. simpl. rewrite (valid_check_row _ _ _ Hv).
  destruct (first_where _ _) as [old|] eqn:E; [|done]. exfalso.
  apply first_where_Some in E as [Hid Hin]. unfold by_id in Hid. apply String.eqb_eq in Hid.
  apply (proj1 (proj2 Hv) (existT t old)); [done..|].
  apply conflicts_key; [done|]. unfold key_of. simpl. by rewrite Hid.
Qed.

Lemma upsert_replaces t r merge old db :
  (∀ o, key t (merge o) = key t o) → select (by_id t (key t r)) (db t) = [old] →
  valid_write db (Changed t (merge old)) →
  effect (Upsert t r merge) db = Ok (tt, [Changed t (merge old)], [(t, key t old)]).
Proof.
  intros Hm Hs (Hr & Hc & Hf & _). simpl in *. unfold first_where. rewrite Hs. simpl.
  assert (key t old = key t r) as Ek.
  { apply String.eqb_eq, (elem_of_select (by_id t (key t r)) (db t)). rewrite Hs. left. }
  rewrite Hr. simpl. rewrite no_conflict_violated, keys_dangling; [done|..].
  - intros k Hk. unfold new_references in Hk. apply list_elem_of_In, filter_In in Hk as [Hk _].
    apply list_elem_of_In, Hf in Hk. apply (key_in_apply db (Changed t (merge old))) in Hk.
    destruct Hk as [|[? _]]; done.
  - intros y [Hy Hid]%elem_of_delete_rows Hn. unfold by_id in Hid. apply String.eqb_neq in Hid.
    apply (Hc (existT t y)); [done| |by exists t, (merge old), y].
    intros _. unfold key_of. simpl. rewrite Hm. congruence.
Qed.

(** ** Undisturbed programs *)

(** The effect of a statement is what the statement does. *)
Lemma effect_perform {B} (s : Stmt B) w :
  schema_ok (w_db w) → wf_stmt s → w_faults w = [] →
  perform s w =
  match effect s (w_db w) with
  | Ok (b, ws, _) => (Ok b, w <| w_db := apply_writes ws (w_db w) |>)
  | Err e => (Err e, w)
  end.
Proof.
  intros Hok Hwf Hh. assert (tick w = w) as Htick by (destruct w; simpl in *; by subst).
  assert (∀ A (f : Db → Result (A * Db) SqlError), statement f w =
    match f (w_db w) with Ok (a, db) => (Ok a, w <| w_db := db |>) | Err e => (Err e, w) end)
    as Hst.
  { intros A f. unfold statement. by rewrite Hh, Htick. }
  destruct s as [A f|t p|t r|t c r|t p f|t r merge|t p]; simpl in *;
    unfold query, fetch, query, insert, insert_or_ignore, update, upsert, delete; rewrite Hst.
  - destruct (f (w_db w)); [|done]. by destruct w.
  - by destruct w.
  - by destruct (check_row _ _ _).
  - destruct (exists_row _ _); [by destruct w|]. by destruct (check_row _ _ _).
  - destruct Hwf as [Hk Hf]. destruct (check_update _ _ _ _); [done|].
    rewrite update_writes; [done..|]. intros r. apply Hf.
  - destruct Hwf as [Hk Hf]. fold (by_id t (key t r)).
    destruct (first_where (by_id t (key t r)) (w_db w t)) as [old|] eqn:Eold;
      [|by destruct (check_row _ _ _)].
    destruct (in_range _ _); [simpl|done]. destruct (violated _ _ _ _); [done|].
    destruct (dangling _ _); [done|]. rewrite <- (change_by_id t _ merge old); [done..|].
    by apply select_by_id.
  - destruct Hwf as [Hk _]. by rewrite delete_writes.
Qed.

Lemma perform_effect {B} (s : Stmt B) w b ws ls :
  schema_ok (w_db w) → wf_stmt s → w_faults w = [] → effect s (w_db w) = Ok (b, ws, ls) →
  perform s w = (Ok b, w <| w_db := apply_writes ws (w_db w) |>).
Proof. intros Hok Hwf Hh He. rewrite effect_perform by done. by rewrite He. Qed.

Section solo.
Context {env : Env} (G : relation Db) `{!PreOrder G} {A : Type} (request : Prog ApiErr A → Prop).

(** The state in which a program runs alone, from its transaction and the world around it. *)
Definition inside (tx : Tx) (w : World) : option Db * World :=
  (if tx_open tx then Some (w_db w) else None, w <| w_db := visible tx (w_db w) |>).

Lemma inside_idle w : inside idle w = (None, w).
Proof. by destruct w. Qed.

Lemma inside_opened t w : inside (opened t) w = (Some (w_db w), w).
Proof. by destruct w. Qed.

Lemma solo_step p tx w w' p' tx' :
  take_step Through [] w (mkSession p tx) = Some (w', mkSession p' tx') →
  cstep request (mkCluster w [mkSession p tx]) (mkCluster w' [mkSession p' tx']).
Proof. intros H. by apply (step_session request Through 0 (mkSession p tx) w [_] w' _ eq_refl). Qed.

Lemma inside_grown tx ws ls w :
  tx_open tx = true →
  inside (grow tx ws ls) w =
  ((inside tx w).1, (inside tx w).2 <| w_db := apply_writes ws (visible tx (w_db w)) |>).
Proof.
  intros Ho. unfold inside, visible, apply_writes. simpl. by rewrite Ho, foldl_app.
Qed.

Lemma begin_healthy w : w_faults w = [] → begin_ w = (Ok tt, w).
Proof. intros H. unfold begin_, query, statement. rewrite H. destruct w. simpl in *. by subst. Qed.

(** What [solo_run] claims of a session and the world it is in. *)
Definition solo (p : Prog ApiErr A) (tx : Tx) (w : World) : Prop :=
  ∃ r tx' w', rtc (cstep request) (mkCluster w [mkSession p tx])
                (mkCluster w' [mkSession (Return r) tx']) ∧
    alone p (inside tx w) = (r, inside tx' w') ∧ (tx_open tx' = false → tx' = idle).

Lemma solo_via p tx w p' tx' w' :
  take_step Through [] w (mkSession p tx) = Some (w', mkSession p' tx') →
  alone p (inside tx w) = alone p' (inside tx' w') → solo p' tx' w' → solo p tx w.
Proof.
  intros Ha Ealone (r & tx2 & w2 & Hrun & E & Hi). exists r, tx2, w2.
  rewrite Ealone. split; [|done]. eapply rtc_l; [by apply solo_step|done].
Qed.

Lemma rollback_inside tx w :
  (tx_open tx = false → tx = idle) → rollback (inside tx w) = inside idle w.
Proof.
  intros Hi. unfold rollback, inside. simpl. destruct (tx_open tx) eqn:Ho; [done|].
  by rewrite Hi.
Qed.

Lemma solo_statement {B} (st : Stmt B) k tx w :
  schema_ok (w_db w) → valid_writes (w_db w) (tx_writes tx) → w_faults w = [] →
  (tx_open tx = false → tx = idle) → wf_stmt st →
  match effect st (visible tx (w_db w)) with
  | Err e => solo (k (Err e)) idle w
  | Ok (b, ws, ls) =>
      if tx_open tx
      then solo (k (Ok b)) (grow tx ws ls) w
      else solo (k (Ok b)) idle (w <| w_db := apply_writes ws (w_db w) |>)
  end → solo (Exec st k) tx w.
Proof.
  intros Hok Hv Hh Hi Hwf Hn.
  pose proof (effect_perform st (inside tx w).2 (valid_writes_ok _ _ Hok Hv) Hwf Hh) as Hp.
  destruct (effect st (visible tx (w_db w))) as [[[b ws] ls]|e] eqn:He.
  - destruct (tx_open tx) eqn:Ho.
    + eapply solo_via; [unfold take_step; simpl; by rewrite He, Ho| |done].
      rewrite (inside_grown _ _ _ _ Ho). destruct (inside tx w) as [saved w0] eqn:Ei.
      unfold inside in Ei. injection Ei as <- <-. simpl in *. by rewrite Hp, He.
    + rewrite Hi in * by done. change (visible idle (w_db w)) with (w_db w) in *.
      eapply solo_via; [unfold take_step; simpl;
        change (visible idle (w_db w)) with (w_db w); by rewrite He| |done].
      rewrite !inside_idle. rewrite inside_idle in Hp. simpl in *. by rewrite Hp, He.
  - eapply solo_via; [unfold take_step; simpl; by rewrite He| |done].
    rewrite <- (rollback_inside tx w Hi). destruct (inside tx w) as [saved w0] eqn:Ei.
    unfold inside in Ei. injection Ei as <- <-. simpl in *. by rewrite Hp, He.
Qed.

Lemma admissible_now tx db :
  schema_ok db → valid_writes db (tx_writes tx) → admissible G tx db db.
Proof. by intros; split. Qed.

(** A request that no one interferes with runs to its end in a cluster as it does alone. *)
Lemma solo_run p : ∀ tx w,
  schema_ok (w_db w) → valid_writes (w_db w) (tx_writes tx) → w_faults w = [] →
  (tx_open tx = false → tx = idle) → (tx_open tx = true → tx_now tx = w_now w) →
  wp G p anything tx (w_db w) → solo p tx w.
Proof.
  induction p as [r|B st k IH|k IH|k IH|k IH|k IH|k IH|ev k IH|k IH|D g k IH|D g k IH];
    intros tx w Hok Hv Hh Hi Ht0 Hs; simpl in Hs.
  - exists r, tx, w. split; [apply rtc_refl|]. split; [|done]. by destruct (inside tx w).
  - destruct Hs as [Hwf Hs]. destruct (Hs (w_db w)) as [_ Hn]; [by apply admissible_now|].
    apply solo_statement; [done..|].
    destruct (effect st (visible tx (w_db w))) as [[[b ws] ls]|e] eqn:He; [|by apply IH].
    pose proof (effect_lawful _ _ _ _ _ (valid_writes_ok _ _ Hok Hv) Hwf He) as [Lv _ _].
    destruct (tx_open tx) eqn:Ho.
    + apply IH; [done| |done..]. by apply valid_writes_app.
    + rewrite Hi in * by done. apply IH; [|done|done|done|done|apply Hn].
      by apply valid_writes_ok.
  - destruct Hs as [-> Hs]. destruct (Hs (w_db w) (w_now w)) as [Ht _]; [by apply admissible_now|].
    eapply (solo_via _ _ _ (k (Ok tt)) (opened (w_now w)) w); [done| |by apply IH].
    rewrite inside_idle, inside_opened. simpl. rewrite begin_healthy by done. done.
  - destruct (Hs (w_db w)) as (_ & Ht & _); [by apply admissible_now|].
    eapply (solo_via _ _ _ (k (Ok tt)) idle); [done| |apply IH; try done; by apply valid_writes_ok].
    rewrite inside_idle. unfold inside. simpl. by rewrite begin_healthy.
  - eapply (solo_via _ _ _ k idle w); [done| |by apply IH; [..|apply Hs]].
    rewrite <- (rollback_inside tx w Hi). by destruct (inside tx w).
  - eapply solo_via; [done|done|]. by apply IH.
  - eapply (solo_via _ _ _ (k (w_now w)) tx w); [| |apply IH; [done..|]].
    + unfold take_step. simpl. destruct (tx_open tx); [by rewrite Ht0|done].
    + done.
    + apply Hs. intros Ho. by rewrite Ht0.
  - eapply solo_via; [done|done|]. by apply IH.
  - eapply solo_via; [done|done|]. by apply IH.
  - destruct (g (w_dnc w)) as [b d] eqn:Eg.
    eapply (solo_via _ _ _ (k b) tx (w <| w_dnc := d |>)); [| |by apply IH].
    + unfold take_step. simpl. by rewrite Eg.
    + unfold inside. simpl. by rewrite Eg.
  - by eapply (solo_via _ _ _ (k (g (visible tx (w_db w)))) tx w); [| |apply IH].
Qed.
End solo.
