(* ===== verification/Replication.v ===== *)
(** * Plants that push at the same time

    The cloud applies what the plants push one entry at a time, each in a transaction of its
    own that first claims the entry's identifier ([mes-db/src/repo_sync.rs],
    [mes-cloud/src/sync.rs]). Pushes overlap: a plant that has lost its connection sends a
    batch again while the first attempt still runs. Here the push is a program of
    [Concurrency], and concurrent pushes are shown to be serialisable. *)

From S2P Require Import Prelude Schema Sql Integrity Moves Sync Concurrency Isolation Sample.
Import Steps.

(** ** Programs *)

Module Pushing.
Section programs.
Context {env : Env} {sync : SyncEnv}.
Abbreviation Repo := (Prog RepoError).
Abbreviation Api := (Prog ApiErr).

Definition apply_work_order (payload : Json) (plant_id : option string) : Repo unit :=
  wo ← ok_or (wo_payload_of_json payload)
    (InvalidReference (String.append "bad work_order payload: " (serde_error payload)));
  t ← now;
  let new := payload_row wo plant_id t in
  map_err map_sqlx (upsert Work_orders new (merge_work_order new t)).

Definition apply_entry (entry : SyncEntry) (plant_id : option string) : Repo bool :=
  transaction map_sqlx (
    t ← now;
    claimed ← map_err map_sqlx (insert_or_ignore Applied_entries (same ap_id)
      (mkAppliedRow (se_id entry) t));
    match claimed with
    | None => mret false
    | Some _ =>
        (if String.eqb (se_aggregate entry) "work_order"
         then apply_work_order (se_payload entry) plant_id
         else mret tt) ;;
        mret true
    end).

Fixpoint apply_batch_from (applied skipped : nat) (entries : list SyncEntry)
    (plant_id : option string) : Repo (nat * nat) :=
  match entries with
  | [] => mret (applied, skipped)
  | e :: es =>
      b ← apply_entry e plant_id;
      if b : bool then apply_batch_from (S applied) skipped es plant_id
      else apply_batch_from applied (S skipped) es plant_id
  end.

Definition apply_batch (entries : list SyncEntry) (plant_id : option string) :
    Repo (nat * nat) := apply_batch_from 0 0 entries plant_id.

Definition verify_plant_token (plant_id token : string) : Repo bool :=
  row ← map_err map_sqlx (fetch_optional (fetch Plants (by_id Plants plant_id)));
  mret (match row with
        | Some p => bool_decide (pn_enrollment_token_hash p = Some (hash_token token))
        | None => false
        end).

Definition touch_plant_sync (plant_id : string) : Repo unit :=
  t ← now;
  map_err map_sqlx (update Plants (by_id Plants plant_id)
    (λ p, p <| pn_last_sync_at := Some t |> <| pn_updated_at := t |>)) ;;
  mret tt.

Definition require_plant (authorization : option string) (plant_id : string) : Api unit :=
  require_pool ;;
  token ← ok_or (bearer authorization) (err 401 "unauthorized" "missing plant token");
  b ← map_err repo_err (verify_plant_token plant_id token);
  if b : bool then mret tt else throw (err 401 "unauthorized" "invalid plant token").

Definition push (authorization : option string) (plant_id : string)
    (entries : list SyncEntry) : Api (nat * nat) :=
  require_plant authorization plant_id ;;
  throw_if (MAX_BATCH <? Z.of_nat (length entries))
    (err 400 "batch_too_large" "batch exceeds 500 entries") ;;
  require_pool ;;
  res ← map_err repo_err (apply_batch entries (Some plant_id));
  map_err repo_err (touch_plant_sync plant_id) ;;
  mret res.
End programs.
End Pushing.

(** ** Alone, the program is the handler *)

Section alone_push.
Context {env : Env} {sync : SyncEnv}.

Lemma push_plays authorization plant_id entries :
  plays (Pushing.push authorization plant_id entries) (push authorization plant_id entries).
Proof.
  apply plays_outside.
  assert (∀ e, plays_in None (Pushing.apply_entry e (Some plant_id))
    (apply_entry e (Some plant_id))) as He.
  { intros e. unfold Pushing.apply_entry, apply_entry, Pushing.apply_work_order,
      apply_work_order. play. }
  assert (∀ es a s, plays_in None (Pushing.apply_batch_from a s es (Some plant_id))
    (apply_batch_from a s es (Some plant_id))) as Hb.
  { induction es as [|e es IH]; intros a s;
      cbn [Pushing.apply_batch_from apply_batch_from]; play. }
  unfold Pushing.push, push, Pushing.require_plant, require_plant, Pushing.verify_plant_token,
    verify_plant_token, Pushing.apply_batch, apply_batch, Pushing.touch_plant_sync,
    touch_plant_sync. play.
Qed.
End alone_push.

(** ** Serialisation *)

(** The server at a time, with a healthy connection and this database. *)
Definition world_at (db : Db) (t : DateTime) : World :=
  mkWorld db true t 0 [] [] DisconnectedDaemon 0 [].

Section serial.
Context {env : Env} {sync : SyncEnv}.

(** One entry, claimed and applied by a call that nothing interrupts. *)
Definition applies (e : SyncEntry) (plant_id : option string) (db db' : Db) : Prop :=
  ∃ t w', apply_entry e plant_id (world_at db t) = (Ok true, w') ∧ db' = w_db w'.

(** Only what the cloud notes about plants may differ. *)
Definition but_plants (db db' : Db) : Prop := ∀ t, t ≠ Plants → db' t = db t.

(** The entries of a log, applied one after the other. *)
Inductive replays : list (SyncEntry * option string) → Db → Db → Prop :=
  | replays_nil db : replays [] db db
  | replays_plants log db db1 db2 :
      but_plants db db1 → replays log db1 db2 → replays log db db2
  | replays_entry e plant_id log db db1 db2 :
      applies e plant_id db db1 → replays log db1 db2 →
      replays ((e, plant_id) :: log) db db2.

(** A log names each entry once, and none that was applied before. *)
Lemma replays_once log db db' :
  replays log db db' →
  NoDup (map (λ x, se_id x.1) log) ∧
  (∀ id, id ∈ map (λ x, se_id x.1) log → ¬ applied db id) ∧
  (∀ id, applied db' id ↔ applied db id ∨ id ∈ map (λ x, se_id x.1) log).
Proof.
  induction 1 as [db|log db db1 db2 Hp _ (Hd & Hn & Ha)|e p log db db1 db2 Hap _ (Hd & Hn & Ha)].
  - simpl. split_and!; [constructor|by intros ? ?%elem_of_nil|]. intros id.
    rewrite elem_of_nil. tauto.
  - assert (∀ id, applied db1 id ↔ applied db id) as E.
    { intros id. unfold key_exists. by rewrite Hp. }
    split_and!; [done| |].
    + intros id Hin. rewrite <- E. by apply Hn.
    + intros id. by rewrite Ha, E.
  - destruct Hap as (t & w' & Hrun & ->).
    apply apply_entry_cases in Hrun as [[? _]|(_ & Hnew & Happ)]; [done|].
    assert (∀ id, applied (w_db w') id ↔ applied db id ∨ id = se_id e) as E.
    { intros id. unfold key_exists. rewrite Happ. unfold exists_row. rewrite existsb_app. simpl.
      rewrite orb_false_r, orb_true_iff, String.eqb_eq. naive_solver. }
    simpl in Hnew. split_and!; simpl.
    + apply list.NoDup_cons. split; [|done]. intros Hin. apply (Hn _ Hin), E. by right.
    + intros id [->|Hin]%elem_of_cons; [congruence|]. intros Hid. apply (Hn _ Hin), E. by left.
    + intros id. rewrite Ha, E, elem_of_cons. tauto.
Qed.

(** The entries the plants may send, with the plant that sends them. *)
Context (sent : string → list SyncEntry → Prop).

Definition pushed (x : SyncEntry * option string) : Prop :=
  ∃ plant es, sent plant es ∧ x.1 ∈ es ∧ x.2 = Some plant.

Definition serialised (db db' : Db) : Prop := ∃ log, Forall pushed log ∧ replays log db db'.

#[global] Instance serialised_preorder : PreOrder serialised.
Proof.
  split; [intros db; exists []; split; constructor|].
  intros db1 db2 db3 (log1 & P1 & H1) (log2 & P2 & H2). exists (log1 ++ log2).
  split; [by apply Forall_app|]. clear P1.
  induction H1; simpl; [done|eapply replays_plants; eauto|eapply replays_entry; eauto].
Qed.

Lemma applied_kept db db' id : serialised db db' → applied db id → applied db' id.
Proof. intros (log & _ & (_ & _ & Ha)%replays_once) Hid. apply Ha. by left. Qed.

Abbreviation quiet := (quiet serialised).

(** The claim of an entry not applied yet. *)
Lemma claim_effect id t db :
  valid_write db (Added Applied_entries (mkAppliedRow id t)) →
  effect (InsertOrIgnore Applied_entries (same ap_id) (mkAppliedRow id t)) db =
  Ok (Some (mkAppliedRow id t : row Applied_entries),
      [Added Applied_entries (mkAppliedRow id t)], []).
Proof.
  intros Hv.
  assert (exists_row (same ap_id (mkAppliedRow id t)) (db Applied_entries) = false) as Hn.
  { apply exists_row_false. intros y Hy. apply not_true_iff_false. intros E.
    apply (proj1 (proj2 Hv) (existT Applied_entries y)); [done..|].
    exists Applied_entries, (mkAppliedRow id t), y. split_and!; [done..|].
    exists (same ap_id). split; [left|done]. }
  pose proof (valid_check_row _ _ _ Hv) as Hc. unfold effect.
  destruct (exists_row _ _); [done|]. by rewrite Hc.
Qed.

Lemma transaction_healthy {E A} (lift : SqlError → E) (m : M World E A) w a w' :
  w_faults w = [] → w_faults w' = [] → m w = (Ok a, w') →
  Sql.transaction lift m w = (Ok a, w').
Proof.
  intros Hw Hw' Hm. unfold Sql.transaction, enclosed, mbind, M_bind, Prelude.map_err.
  rewrite begin_healthy, Hm by done. change Sql.commit with begin_. by rewrite begin_healthy.
Qed.

(** A call at the time of the commit makes the writes the transaction has made. *)
Lemma applies_writes e plant_id t db ws :
  let claim := Added Applied_entries (mkAppliedRow (se_id e) t) in
  schema_ok db → valid_write db claim →
  (if String.eqb (se_aggregate e) "work_order" then
     ∃ wo ls, wo_payload_of_json (se_payload e) = Some wo ∧
       effect (Upsert Work_orders (payload_row wo plant_id t)
         (merge_work_order (payload_row wo plant_id t) t)) (apply_write db claim) =
       Ok (tt, ws, ls)
   else ws = []) →
  applies e plant_id db (apply_writes ws (apply_write db claim)).
Proof.
  intros claim Hok Hv Hws. exists t.
  pose proof (valid_write_ok _ _ Hok Hv) as Hok1.
  pose proof (perform_effect (InsertOrIgnore Applied_entries (same ap_id) _) (world_at db t)
    _ _ _ Hok I eq_refl (claim_effect _ _ _ Hv)
    : _ = (_, world_at (apply_write db claim) t)) as Hc.
  set (w1 := world_at (apply_write db claim) t) in *.
  exists (world_at (apply_writes ws (apply_write db claim)) t).
  split; [apply transaction_healthy; [done..|]|done].
  unfold mbind at 1, M_bind at 1, gets at 1. change (w_now (world_at db t)) with t.
  unfold mbind at 1, M_bind at 1, Prelude.map_err at 1.
  change (Sql.insert_or_ignore Applied_entries (same ap_id) (mkAppliedRow (se_id e) t)
    (world_at db t) = (Ok (Some (mkAppliedRow (se_id e) t : row Applied_entries)), w1)) in Hc.
  rewrite Hc. destruct (String.eqb (se_aggregate e) "work_order"); [|by subst ws].
  destruct Hws as (wo & ls & Hwo & Heff).
  assert (wf_stmt (Upsert Work_orders (payload_row wo plant_id t)
    (merge_work_order (payload_row wo plant_id t) t))) as Hwf by (split; [left|done]).
  pose proof (perform_effect _ w1 _ _ _ Hok1 Hwf eq_refl Heff) as Hu. simpl perform in Hu.
  unfold apply_work_order, mbind, M_bind, Prelude.map_err, gets. rewrite Hwo.
  cbn [Prelude.ok_or mret M_ret]. change (w_now w1) with t. by rewrite Hu.
Qed.
(** An entry that is claimed and about to commit with these writes of its aggregate. *)
Lemma commit_entry e plant_id t db0 ws ls db :
  let claim := Added Applied_entries (mkAppliedRow (se_id e) t) in
  let tx := mkTx true t (claim :: ws) ls in
  pushed (e, plant_id) →
  (let db1 := apply_write db claim in
    schema_ok db → valid_writes db1 ws → agree ls db0 db →
    if String.eqb (se_aggregate e) "work_order" then
     ∃ wo ls, wo_payload_of_json (se_payload e) = Some wo ∧
       effect (Upsert Work_orders (payload_row wo plant_id t)
         (merge_work_order (payload_row wo plant_id t) t)) db1 = Ok (tt, ws, ls)
   else ws = []) →
  admissible serialised tx db0 db →
  serialised db (visible tx db) ∧ applied (visible tx db) (se_id e).
Proof.
  intros claim tx Hp H [Hok [Hv Hws] Ha _].
  assert (replays [(e, plant_id)] db (visible tx db)) as Hr.
  { eapply replays_entry; [|constructor].
    apply (applies_writes e plant_id t db ws); [done..|]. by apply H. }
  split; [by exists [(e, plant_id)]; split; [repeat constructor|]|].
  apply (replays_once _ _ _ Hr). right. left.
Qed.

(** What a claimed entry owes when it commits. *)
Abbreviation claimed e := (λ (r : Result _ RepoError) tx d, match r with
  | Ok _ => ∀ db, admissible serialised tx d db →
      serialised db (visible tx db) ∧ applied (visible tx db) (se_id e)
  | Err _ => True
  end).

Lemma wp_apply_work_order e plant_id t db0 :
  pushed (e, plant_id) → String.eqb (se_aggregate e) "work_order" = true →
  wp serialised (Pushing.apply_work_order (se_payload e) plant_id) (claimed e)
    (grow (opened t) [Added Applied_entries (mkAppliedRow (se_id e) t)] []) db0.
Proof.
  intros Hp Ea. apply wp_bind, wp_ok_or; [|done]. intros wo Hwo.
  apply wp_bind. intros t' Ht. rewrite (Ht eq_refl : t' = t) in *. clear t' Ht. wp_return.
  set (new := payload_row wo plant_id t). set (claim := Added Applied_entries _).
  apply wp_map_err, wp_upsert; [done|left|done..| |].
  - intros db Hadm d. apply (commit_entry e plant_id t db [Added Work_orders new] []); [done|].
    intros d1 _ [Hv _] _. rewrite Ea. exists wo, []. split; [done|].
    by apply upsert_inserts; [left|].
  - intros db old [Hok [Hv _] _ _] Hold%select_by_id; [|by apply valid_write_ok|left].
    intros d. apply (commit_entry e plant_id t db
      [Changed Work_orders (merge_work_order new t old)] [(Work_orders, key Work_orders old)]);
      [done|].
    intros d1 Hokd [Hvd _] Ha. rewrite Ea. exists wo. eexists. split; [done|].
    apply upsert_replaces; [done| |done].
    assert (key Work_orders old = key Work_orders new) as Ek.
    { apply String.eqb_eq, (elem_of_select (by_id Work_orders (key Work_orders new))
        (visible (grow (opened t) [claim] []) db Work_orders)). rewrite Hold. left. }
    change (select (by_id Work_orders (key Work_orders new)) (d Work_orders) = [old]).
    rewrite <- Hold, <- Ek. symmetry. apply (Ha Work_orders). left.
Qed.

(** Every commit of an entry's transaction is the entry applied by itself, and a call that
    succeeds leaves the entry applied, by whomever. *)
Lemma wp_apply_entry e plant_id (Q : Result bool RepoError → Tx → Db → Prop) db0 :
  pushed (e, plant_id) → (∀ err db, serialised db0 db → Q (Err err) idle db) →
  (∀ b db, serialised db0 db → applied db (se_id e) → Q (Ok b) idle db) →
  wp serialised (Pushing.apply_entry e plant_id) Q idle db0.
Proof.
  intros Hp He Hq. apply wp_transaction; [apply _|done|]. intros d0 t Hok0 Hd0.
  eapply (wp_mono _ _ (claimed e)).
  { intros [b|err] tx d Hc; [|done]. intros db Hadm H0. destruct (Hc db Hadm).
    split; [done|]. apply Hq; [by etrans|done]. }
  apply wp_bind. intros t' Ht. rewrite (Ht eq_refl : t' = t). clear t' Ht. wp_return.
  apply wp_bind, wp_map_err, wp_insert_or_ignore; [done..| |].
  - intros db Hadm. apply wp_bind. destruct (String.eqb (se_aggregate e) "work_order") eqn:Ea.
    + eapply wp_mono; [|by apply wp_apply_work_order]. by intros [] tx d.
    + intros d. apply (commit_entry e plant_id t db [] []); [done|]. by rewrite Ea.
  - intros db _ Hx d [_ _ _ Hd]. split; [done|]. eapply applied_kept; [exact Hd|].
    apply key_exists_true. apply exists_row_true in Hx as (y & Hy & E). exists y.
    split; [done|]. by apply bool_decide_eq_true in E.
Qed.

Lemma wp_apply_batch es plant_id (Q : Result (nat * nat) RepoError → Tx → Db → Prop) a s db0 :
  Forall (λ e, pushed (e, plant_id)) es →
  (∀ err db, serialised db0 db → Q (Err err) idle db) →
  (∀ a' s' db, serialised db0 db → (a' + s' = a + s + length es)%nat →
     Forall (λ e, applied db (se_id e)) es → Q (Ok (a', s')) idle db) →
  wp serialised (Pushing.apply_batch_from a s es plant_id) Q idle db0.
Proof.
  intros Hes. revert a s db0. induction Hes as [|e es He _ IH]; intros a s db0 Herr Hq;
    cbn [Pushing.apply_batch_from].
  { apply Hq; [done|simpl; lia|constructor]. }
  apply wp_bind, wp_apply_entry; [done..|]. intros b db Hdb Hap.
  assert (∀ err d, serialised db d → Q (Err err) idle d) by (intros; apply Herr; by etrans).
  destruct b; (apply IH; [done|]); intros a' s' d Hd El Hall;
    (apply Hq; [by etrans|simpl; lia|]); constructor; eauto using applied_kept.
Qed.

Lemma quiet_touch_plant plant_id : quiet (Pushing.touch_plant_sync plant_id).
Proof.
  unfold Pushing.touch_plant_sync. hush.
  apply (quiet_update serialised Plants); [left|is_harmless|]. intros db _. exists [].
  split; [constructor|]. eapply replays_plants; [|constructor].
  intros t Ht. by apply set_table_ne.
Qed.

Lemma quiet_require_plant authorization plant_id :
  quiet (Pushing.require_plant authorization plant_id).
Proof. unfold Pushing.require_plant, Pushing.verify_plant_token. hush. Qed.

(** What an answered push has done: every entry is applied, and counted once. *)
Definition accounted (r : Result (list SyncEntry * (nat * nat)) ApiErr) (db : Db) : Prop :=
  match r with
  | Ok (es, (a, s)) => Forall (λ e, applied db (se_id e)) es ∧ (a + s = length es)%nat
  | Err _ => True
  end.

(** The pushes under way, each answering with its batch and the counts. *)
Definition pushing (p : Prog ApiErr (list SyncEntry * (nat * nat))) : Prop :=
  ∃ authorization plant es, sent plant es ∧
    p = (res ← Pushing.push authorization plant es; mret (es, res)).

Lemma wp_push p db0 : pushing p → wp serialised p (λ r _ db, accounted r db) idle db0.
Proof.
  intros (authorization & plant & es & Hs & ->). apply wp_bind. unfold Pushing.push.
  apply wp_bind, quiet_require_plant. intros [[]|] d1 _; [|done].
  apply wp_bind, wp_throw_if; [intros _|done].
  apply wp_bind, (quiet_require_pool serialised). intros [[]|] d2 _; [|done].
  apply wp_bind, wp_map_err, wp_apply_batch; [|done|].
  { apply Forall_forall. intros e He%list_elem_of_In. by exists plant, es. }
  intros a s d3 _ El Hall. apply wp_bind, wp_map_err, quiet_touch_plant.
  intros [[]|] d4 Hd; [|done]. split; [|by rewrite El].
  eapply Forall_impl; [|exact Hall]. intros e. by apply applied_kept.
Qed.
End serial.

(** ** Properties *)

(** C19. Any number of pushes may run at the cloud at the same time, of different plants, of
    overlapping batches, or of the same batch again, and any of them may lose its connection
    at any point, before or after the server has acted. Whatever is committed is what one
    run of [apply_entry] after the other makes of the database, for some order of pushed
    entries, each in the name of the plant that pushed it (the plants' own rows apart,
    where the time of the last contact is noted); no entry is applied twice, and none that
    had been applied before; and a push that is answered with success has accounted for each
    of its entries, all of which are applied. *)
Theorem concurrent_pushes_serialise {env : Env} {sync : SyncEnv}
    (sent : string → list SyncEntry → Prop) w c :
  schema_ok (w_db w) → rtc (cstep (pushing sent)) (mkCluster w []) c →
  let db := w_db w in
  let db' := w_db (c_world c) in
  schema_ok db' ∧
  (∃ log, replays log db db' ∧ Forall (pushed sent) log ∧
     NoDup (map (λ x, se_id x.1) log) ∧ Forall (λ x, ¬ applied db (se_id x.1)) log) ∧
  ∀ es a s, Some (Ok (es, (a, s))) ∈ answers c →
    (a + s = length es)%nat ∧ ∀ e, e ∈ es → applied db' (se_id e).
Proof.
  intros Hok Hrun.
  destruct (cluster_sound (serialised sent) accounted (pushing sent)) with
    (c := mkCluster (A := list SyncEntry * (nat * nat)) w []) (c' := c)
    as [Hc (log & Hlog & Hr)]; [|by apply cluster_ok_empty|done|].
  - intros p Hp db. by apply wp_push.
  - destruct (replays_once _ _ _ Hr) as (Hd & Hn & _). split_and!; [by eapply co_db| |].
    + exists log. split_and!; [done..|]. apply Forall_forall. intros x Hx%list_elem_of_In.
      by apply Hn, (list_elem_of_fmap_2 (λ x : SyncEntry * option string, se_id x.1)).
    + intros es a s Ha. apply (answers_kept (serialised sent) accounted c) in Ha as [Hall El];
        [|intros [[es0 [a0 s0]]|] d d' Hd' H|done].
      * split; [done|]. intros e He. rewrite Forall_forall in Hall. by apply Hall, list_elem_of_In.
      * destruct H as [H E]. split; [|done]. eapply Forall_impl; [|exact H].
        intros e. by apply (applied_kept sent).
      * done.
Qed.

(** ** Runs *)

(** Plant A sends a batch, and sends it again before it has an answer. *)
Definition retry : Prog ApiErr (list SyncEntry * (nat * nat)) :=
  res ← @Pushing.push sample_env sample_sync (Some "Bearer tokA"%string) "pA" good_batch;
  mret (good_batch, res).

Definition from_plant_a (plant : string) (es : list SyncEntry) : Prop :=
  plant = "pA"%string ∧ es = good_batch.

(** The counts the sessions have answered with. *)
Definition counts (c : Cluster (list SyncEntry * (nat * nat))) : list (option (nat * nat)) :=
  map (λ o, match o with Some (Ok (_, n)) => Some n | _ => None end) (answers c).

(** The second claim of an entry waits for the first to end. *)
Example second_claim_waits :
  match @play_schedule sample_env _ [0;0;0;0;0;0;1;1;1;1;1]%nat (waiting [retry; retry] cloud) with
  | Some c => @play_schedule sample_env _ [1]%nat c = None
  | None => False
  end.
Proof. vm_compute. reflexivity. Qed.

(** Each of the attempts applies an entry the other then skips. *)
Lemma concurrent_pushes_serialise_witness :
  ∃ c c', rtc (@cstep sample_env _ (@pushing sample_env sample_sync from_plant_a))
      (mkCluster cloud []) c ∧
    rtc (@cstep sample_env _ (@pushing sample_env sample_sync from_plant_a)) c c' ∧
    (counts c' = [Some (1, 2)%nat; Some (1, 2)%nat] ∧
     map ap_id (w_db (c_world c') Applied_entries) = ["x1"; "x2"]%string) ∧
    ∃ log, @replays sample_env sample_sync log (w_db cloud) (w_db (c_world c')).
Proof.
  assert (Forall (@pushing sample_env sample_sync from_plant_a) [retry; retry]) as Hps.
  { assert (@pushing sample_env sample_sync from_plant_a retry) as Hp.
    { exists (Some "Bearer tokA"%string), "pA"%string, good_batch. by split. }
    auto. }
  destruct (run_schedules (env := sample_env) _ _ cloud [0;0;0;0;0;0;1;1;1;1;1]%nat
    [0;0;0;1;1;1;1;1;0;0;1;0;0;0;0;0;0;0;0;1;1;1;1;1;1]%nat (λ _ c',
    counts c' = [Some (1, 2)%nat; Some (1, 2)%nat] ∧
    map ap_id (w_db (c_world c') Applied_entries) = ["x1"; "x2"]%string) Hps)
    as (c & c' & H1 & H2 & HP); [vm_compute; reflexivity|].
  exists c, c'. split; [exact H1|]. split; [exact H2|]. split; [exact HP|].
  assert (rtc (@cstep sample_env _ (@pushing sample_env sample_sync from_plant_a))
    (mkCluster cloud []) c') as H by (etrans; [exact H1|exact H2]).
  assert (schema_ok (w_db cloud)) as Hok by (apply schema_ok_decide; vm_compute; reflexivity).
  destruct (@concurrent_pushes_serialise sample_env sample_sync from_plant_a cloud c' Hok H)
    as (_ & (log & Hlog & _) & _).
  exists log. exact Hlog.
Defined.
