(* ===== verification/System.v ===== *)
(** * The shop floor as a whole

    Every request that writes, of the execution, ingestion, DNC, traceability, quality and
    maintenance components, as one step of a transition system over the shared database
    ([Server] adds the administration of master data, the ERP connectors and the cloud).
    Between two
    requests the clock, the connection, the daemon and the identifier source may change in
    any way; what holds of every reachable database is proved from what each component
    guarantees of its own requests. *)

From S2P Require Import Prelude Lifecycle Schema Sql Cascade Integrity Sample Moves Ingest Metrics Orders Dnc.
From S2P Require Import Sync Exec Trace Qms Cmms.

(** ** Requests *)

Inductive request :=
  | CreateOrder (input : WorkOrderInput)
  | ReleaseOrder (id : string)
  | CancelOrder (id : string)
  | CloseOrder (id : string)
  | StartOp (op_id : string)
  | RecordCount (op_id : string) (input : CountInput)
  | CompleteOp (op_id : string)
  | CompleteWo (id : string)
  | ClassifyDowntime (id reason_id : string)
  | SplitDowntime (id : string) (input : SplitDowntimeInput)
  | IngestSignals (signals : list RawSignal)
  | Recompute (work_center_id : string) (start end_ : DateTime)
  | ManualTransfer (input : ManualTransferInput)
  | RetryTransfer (id : string)
  | PromoteRevision (id : string)
  | RejectRevision (id : string)
  | InjectDaemonEvent (event : DncEvent)
  | CreateLot (input : LotInput)
  | CreateSerial (input : SerialInput)
  | AddGenealogy (input : GenealogyEdgeInput)
  | IssueMaterial (input : IssueMaterialInput)
  | PlaceHold (input : HoldInput)
  | ReleaseHold (id : string)
  | CreatePlan (input : PlanInput)
  | CreateCharacteristic (input : CharacteristicInput)
  | RecordResult (input : ResultInput)
  | DispositionNcr (id disposition : string) (reason : option string)
  | CreatePmSchedule (input : PmScheduleInput)
  | CreateMaintenanceWo (input : MaintenanceWoInput)
  | TransitionMaintenanceWo (id : string) (input : MaintenanceTransitionInput)
  | CreateSparePart (input : SparePartInput)
  | RecordSpareTxn (input : SpareTxnInput)
  | CreateProcurementRequest (spare_part_id : string) (qty_requested : Decimal).

Section system.
Context {env : Env} {cmms : CmmsEnv}.

(** The routing of the write endpoints to their handlers. *)
Definition handle (auth : AuthUser) (r : request) : M World ApiErr unit :=
  match r with
  | CreateOrder input => ignore (create_order auth input)
  | ReleaseOrder id => ignore (release_order auth id)
  | CancelOrder id => ignore (cancel_order auth id)
  | CloseOrder id => ignore (close_order auth id)
  | StartOp op_id => ignore (start_op auth op_id)
  | RecordCount op_id input => ignore (record_count_endpoint auth op_id input)
  | CompleteOp op_id => ignore (complete_op auth op_id)
  | CompleteWo id => ignore (complete_wo auth id)
  | ClassifyDowntime id reason => ignore (classify_downtime_endpoint auth id reason)
  | SplitDowntime id input => ignore (split_downtime_endpoint auth id input)
  | IngestSignals signals => ignore (ingest_signals auth signals)
  | Recompute wc start end_ => ignore (recompute auth wc start end_)
  | ManualTransfer input => ignore (manual_transfer auth input)
  | RetryTransfer id => ignore (retry_transfer auth id)
  | PromoteRevision id => ignore (promote_revision auth id)
  | RejectRevision id => ignore (reject_revision auth id)
  | InjectDaemonEvent event => ignore (inject_daemon_event auth event)
  | CreateLot input => ignore (create_lot_endpoint auth input)
  | CreateSerial input => ignore (create_serial_endpoint auth input)
  | AddGenealogy input => ignore (add_genealogy_endpoint auth input)
  | IssueMaterial input => ignore (issue_material_endpoint auth input)
  | PlaceHold input => ignore (place_hold_endpoint auth input)
  | ReleaseHold id => ignore (release_hold_endpoint auth id)
  | CreatePlan input => ignore (create_plan_endpoint auth input)
  | CreateCharacteristic input => ignore (create_characteristic_endpoint auth input)
  | RecordResult input => ignore (record_result_endpoint auth input)
  | DispositionNcr id d reason => ignore (disposition_ncr_endpoint auth id d reason)
  | CreatePmSchedule input => ignore (create_pm_schedule_endpoint auth input)
  | CreateMaintenanceWo input => ignore (create_maintenance_wo_endpoint auth input)
  | TransitionMaintenanceWo id input => ignore (transition_maintenance_wo_endpoint auth id input)
  | CreateSparePart input => ignore (create_spare_part_endpoint auth input)
  | RecordSpareTxn input => ignore (record_spare_txn_endpoint auth input)
  | CreateProcurementRequest id qty => ignore (create_procurement_request_endpoint auth id qty)
  end.

(** One request, served in any world that has the database of the one before. *)
Inductive step : relation World :=
  | step_request auth r w w1 : w_db w1 = w_db w → step w (handle auth r w1).2.

(** Requests served one after the other. *)
Definition serve (auth : AuthUser) (rs : list request) (w : World) : World :=
  foldl (λ w r, (handle auth r w).2) w rs.

Lemma serve_reachable auth rs w : rtc step w (serve auth rs w).
Proof.
  revert w. induction rs as [|r rs IH]; intros w; simpl; [reflexivity|].
  eapply rtc_l; [by apply (step_request auth r w w)|apply IH].
Qed.
End system.

(** ** Frames: the tables a request may write *)

(** Nothing outside the tables [ts] has changed. *)
Definition outside (ts : list table) : relation World :=
  λ w w', ∀ t, t ∉ ts → w_db w' t = w_db w t.

#[global] Instance outside_preorder ts : PreOrder (outside ts).
Proof.
  split; [by intros w t|]. intros w1 w2 w3 H12 H23 t Ht. by rewrite H23, H12.
Qed.

Section frames.
Context (ts : list table).
Abbreviation within m := (evolves (outside ts) m).

Lemma within_reads {E A} (m : M World E A) : reads m → within m.
Proof. intros H w t _. specialize (H w). unfold same_db in H. by rewrite H. Qed.

Lemma within_statement t {A} (f : Db → Result (A * Db) SqlError) :
  t ∈ ts → (∀ db a db', f db = Ok (a, db') → ∀ t', t' ≠ t → db' t' = db t') →
  within (statement f).
Proof.
  intros Hin Hf w t' Ht'. unfold state_after, statement. case_match; [done|].
  destruct (f (w_db w)) as [[a db]|] eqn:E; [|done]. simpl.
  eapply Hf; [done|]. by intros ->.
Qed.

Lemma within_insert t r : t ∈ ts → within (insert t r).
Proof.
  intros Hin. eapply within_statement; [done|]. intros db a db' H t' Ht'.
  case_match; simplify_eq. by apply set_table_ne.
Qed.

Lemma within_insert_or_ignore t c r : t ∈ ts → within (insert_or_ignore t c r).
Proof.
  intros Hin. eapply within_statement; [done|]. intros db a db' H t' Ht'.
  repeat case_match; simplify_eq; [done|]. by apply set_table_ne.
Qed.

Lemma within_update t p f : t ∈ ts → within (update t p f).
Proof.
  intros Hin. eapply within_statement; [done|]. intros db a db' H t' Ht'.
  case_match; simplify_eq. by apply set_table_ne.
Qed.

Lemma within_delete t p : t ∈ ts → within (delete t p).
Proof.
  intros Hin. eapply within_statement; [done|]. intros db a db' H t' Ht'.
  simplify_eq. by apply set_table_ne.
Qed.

Lemma within_query {A} (f : Db → A) : within (query f).
Proof. apply within_reads, reads_query. Qed.

Lemma within_fetch_optional {A} (m : M World SqlError (list A)) :
  within m → within (fetch_optional m).
Proof. intros Hm. unfold fetch_optional. evolve. Qed.

Lemma within_fetch_one {A} (m : M World SqlError (list A)) : within m → within (fetch_one m).
Proof. intros Hm. unfold fetch_one. evolve. Qed.

Lemma within_transaction {E A} (lift : SqlError → E) (m : M World E A) :
  within m → within (transaction lift m).
Proof.
  intros Hm w t Ht. unfold state_after, transaction.
  assert (within (enclosed lift m)) as Hall.
  { pose proof @within_query. unfold enclosed, begin_, commit. evolve. }
  specialize (Hall w t Ht). unfold state_after in Hall.
  by destruct (enclosed lift m w) as [[a|e] w'].
Qed.

Lemma within_require_pool : within require_pool.
Proof. apply within_reads, reads_require_pool. Qed.

Lemma within_new_id {env : Env} {E} : within (new_id : M World E string).
Proof. by apply within_reads. Qed.

Lemma within_publish {E} ev : within (publish ev : M World E unit).
Proof. by apply within_reads. Qed.

Lemma within_get_by_id {env : Env} t id : within (get_by_id t id).
Proof. apply within_reads, reads_get_by_id. Qed.

Lemma within_update_by_id {env : Env} t id f : t ∈ ts → within (update_by_id t id f).
Proof.
  intros Hin. unfold update_by_id. pose proof (within_update t (by_id t id) f Hin).
  pose proof @within_fetch_optional. evolve.
Qed.

Lemma within_audit {env : Env} {E} a b c d e :
  Audit_log ∈ ts → within (audit a b c d e : M World E unit).
Proof.
  intros Hin. unfold audit, insert_audit. pose proof @within_new_id.
  pose proof (λ r, within_insert Audit_log r Hin). evolve.
Qed.
End frames.

#[export] Hint Resolve within_query within_fetch_optional within_fetch_one
  within_transaction within_require_pool within_new_id within_publish within_get_by_id
  : evolves.
#[export] Hint Extern 1 (evolves (outside _) (fetch _ _)) => apply within_query : evolves.
#[export] Hint Extern 1 (evolves (outside ?ts) (get_by_id ?t ?id)) =>
  exact (within_get_by_id ts t id) : evolves.

(** Membership in a literal list of tables. *)
Ltac in_tables := first [left | right; in_tables].

#[export] Hint Extern 1 (evolves (outside _) (insert _ _)) =>
  apply within_insert; in_tables : evolves.
#[export] Hint Extern 1 (evolves (outside _) (insert_or_ignore _ _ _)) =>
  apply within_insert_or_ignore; in_tables : evolves.
#[export] Hint Extern 1 (evolves (outside _) (update _ _ _)) =>
  apply within_update; in_tables : evolves.
#[export] Hint Extern 1 (evolves (outside _) (delete _ _)) =>
  apply within_delete; in_tables : evolves.
#[export] Hint Extern 1 (evolves (outside _) (update_by_id _ _ _)) =>
  apply within_update_by_id; in_tables : evolves.
#[export] Hint Extern 1 (evolves (outside _) (audit _ _ _ _ _)) =>
  apply within_audit; in_tables : evolves.

(** Follows the body of a handler, call by call. *)
Ltac frame_step :=
  lazymatch goal with
  | |- ∀ _, _ => intros ?
  | |- evolves _ (mbind _ _) => apply evolves_bind; [typeclasses eauto| |]
  | |- evolves _ (map_err _ _) => apply evolves_map_err
  | |- evolves _ (best_effort _) => apply evolves_best_effort
  | |- evolves _ (match ?x with _ => _ end) => destruct x
  | |- evolves _ (forM_ _ _) => apply evolves_forM; [typeclasses eauto|]
  | |- evolves _ (mapM_list _ _) => apply evolves_mapM; [typeclasses eauto|]
  | |- evolves _ (transaction _ _) =>
      first [apply within_transaction | apply typed_transaction
            | apply evolves_transaction; [typeclasses eauto|]]
  | |- evolves _ (fetch_optional _) =>
      first [apply within_fetch_optional | apply typed_fetch_optional
            | apply evolves_fetch_optional; [typeclasses eauto|]]
  | |- evolves _ (fetch_one _) =>
      first [apply within_fetch_one | apply typed_fetch_one
            | apply evolves_fetch_one; [typeclasses eauto|]]
  | |- evolves (on_table ?T ?R) (get_by_id ?t ?id) => exact (evolves_get_by_id T R t id)
  | |- _ => solve [eauto 2 with evolves]
  end.
Ltac frame := repeat frame_step.

(** The tables a request may write. *)
Definition footprint (r : request) : list table :=
  match r with
  | CreateOrder _ => [Work_orders; Wo_operations; Outbox; Audit_log]
  | ReleaseOrder _ | CancelOrder _ | CloseOrder _ | CompleteWo _ => [Work_orders; Audit_log]
  | StartOp _ => [Wo_operations; Work_orders; Audit_log]
  | RecordCount _ _ => [Production_counts; Wo_operations]
  | CompleteOp _ => [Wo_operations; Audit_log; Dnc_transfer_events]
  | ClassifyDowntime _ _ | SplitDowntime _ _ => [Downtime_events]
  | IngestSignals _ => [Machine_events; Production_counts]
  | Recompute _ _ _ => [Machine_states; Downtime_events]
  | ManualTransfer _ | RetryTransfer _ => [Dnc_transfer_events]
  | PromoteRevision _ | RejectRevision _ => [Program_revisions; Audit_log]
  | InjectDaemonEvent _ => [Dnc_transfer_events; Program_revisions]
  | CreateLot _ => [Lots]
  | CreateSerial _ => [Serials]
  | AddGenealogy _ => [Genealogy]
  | IssueMaterial _ => [Material_txns]
  | PlaceHold _ => [Holds; Audit_log]
  | ReleaseHold _ => [Holds]
  | CreatePlan _ => [Inspection_plans]
  | CreateCharacteristic _ => [Characteristics]
  | RecordResult _ => [Inspection_results; Ncrs; Holds; Audit_log]
  | DispositionNcr _ _ _ => [Ncrs; Holds; Audit_log]
  | CreatePmSchedule _ => [Pm_schedules; Audit_log]
  | CreateMaintenanceWo _ | TransitionMaintenanceWo _ _ =>
      [Maintenance_work_orders; Audit_log]
  | CreateSparePart _ => [Spare_parts]
  | RecordSpareTxn _ => [Spare_txns; Procurement_requests]
  | CreateProcurementRequest _ _ => [Procurement_requests; Audit_log]
  end.

(** Unfolds the handlers and the repository functions they call down to statements. *)
Ltac open_handlers :=
  unfold ignore,
    create_order, release_order, cancel_order, close_order, complete_wo, transition_wo,
    master_writer, create_work_order, insert_operation, enqueue, get_work_order,
    set_work_order_status, start_op, parse_op_status, get_operation, start_operation,
    record_count_endpoint, record_count, complete_op, complete_operation,
    classify_downtime_endpoint, classify_downtime, split_downtime_endpoint, split_downtime,
    get_downtime_event, publish_reason, ingest_signals, recompute, recompute_states,
    fetch_cycle_pulses, fetch_planned_intervals, replace_derived, insert_state,
    insert_downtime, manual_transfer, retry_transfer, program_dispatch_info, get_transfer,
    schedule_transfer, create_transfer, promote_revision, reject_revision,
    transition_revision, get_revision, set_revision_status, inject_daemon_event,
    handle_daemon_event, find_open_transfer_by_ref, set_transfer_status,
    find_program_id_by_identifier, create_lot_endpoint, create_lot, create_serial_endpoint,
    create_serial, add_genealogy_endpoint, add_genealogy, issue_material_endpoint,
    issue_material, check_not_held, is_held, place_hold_endpoint, place_hold,
    release_hold_endpoint, release_hold, require_quality, create_plan_endpoint, create_plan,
    create_characteristic_endpoint, create_characteristic, record_result_endpoint,
    record_result, raise_ncr, auto_hold, disposition_ncr_endpoint, disposition_ncr,
    require_maintenance, create_pm_schedule_endpoint, create_pm_schedule,
    work_center_run_hours, create_maintenance_wo_endpoint, create_maintenance_wo,
    transition_maintenance_wo_endpoint, transition_maintenance_wo,
    create_spare_part_endpoint, create_spare_part, record_spare_txn_endpoint,
    record_spare_txn, create_procurement_request_endpoint, create_procurement_request;
  unfold transition_wo, get_work_order, get_operation, set_work_order_status.

Section footprints.
Context {env : Env} {cmms : CmmsEnv}.

Lemma within_dnc_send ts cmd : evolves (outside ts) (dnc_send cmd).
Proof.
  apply within_reads. intros w. unfold same_db, state_after, dnc_send.
  by destruct (daemon_send _ _).
Qed.

Lemma within_on_job_complete ts id :
  Dnc_transfer_events ∈ ts → evolves (outside ts) (on_job_complete id).
Proof.
  intros Hin w t Ht. destruct (on_job_complete_appends id w) as (rows & _ & _ & Hf).
  apply Hf. by intros ->.
Qed.

Lemma within_publish_oee_snapshot ts wc : evolves (outside ts) (publish_oee_snapshot wc).
Proof. apply within_reads, reads_publish_oee_snapshot. Qed.

Lemma within_draw ts states : evolves (outside ts) (draw_downtime_events states).
Proof. by apply within_reads. Qed.

Lemma within_create_draft_revision ts program source content by_ :
  Program_revisions ∈ ts →
  evolves (outside ts) (create_draft_revision program source content by_).
Proof.
  intros Hin. unfold create_draft_revision. do 2 (frame_step; [frame|intros ?]).
  apply evolves_map_err, (within_statement _ Program_revisions); [done|].
  intros db x db' H t Ht. cbv zeta in H. case_match; simplify_eq. by apply set_table_ne.
Qed.

#[local] Hint Resolve within_dnc_send within_publish_oee_snapshot within_draw : evolves.
#[local] Hint Extern 1 (evolves (outside _) (create_draft_revision _ _ _ _)) =>
  apply within_create_draft_revision; in_tables : evolves.
#[local] Hint Extern 1 (evolves (outside _) (on_job_complete _)) =>
  apply within_on_job_complete; in_tables : evolves.

Lemma within_ingest_loop signals cache acc :
  evolves (outside [Machine_events; Production_counts]) (ingest_loop signals cache acc).
Proof.
  revert cache acc. induction signals as [|sig signals IH]; intros cache acc; simpl; [evolve|].
  apply evolves_bind; [apply _| |].
  - unfold cached_source, resolve_source. evolve.
  - intros [s cache']. unfold store_signal, insert_machine_event, insert_production_count.
    evolve.
Qed.
#[local] Hint Resolve within_ingest_loop : evolves.

Lemma handle_within auth r : evolves (outside (footprint r)) (handle auth r).
Proof.
  destruct r; simpl; open_handlers; frame.
Qed.
End footprints.

(** ** Integrity *)

Section integrity.
Context {env : Env} {cmms : CmmsEnv}.

Lemma typed_dnc_send cmd : typed (dnc_send cmd).
Proof.
  apply typed_reads. intros w. unfold same_db, state_after, dnc_send.
  by destruct (daemon_send _ _).
Qed.

Lemma typed_create_draft_revision program source content by_ :
  typed (create_draft_revision program source content by_).
Proof.
  unfold create_draft_revision. do 2 (frame_step; [frame|intros ?]).
  apply evolves_map_err, typed_statement. intros db x db' H. cbv zeta in H.
  case_match; simplify_eq. by apply schema_ok_insert.
Qed.

Lemma typed_on_job_complete id : typed (on_job_complete id).
Proof.
  pose proof typed_dnc_send. intros w Hok. unfold state_after, on_job_complete.
  case_match; [done|].
  assert (typed (resolve_next_transfer id)) as Hr
    by (unfold resolve_next_transfer; frame).
  specialize (Hr w Hok). unfold state_after in Hr.
  destruct (resolve_next_transfer id w) as [[[next|]|e] w2]; simpl in *; try done.
  assert (∀ p i m o, typed (schedule_transfer p i m o)) as Hs
    by (intros; unfold schedule_transfer, create_transfer; frame).
  by apply (Hs _ _ _ _ w2).
Qed.

#[local] Hint Resolve typed_dnc_send typed_create_draft_revision typed_on_job_complete : evolves.

Lemma typed_ingest_loop signals cache acc : typed (ingest_loop signals cache acc).
Proof.
  revert cache acc. induction signals as [|sig signals IH]; intros cache acc; simpl; [evolve|].
  apply evolves_bind; [apply _| |].
  - unfold cached_source, resolve_source. frame.
  - intros [s cache']. unfold store_signal, insert_machine_event, insert_production_count.
    frame.
Qed.

Lemma typed_advance p nxt tech code now :
  typed (update Maintenance_work_orders p (advance nxt tech code now)).
Proof.
  apply (typed_update Maintenance_work_orders). intros r. split; [apply advance_key|].
  intros c b ->%list_elem_of_singleton. by destruct nxt.
Qed.

Lemma handle_typed auth r : typed (handle auth r).
Proof.
  pose proof typed_advance.
  pose proof typed_ingest_loop. pose proof (λ wc, typed_reads _ (reads_publish_oee_snapshot wc)).
  pose proof (λ s, typed_reads (draw_downtime_events s) (λ w, eq_refl)).
  destruct r; simpl; open_handlers; frame.
Qed.
End integrity.

(** ** What every request guarantees of each table *)

Section guarantees.
Context {env : Env} {cmms : CmmsEnv}.

(** A table outside the footprint is untouched. *)
Lemma untouched T (R : relation (list (row T))) `{!Reflexive R} auth r :
  T ∉ footprint r → table_evolves T R (handle auth r).
Proof.
  intros Ht w. unfold on_table. by rewrite (handle_within auth r w T Ht).
Qed.

(** The table's rows when the call succeeds and when it fails are enough to know. *)
Lemma evolves_cases T (R : relation (list (row T))) `{!Reflexive R} {E A} (m : M World E A) :
  atomic m → (∀ a w w', m w = (Ok a, w') → R (w_db w T) (w_db w' T)) → table_evolves T R m.
Proof.
  intros Ha Hok w. unfold on_table, state_after. destruct (m w) as [[a|e] w'] eqn:Em; simpl.
  - by eapply Hok.
  - apply Ha in Em. by rewrite Em.
Qed.
End guarantees.

Ltac not_in_tables :=
  let H := fresh in intros H; simpl in H;
  repeat (apply elem_of_cons in H as [H|H]; [discriminate|]); by apply elem_of_nil in H.

Ltac by_frame := apply untouched; [typeclasses eauto|not_in_tables].

Section guarantees_statuses.
Context {env : Env} {cmms : CmmsEnv}.

(** *** Work orders *)

Lemma handle_wo auth r : table_evolves Work_orders wo_moves (handle auth r).
Proof.
  pose proof transition_wo_moves. pose proof create_work_order_moves.
  destruct r; try by_frame; simpl; unfold ignore, create_order, release_order, cancel_order,
    close_order, complete_wo, master_writer.
  5: unfold start_op, parse_op_status, get_operation, start_operation, get_work_order.
  all: frame.
Qed.

(** *** Operations *)

Lemma start_op_rows auth op_id w :
  let l := w_db w Wo_operations in
  let l' := w_db (start_op auth op_id w).2 Wo_operations in
  l' = l ∨ ∃ op, first_where (by_id Wo_operations op_id) l = Some op ∧
    op_status op = "pending"%string ∧
    l' = update_rows (by_id Wo_operations op_id) (started (w_now w)) l.
Proof.
  cbv zeta. rewrite start_op_split.
  destruct (start_op_core op_id w) as [[[op updated]|e] w1] eqn:E.
  2: { apply atomic_start_op_core in E. left. simpl. by rewrite E. }
  apply start_op_core_Ok in E as (Hop & Hs & -> & _ & Eo & _). right. exists op.
  split_and!; [done..|].
  destruct (start_op_order _ _ _ _ w1) as [[r|e] w2] eqn:E2; simpl.
  - apply start_op_order_Ok in E2 as (_ & _ & ->); done.
  - apply atomic_start_op_order in E2. by rewrite E2.
Qed.

Lemma start_op_ops auth op_id : table_evolves Wo_operations op_moves (start_op auth op_id).
Proof.
  intros w. unfold on_table, state_after.
  destruct (start_op_rows auth op_id w) as [->|(op & Hop & Hs & ->)]; [done|].
  eapply moves_guarded; [exact Hop|done|]. rewrite Hs.
  by exists OpStatus.Pending, OpStatus.InProgress.
Qed.

Lemma complete_op_rows auth op_id w :
  let l := w_db w Wo_operations in
  let l' := w_db (complete_op auth op_id w).2 Wo_operations in
  l' = l ∨ ∃ op, first_where (by_id Wo_operations op_id) l = Some op ∧
    op_status op = "in_progress"%string ∧
    l' = update_rows (by_id Wo_operations op_id) (completed (w_now w)) l.
Proof.
  cbv zeta. rewrite complete_op_split.
  destruct (complete_op_core auth op_id w) as [[r|e] w1] eqn:E; simpl.
  - apply complete_op_core_Ok in E as ((old & Hold & Hs & _) & Eo & _).
    destruct (on_job_complete_appends op_id w1) as (ts & _ & _ & ->); [|done].
    right. by exists old.
  - apply atomic_complete_op_core in E. left. by rewrite E.
Qed.

Lemma complete_op_ops auth op_id : table_evolves Wo_operations op_moves (complete_op auth op_id).
Proof.
  intros w. unfold on_table, state_after.
  destruct (complete_op_rows auth op_id w) as [->|(op & Hop & Hs & ->)]; [done|].
  eapply moves_guarded; [exact Hop|done|]. rewrite Hs.
  by exists OpStatus.InProgress, OpStatus.Completed.
Qed.

Lemma reads_on_table T (R : relation (list (row T))) `{!Reflexive R} {E A} (m : M World E A) :
  reads m → table_evolves T R m.
Proof.
  intros Hm w. specialize (Hm w). unfold same_db in Hm. unfold on_table. by rewrite Hm.
Qed.

Lemma record_count_endpoint_ops auth op_id input :
  table_evolves Wo_operations op_moves (record_count_endpoint auth op_id input).
Proof.
  pose proof record_count_ops. unfold record_count_endpoint, get_operation.
  pose proof (λ wc, reads_on_table Wo_operations op_moves _ (reads_publish_oee_snapshot wc)).
  frame.
Qed.

Lemma handle_op auth r : table_evolves Wo_operations op_moves (handle auth r).
Proof.
  destruct r; try by_frame; simpl; unfold ignore.
  - unfold create_order, master_writer. pose proof create_work_order_ops. frame.
  - pose proof start_op_ops. frame.
  - pose proof record_count_endpoint_ops. frame.
  - pose proof complete_op_ops. frame.
Qed.

(** *** Transfers *)

(** Every stored status is one of the wire forms. *)
Definition known (l : list TransferRow) : Prop :=
  ∀ t, t ∈ l → is_Some (TransferStatus.parse (tr_status t)).

Definition known_moves : relation (list (row Dnc_transfer_events)) :=
  λ l l', known l → known l' ∧ transfer_moves l l'.

#[global] Instance known_moves_preorder : PreOrder known_moves.
Proof.
  split; [intros l Hl; split; [done|reflexivity]|].
  intros l1 l2 l3 H12 H23 H1. destruct (H12 H1) as [H2 M12]. destruct (H23 H2) as [H3 M23].
  split; [done|by etrans].
Qed.

Lemma schedule_transfer_moves p i m o :
  table_evolves Dnc_transfer_events known_moves (schedule_transfer p i m o).
Proof.
  apply evolves_cases; [apply _|apply atomic_schedule_transfer|].
  intros t w w' (ref & _ & _ & -> & Hc & [-> _] & _)%schedule_transfer_Ok Hk. split.
  - intros t Ht. apply elem_of_app in Ht as [Ht|Ht]; [by apply Hk|].
    apply list_elem_of_singleton in Ht as ->. by eexists.
  - apply moves_insert; [|done]. apply check_row_key in Hc; [done|left].
Qed.

Lemma settled_moves ref s w w' :
  settled ref s w w' → known_moves (w_db w Dnc_transfer_events) (w_db w' Dnc_transfer_events).
Proof.
  intros [_ [[-> _]|(t & [(Hin & _) _] & -> & Hstep)]] Hk; [by split|]. split.
  - intros x Hx. apply elem_of_update_rows in Hx as (y & Hy & ->). case_match; [|by apply Hk].
    exists s. simpl. apply parse_as_str.
  - destruct (Hk t Hin) as [cur Hcur]. apply moves_update; [done|]. intros Hu x Hx Hid.
    unfold by_id in Hid. bool_to_prop.
    assert (x = t) as -> by (by eapply (keys_unique_eq Dnc_transfer_events)).
    exists cur, s. simpl. split_and!; [done|apply parse_as_str|by apply Hstep].
Qed.

Lemma daemon_event_transfers ev :
  table_evolves Dnc_transfer_events known_moves (handle_daemon_event ev).
Proof.
  apply evolves_cases; [apply _|apply atomic_handle_daemon_event|].
  intros u w w' E. apply bind_Ok in E as ([] & w1 & [Hp ->]%require_pool_Ok & E).
  destruct ev as [ref|ref reason|program content].
  - apply (settle_Ok ref TransferStatus.Completed) in E; [|by left|by evolve].
    by eapply settled_moves.
  - apply (settle_Ok ref TransferStatus.Failed) in E; [|by right|by evolve].
    by eapply settled_moves.
  - apply bind_Ok in E as (o & w1 & H1%map_err_Ok & E).
    apply find_program_Ok in H1 as [-> _]. destruct o as [pid|]; minv; [|reflexivity].
    match goal with H : create_draft_revision _ _ _ _ _ = _ |- _ =>
      apply create_draft_revision_Ok in H as (_ & _ & [_ Ef] & _) end.
    simpl in *. by rewrite Ef.
Qed.

Lemma complete_op_transfers auth op_id :
  table_evolves Dnc_transfer_events known_moves (complete_op auth op_id).
Proof.
  intros w. unfold on_table, state_after. rewrite complete_op_split.
  destruct (complete_op_core auth op_id w) as [[r|e] w1] eqn:E; simpl.
  2: { apply atomic_complete_op_core in E. by rewrite E. }
  apply complete_op_core_Ok in E as (_ & _ & Ef). rewrite <- (Ef Dnc_transfer_events) by done.
  unfold on_job_complete. case_match; [done|].
  assert (reads (resolve_next_transfer op_id)) as Hr.
  { unfold resolve_next_transfer, fetch_optional. evolve. }
  specialize (Hr w1). unfold same_db, state_after in Hr.
  destruct (resolve_next_transfer op_id w1) as [[[next|]|e] w2]; simpl in *;
    rewrite <- Hr; [|reflexivity..].
  apply (schedule_transfer_moves _ _ _ _ w2).
Qed.

Lemma handle_transfers auth r :
  table_evolves Dnc_transfer_events known_moves (handle auth r).
Proof.
  pose proof schedule_transfer_moves.
  destruct r; try by_frame; simpl; unfold ignore.
  - pose proof complete_op_transfers. frame.
  - unfold manual_transfer, program_dispatch_info. frame.
  - unfold retry_transfer, program_dispatch_info, get_transfer. frame.
  - unfold inject_daemon_event. pose proof daemon_event_transfers. frame.
Qed.

(** *** Program revisions *)

Lemma transition_revision_moves auth id target :
  table_evolves Program_revisions revision_moves (transition_revision auth id target).
Proof.
  apply evolves_cases; [apply _|apply atomic_transition_revision|].
  intros r w w' E. unfold transition_revision, get_revision, set_revision_status, audit in E.
  minv. bool_to_prop.
  match goal with |- context [insert_audit ?a ?b ?c ?d ?e ?v] =>
    destruct (insert_audit_frame a b c d e v) as (F & _) end.
  rewrite F by done. simpl. rewrite set_table_eq. simplify_eq.
  eapply moves_guarded; [done..|]. simpl. eexists _, target.
  split_and!; [done|apply parse_as_str|done].
Qed.

Lemma daemon_event_revisions ev :
  table_evolves Program_revisions revision_moves (handle_daemon_event ev).
Proof.
  apply evolves_cases; [apply _|apply atomic_handle_daemon_event|].
  intros u w w' E. apply bind_Ok in E as ([] & w1 & [Hp ->]%require_pool_Ok & E).
  destruct ev as [ref|ref reason|program content].
  - apply (settle_Ok ref TransferStatus.Completed) in E as [E _]; [|by left|by evolve].
    by rewrite E.
  - apply (settle_Ok ref TransferStatus.Failed) in E as [E _]; [|by right|by evolve].
    by rewrite E.
  - apply bind_Ok in E as (o & w1 & H1%map_err_Ok & E).
    apply find_program_Ok in H1 as [-> _]. destruct o as [pid|]; minv; [|reflexivity].
    match goal with H : create_draft_revision _ _ _ _ _ = _ |- _ =>
      apply create_draft_revision_Ok in H as (-> & Hc & [Ea _] & _) end.
    simpl in *. rewrite Ea. apply moves_insert; [|done]. apply check_row_key in Hc; [done|left].
Qed.

Lemma handle_revisions auth r :
  table_evolves Program_revisions revision_moves (handle auth r).
Proof.
  pose proof transition_revision_moves. pose proof daemon_event_revisions.
  destruct r; try by_frame; simpl;
    unfold ignore, promote_revision, reject_revision, inject_daemon_event; frame.
Qed.

(** *** Maintenance orders *)

Lemma transition_maintenance_wo_moves id next tech code :
  table_evolves Maintenance_work_orders mwo_moves (transition_maintenance_wo id next tech code).
Proof.
  apply evolves_cases; [apply _|apply atomic_transition_maintenance_wo|].
  intros r w w' (old & cur & nxt & Hold & Hc & Hn & Ht & _ & -> & _)%transition_maintenance_wo_Ok.
  eapply moves_guarded; [exact Hold|intros x; apply advance_key|].
  exists cur, nxt. rewrite advance_status. by rewrite parse_as_str.
Qed.

Lemma create_maintenance_wo_moves wc pm ty notes :
  table_evolves Maintenance_work_orders mwo_moves (create_maintenance_wo wc pm ty notes).
Proof.
  unfold create_maintenance_wo. do 3 (frame_step; [frame|intros ?]).
  apply evolves_map_err, (evolves_insert Maintenance_work_orders mwo_moves). intros db Hc.
  apply moves_insert; [|done]. apply check_row_key in Hc; [done|left].
Qed.

Lemma handle_mwo auth r : table_evolves Maintenance_work_orders mwo_moves (handle auth r).
Proof.
  pose proof transition_maintenance_wo_moves. pose proof create_maintenance_wo_moves.
  destruct r; try by_frame; simpl; unfold ignore, create_maintenance_wo_endpoint,
    transition_maintenance_wo_endpoint, require_maintenance; frame.
Qed.

(** *** NCRs *)

Definition ncr_moves : relation (list (row Ncrs)) :=
  moves Ncrs nc_status NcrStatus.parse NcrStatus.can_transition "open".

#[global] Instance ncr_moves_preorder : PreOrder ncr_moves.
Proof. exact (moves_preorder Ncrs _ _ _ _). Qed.

Lemma record_result_moves c lot serial op v by_ :
  table_evolves Ncrs ncr_moves (record_result c lot serial op v by_).
Proof.
  apply evolves_cases; [apply _|apply atomic_record_result|].
  intros [result ncr] w w' (ch & r & outcome & _ & _ & _ & _ & _ & H)%record_result_Ok.
  destruct outcome; [destruct H as [_ ->]; done|].
  destruct H as (n & -> & -> & Hs & _ & _ & _ & Hfresh & _).
  rewrite set_table_ne in Hfresh |- * by done. apply moves_insert; [|done].
  apply exists_row_false. intros x Hx. apply String.eqb_neq. intros E.
  by apply (Hfresh x).
Qed.

Lemma disposition_ncr_moves id d reason actor :
  table_evolves Ncrs ncr_moves (disposition_ncr id d reason actor).
Proof.
  apply evolves_cases; [apply _|apply atomic_transaction|].
  intros n w w' (_ & -> & _)%disposition_ncr_Ok.
  apply moves_update; [done|]. intros _ x Hx Hp. bool_to_prop.
  exists NcrStatus.Open, NcrStatus.Dispositioned.
  by match goal with H : nc_status x = _ |- _ => rewrite H end.
Qed.

Lemma handle_ncrs auth r : table_evolves Ncrs ncr_moves (handle auth r).
Proof.
  pose proof record_result_moves. pose proof disposition_ncr_moves.
  destruct r; try by_frame; simpl; unfold ignore, record_result_endpoint,
    disposition_ncr_endpoint, require_quality; frame.
Qed.
End guarantees_statuses.

(** ** Invariants over several tables *)

Section keeps.
Context {env : Env} {cmms : CmmsEnv} (I : Db → Prop) (ts : list table).
(** [I] speaks of the tables [ts] only. *)
Hypothesis I_local : ∀ db db', (∀ t, t ∈ ts → db' t = db t) → I db → I db'.

Lemma keeps_outside {E A} (m : M World E A) fp :
  evolves (outside fp) m → (∀ t, t ∈ ts → t ∉ fp) → evolves (keeps I) m.
Proof.
  intros Hm Hd w HI. apply (I_local (w_db w)); [|done]. intros t Ht. by apply Hm, Hd.
Qed.

Lemma keeps_audit {E} a b c d e :
  Audit_log ∉ ts → evolves (keeps I) (audit a b c d e : M World E unit).
Proof.
  intros Hn. apply (keeps_outside _ [Audit_log]).
  - apply within_audit. left.
  - by intros t Ht ->%list_elem_of_singleton.
Qed.
End keeps.

Section invariants.
Context {env : Env} {cmms : CmmsEnv}.

(** *** Automatic requests *)

Lemma one_open_local (db db' : Db) :
  (∀ t, t ∈ [Procurement_requests] → db' t = db t) →
  one_open_reorder db → one_open_reorder db'.
Proof.
  intros Hl H id. unfold open_reorders. rewrite Hl by left. apply H.
Qed.

Lemma handle_reorders auth r : evolves (keeps one_open_reorder) (handle auth r).
Proof.
  assert (Procurement_requests ∉ footprint r → evolves (keeps one_open_reorder) (handle auth r))
    as Hframe.
  { intros Hn. apply (keeps_outside one_open_reorder _ one_open_local _ (footprint r)).
    - apply handle_within.
    - by intros t ->%list_elem_of_singleton. }
  pose proof (λ E a b c d e, keeps_audit one_open_reorder _ one_open_local (E := E) a b c d e
    ltac:(not_in_tables)) as Haudit.
  pose proof (keeps_reads one_open_reorder _ reads_require_pool).
  destruct r; try (apply Hframe; not_in_tables); simpl; unfold ignore.
  - unfold record_spare_txn_endpoint, require_maintenance.
    assert (∀ a b c d e, evolves (keeps one_open_reorder) (record_spare_txn a b c d e)).
    { intros. apply keeps_cases; [apply atomic_record_spare_txn|].
      intros out w w' (effect & spare & _ & _ & Hm)%record_spare_txn_Ok.
      by eapply moved_one_open. }
    frame.
  - unfold create_procurement_request_endpoint, require_maintenance.
    assert (∀ a b, evolves (keeps one_open_reorder) (create_procurement_request a b)).
    { intros sid qty w Hone id. unfold state_after.
      destruct (create_procurement_request sid qty w) as [[r|e] w'] eqn:E;
        unfold create_procurement_request in E; simpl.
      - minv. unfold open_reorders in *. rewrite set_table_eq, select_app. simpl.
        rewrite app_nil_r. apply Hone.
      - assert (atomic (create_procurement_request sid qty)) as Ha.
        { unfold create_procurement_request.
          do 2 (apply atomic_bind_reads; [evolve|]; intros ?). eauto with atomic. }
        apply Ha in E. rewrite E. apply Hone. }
    frame.
Qed.

(** *** Books *)

(** Every count recorded against an operation names one that exists. *)
Definition counts_linked (db : Db) : Prop :=
  ∀ c id, c ∈ db Production_counts → pc_wo_operation_id c = Some id →
    ∃ o, o ∈ db Wo_operations ∧ op_id o = id.

(** The totals of every operation are the sums of the counts recorded against it. *)
Definition balanced (db : Db) : Prop :=
  keys_unique Wo_operations (db Wo_operations) ∧ counts_linked db ∧ totals_match db.

Lemma balanced_local (db db' : Db) :
  (∀ t, t ∈ [Wo_operations; Production_counts] → db' t = db t) →
  balanced db → balanced db'.
Proof.
  intros Hl. unfold balanced, counts_linked, totals_match, counted.
  by rewrite (Hl Wo_operations), (Hl Production_counts) by in_tables.
Qed.

(** Operations rewritten without touching their totals. *)
Lemma balanced_update p f (db db' : Db) :
  (∀ x, op_id (f x) = op_id x ∧ op_qty_good (f x) = op_qty_good x ∧
        op_qty_scrap (f x) = op_qty_scrap x) →
  db' Wo_operations = update_rows p f (db Wo_operations) →
  db' Production_counts = db Production_counts → balanced db → balanced db'.
Proof.
  intros Hf Eo Ec (Hu & Hlink & Ht). split_and!.
  - rewrite Eo. apply keys_unique_update; [|done]. intros x. apply Hf.
  - intros c id Hc Hid. rewrite Ec in Hc. destruct (Hlink c id Hc Hid) as (o & Ho & <-).
    exists (if p o then f o else o). rewrite Eo. split; [apply elem_of_update_rows; eauto|].
    case_match; [apply Hf|done].
  - intros o Ho. rewrite Eo in Ho. apply elem_of_update_rows in Ho as (y & Hy & ->).
    unfold counted. rewrite Ec. destruct (Ht y Hy) as [Hg Hs].
    destruct (p y); [|done]. destruct (Hf y) as (-> & -> & ->). done.
Qed.

Lemma balanced_created input d w w' :
  order_created input d w w' →
  keys_unique Wo_operations (w_db w' Wo_operations) →
  balanced (w_db w) → balanced (w_db w').
Proof.
  intros (_ & Eo & _ & Ef & _ & Hops) Hu' (Hu & Hlink & Ht).
  assert (w_db w' Production_counts = w_db w Production_counts) as Ec by (by apply Ef).
  split_and!; [done| |].
  - intros c id Hc Hid. rewrite Ec in Hc. destruct (Hlink c id Hc Hid) as (o & Ho & <-).
    exists o. rewrite Eo. split; [apply elem_of_app; by left|done].
  - intros o Ho. unfold counted. rewrite Ec. rewrite Eo in Ho.
    apply elem_of_app in Ho as [Ho|Ho]; [by apply Ht|].
    rewrite select_none.
    + assert (op_content o ∈ map op_content (operations d)) as Hc by (by apply list_elem_of_fmap_2).
      rewrite Hops in Hc. apply list_elem_of_fmap in Hc as (i & Hi & _).
      unfold op_content, op_input_content in Hi. by injection Hi.
    + intros c Hc. apply bool_decide_eq_false. intros Hid.
      destruct (Hlink c _ Hc Hid) as (o' & Ho' & E).
      rewrite Eo in Hu'. unfold keys_unique in Hu'. rewrite map_app in Hu'.
      apply list.NoDup_app in Hu' as (_ & Hdisj & _). apply (Hdisj (op_id o)).
      * rewrite <- E. by apply list_elem_of_fmap_2.
      * by apply list_elem_of_fmap_2.
Qed.

(** A count is appended and added to the totals of its operation. *)
Lemma balanced_count op good scrap now c old (db db' : Db) :
  first_where (by_id Wo_operations op) (db Wo_operations) = Some old →
  db' Wo_operations = update_rows (by_id Wo_operations op) (add_counts good scrap now)
    (db Wo_operations) →
  db' Production_counts = db Production_counts ++ [c] →
  pc_wo_operation_id c = Some op → pc_good c = good → pc_scrap c = scrap →
  balanced db → balanced db'.
Proof.
  intros Hold Eo Ec Hc Hg Hs (Hu & Hlink & Ht). split_and!.
  - rewrite Eo. by apply keys_unique_update.
  - intros c' id Hc' Hid. rewrite Ec in Hc'.
    assert (∃ o, o ∈ db Wo_operations ∧ op_id o = id) as (o & Ho & <-).
    { apply elem_of_app in Hc' as [Hc'|Hc']; [by eapply Hlink|].
      apply list_elem_of_singleton in Hc' as ->. rewrite Hc in Hid. injection Hid as <-.
      apply first_where_Some in Hold as [Hid Hin]. unfold by_id in Hid. bool_to_prop. eauto. }
    eexists. rewrite Eo. split; [apply elem_of_update_rows; by exists o|]. by case_match.
  - by eapply totals_counted.
Qed.

Lemma balanced_counted op wc good scrap reason ts r w w' :
  record_count op wc good scrap reason ts w = (Ok r, w') →
  balanced (w_db w) → balanced (w_db w').
Proof.
  intros ((old & Hold & _) & _ & _ & Eo & (c & Ec & Hc & Hg & Hs & _) & _)%record_count_Ok.
  by eapply balanced_count.
Qed.

(** Counts from signals are recorded against no operation. *)
Definition unlinked_growth : relation (list (row Production_counts)) :=
  λ l l', ∃ k, l' = l ++ k ∧ ∀ c, c ∈ k → pc_wo_operation_id c = None.

#[local] Instance unlinked_growth_preorder : PreOrder unlinked_growth.
Proof.
  split.
  - intros l. exists []. rewrite app_nil_r. split; [done|]. by intros c ?%elem_of_nil.
  - intros l1 l2 l3 (k1 & -> & H1) (k2 & -> & H2). exists (k1 ++ k2).
    rewrite app_assoc. split; [done|]. intros c [Hc|Hc]%elem_of_app; auto.
Qed.

Lemma ingest_loop_unlinked signals cache acc :
  table_evolves Production_counts unlinked_growth (ingest_loop signals cache acc).
Proof.
  assert (∀ a b c d e, table_evolves Production_counts unlinked_growth
    (insert_production_count a b c d e)) as Hins.
  { intros. unfold insert_production_count. frame_step; [frame|intros ?].
    frame_step; [|frame]. apply evolves_map_err, (evolves_insert Production_counts unlinked_growth).
    intros db _. eexists [_]. split; [done|]. by intros c' ->%list_elem_of_singleton. }
  revert cache acc. induction signals as [|sig signals IH]; intros cache acc; simpl; [frame|].
  apply evolves_bind; [apply _|unfold cached_source, resolve_source; frame|].
  intros [s cache']. unfold store_signal, insert_machine_event. frame.
Qed.

Lemma balanced_unlinked (db db' : Db) :
  unlinked_growth (db Production_counts) (db' Production_counts) →
  db' Wo_operations = db Wo_operations → balanced db → balanced db'.
Proof.
  intros (k & Ec & Hk) Eo (Hu & Hlink & Ht). split_and!.
  - by rewrite Eo.
  - intros c id Hc Hid. rewrite Ec in Hc. apply elem_of_app in Hc as [Hc|Hc].
    + rewrite Eo. by eapply Hlink.
    + specialize (Hk c Hc). congruence.
  - intros o Ho. rewrite Eo in Ho. unfold counted. rewrite Ec, select_app.
    rewrite (select_none _ k), app_nil_r; [by apply Ht|].
    intros c Hc. apply bool_decide_eq_false. rewrite (Hk c Hc). discriminate.
Qed.

(** A call that keeps the books, from what it does to the two tables. *)
Lemma untouched_counts auth r w :
  Production_counts ∉ footprint r →
  w_db (handle auth r w).2 Production_counts = w_db w Production_counts.
Proof. intros Hn. by apply (handle_within auth r w). Qed.

Lemma create_work_order_balanced input : evolves (keeps balanced) (create_work_order input).
Proof.
  apply keeps_cases; [apply atomic_transaction|]. intros d w w' Hok Hb.
  eapply balanced_created; [by apply create_work_order_Ok| |done].
  pose proof (create_work_order_ops input w) as Hm. unfold on_table, state_after in Hm.
  rewrite Hok in Hm. apply Hm, Hb.
Qed.

Lemma record_count_balanced a b c d e f :
  evolves (keeps balanced) (record_count a b c d e f).
Proof.
  apply keeps_cases; [apply atomic_transaction|]. intros r w w' Hok Hb.
  by eapply balanced_counted.
Qed.

Lemma handle_balanced auth r : evolves (keeps balanced) (handle auth r).
Proof.
  assert (Wo_operations ∉ footprint r → Production_counts ∉ footprint r →
    evolves (keeps balanced) (handle auth r)) as Hframe.
  { intros H1 H2. apply (keeps_outside balanced _ balanced_local _ (footprint r));
      [apply handle_within|]. intros t Ht.
    by apply elem_of_cons in Ht as [->| ->%list_elem_of_singleton]. }
  pose proof (λ E a b c d e, keeps_audit balanced _ balanced_local (E := E) a b c d e
    ltac:(not_in_tables)) as Haudit.
  pose proof (keeps_reads balanced _ reads_require_pool).
  destruct r; try (apply Hframe; not_in_tables).
  - simpl. unfold ignore, create_order, master_writer.
    pose proof (create_work_order_balanced input). frame.
  - intros w Hb. pose proof (untouched_counts auth (StartOp op_id) w ltac:(not_in_tables)) as Ec.
    unfold state_after. simpl in *. rewrite ignore_state in *.
    destruct (start_op_rows auth op_id w) as [Eo|(op & _ & _ & Eo)].
    + eapply balanced_local; [|exact Hb]. intros t Ht.
      by apply elem_of_cons in Ht as [->| ->%list_elem_of_singleton].
    + by eapply balanced_update; [|exact Eo|exact Ec|exact Hb].
  - simpl. unfold ignore, record_count_endpoint, get_operation.
    pose proof record_count_balanced.
    pose proof (λ wc, keeps_reads balanced _ (reads_publish_oee_snapshot wc)).
    pose proof (λ E ev, keeps_reads balanced _ (reads_publish (E := E) ev)).
    pose proof (keeps_reads balanced _ (reads_get_by_id Wo_operations op_id)).
    frame.
  - intros w Hb.
    pose proof (untouched_counts auth (CompleteOp op_id) w ltac:(not_in_tables)) as Ec.
    unfold state_after. simpl in *. rewrite ignore_state in *.
    destruct (complete_op_rows auth op_id w) as [Eo|(op & _ & _ & Eo)].
    + eapply balanced_local; [|exact Hb]. intros t Ht.
      by apply elem_of_cons in Ht as [->| ->%list_elem_of_singleton].
    + by eapply balanced_update; [|exact Eo|exact Ec|exact Hb].
  - intros w Hb. eapply balanced_unlinked; [| |exact Hb].
    + unfold state_after. simpl. rewrite ignore_state. unfold ingest_signals.
      pose proof ingest_loop_unlinked.
      assert (table_evolves Production_counts unlinked_growth
        (require_pool ;; ingest_loop signals ∅ (mkIngestResult 0 0))) as Hm by frame.
      apply (Hm w).
    + apply (handle_within auth (IngestSignals signals) w). not_in_tables.
Qed.

(** Every property of a step extends to the reachable states. *)
Lemma reachable_evolves (R : relation World) `{!PreOrder R} w w' :
  (∀ w1 w2, w_db w1 = w_db w2 → R w1 w2) → (∀ auth r, evolves R (handle auth r)) →
  rtc step w w' → R w w'.
Proof.
  intros Hsame Hstep. induction 1 as [|w1 w2 w3 H12 _ IH]; [reflexivity|].
  etrans; [|exact IH]. destruct H12 as [auth r w1 v E].
  etrans; [by apply Hsame|apply Hstep].
Qed.

Lemma reachable_table T (R : relation (list (row T))) `{!PreOrder R} w w' :
  (∀ auth r, table_evolves T R (handle auth r)) → rtc step w w' →
  R (w_db w T) (w_db w' T).
Proof.
  intros Hstep. apply (reachable_evolves (on_table T R)); [|done].
  intros w1 w2 E. unfold on_table. by rewrite E.
Qed.

Lemma reachable_keeps I w w' :
  (∀ auth r, evolves (keeps I) (handle auth r)) → rtc step w w' → I (w_db w) → I (w_db w').
Proof.
  intros Hstep. apply (reachable_evolves (keeps I)); [|done].
  intros w1 w2 E. unfold keeps. by rewrite E.
Qed.
End invariants.

(** ** Properties *)

Section system_properties.
Context {env : Env} {cmms : CmmsEnv}.

(** C4. Whatever writing requests of these components the server is sent, in whatever order,
    by whomever, and whichever of them fail, at whatever time and over whatever connection:
    no work order, operation, DNC transfer, program revision, maintenance order or NCR
    disappears or takes a status its lifecycle does not lead to, and each starts at its
    initial status; there is never more than one open automatic reorder per spare part;
    and the totals of every operation remain the sums of the counts recorded against
    it. *)
Theorem reachable_consistent w w' :
  rtc step w w' →
  wo_moves (w_db w Work_orders) (w_db w' Work_orders) ∧
  op_moves (w_db w Wo_operations) (w_db w' Wo_operations) ∧
  known_moves (w_db w Dnc_transfer_events) (w_db w' Dnc_transfer_events) ∧
  revision_moves (w_db w Program_revisions) (w_db w' Program_revisions) ∧
  mwo_moves (w_db w Maintenance_work_orders) (w_db w' Maintenance_work_orders) ∧
  ncr_moves (w_db w Ncrs) (w_db w' Ncrs) ∧
  (one_open_reorder (w_db w) → one_open_reorder (w_db w')) ∧
  (balanced (w_db w) → balanced (w_db w')).
Proof.
  intros H. split_and!.
  - by apply (reachable_table Work_orders), H; [apply _|apply handle_wo].
  - by apply (reachable_table Wo_operations), H; [apply _|apply handle_op].
  - by apply (reachable_table Dnc_transfer_events), H; [apply _|apply handle_transfers].
  - by apply (reachable_table Program_revisions), H; [apply _|apply handle_revisions].
  - by apply (reachable_table Maintenance_work_orders), H; [apply _|apply handle_mwo].
  - by apply (reachable_table Ncrs), H; [apply _|apply handle_ncrs].
  - by apply reachable_keeps, H; apply handle_reorders.
  - by apply reachable_keeps, H; apply handle_balanced.
Qed.
End system_properties.

(** ** Witness *)

Definition sample_cmms : CmmsEnv := {|
  epoch_hours d := d * 10 ^ 28 / 3600000000;
  interval_days n := n * 86400000000 / 10 ^ 28
|}.

(** An order is created, released and run; a count is refused for want of a reason. *)
Definition sample_day : list request :=
  [CreateOrder (mkWorkOrderInput "WO-1" "p1" None (5 * 10 ^ 28) None None None
     [mkWoOperationInput 10 (Some "ro1"%string) (Some "wc1"%string)]);
   ReleaseOrder (@ulid sample_env 0);
   StartOp (@ulid sample_env 1);
   RecordCount (@ulid sample_env 1) (mkCountInput 4 0 None None);
   RecordCount (@ulid sample_env 1) (mkCountInput 0 1 None None);
   RecordCount (@ulid sample_env 1) (mkCountInput 0 1 (Some "sr1"%string) None);
   CompleteOp (@ulid sample_env 1);
   CompleteWo (@ulid sample_env 0)].

Definition evening : World := @serve sample_env sample_cmms admin sample_day plant.

Lemma reachable_consistent_witness :
  rtc (@step sample_env sample_cmms) plant evening ∧
  map (λ o, (op_status o, op_qty_good o, op_qty_scrap o)) (w_db evening Wo_operations)
    = [("completed"%string, 4, 1)] ∧
  map wo_status (w_db evening Work_orders) = ["completed"%string] ∧
  balanced (w_db evening).
Proof.
  assert (rtc (@step sample_env sample_cmms) plant evening) as H by apply serve_reachable.
  split; [exact H|]. split; [vm_compute; reflexivity|]. split; [vm_compute; reflexivity|].
  apply (@reachable_consistent sample_env sample_cmms plant evening H).
  assert (w_db plant Wo_operations = []) as E1 by (vm_compute; reflexivity).
  assert (w_db plant Production_counts = []) as E2 by (vm_compute; reflexivity).
  unfold balanced, counts_linked, totals_match. rewrite E1, E2. split_and!.
  - constructor.
  - intros c id Hc. exfalso. exact (proj1 (elem_of_nil _) Hc).
  - intros o Ho. exfalso. exact (proj1 (elem_of_nil _) Ho).
Defined.
