(* ===== verification/Server.v ===== *)
(** * Both servers

    Every request that writes, of the edge (the shop floor, master data, the ERP connectors)
    and of the cloud (provisioning, synchronisation, remote orders, the copilot), as steps
    over a database with the schema of the migrations. What holds of every database a server
    can reach, whatever it is asked and whatever fails, is that the schema's promises are
    kept. *)

From S2P Require Import Prelude Lifecycle Schema Sql Cascade Integrity Sample Moves Ingest Orders.
From S2P Require Import Metrics Dnc Sync Protocol Exec Trace Qms Cmms Auth Master Mapping Erp.
From S2P Require Import Process Agent System.

(** The cloud's requests that write; each with its [Authorization] header. *)
Inductive cloud_request :=
  | PostOrg (code name : string)
  | PostPlant (org_id code name : string)
  | RemoteWorkOrder (plant_id wo_number part_id : string) (qty_ordered : Decimal)
      (priority : option Z)
  | Push (plant_id : string) (entries : list SyncEntry)
  | Ack (plant_id : string) (ids : list string)
  | Ask (message : string).

Inductive any_request :=
  | Floor (auth : AuthUser) (r : request)
  | Administer (auth : AuthUser) (r : master_request)
  | Connect (key : list Byte.byte) (auth : AuthUser) (r : erp_request)
  | SignIn (cfg : AuthConfig) (body : LoginRequest)
  | SignInPin (cfg : AuthConfig) (body : PinLoginRequest)
  | Cloud (admin_token authorization : option string) (r : cloud_request).

Section server.
Context {env : Env} {cmms : CmmsEnv} {crypto : Crypto} {senv : SyncEnv} {erp : ErpEnv}.
Context {serde : SerdeJson} {agent : AgentEnv} {backend : LlmBackend}.

Definition cloud_handle (admin_token authorization : option string) (r : cloud_request) :
    M World ApiErr unit :=
  match r with
  | PostOrg code name => ignore (post_org admin_token authorization code name)
  | PostPlant org code name => ignore (post_plant admin_token authorization org code name)
  | RemoteWorkOrder plant number part qty priority =>
      ignore (remote_work_order admin_token authorization plant number part qty priority)
  | Push plant entries => ignore (push authorization plant entries)
  | Ack plant ids => ack authorization plant ids
  | Ask message => ignore (copilot authorization message)
  end.

Definition serve_any (r : any_request) : M World ApiErr unit :=
  match r with
  | Floor auth r => handle auth r
  | Administer auth r => master_handle auth r
  | Connect key auth r => erp_handle key auth r
  | SignIn cfg body => ignore (login cfg body)
  | SignInPin cfg body => ignore (pin_login cfg body)
  | Cloud admin_token authorization r => cloud_handle admin_token authorization r
  end.

(** A request, served in any world that has the database the one before left. *)
Inductive any_step : relation World :=
  | any_step_request r w w1 : w_db w1 = w_db w → any_step w (serve_any r w1).2.

Definition serve_all (rs : list any_request) (w : World) : World :=
  foldl (λ w r, (serve_any r w).2) w rs.

Lemma serve_all_reachable rs w : rtc any_step w (serve_all rs w).
Proof.
  revert w. induction rs as [|r rs IH]; intros w; simpl; [reflexivity|].
  eapply rtc_l; [by apply (any_step_request r w w)|apply IH].
Qed.

(** ** Lemmas *)

Lemma typed_ignore {A} (m : M World ApiErr A) : typed m → typed (ignore m).
Proof. intros. unfold ignore. evolve. Qed.

Lemma typed_create_work_order input : typed (create_work_order input).
Proof. unfold create_work_order, insert_operation, enqueue. frame. Qed.

Lemma typed_insert_sync_log c d e n s detail : typed (insert_sync_log c d e n s detail).
Proof. unfold insert_sync_log. frame. Qed.

Lemma typed_import_loop m i records ids : typed (import_loop m i records ids).
Proof.
  revert i ids. induction records as [|rec records IH]; intros i ids; simpl; [evolve|].
  pose proof typed_create_work_order. frame.
Qed.

Lemma typed_mark_procurement_sent ids reference : typed (mark_procurement_sent ids reference).
Proof.
  unfold mark_procurement_sent. case_bool_decide; [evolve|].
  frame.
Qed.

Lemma erp_handle_typed key auth r : typed (erp_handle key auth r).
Proof.
  pose proof (λ t, typed_reads _ (reads_encrypt_token key t)).
  pose proof typed_insert_sync_log. pose proof typed_mark_procurement_sent.
  pose proof (λ c y, typed_reads _ (reads_open_connection c y)).
  pose proof (λ e, typed_reads _ (reads_gather e)).
  pose proof (λ t, typed_reads _ (reads_decrypt_token key t)).
  pose proof (λ u t b, typed_reads _ (reads_post_json u t b)). pose proof typed_import_loop.
  destruct r; simpl; try apply typed_ignore.
  - apply typed_audited. unfold lift, create_connection. frame.
  - apply typed_audited. unfold lift, update_connection. frame.
  - apply typed_audited. unfold delete_connection. frame.
  - unfold import, import_work_orders, master_writer. frame.
  - unfold export, master_writer, export_pushed, export_refused, ignore. frame; evolve.
Qed.

Lemma typed_apply_batch es p a s : typed (apply_batch_from a s es p).
Proof.
  revert a s. induction es as [|e es IH]; intros a s; simpl; [evolve|].
  unfold apply_entry, apply_work_order. frame.
Qed.

Lemma typed_run_copilot scope message : typed (run_copilot scope message).
Proof.
  apply typed_reads. intros w. unfold same_db, state_after.
  destruct (copilot_loop_outcome MAX_TURNS scope (first_message message) [] w)
    as (n & w' & ms & cs & _ & _ & _ & <- & E & _). unfold run_copilot. by rewrite E.
Qed.

Lemma cloud_handle_typed admin_token authorization r :
  typed (cloud_handle admin_token authorization r).
Proof.
  assert (∀ p, typed (require_plant authorization p))
    by (intros; unfold require_plant, verify_plant_token; frame).
  pose proof typed_apply_batch. pose proof typed_run_copilot.
  pose proof (typed_reads _ (reads_resolve_scope authorization)).
  destruct r; simpl; try apply typed_ignore.
  - unfold post_org, require_admin, create_org. frame.
  - unfold post_plant, require_admin, enroll_plant. frame.
  - unfold remote_work_order, require_admin, create_remote_work_order, enqueue. frame.
  - unfold push, apply_batch, touch_plant_sync. frame.
  - unfold ack, mark_synced. frame.
  - unfold copilot, answer_message, log_message. frame.
Qed.

Lemma login_typed cfg body body' :
  typed (ignore (login cfg body)) ∧ typed (ignore (pin_login cfg body')).
Proof.
  assert (∀ u m, typed (finish_login cfg u m)) by (intros; unfold finish_login, issue_token; frame).
  split; apply typed_ignore.
  - unfold login, find_auth_by_username, find_auth. frame.
  - unfold pin_login, find_auth_by_username, find_auth_by_badge, find_auth. frame.
Qed.

Lemma serve_any_typed r : typed (serve_any r).
Proof.
  destruct r; simpl.
  - apply handle_typed.
  - apply master_handle_typed.
  - apply erp_handle_typed.
  - by apply (login_typed _ _ (mkPinLoginRequest None None None)).
  - by apply (login_typed _ (mkLoginRequest "" "")).
  - apply cloud_handle_typed.
Qed.

(** The database keeps its type: whatever requests the edge and the cloud are sent,
    by whomever, in whatever order, over whatever connection and whichever of them fail, if
    the stored data fitted the schema to begin with it still does: integer columns hold
    values of their width, every foreign key names a row that exists, and no two rows agree
    where the schema says they must differ. *)
Theorem reachable_typed w w' :
  rtc any_step w w' → schema_ok (w_db w) →
  (∀ t r, r ∈ w_db w' t → in_range t r = true) ∧
  (∀ t r x, r ∈ w_db w' t → x ∈ references t r → key_exists (w_db w') x.1 x.2 = true) ∧
  (∀ t, ForallOrdPairs (λ a b, ¬ conflicting t a b) (w_db w' t)).
Proof.
  intros H Hok. assert (schema_ok (w_db w')) as [Hr Hf Hu].
  { induction H as [|w1 w2 w3 H12 _ IH]; [done|]. apply IH.
    destruct H12 as [r w1 v E]. apply (serve_any_typed r v). by rewrite E. }
  split_and!; [exact Hr|exact Hf|exact Hu].
Qed.
End server.

(** ** Witness *)

(** A site is added and another demolished, an order runs, the ERP fails half-way through an
    import. *)
Definition busy_day : list any_request :=
  Administer admin (CreateSite (mkSiteInput "S9" "Annex" None))
  :: Administer admin (CreateSite (mkSiteInput "S9" "Duplicate" None))
  :: Administer admin (DeleteSite "s2")
  :: Connect sample_key admin (CreateConnection connection_input)
  :: Connect sample_key admin (Import import_request)
  :: Cloud None None (PostOrg "O1" "Org")
  :: map (Floor admin) sample_day.

Abbreviation serving_sample rs w :=
  (@serve_all sample_env sample_cmms sample_crypto sample_sync sample_erp sample_serde
     sample_agent sample_backend rs w).

Definition dusk : World := serving_sample busy_day yard.

Lemma reachable_typed_witness :
  schema_ok (w_db yard) ∧ map si_code (w_db dusk Sites) = ["S1"; "S9"]%string ∧
  (∀ t r x, r ∈ w_db dusk t → x ∈ references t r → key_exists (w_db dusk) x.1 x.2 = true).
Proof.
  assert (schema_ok (w_db yard)) as Hok
    by (apply schema_ok_decide; vm_compute; reflexivity).
  split; [exact Hok|]. split; [vm_compute; reflexivity|].
  exact (proj1 (proj2 (@reachable_typed sample_env sample_cmms sample_crypto sample_sync
    sample_erp sample_serde sample_agent sample_backend yard dusk
    (@serve_all_reachable sample_env sample_cmms sample_crypto sample_sync sample_erp
       sample_serde sample_agent sample_backend busy_day yard) Hok))).
Defined.
