(* ===== verification/Wellformed.v ===== *)
(** * Rows as the program means them

    The migrations type most columns as plain text and numbers: which words a status, a type
    or a direction may be, that a decided report names its decision or that a movement of
    stock has the sign of its kind is left to the program. Here that is stated of every row of
    every table, and shown to be kept by every request of both servers. *)

From S2P Require Import Prelude StateMachine Lifecycle Schema Sql Cascade Integrity Sample Moves.
From S2P Require Import Ingest Orders Metrics Dnc Sync Protocol Exec Trace Qms Cmms Auth Master.
From S2P Require Import Mapping Erp Process Agent System Server.

(** ** The meaning of a row *)

Definition one_of (words : list string) (s : string) : bool := bool_decide (s ∈ words).

(** A word the program's own parser reads back. *)
Definition wire {A} (parse : string → option A) (s : string) : bool :=
  match parse s with Some _ => true | None => false end.

Definition given {A} (o : option A) : bool := match o with Some _ => true | None => false end.

Definition sound_operation (r : WoOperationRow) : bool :=
  wire OpStatus.parse (op_status r) &&
  (0 <=? op_qty_good r) && (0 <=? op_qty_scrap r) &&
  implb (String.eqb (op_status r) "in_progress") (given (op_started_at r)) &&
  implb (String.eqb (op_status r) "completed") (given (op_completed_at r)).

(** A count against an operation was entered by hand: no negative pieces, and scrap has a
    reason. *)
Definition sound_count (r : ProductionCountRow) : bool :=
  implb (given (pc_wo_operation_id r))
    ((0 <=? pc_good r) && (0 <=? pc_scrap r) &&
     implb (0 <? pc_scrap r) (given (pc_scrap_reason_id r))).

Definition sound_transfer (r : TransferRow) : bool :=
  wire TransferStatus.parse (tr_status r) &&
  one_of ["to_machine"; "from_machine"]%string (tr_direction r) &&
  implb (negb (is_open r)) (given (tr_completed_at r)).

Definition sound_revision (r : RevisionRow) : bool :=
  wire RevisionStatus.parse (rv_status r) &&
  implb (negb (String.eqb (rv_status r) "draft"))
    (given (rv_promoted_by r) && given (rv_promoted_at r)).

(** A downtime event with a reason says who gave it and when. *)
Definition sound_downtime (r : DowntimeRow) : bool :=
  one_of (map state_str [Running; MicroStop; Down; PlannedStop]) (de_state r) &&
  implb (given (de_reason_id r)) (given (de_classified_by r) && given (de_classified_at r)).

(** A hold is active or was released by someone at some time. *)
Definition sound_hold (r : HoldRow) : bool :=
  one_of ["active"; "released"]%string (hd_status r) &&
  Bool.eqb (String.eqb (hd_status r) "released") (given (hd_released_at r)) &&
  Bool.eqb (String.eqb (hd_status r) "released") (given (hd_released_by r)).

(** A report is open or was decided, one of the four ways, by someone at some time. *)
Definition sound_ncr (r : NcrRow) : bool :=
  wire NcrStatus.parse (nc_status r) &&
  match nc_disposition r with
  | None => String.eqb (nc_status r) "open"
  | Some d => negb (String.eqb (nc_status r) "open") && wire Disposition.parse d &&
      given (nc_dispositioned_by r) && given (nc_dispositioned_at r)
  end.

(** A schedule has the due point its trigger goes by, and not the other. *)
Definition sound_pm (r : PmRow) : bool :=
  match PmTrigger.parse (pm_trigger_type r) with
  | Some PmTrigger.Calendar => given (pm_last_done_at r) && given (pm_next_due_at r) &&
      negb (given (pm_next_due_usage_h r))
  | Some PmTrigger.UsageHours => given (pm_last_done_usage_h r) && given (pm_next_due_usage_h r) &&
      negb (given (pm_next_due_at r))
  | None => false
  end.

(** A maintenance order carries the time stamp of the status it is in. *)
Definition sound_mwo (r : MwoRow) : bool :=
  wire MaintenanceType.parse (mw_wo_type r) &&
  match MaintenanceStatus.parse (mw_status r) with
  | Some MaintenanceStatus.Requested => true
  | Some MaintenanceStatus.Scheduled => given (mw_scheduled_at r)
  | Some MaintenanceStatus.InProgress => given (mw_started_at r)
  | Some MaintenanceStatus.Completed => given (mw_closed_at r)
  | Some MaintenanceStatus.Verified => given (mw_verified_at r)
  | None => false
  end.

(** What is issued leaves the stock, what is received enters it. *)
Definition sound_spare_txn (r : SpareTxnRow) : bool :=
  one_of ["issue"; "receive"; "adjust"]%string (st_txn_type r) &&
  implb (String.eqb (st_txn_type r) "issue") (st_qty r <=? 0) &&
  implb (String.eqb (st_txn_type r) "receive") (0 <=? st_qty r).

Definition sound_request (r : ProcRow) : bool :=
  wire ProcurementStatus.parse (pr_status r) &&
  one_of (map ProcurementReason.as_str [ProcurementReason.ReorderPoint; ProcurementReason.Manual])
    (pr_reason r) &&
  implb (String.eqb (pr_status r) "sent_to_erp") (given (pr_pushed_at r)).

(** A log entry that reports an error of an import reports no records. *)
Definition sound_log (r : ErpLogRow) : bool :=
  one_of ["import"; "export"]%string (el_direction r) &&
  one_of ["success"; "error"]%string (el_status r) &&
  implb (String.eqb (el_direction r) "import" && String.eqb (el_status r) "error")
    (el_record_count r =? 0).

Definition sound (t : table) : row t → bool :=
  match t with
  | Work_orders => λ r, wire WoStatus.parse (wo_status r)
  | Wo_operations => sound_operation
  | Production_counts => sound_count
  | Dnc_transfer_events => sound_transfer
  | Program_revisions => sound_revision
  | Machine_states => λ r,
      one_of (map state_str [Running; MicroStop; Down; PlannedStop]) (ms_state r)
  | Downtime_events => sound_downtime
  | Material_txns => λ r, String.eqb (mt_txn_type r) "issue"
  | Holds => sound_hold
  | Inspection_results => λ r, one_of ["pass"; "fail"]%string (rs_result r)
  | Ncrs => sound_ncr
  | Pm_schedules => sound_pm
  | Maintenance_work_orders => sound_mwo
  | Spare_txns => sound_spare_txn
  | Procurement_requests => sound_request
  | Erp_connections => λ r, one_of ["import"; "export"; "both"]%string (ec_direction r)
  | Erp_sync_log => sound_log
  | _ => λ _, true
  end.

Definition rows_sound (db : Db) : Prop := ∀ t r, r ∈ db t → sound t r = true.

Abbreviation meant m := (evolves (keeps rows_sound) m).

(** ** Statements *)

Lemma rows_sound_table t l (db : Db) :
  rows_sound db → (∀ r, r ∈ l → sound t r = true) → rows_sound (set_table t l db).
Proof.
  intros Hdb Hl t' r Hr. destruct (decide (t' = t)) as [->|Hne].
  - rewrite set_table_eq in Hr. by apply Hl.
  - rewrite set_table_ne in Hr by done. by apply Hdb.
Qed.

Lemma meant_statement {A} (f : Db → Result (A * Db) SqlError) :
  (∀ db a db', f db = Ok (a, db') → rows_sound db → rows_sound db') → meant (statement f).
Proof.
  intros Hf w Hok. unfold state_after, statement. case_match; [done|].
  destruct (f (w_db w)) as [[a db]|] eqn:E; [|done]. by eapply Hf.
Qed.

Lemma meant_reads {E A} (m : M World E A) : reads m → meant m.
Proof. apply keeps_reads. Qed.

Lemma meant_query {A} (f : Db → A) : meant (query f).
Proof. apply meant_reads, reads_query. Qed.

Lemma rows_sound_append t r db :
  rows_sound db → sound t r = true → rows_sound (set_table t (db t ++ [r]) db).
Proof.
  intros Hdb Hr. apply rows_sound_table; [done|].
  intros x [Hx| ->%list_elem_of_singleton]%elem_of_app; [by apply Hdb|done].
Qed.

Lemma meant_insert t r : sound t r = true → meant (insert t r).
Proof.
  intros Hr. apply meant_statement. intros db a db' H Hdb. case_match; simplify_eq.
  by apply rows_sound_append.
Qed.

Lemma meant_insert_or_ignore t c r : sound t r = true → meant (insert_or_ignore t c r).
Proof.
  intros Hr. apply meant_statement. intros db a db' H Hdb. repeat case_match; simplify_eq; [done|].
  by apply rows_sound_append.
Qed.

Lemma meant_update t p f :
  (∀ r, sound t r = true → sound t (f r) = true) → meant (update t p f).
Proof.
  intros Hf. apply meant_statement. intros db a db' H Hdb. case_match; simplify_eq.
  apply rows_sound_table; [done|]. intros r (y & Hy & ->)%elem_of_update_rows.
  case_match; [apply Hf|]; by apply Hdb.
Qed.

Lemma meant_delete t p : meant (delete t p).
Proof.
  apply meant_statement. intros db a db' [= _ <-] Hdb. apply rows_sound_table; [done|].
  intros r Hr. apply Hdb. by apply elem_of_delete_rows in Hr as [? _].
Qed.

Lemma sound_detach g t r : sound t (detach g t r) = sound t r.
Proof. destruct t; try done. unfold detach. by repeat case_match. Qed.

Lemma meant_delete_cascading t p : meant (delete_cascading t p).
Proof.
  apply meant_statement. intros db a db' H Hdb. destruct (blocked _ db) as [[t1 t2]|]; simplify_eq.
  intros t' y (r & Hr & _ & ->)%elem_of_remaining. rewrite sound_detach. by apply Hdb.
Qed.

Lemma meant_update_unique t id f :
  (∀ r, sound t r = true → sound t (f r) = true) → meant (update_unique t id f).
Proof.
  intros Hf. apply meant_statement. intros db a db' H Hdb. repeat case_match; simplify_eq; [|done].
  apply rows_sound_table; [done|]. intros x (y & Hy & ->)%elem_of_update_rows.
  case_match; [apply Hf|]; by apply Hdb.
Qed.

Lemma meant_transaction {E A} (lift : SqlError → E) (m : M World E A) :
  meant m → meant (transaction lift m).
Proof.
  intros Hm w Hok. unfold state_after, transaction.
  assert (meant (enclosed lift m)) as Hall.
  { pose proof @meant_query. unfold enclosed, begin_, commit. evolve. }
  specialize (Hall w Hok). unfold state_after in Hall.
  by destruct (enclosed lift m w) as [[a|e] w'].
Qed.

(** A check that was passed is known to what follows it. *)
Lemma meant_ok_or {E A B} (o : option A) (e : E) (k : A → M World E B) :
  (∀ a, o = Some a → meant (k a)) → meant (ok_or o e ≫= k).
Proof. intros Hk. destruct o as [a|]; [by apply (Hk a)|by intros w]. Qed.

Lemma meant_throw_if {E B} (b : bool) (e : E) (k : unit → M World E B) :
  (b = false → meant (k tt)) → meant (throw_if b e ≫= k).
Proof. intros Hk. destruct b; [by intros w|by apply Hk]. Qed.

(** ** Following a handler *)

(** Decides the soundness of a row by its words, its guards and what was known of it. *)
Ltac row_sound :=
  unfold sound, sound_operation, sound_count, sound_transfer, sound_revision, sound_downtime,
    sound_hold, sound_ncr, sound_pm, sound_mwo, sound_spare_txn, sound_request, sound_log in *;
  simpl in *; try done;
  repeat match goal with H : _ && _ = true |- _ => apply andb_true_iff in H as [? ?] end;
  repeat match goal with H : _ || _ = false |- _ => apply orb_false_iff in H as [? ?] end;
  repeat (apply andb_true_iff; split); try done.

Ltac meant_step :=
  lazymatch goal with
  | |- ∀ _, _ => intros ?
  | |- evolves _ (mbind _ (ok_or _ _)) => apply meant_ok_or; intros ? ?
  | |- evolves _ (mbind _ (throw_if _ _)) => apply meant_throw_if; intros ?
  | |- evolves _ (mbind _ _) => apply evolves_bind; [typeclasses eauto| |]
  | |- evolves _ (map_err _ _) => apply evolves_map_err
  | |- evolves _ (best_effort _) => apply evolves_best_effort
  | |- evolves _ (match ?x with _ => _ end) => destruct x eqn:?
  | |- evolves _ (forM_ _ _) => apply evolves_forM; [typeclasses eauto|]
  | |- evolves _ (mapM_list _ _) => apply evolves_mapM; [typeclasses eauto|]
  | |- evolves _ (transaction _ _) => apply meant_transaction
  | |- evolves _ (fetch_optional _) => apply evolves_bind; [typeclasses eauto| |]
  | |- evolves _ (fetch_one _) => apply evolves_bind; [typeclasses eauto| |]
  | |- evolves _ (query _) => apply meant_query
  | |- evolves _ (fetch _ _) => apply meant_query
  | |- evolves _ (query_limit _ _) => apply meant_reads, reads_query_limit
  | |- evolves _ (get_by_id ?t ?i) => apply meant_reads, (reads_get_by_id t i)
  | |- evolves _ (update_by_id _ _ _) => unfold update_by_id
  | |- evolves _ (update_unique_by_id _ _ _) => unfold update_unique_by_id
  | |- evolves _ (delete_by_id _ _) => unfold delete_by_id
  | |- evolves _ (audit _ _ _ _ _) => unfold audit, insert_audit
  | |- evolves _ (ignore _) => unfold ignore
  | |- evolves _ (insert ?t ?r) => apply (meant_insert t r); solve [row_sound]
  | |- evolves _ (insert_or_ignore ?t ?c ?r) =>
      apply (meant_insert_or_ignore t c r); solve [row_sound]
  | |- evolves _ (update ?t ?p ?f) =>
      apply (meant_update t p f); solve [intros ? ?; row_sound]
  | |- evolves _ (update_unique ?t ?i ?f) =>
      apply (meant_update_unique t i f); solve [intros ? ?; row_sound]
  | |- evolves _ (delete ?t ?p) => apply (meant_delete t p)
  | |- evolves _ (delete_cascading ?t ?p) => apply (meant_delete_cascading t p)
  | |- evolves _ require_pool => apply meant_reads, reads_require_pool
  | |- evolves _ new_id => by apply meant_reads
  | |- evolves _ draw_random => by apply meant_reads
  | |- evolves _ (publish _) => by apply meant_reads
  | |- _ => solve [eauto 2 with evolves]
  end.
Ltac follow := repeat meant_step.

(** Rows that depend on what was checked before. *)
Lemma entered_count id ts wc op (input : CountInput) :
  (ci_good input <? 0) || (ci_scrap input <? 0) = false →
  (0 <? ci_scrap input) && bool_decide (ci_scrap_reason_id input = None) = false →
  sound_count (mkProductionCountRow id ts wc None (ci_good input) (ci_scrap input) (Some op)
    (ci_scrap_reason_id input)) = true.
Proof.
  intros [Hg Hs]%orb_false_iff Hr. unfold sound_count. simpl.
  rewrite Z.ltb_ge in Hg, Hs. rewrite (proj2 (Z.leb_le _ _) Hg), (proj2 (Z.leb_le _ _) Hs). simpl.
  destruct (ci_scrap_reason_id input); [by destruct (0 <? _)|].
  rewrite bool_decide_eq_true_2, andb_true_r in Hr by done. by rewrite Hr.
Qed.

Lemma counted_operation (input : CountInput) now r :
  (ci_good input <? 0) || (ci_scrap input <? 0) = false → sound_operation r = true →
  sound_operation (r <| op_qty_good := op_qty_good r + ci_good input |>
    <| op_qty_scrap := op_qty_scrap r + ci_scrap input |> <| op_updated_at := now |>) = true.
Proof.
  intros [Hg Hs]%orb_false_iff. unfold sound_operation. simpl. rewrite Z.ltb_ge in Hg, Hs.
  rewrite !andb_true_iff, !Z.leb_le. intros ([[[? ?] ?] ?] & ?). split_and!; [done|lia|lia|done..].
Qed.

Lemma signed_txn id ty qty effect sp wo now user :
  signed ty qty = Some effect → sound_spare_txn (mkSpareTxnRow id sp wo ty effect now user) = true.
Proof.
  unfold signed, sound_spare_txn. simpl. intros H.
  destruct (String.eqb_spec ty "issue") as [->|].
  { simplify_eq. by rewrite (proj2 (Z.leb_le (- Z.abs qty) 0)) by lia. }
  destruct (String.eqb_spec ty "receive") as [->|].
  { simplify_eq. by rewrite (proj2 (Z.leb_le 0 (Z.abs qty))) by lia. }
  by destruct (String.eqb_spec ty "adjust") as [->|]; simplify_eq.
Qed.

(** Unfolds the handlers down to statements and the calls dealt with below. *)
Ltac open_floor :=
  unfold ignore, create_order, release_order, cancel_order, close_order, complete_wo,
    master_writer, create_work_order, insert_operation, enqueue, get_work_order, start_op,
    parse_op_status, get_operation, start_operation, record_count_endpoint, record_count,
    complete_op, complete_operation, classify_downtime_endpoint, classify_downtime,
    split_downtime_endpoint, publish_reason, ingest_signals, recompute, recompute_states,
    fetch_cycle_pulses, fetch_planned_intervals, manual_transfer, retry_transfer,
    program_dispatch_info, get_transfer, promote_revision, reject_revision,
    transition_revision, get_revision, set_revision_status, inject_daemon_event,
    handle_daemon_event, find_open_transfer_by_ref, set_transfer_status,
    find_program_id_by_identifier, create_lot_endpoint, create_lot, create_serial_endpoint,
    create_serial, add_genealogy_endpoint, add_genealogy, issue_material_endpoint,
    issue_material, check_not_held, is_held, place_hold_endpoint, place_hold,
    release_hold_endpoint, release_hold, require_quality, create_plan_endpoint, create_plan,
    create_characteristic_endpoint, create_characteristic, record_result_endpoint,
    record_result, raise_ncr, auto_hold, disposition_ncr_endpoint, disposition_ncr,
    require_maintenance, create_pm_schedule_endpoint, create_pm_schedule,
    work_center_run_hours, create_maintenance_wo_endpoint, create_maintenance_wo,
    transition_maintenance_wo_endpoint, transition_maintenance_wo,
    create_spare_part_endpoint, create_spare_part, record_spare_txn_endpoint,
    record_spare_txn, create_procurement_request_endpoint, create_procurement_request.

Section meant_floor.
Context {env : Env} {cmms : CmmsEnv}.

Lemma meant_dnc_send cmd : meant (dnc_send cmd).
Proof.
  apply meant_reads. intros w. unfold same_db, state_after, dnc_send.
  by destruct (daemon_send _ _).
Qed.

Lemma wire_as_str {A} (as_str : A → string) parse `{!WireEnum A as_str parse} x :
  wire parse (as_str x) = true.
Proof. unfold wire. by rewrite parse_as_str. Qed.

Lemma meant_transition_wo actor id target : meant (transition_wo actor id target).
Proof.
  unfold transition_wo, get_work_order, set_work_order_status. follow.
  apply (meant_update Work_orders). intros r _. simpl. by apply wire_as_str; apply _.
Qed.

Lemma meant_split_downtime id at_ first second by_ :
  meant (split_downtime id at_ first second by_).
Proof.
  apply keeps_cases; [apply atomic_transaction|]. intros [r1 r2] w w' H Hdb.
  unfold split_downtime, get_downtime_event in H. minv. simplify_eq.
  match goal with H : first_where _ _ = Some ?e |- _ =>
    apply first_where_Some in H as [_ He]; pose proof (Hdb Downtime_events _ He) as Hs end.
  simpl. apply (rows_sound_append Downtime_events).
  - apply (rows_sound_table Downtime_events); [done|].
    intros r (y & Hy & ->)%elem_of_update_rows. specialize (Hdb Downtime_events y Hy).
    destruct (by_id Downtime_events id y); [|done]. destruct first; row_sound.
  - destruct second; row_sound.
Qed.

Lemma meant_create_draft_revision program content by_ :
  meant (create_draft_revision program "operator_edit" content by_).
Proof.
  unfold create_draft_revision. do 2 (meant_step; [follow|intros ?]).
  apply evolves_map_err, meant_statement. intros db x db' H Hdb. cbv zeta in H.
  case_match; simplify_eq. by apply (rows_sound_append Program_revisions).
Qed.

Lemma meant_schedule_transfer p i m o : meant (schedule_transfer p i m o).
Proof.
  pose proof meant_dnc_send. unfold schedule_transfer, create_transfer. follow.
Qed.

Lemma meant_on_job_complete id : meant (on_job_complete id).
Proof.
  intros w Hok. unfold state_after, on_job_complete. case_match; [done|].
  assert (meant (resolve_next_transfer id)) as Hr by (unfold resolve_next_transfer; follow).
  specialize (Hr w Hok). unfold state_after in Hr.
  destruct (resolve_next_transfer id w) as [[[next|]|e] w2]; simpl in *; try done.
  by apply (meant_schedule_transfer _ _ _ _ w2).
Qed.

Lemma meant_ingest_loop signals cache acc : meant (ingest_loop signals cache acc).
Proof.
  revert cache acc. induction signals as [|sig signals IH]; intros cache acc; simpl; [evolve|].
  apply evolves_bind; [apply _| |].
  - unfold cached_source, resolve_source. follow.
  - intros [s cache']. unfold store_signal, insert_machine_event, insert_production_count.
    follow.
Qed.

Lemma meant_advance p nxt tech code now :
  meant (update Maintenance_work_orders p (advance nxt tech code now)).
Proof.
  apply (meant_update Maintenance_work_orders). intros r Hr. simpl in *. unfold sound_mwo in *.
  apply andb_true_iff in Hr as [Ht _]. by destruct nxt; simpl; rewrite Ht.
Qed.

Lemma meant_replace_derived wc start end_ states downtime :
  meant (replace_derived wc start end_ states downtime).
Proof.
  unfold replace_derived, insert_state, insert_downtime. follow.
  - apply (meant_insert Machine_states). simpl. by destruct (iv_state _).
  - apply (meant_insert Downtime_events). simpl. unfold sound_downtime. simpl.
    by destruct (dt_state _).
Qed.

Lemma handle_meant auth r : meant (handle auth r).
Proof.
  pose proof meant_transition_wo. pose proof meant_split_downtime.
  pose proof meant_schedule_transfer. pose proof meant_on_job_complete.
  pose proof meant_create_draft_revision. pose proof meant_advance.
  pose proof meant_ingest_loop. pose proof meant_replace_derived.
  pose proof (λ wc, meant_reads _ (reads_publish_oee_snapshot wc)).
  pose proof (λ s, meant_reads (draw_downtime_events s) (λ w, eq_refl)).
  destruct r; simpl; open_floor; follow.
  - apply meant_reads, (reads_get_by_id Work_orders).
  - apply meant_reads, (reads_get_by_id Wo_operations).
  - apply (meant_insert Production_counts). by apply entered_count.
  - apply (meant_update Wo_operations). intros r Hr. by apply counted_operation.
  - apply meant_reads, (reads_get_by_id Wo_operations).
  - apply (meant_insert Inspection_results). simpl. by destruct (evaluate _ _ _).
  - apply (meant_update Ncrs). intros r _. by destruct a1.
  - apply (meant_insert Maintenance_work_orders). by destruct a1.
  - done.
  - apply (meant_insert Spare_txns). by apply (signed_txn _ _ (sti_qty input)).
Qed.
End meant_floor.

Section meant_servers.
Context {env : Env} {cmms : CmmsEnv} {crypto : Crypto} {senv : SyncEnv} {erp : ErpEnv}.
Context {serde : SerdeJson} {agent : AgentEnv} {backend : LlmBackend}.

Lemma meant_ignore {A} (m : M World ApiErr A) : meant m → meant (ignore m).
Proof. intros. unfold ignore. evolve. Qed.

Lemma meant_audited {A} auth action entity (id : A → string) m :
  meant m → meant (audited auth action entity id m).
Proof. intros Hm. unfold audited, master_writer. follow. Qed.

Lemma master_handle_meant auth r : meant (master_handle auth r).
Proof.
  destruct r; cbn [master_handle];
    lazymatch goal with |- evolves _ (ignore _) => apply meant_ignore | _ => idtac end;
    open_master; apply meant_audited; repeat case_match; follow.
Qed.

Lemma meant_create_work_order input : meant (create_work_order input).
Proof. unfold create_work_order, insert_operation, enqueue. follow. Qed.

Lemma meant_import_loop m i records ids : meant (import_loop m i records ids).
Proof.
  revert i ids. induction records as [|rec records IH]; intros i ids; simpl; [evolve|].
  pose proof meant_create_work_order. follow.
Qed.

Lemma meant_success_log c d e n : one_of ["import"; "export"]%string d = true →
  meant (insert_sync_log c d e n "success" None).
Proof.
  intros Hd. unfold insert_sync_log. follow. apply (meant_insert Erp_sync_log). simpl.
  unfold sound_log. simpl. rewrite Hd, andb_false_r. done.
Qed.

(** A connection is stored with one of the three directions. *)
Lemma meant_direction {B} d (k : string → M World ApiErr B) :
  (∀ a, one_of ["import"; "export"; "both"]%string a = true → meant (k a)) →
  meant (lift (normalize_direction d) ≫= k).
Proof.
  intros Hk. unfold normalize_direction. case_bool_decide; [|by intros w].
  apply (Hk (default "both"%string d)). by apply bool_decide_eq_true.
Qed.

Lemma erp_handle_meant key auth r : meant (erp_handle key auth r).
Proof.
  pose proof (λ t, meant_reads _ (reads_encrypt_token key t)).
  pose proof (λ c y, meant_reads _ (reads_open_connection c y)).
  pose proof (λ e, meant_reads _ (reads_gather e)).
  pose proof (λ t, meant_reads _ (reads_decrypt_token key t)).
  pose proof (λ u t b, meant_reads _ (reads_post_json u t b)). pose proof meant_import_loop.
  destruct r; simpl; try apply meant_ignore.
  - apply meant_audited, meant_direction. intros d Hd. unfold create_connection. follow.
  - apply meant_audited, meant_direction. intros d Hd. unfold update_connection. follow.
  - apply meant_audited. unfold delete_connection. follow.
  - pose proof (λ c e n, meant_success_log c "import" e n eq_refl).
    unfold import, import_work_orders, master_writer. follow. unfold insert_sync_log. follow.
  - pose proof (λ c e n, meant_success_log c "export" e n eq_refl).
    unfold export, master_writer, export_pushed, export_refused, mark_procurement_sent. follow.
    unfold insert_sync_log. follow.
Qed.

Lemma meant_run_copilot scope message : meant (run_copilot scope message).
Proof.
  apply meant_reads. intros w. unfold same_db, state_after.
  destruct (copilot_loop_outcome MAX_TURNS scope (first_message message) [] w)
    as (n & w' & ms & cs & _ & _ & _ & <- & E & _). unfold run_copilot. by rewrite E.
Qed.

Lemma login_meant cfg body body' :
  meant (ignore (login cfg body)) ∧ meant (ignore (pin_login cfg body')).
Proof.
  assert (∀ u m, meant (finish_login cfg u m)) by (intros; unfold finish_login, issue_token; follow).
  split; apply meant_ignore.
  - unfold login, find_auth_by_username, find_auth. follow.
  - unfold pin_login, find_auth_by_username, find_auth_by_badge, find_auth. follow.
Qed.

(** A plant's push writes the orders of its payloads as they are. *)
Definition is_push (r : any_request) : bool :=
  match r with Cloud _ _ (Push _ _) => true | _ => false end.

Lemma serve_any_meant r : is_push r = false → meant (serve_any r).
Proof.
  destruct r as [auth r|auth r|key auth r|cfg body|cfg body|admin_token authorization r];
    simpl; intros Hp.
  - apply handle_meant.
  - apply master_handle_meant.
  - apply erp_handle_meant.
  - by apply (login_meant _ _ (mkPinLoginRequest None None None)).
  - by apply (login_meant _ (mkLoginRequest "" "")).
  - assert (∀ p, meant (require_plant authorization p))
      by (intros; unfold require_plant, verify_plant_token; follow).
    pose proof meant_run_copilot. pose proof (meant_reads _ (reads_resolve_scope authorization)).
    destruct r; simpl in *; try done; try apply meant_ignore.
    + unfold post_org, require_admin, create_org. follow.
    + unfold post_plant, require_admin, enroll_plant. follow.
    + unfold remote_work_order, require_admin, create_remote_work_order, enqueue. follow.
    + unfold ack, mark_synced. follow.
    + unfold copilot, answer_message, log_message. follow.
Qed.

(** A request other than a push, served in any world that has the database the one before
    left. *)
Inductive own_step : relation World :=
  | own_step_request r w w1 :
      is_push r = false → w_db w1 = w_db w → own_step w (serve_any r w1).2.

Lemma serve_all_own rs w :
  forallb (λ r, negb (is_push r)) rs = true → rtc own_step w (serve_all rs w).
Proof.
  revert w. induction rs as [|r rs IH]; intros w; simpl; [reflexivity|].
  intros [Hr%negb_true_iff Hrs]%andb_true_iff.
  eapply rtc_l; [by apply (own_step_request r w w)|by apply IH].
Qed.

End meant_servers.

(** ** Witness *)

Definition all_sound (db : Db) : bool := forallb (λ t, forallb (sound t) (db t)) all_tables.

Lemma all_sound_rows db : all_sound db = true → rows_sound db.
Proof.
  unfold all_sound. rewrite forallb_forall. intros H t r Hr.
  assert (In t all_tables) as Ht by (destruct t; simpl; tauto).
  specialize (H t Ht). rewrite forallb_forall in H. by apply H, list_elem_of_In.
Qed.

