(* ===== verification/Programs.v ===== *)
(** * The endpoints of the shop floor as programs

    Every request of [System] as a program of [Concurrency], statement by statement, with the
    transactions and the row lock the code takes. Each does alone what the handler of its
    component file does ([steps_play]). *)

From Stdlib Require Import SpecFloat.
From S2P Require Import Prelude StateMachine Schema Sql Lifecycle Numeric Oee Ingest Metrics Sync Orders Dnc.
From S2P Require Import Protocol Exec Trace Qms Cmms Concurrency System.
Import Steps.

(** ** Programs *)

Module Steps_of.
Section programs.
Context {env : Env}.
Abbreviation Repo := (Prog RepoError).
Abbreviation Api := (Prog ApiErr).

(** *** [orders.rs], [repo_orders.rs] *)

Definition get_work_order (id : string) : Repo WorkOrderRow := get_by_id Work_orders id.

Definition set_work_order_status (id status : string) : Repo WorkOrderRow :=
  t ← now;
  update_by_id Work_orders id (λ r, r <| wo_status := status |> <| wo_updated_at := t |>).

Definition master_writer (auth : AuthUser) : Api AuthUser :=
  if can_write_master (role auth) then mret auth
  else throw (err 403 "forbidden" "role may not modify master data").

Definition transition_wo (actor_id id : string) (target : WoStatus.t) : Api WorkOrderRow :=
  require_pool ;;
  wo ← map_err repo_err (get_work_order id);
  current ← ok_or (WoStatus.parse (wo_status wo))
    (err 500 "internal" "unknown stored status");
  throw_if (negb (WoStatus.can_transition current target))
    (err 409 "invalid_transition"
      (String.append "cannot move work order from " (String.append (WoStatus.as_str current)
        (String.append " to " (WoStatus.as_str target))))) ;;
  updated ← map_err repo_err (set_work_order_status id (WoStatus.as_str target));
  audit (Some actor_id) "status" "work_order" (Some id)
    (Some (JObj [("status"%string, JStr (WoStatus.as_str target))])) ;;
  publish (WorkOrderStatusChanged id (WoStatus.as_str target)) ;;
  mret updated.

Definition release_order (auth : AuthUser) (id : string) : Api WorkOrderRow :=
  actor ← master_writer auth; transition_wo (user_id actor) id WoStatus.Released.

Definition cancel_order (auth : AuthUser) (id : string) : Api WorkOrderRow :=
  actor ← master_writer auth; transition_wo (user_id actor) id WoStatus.Cancelled.

Definition close_order (auth : AuthUser) (id : string) : Api WorkOrderRow :=
  actor ← master_writer auth; transition_wo (user_id actor) id WoStatus.Closed.

Definition record_count (op_id work_center_id : string) (good scrap : Z)
    (scrap_reason_id : option string) (ts : DateTime) : Repo WoOperationRow :=
  transaction map_sqlx (
    id ← new_id;
    t ← now;
    map_err map_sqlx (insert Production_counts
      (mkProductionCountRow id ts work_center_id None good scrap (Some op_id)
         scrap_reason_id)) ;;
    map_err map_sqlx (fetch_one (update Wo_operations (by_id Wo_operations op_id)
      (add_counts good scrap t)))).

(** *** [exec.rs] *)

Definition start_operation (op_id : string) : Repo WoOperationRow :=
  t ← now;
  update_by_id Wo_operations op_id
    (λ r, r <| op_status := "in_progress" |>
            <| op_started_at := Some (default t (op_started_at r)) |>
            <| op_updated_at := t |>).

Definition start_op (auth : AuthUser) (op_id : string) : Api WoOperationRow :=
  require_pool ;;
  op ← map_err repo_err (get_by_id Wo_operations op_id);
  current ← ok_or (OpStatus.parse (op_status op)) (err 500 "internal" "unknown operation status");
  throw_if (negb (OpStatus.can_transition current OpStatus.InProgress))
    (err 409 "invalid_transition" "operation cannot be started from its current status") ;;
  updated ← map_err repo_err (start_operation op_id);
  wo ← map_err repo_err (get_work_order (op_work_order_id op));
  (if bool_decide (WoStatus.parse (wo_status wo) = Some WoStatus.Released) then
     transition_wo (user_id auth) (op_work_order_id op) WoStatus.InProgress ;; mret tt
   else mret tt) ;;
  audit (Some (user_id auth)) "start" "wo_operation" (Some op_id) None ;;
  publish (OperationStarted (op_work_order_id op) op_id) ;;
  mret updated.

Definition oee_inputs (work_center_id : string) (start end_ : DateTime) :
    Repo (OeeInputs spec_float) :=
  '(run_s, planned_s) ← map_err map_sqlx_plain (query (λ db,
     (epoch (clamped_time "running" work_center_id start end_ db),
      epoch (clamped_time "planned_stop" work_center_id start end_ db))));
  '(good, total) ← map_err map_sqlx_plain (select_ (λ db,
     match count_sums work_center_id start end_ db with
     | Ok (good, total) => Ok (of_int good, of_int total)
     | Err e => Err e
     end));
  wc ← map_err map_sqlx_plain (fetch_optional
         (fetch Work_centers (by_id Work_centers work_center_id)));
  let ideal := default (of_int 0)
    (decimal_to_float <$> (wc ≫= wc_ideal_cycle_seconds)) in
  let window_s := (of_int (Z.quot (end_ - start) 1000) / of_int 1000)%num in
  mret (mkOeeInputs (window_s - planned_s)%num run_s ideal total good).

Definition publish_oee_snapshot (work_center_id : string) : Api unit :=
  HasPool (λ pool, if negb pool then mret tt else
    Now (λ t, resume (oee_inputs work_center_id (days (date_naive t)) t) (λ r,
      match r with
      | Ok inputs =>
          let r := compute inputs in
          publish (OeeSnapshot work_center_id (availability r) (performance r) (quality r)
                     (oee r))
      | Err _ => mret tt
      end))).

Definition record_count_endpoint (auth : AuthUser) (op_id : string) (input : CountInput) :
    Api WoOperationRow :=
  require_pool ;;
  throw_if ((ci_good input <? 0) || (ci_scrap input <? 0))
    (err 400 "bad_request" "counts must be non-negative") ;;
  throw_if ((0 <? ci_scrap input) && bool_decide (ci_scrap_reason_id input = None))
    (err 400 "scrap_reason_required" "a scrap_reason_id is required when scrap > 0") ;;
  op ← map_err repo_err (get_by_id Wo_operations op_id);
  wc_id ← ok_or (op_work_center_id op)
    (err 400 "no_work_center" "operation has no work center to attribute counts to");
  t ← now;
  let ts := default t (ci_ts input) in
  updated ← map_err repo_err (record_count op_id wc_id (ci_good input) (ci_scrap input)
    (ci_scrap_reason_id input) ts);
  publish (CountRecorded op_id (ci_good input) (ci_scrap input)) ;;
  publish_oee_snapshot wc_id ;;
  mret updated.

Definition complete_wo (auth : AuthUser) (id : string) : Api WorkOrderRow :=
  transition_wo (user_id auth) id WoStatus.Completed.

(** *** [trace.rs], [repo_trace.rs] *)

Definition is_held (entity_type entity_id : string) : Repo bool :=
  map_err map_sqlx (query (λ db, exists_row (holds_entity entity_type entity_id) (db Holds))).

Definition check_not_held (entity_type : string) (entity_id : option string)
    (message : string) : Repo unit :=
  match entity_id with
  | Some id => held ← is_held entity_type id; throw_if held (Conflict message)
  | None => mret tt
  end.

Definition issue_material (lot_id serial_id : option string) (qty : Decimal)
    (wo_operation_id : option string) (user_id : string) : Repo string :=
  check_not_held "lot" lot_id "lot is on hold" ;;
  check_not_held "serial" serial_id "serial is on hold" ;;
  id ← new_id;
  t ← now;
  map_err map_sqlx (insert Material_txns (mkMaterialTxnRow id lot_id serial_id "issue" qty
    wo_operation_id t (Some user_id))) ;;
  mret id.

Definition issue_material_endpoint (auth : AuthUser) (input : IssueMaterialInput) :
    Api string :=
  require_pool ;;
  map_err repo_err (issue_material (ii_lot_id input) (ii_serial_id input) (ii_qty input)
    (ii_wo_operation_id input) (user_id auth)).

Definition place_hold (entity_type entity_id : string) (reason : option string)
    (created_by : string) : Repo string :=
  id ← new_id;
  t ← now;
  map_err map_sqlx (insert Holds (mkHoldRow id entity_type entity_id reason "active"
    (Some created_by) None t None None)) ;;
  mret id.

Definition place_hold_endpoint (auth : AuthUser) (input : HoldInput) : Api string :=
  throw_if (negb (can_manage_quality (role auth)))
    (err 403 "forbidden" "role may not place holds") ;;
  require_pool ;;
  id ← map_err repo_err (place_hold (hi_entity_type input) (hi_entity_id input)
    (hi_reason input) (user_id auth));
  audit (Some (user_id auth)) "hold" (hi_entity_type input) (Some (hi_entity_id input)) None ;;
  mret id.

Definition release_hold (hold_id released_by : string) : Repo unit :=
  t ← now;
  rows ← map_err map_sqlx (update Holds
    (λ h, by_id Holds hold_id h && String.eqb (hd_status h) "active")
    (λ h, h <| hd_status := "released"%string |> <| hd_released_by := Some released_by |>
            <| hd_released_at := Some t |>));
  throw_if (bool_decide (length rows = 0%nat)) NotFound.

Definition release_hold_endpoint (auth : AuthUser) (id : string) : Api unit :=
  throw_if (negb (can_manage_quality (role auth)))
    (err 403 "forbidden" "role may not release holds") ;;
  require_pool ;;
  map_err repo_err (release_hold id (user_id auth)).

(** *** [qms.rs], [repo_qms.rs] *)

Definition auto_hold (ncr_id inspected_by : string) (entity : string * option string) :
    Repo unit :=
  match entity.2 with
  | Some id =>
      hid ← new_id;
      t ← now;
      map_err map_sqlx (insert Holds (mkHoldRow hid entity.1 id (Some "NCR auto-hold"%string)
        "active" (Some inspected_by) None t None (Some ncr_id))) ;;
      mret tt
  | None => mret tt
  end.

Definition raise_ncr (result_id : string) (lot_id serial_id : option string)
    (inspected_by : string) : Repo NcrRow :=
  part_id ← match lot_id with
            | Some l =>
                lot ← map_err map_sqlx (fetch_optional (fetch Lots (by_id Lots l)));
                mret (lt_part_id <$> lot)
            | None => mret None
            end;
  ncr_id ← new_id;
  t ← now;
  row ← map_err map_sqlx (insert Ncrs
    (mkNcrRow ncr_id (ncr_number ncr_id) (Some result_id) lot_id serial_id part_id "open" None
       (Some "inspection failure"%string) None None t t));
  forM_ [("lot"%string, lot_id); ("serial"%string, serial_id)]
    (auto_hold ncr_id inspected_by) ;;
  mret row.

Definition record_result (characteristic_id : string)
    (lot_id serial_id wo_operation_id : option string) (measured_value : Decimal)
    (inspected_by : string) : Repo (InspectionResult * option NcrRow) :=
  limits ← map_err map_sqlx (fetch_optional
    (fetch Characteristics (by_id Characteristics characteristic_id)));
  c ← ok_or limits NotFound;
  let outcome := evaluate measured_value (ch_lower_limit c) (ch_upper_limit c) in
  '(result_id, ncr) ← transaction map_sqlx (
    result_id ← new_id;
    t ← now;
    map_err map_sqlx (insert Inspection_results
      (mkResultRow result_id characteristic_id lot_id serial_id wo_operation_id
         measured_value (InspectionOutcome.as_str outcome) (Some inspected_by) t)) ;;
    ncr ← (if bool_decide (outcome = InspectionOutcome.Fail)
           then row ← raise_ncr result_id lot_id serial_id inspected_by; mret (Some row)
           else mret None);
    mret (result_id, ncr));
  t ← now;
  mret (mkInspectionResult result_id characteristic_id lot_id serial_id measured_value
          (InspectionOutcome.as_str outcome) t, ncr).

Definition record_result_endpoint (auth : AuthUser) (input : ResultInput) :
    Api (InspectionResult * option NcrRow) :=
  require_pool ;;
  '(result, ncr) ← map_err repo_err (record_result (ri_characteristic_id input)
    (ri_lot_id input) (ri_serial_id input) (ri_wo_operation_id input)
    (ri_measured_value input) (user_id auth));
  (match ncr with
   | Some n =>
       audit (Some (user_id auth)) "raise" "ncr" (Some (nc_id n)) None ;;
       publish (NcrRaised (nc_id n) (nc_ncr_no n) (nc_lot_id n))
   | None => mret tt
   end) ;;
  mret (result, ncr).

Definition disposition_ncr (id : string) (disposition : Disposition.t)
    (reason : option string) (actor : string) : Repo NcrRow :=
  transaction map_sqlx (
    t ← now;
    row ← map_err map_sqlx (fetch_optional (update Ncrs
      (λ r, by_id Ncrs id r && String.eqb (nc_status r) "open")
      (dispose disposition reason actor t)));
    row ← ok_or row NotFound;
    (if Disposition.releases_hold disposition then
       map_err map_sqlx (update Holds (active_of_ncr id) (released actor t)) ;; mret tt
     else mret tt) ;;
    mret row).

Definition require_quality (auth : AuthUser) : Api unit :=
  throw_if (negb (can_manage_quality (role auth))) (err 403 "forbidden" "quality role required").

Definition disposition_ncr_endpoint (auth : AuthUser) (id disposition : string)
    (reason : option string) : Api NcrRow :=
  require_quality auth ;;
  require_pool ;;
  d ← ok_or (Disposition.parse disposition)
    (err 400 "bad_disposition" "disposition must be rework|scrap|use_as_is|return");
  ncr ← map_err repo_err (disposition_ncr id d reason (user_id auth));
  audit (Some (user_id auth)) "disposition" "ncr" (Some id)
    (Some (JObj [("disposition"%string, JStr (Disposition.as_str d))])) ;;
  mret ncr.

(** *** [cmms.rs], [repo_cmms.rs] *)

Definition create_maintenance_wo (work_center_id : string) (pm_schedule_id : option string)
    (wo_type : string) (notes : option string) : Repo MwoRow :=
  ty ← ok_or (MaintenanceType.parse wo_type) (InvalidReference "unknown wo_type");
  id ← new_id;
  t ← now;
  map_err map_sqlx (insert Maintenance_work_orders
    (mkMwoRow id work_center_id pm_schedule_id (MaintenanceType.as_str ty) "requested" None
       None notes t None None None None t t)).

Definition transition_maintenance_wo (id next : string)
    (technician_id failure_code : option string) : Repo MwoRow :=
  next ← ok_or (MaintenanceStatus.parse next) (InvalidReference "unknown status");
  transaction map_sqlx (
    row ← map_err map_sqlx (fetch_optional
      (fetch_for_update Maintenance_work_orders (by_id Maintenance_work_orders id)));
    row ← ok_or row NotFound;
    cur ← ok_or (MaintenanceStatus.parse (mw_status row)) (Conflict "corrupt status");
    throw_if (negb (MaintenanceStatus.can_transition cur next))
      (Conflict (String.append "cannot move " (String.append (MaintenanceStatus.as_str cur)
        (String.append " -> " (MaintenanceStatus.as_str next))))) ;;
    t ← now;
    map_err map_sqlx (fetch_one (update Maintenance_work_orders
      (by_id Maintenance_work_orders id) (advance next technician_id failure_code t)))).

Definition record_spare_txn (spare_part_id : string) (maintenance_wo_id : option string)
    (txn_type : string) (qty : Decimal) (user_id : string) :
    Repo (string * Decimal * option ProcRow) :=
  amount ← ok_or (signed txn_type qty) (InvalidReference "unknown txn_type");
  spare ← map_err map_sqlx (fetch_optional
    (fetch Spare_parts (by_id Spare_parts spare_part_id)));
  spare ← ok_or spare NotFound;
  transaction map_sqlx (
    txn_id ← new_id;
    t ← now;
    map_err map_sqlx (insert Spare_txns (mkSpareTxnRow txn_id spare_part_id
      maintenance_wo_id txn_type amount t (Some user_id))) ;;
    stock ← map_err map_sqlx (query (stock_of spare_part_id));
    request ←
      (if (stock <=? sp_reorder_point spare) && (0 <? sp_reorder_qty spare) then
         id ← new_id;
         map_err map_sqlx (insert_or_ignore Procurement_requests open_reorder_conflict
           (reorder_request id spare_part_id (sp_reorder_qty spare) t))
       else mret None);
    mret (txn_id, stock, request)).

Definition create_procurement_request (spare_part_id : string) (qty_requested : Decimal) :
    Repo ProcRow :=
  id ← new_id;
  t ← now;
  map_err map_sqlx (insert Procurement_requests
    (mkProcRow id spare_part_id qty_requested
       (ProcurementReason.as_str ProcurementReason.Manual) "requested" None None t t)).

Definition require_maintenance (auth : AuthUser) : Api unit :=
  throw_if (negb (can_manage_maintenance (role auth)))
    (err 403 "forbidden" "maintenance role required").

Definition create_maintenance_wo_endpoint (auth : AuthUser) (input : MaintenanceWoInput) :
    Api MwoRow :=
  require_maintenance auth ;;
  require_pool ;;
  wo ← map_err repo_err (create_maintenance_wo (mwi_work_center_id input)
    (mwi_pm_schedule_id input) (mwi_wo_type input) (mwi_notes input));
  audit (Some (user_id auth)) "create" "maintenance_wo" (Some (mw_id wo)) None ;;
  mret wo.

Definition transition_maintenance_wo_endpoint (auth : AuthUser) (id : string)
    (input : MaintenanceTransitionInput) : Api MwoRow :=
  require_maintenance auth ;;
  require_pool ;;
  wo ← map_err repo_err (transition_maintenance_wo id (mti_status input)
    (mti_technician_id input) (mti_failure_code input));
  audit (Some (user_id auth)) "transition" "maintenance_wo" (Some id)
    (Some (JObj [("status"%string, JStr (mti_status input))])) ;;
  mret wo.

Definition record_spare_txn_endpoint (auth : AuthUser) (input : SpareTxnInput) :
    Api SpareTxnResponse :=
  require_maintenance auth ;;
  require_pool ;;
  '(txn_id, stock, request) ← map_err repo_err (record_spare_txn (sti_spare_part_id input)
    (sti_maintenance_wo_id input) (sti_txn_type input) (sti_qty input) (user_id auth));
  mret (mkSpareTxnResponse txn_id stock request).

Definition create_procurement_request_endpoint (auth : AuthUser) (spare_part_id : string)
    (qty_requested : Decimal) : Api ProcRow :=
  require_maintenance auth ;;
  require_pool ;;
  req ← map_err repo_err (create_procurement_request spare_part_id qty_requested);
  audit (Some (user_id auth)) "create" "procurement_request" (Some (pr_id req)) None ;;
  mret req.

(** *** Orders and downtime *)

Definition enqueue (aggregate entity_id op : string) (payload : Json)
    (destination : option string) : Repo string :=
  id ← new_id;
  t ← now;
  map_err map_sqlx (insert Outbox
    (mkOutboxRow id aggregate entity_id op payload destination t None)) ;;
  mret id.

Definition insert_operation (wo_id : string) (op : WoOperationInput) : Repo WoOperationRow :=
  id ← new_id;
  t ← now;
  map_err map_sqlx (insert Wo_operations
    (mkWoOperationRow id wo_id (oi_routing_op_id op) (oi_op_no op) (oi_work_center_id op)
       "pending" 0 0 None None t t)).

Definition create_work_order (input : WorkOrderInput) : Repo WorkOrderDetail :=
  transaction map_sqlx (
    wo_id ← new_id;
    t ← now;
    wo ← map_err map_sqlx (insert Work_orders
      (mkWorkOrderRow wo_id (wi_wo_number input) (wi_part_id input) (wi_routing_id input)
         (wi_qty_ordered input) (default 100 (wi_priority input)) "draft"
         (wi_planned_start input) (wi_planned_end input) t t None));
    operations ← mapM_list (insert_operation wo_id) (wi_operations input);
    enqueue "work_order" wo_id "upsert" (order_payload wo_id input) None ;;
    mret (mkWorkOrderDetail wo operations)).

Definition create_order (auth : AuthUser) (input : WorkOrderInput) : Api WorkOrderDetail :=
  actor ← master_writer auth;
  require_pool ;;
  detail ← map_err repo_err (create_work_order input);
  audit (Some (user_id actor)) "create" "work_order" (Some (wo_id (work_order detail))) None ;;
  mret detail.

Definition classify_downtime (id reason_id classified_by : string) : Repo DowntimeRow :=
  t ← now;
  update_by_id Downtime_events id
    (λ r, r <| de_reason_id := Some reason_id |> <| de_classified_by := Some classified_by |>
            <| de_classified_at := Some t |>).

Definition split_downtime (id : string) (at_ : DateTime)
    (first_reason second_reason : option string) (classified_by : string) :
    Repo (DowntimeRow * DowntimeRow) :=
  transaction map_sqlx (
    original ← get_by_id Downtime_events id;
    throw_if ((at_ <=? de_start_ts original) || (de_end_ts original <=? at_))
      (Conflict "split point must lie strictly inside the event") ;;
    t ← now;
    first ← map_err map_sqlx (fetch_one (update Downtime_events (by_id Downtime_events id)
      (shrink_downtime at_ first_reason classified_by t)));
    nid ← new_id;
    second ← map_err map_sqlx (insert Downtime_events
      (mkDowntimeRow nid (de_work_center_id original) (de_state original) at_
         (de_end_ts original) second_reason
         (match second_reason with None => None | Some _ => Some classified_by end)
         (match second_reason with None => None | Some _ => Some t end)));
    mret (first, second)).

Definition classify_downtime_endpoint (auth : AuthUser) (id reason_id : string) :
    Api DowntimeRow :=
  require_pool ;;
  event ← map_err repo_err (classify_downtime id reason_id (user_id auth));
  publish (DowntimeClassified id reason_id) ;;
  mret event.

Definition publish_reason (ev : DowntimeRow) : Api unit :=
  match de_reason_id ev with
  | Some reason => publish (DowntimeClassified (de_id ev) reason)
  | None => mret tt
  end.

Definition split_downtime_endpoint (auth : AuthUser) (id : string)
    (input : SplitDowntimeInput) : Api (list DowntimeRow) :=
  require_pool ;;
  '(first, second) ← map_err repo_err (split_downtime id (si_at input)
    (si_first_reason_id input) (si_second_reason_id input) (user_id auth));
  forM_ [first; second] publish_reason ;;
  mret [first; second].

(** *** [dnc.rs], [repo_dnc.rs] *)

Definition resolve_next_transfer (completed_op_id : string) : Repo (option NextTransfer) :=
  op ← map_err map_sqlx (fetch_optional
    (fetch Wo_operations (by_id Wo_operations completed_op_id)));
  match op with
  | None => mret None
  | Some op =>
      next ← map_err map_sqlx (fetch_optional
        (query (next_pending (op_work_order_id op) (op_op_no op))));
      match next with
      | None => mret None
      | Some next =>
          program ← map_err map_sqlx (fetch_optional
            (query (eligible_programs (op_work_order_id op) (op_routing_op_id next))));
          mret ((λ p, mkNextTransfer (op_id next) (pg_id p) (pg_program_identifier p)
                        (pg_target_machine p)) <$> program)
      end
  end.

Definition program_dispatch_info (program_id : string) :
    Repo (option (string * option string)) :=
  row ← map_err map_sqlx (fetch_optional
    (fetch Schema.Programs (by_id Schema.Programs program_id)));
  mret (fmap (M := option) (λ p, (pg_program_identifier p, pg_target_machine p)) row).

Definition create_transfer (wo_operation_id : option string) (program_id direction : string)
    (dnc_daemon_ref : option string) : Repo TransferRow :=
  id ← new_id;
  t ← now;
  map_err map_sqlx (insert Dnc_transfer_events
    (mkTransferRow id wo_operation_id program_id direction "scheduled" dnc_daemon_ref t
       None t t)).

Definition dnc_send (cmd : DncCommand) : Prog DncBridgeError string :=
  consult (daemon_send cmd).

Definition schedule_transfer (program_id program_identifier : string)
    (machine wo_operation_id : option string) : Api TransferRow :=
  require_pool ;;
  daemon_ref ← map_err (λ e, err 502 "dnc_unavailable"
      (String.append "dnc-daemon rejected the command: " (bridge_message e)))
    (dnc_send (SendProgram program_identifier machine));
  transfer ← map_err repo_err (create_transfer wo_operation_id program_id
    (TransferDirection.as_str TransferDirection.ToMachine) (Some daemon_ref));
  publish (DncTransferScheduled (tr_id transfer) program_id program_identifier
             wo_operation_id) ;;
  mret transfer.

Definition on_job_complete (completed_op_id : string) : Api unit :=
  HasPool (λ pool, if negb pool then mret tt else
    resume (resolve_next_transfer completed_op_id) (λ r,
      match r with
      | Ok (Some next) =>
          best_effort (schedule_transfer (nt_program_id next) (nt_program_identifier next)
            (nt_target_machine next) (Some (nt_next_op_id next)))
      | _ => mret tt
      end)).

Definition manual_transfer (auth : AuthUser) (input : ManualTransferInput) : Api TransferRow :=
  require_pool ;;
  info ← map_err repo_err (program_dispatch_info (mi_program_id input));
  '(identifier, machine) ← ok_or info (err 404 "not_found" "program not found");
  let machine := match mi_machine input with Some m => Some m | None => machine end in
  schedule_transfer (mi_program_id input) identifier machine (mi_wo_operation_id input).

Definition retry_transfer (auth : AuthUser) (id : string) : Api TransferRow :=
  require_pool ;;
  existing ← map_err repo_err (get_by_id Dnc_transfer_events id);
  info ← map_err repo_err (program_dispatch_info (tr_program_id existing));
  '(identifier, machine) ← ok_or info (err 404 "not_found" "program not found");
  schedule_transfer (tr_program_id existing) identifier machine (tr_wo_operation_id existing).

Definition find_open_transfer_by_ref (dnc_daemon_ref : string) : Repo (option TransferRow) :=
  map_err map_sqlx (fetch_optional (query (λ db,
    order_by_desc tr_triggered_at
      (select (λ t, bool_decide (tr_dnc_daemon_ref t = Some dnc_daemon_ref) && is_open t)
        (db Dnc_transfer_events))))).

Definition set_transfer_status (id status : string) : Repo TransferRow :=
  t ← now; update_by_id Dnc_transfer_events id (set_transfer status t).

(** [handle_daemon_event] of a transfer that has ended. *)
Definition transfer_completed (reference : string) : Api unit :=
  require_pool ;;
  o ← map_err repo_err (find_open_transfer_by_ref reference);
  match o with
  | Some t =>
      map_err repo_err (set_transfer_status (tr_id t)
        (TransferStatus.as_str TransferStatus.Completed)) ;;
      publish (DncTransferCompleted (tr_id t))
  | None => mret tt
  end.

Definition transfer_failed (reference : string) : Api unit :=
  require_pool ;;
  o ← map_err repo_err (find_open_transfer_by_ref reference);
  match o with
  | Some t =>
      map_err repo_err (set_transfer_status (tr_id t)
        (TransferStatus.as_str TransferStatus.Failed)) ;;
      mret tt
  | None => mret tt
  end.

Definition find_program_id_by_identifier (identifier : string) : Repo (option string) :=
  row ← map_err map_sqlx (fetch_optional (query (λ db,
    order_by_desc pg_created_at
      (select (λ p, String.eqb (pg_program_identifier p) identifier) (db Schema.Programs)))));
  mret (fmap (M := option) pg_id row).

Definition create_draft_revision (program_id source : string)
    (content_ref submitted_by : option string) : Repo RevisionRow :=
  id ← new_id;
  t ← now;
  map_err map_sqlx (insert_from Program_revisions
    (draft_revision id program_id source content_ref submitted_by t)).

Definition program_received (program : string) (content_ref : option string) : Api unit :=
  require_pool ;;
  o ← map_err repo_err (find_program_id_by_identifier program);
  match o with
  | Some program_id =>
      rev ← map_err repo_err (create_draft_revision program_id "operator_edit" content_ref None);
      publish (ProgramRevisionDrafted (rv_id rev) program_id)
  | None => mret tt
  end.

Definition set_revision_status (id status actor : string) : Repo RevisionRow :=
  t ← now;
  update_by_id Program_revisions id
    (λ r, r <| rv_status := status |> <| rv_promoted_by := Some actor |>
            <| rv_promoted_at := Some t |> <| rv_updated_at := t |>).

Definition transition_revision (auth : AuthUser) (id : string) (target : RevisionStatus.t) :
    Api RevisionRow :=
  throw_if (negb (can_promote_revision (role auth)))
    (err 403 "forbidden" "role may not review program revisions") ;;
  require_pool ;;
  rev ← map_err repo_err (get_by_id Program_revisions id);
  current ← ok_or (RevisionStatus.parse (rv_status rev)) (err 500 "internal" "bad status");
  throw_if (negb (RevisionStatus.can_transition current target))
    (err 409 "invalid_transition"
      (String.append "revision cannot move from " (String.append
        (RevisionStatus.as_str current) (String.append " to "
          (RevisionStatus.as_str target))))) ;;
  updated ← map_err repo_err
    (set_revision_status id (RevisionStatus.as_str target) (user_id auth));
  audit (Some (user_id auth)) (RevisionStatus.as_str target) "program_revision" (Some id)
    None ;;
  mret updated.

Definition complete_operation (op_id : string) : Repo WoOperationRow :=
  t ← now;
  update_by_id Wo_operations op_id
    (λ r, r <| op_status := "completed" |> <| op_completed_at := Some t |>
            <| op_updated_at := t |>).

Definition complete_op (auth : AuthUser) (op_id : string) : Api WoOperationRow :=
  require_pool ;;
  op ← map_err repo_err (get_by_id Wo_operations op_id);
  current ← ok_or (OpStatus.parse (op_status op)) (err 500 "internal" "unknown operation status");
  throw_if (negb (OpStatus.can_transition current OpStatus.Completed))
    (err 409 "invalid_transition" "operation cannot be completed from its current status") ;;
  updated ← map_err repo_err (complete_operation op_id);
  audit (Some (user_id auth)) "complete" "wo_operation" (Some op_id) None ;;
  publish (OperationCompleted (op_work_order_id op) op_id) ;;
  on_job_complete op_id ;;
  mret updated.

(** *** [ingest.rs], [repo_ingest.rs] *)

Definition resolve_source (source_key : string) : Repo (option SignalSourceRow) :=
  map_err map_sqlx_plain (fetch_optional (fetch Signal_sources
    (λ s, String.eqb (ss_source_key s) source_key))).

Definition insert_machine_event (ts : DateTime) (work_center_id source_id event_type : string)
    (payload : option Json) : Repo unit :=
  id ← new_id;
  map_err map_sqlx_plain (insert Machine_events
    (mkMachineEventRow id ts work_center_id (Some source_id) event_type payload)) ;;
  mret tt.

Definition insert_production_count (ts : DateTime) (work_center_id source_id : string)
    (good scrap : Z) : Repo unit :=
  id ← new_id;
  map_err map_sqlx_plain (insert Production_counts
    (mkProductionCountRow id ts work_center_id (Some source_id) good scrap None None)) ;;
  mret tt.

Definition cached_source (cache : gmap string (option SignalSourceRow)) (key : string) :
    Api (option SignalSourceRow * gmap string (option SignalSourceRow)) :=
  match cache !! key with
  | Some s => mret (s, cache)
  | None =>
      s ← map_err repo_err (resolve_source key);
      mret (s, <[key := s]> cache)
  end.

Definition store_signal (sig : RawSignal) (source : SignalSourceRow) : Api unit :=
  match event sig with
  | Cycle | Heartbeat =>
      map_err repo_err (insert_machine_event (ts sig) (ss_work_center_id source)
        (ss_id source) (event_type (event sig)) None)
  | Count good scrap =>
      map_err repo_err (insert_production_count (ts sig) (ss_work_center_id source)
        (ss_id source) good scrap)
  end.

Fixpoint ingest_loop (signals : list RawSignal)
    (cache : gmap string (option SignalSourceRow)) (acc : IngestResult) :
    Api IngestResult :=
  match signals with
  | [] => mret acc
  | sig :: rest =>
      '(s, cache) ← cached_source cache (source_key sig);
      match s with
      | Some source =>
          if ss_enabled source then
            store_signal sig source ;;
            ingest_loop rest cache (mkIngestResult (S (accepted acc)) (dropped acc))
          else ingest_loop rest cache (mkIngestResult (accepted acc) (S (dropped acc)))
      | None => ingest_loop rest cache (mkIngestResult (accepted acc) (S (dropped acc)))
      end
  end.

Definition ingest_signals (auth : AuthUser) (signals : list RawSignal) : Api IngestResult :=
  require_pool ;;
  ingest_loop signals ∅ (mkIngestResult 0 0).

Definition fetch_cycle_pulses (work_center_id : string) (start end_ : DateTime) :
    Repo (list DateTime) :=
  map_err map_sqlx_plain (query (λ db,
    map me_ts (order_by me_ts
      (select (is_cycle_in work_center_id start end_) (db Machine_events))))).

Definition fetch_planned_intervals (work_center_id : string) (start end_ : DateTime) :
    Repo (list PlannedInterval) :=
  map_err map_sqlx_plain (query (λ db,
    map (λ p, mkPlanned (ps_starts_at p) (ps_ends_at p))
      (order_by ps_starts_at
        (select (planned_in work_center_id start end_) (db Planned_stops))))).

Definition insert_state (work_center_id : string) (iv : StateInterval) : Repo unit :=
  id ← new_id;
  map_err map_sqlx_plain (insert Machine_states
    (mkMachineStateRow id work_center_id (state_str (iv_state iv))
       (iv_start iv) (iv_end iv))) ;;
  mret tt.

Definition insert_downtime (work_center_id : string) (d : DowntimeEvent) : Repo unit :=
  map_err map_sqlx_plain (insert Downtime_events (downtime_row work_center_id d)) ;;
  mret tt.

Definition replace_derived (work_center_id : string) (window_start window_end : DateTime)
    (states : list StateInterval) (downtime : list DowntimeEvent) : Repo unit :=
  transaction map_sqlx_plain (
    map_err map_sqlx_plain (delete Machine_states
      (state_overlaps work_center_id window_start window_end)) ;;
    forM_ states (insert_state work_center_id) ;;
    map_err map_sqlx_plain (delete Downtime_events
      (unclassified_overlaps work_center_id window_start window_end)) ;;
    forM_ downtime (insert_downtime work_center_id)).

(** [downtime_events(&states)], which draws an identifier per event. *)
Definition draw_downtime_events (states : list StateInterval) : Repo (list DowntimeEvent) :=
  mapM_list (λ iv, id ← new_id;
      mret (mkDowntimeEvent id (iv_state iv) (iv_start iv) (iv_end iv)))
    (select (λ iv, is_stop (iv_state iv) && negb (bool_decide (iv_state iv = PlannedStop)))
       states).

Definition recompute_states (work_center_id : string) (start end_ : DateTime) :
    Repo (nat * nat) :=
  let cfg := StateConfig_default in
  pulses ← fetch_cycle_pulses work_center_id start end_;
  planned ← fetch_planned_intervals work_center_id start end_;
  let raw := compute_states cfg pulses start end_ in
  let states := apply_planned_stops raw planned in
  downtime ← draw_downtime_events states;
  replace_derived work_center_id start end_ states downtime ;;
  mret (length states, length downtime).

Definition recompute (auth : AuthUser) (work_center_id : string) (start end_ : DateTime) :
    Api RecomputeResult :=
  require_pool ;;
  '(states, downtime) ← map_err repo_err (recompute_states work_center_id start end_);
  mret (mkRecomputeResult states downtime).

(** *** Lots, plans, schedules and parts *)

Definition create_lot (lot_no part_id : string) (qty : Decimal) (uom : string) :
    Repo LotRow :=
  id ← new_id;
  t ← now;
  map_err map_sqlx (insert Lots (mkLotRow id lot_no part_id qty uom t t)).

Definition create_serial (serial_no part_id : string) (lot_id : option string) :
    Repo SerialRow :=
  id ← new_id;
  t ← now;
  map_err map_sqlx (insert Serials (mkSerialRow id serial_no part_id lot_id t t)).

Definition add_genealogy (parent_type parent_id child_type child_id : string)
    (qty : option Decimal) : Repo unit :=
  id ← new_id;
  t ← now;
  map_err map_sqlx (insert_or_ignore Genealogy same_edge
    (mkGenealogyRow id parent_type parent_id child_type child_id qty t)) ;;
  mret tt.

Definition create_plan (part_id code name : string) : Repo PlanRow :=
  id ← new_id;
  t ← now;
  map_err map_sqlx (insert Inspection_plans (mkPlanRow id part_id code name t t)).

Definition create_characteristic (plan_id name : string) (uom : option string)
    (nominal lower upper : option Decimal) : Repo CharRow :=
  id ← new_id;
  map_err map_sqlx (insert Characteristics
    (mkCharRow id plan_id name uom nominal lower upper)).

Definition create_pm_schedule {cmms : CmmsEnv} (work_center_id name trigger_type : string)
    (interval_value : Decimal) (checklist_ref : option string) : Repo PmRow :=
  trigger ← ok_or (PmTrigger.parse trigger_type)
    (InvalidReference "unknown trigger_type");
  match trigger with
  | PmTrigger.Calendar =>
      id ← new_id;
      t ← now;
      map_err map_sqlx (insert Pm_schedules
        (mkPmRow id work_center_id name "calendar" interval_value (Some t)
           (Some (t + interval_days interval_value)) None None checklist_ref true t t))
  | PmTrigger.UsageHours =>
      baseline ← map_err map_sqlx (query (run_hours work_center_id));
      let next_due := usage_next_due baseline interval_value in
      id ← new_id;
      t ← now;
      map_err map_sqlx (insert Pm_schedules
        (mkPmRow id work_center_id name "usage_hours" interval_value None None
           (Some baseline) (Some next_due) checklist_ref true t t))
  end.

Definition create_spare_part (code name uom : string) (reorder_point reorder_qty : Decimal) :
    Repo SparePart :=
  id ← new_id;
  row ← map_err map_sqlx (insert Spare_parts
    (mkSpareRow id code name uom reorder_point reorder_qty));
  mret (mkSparePart row 0).

Definition create_lot_endpoint (auth : AuthUser) (input : LotInput) : Api LotRow :=
  require_pool ;;
  map_err repo_err (create_lot (li_lot_no input) (li_part_id input)
    (default 0 (li_qty input)) (default "ea"%string (li_uom input))).

Definition create_serial_endpoint (auth : AuthUser) (input : SerialInput) : Api SerialRow :=
  require_pool ;;
  map_err repo_err (create_serial (sri_serial_no input) (sri_part_id input)
    (sri_lot_id input)).

Definition add_genealogy_endpoint (auth : AuthUser) (input : GenealogyEdgeInput) : Api unit :=
  require_pool ;;
  map_err repo_err (add_genealogy (gi_parent_type input) (gi_parent_id input)
    (gi_child_type input) (gi_child_id input) (gi_qty input)).

Definition create_plan_endpoint (auth : AuthUser) (input : PlanInput) : Api PlanRow :=
  require_quality auth ;;
  require_pool ;;
  map_err repo_err (create_plan (pi_part_id input) (pi_code input) (pi_name input)).

Definition create_characteristic_endpoint (auth : AuthUser) (input : CharacteristicInput) :
    Api CharRow :=
  require_quality auth ;;
  require_pool ;;
  map_err repo_err (create_characteristic (chi_plan_id input) (chi_name input) (chi_uom input)
    (chi_nominal input) (chi_lower_limit input) (chi_upper_limit input)).

Definition create_pm_schedule_endpoint {cmms : CmmsEnv} (auth : AuthUser)
    (input : PmScheduleInput) : Api PmRow :=
  require_maintenance auth ;;
  require_pool ;;
  sched ← map_err repo_err (create_pm_schedule (psi_work_center_id input) (psi_name input)
    (psi_trigger_type input) (psi_interval_value input) (psi_checklist_ref input));
  audit (Some (user_id auth)) "create" "pm_schedule" (Some (pm_id sched)) None ;;
  mret sched.

Definition create_spare_part_endpoint (auth : AuthUser) (input : SparePartInput) :
    Api SparePart :=
  require_maintenance auth ;;
  require_pool ;;
  map_err repo_err (create_spare_part (spi_code input) (spi_name input)
    (default "ea"%string (spi_uom input)) (default 0 (spi_reorder_point input))
    (default 0 (spi_reorder_qty input))).
End programs.
End Steps_of.

Definition ignore {A} (p : Prog ApiErr A) : Prog ApiErr unit := p ;; mret tt.

(** The program of a request. *)
Definition steps {env : Env} {cmms : CmmsEnv} (auth : AuthUser) (r : request) :
    Prog ApiErr unit :=
  match r with
  | CreateOrder input => ignore (Steps_of.create_order auth input)
  | ReleaseOrder id => ignore (Steps_of.release_order auth id)
  | CancelOrder id => ignore (Steps_of.cancel_order auth id)
  | CloseOrder id => ignore (Steps_of.close_order auth id)
  | StartOp op_id => ignore (Steps_of.start_op auth op_id)
  | RecordCount op_id input => ignore (Steps_of.record_count_endpoint auth op_id input)
  | CompleteOp op_id => ignore (Steps_of.complete_op auth op_id)
  | CompleteWo id => ignore (Steps_of.complete_wo auth id)
  | ClassifyDowntime id reason =>
      ignore (Steps_of.classify_downtime_endpoint auth id reason)
  | SplitDowntime id input => ignore (Steps_of.split_downtime_endpoint auth id input)
  | IngestSignals signals => ignore (Steps_of.ingest_signals auth signals)
  | Recompute wc start end_ => ignore (Steps_of.recompute auth wc start end_)
  | ManualTransfer input => ignore (Steps_of.manual_transfer auth input)
  | RetryTransfer id => ignore (Steps_of.retry_transfer auth id)
  | PromoteRevision id =>
      ignore (Steps_of.transition_revision auth id RevisionStatus.Promoted)
  | RejectRevision id =>
      ignore (Steps_of.transition_revision auth id RevisionStatus.Rejected)
  | InjectDaemonEvent (TransferCompleted reference) =>
      ignore (Steps_of.transfer_completed reference)
  | InjectDaemonEvent (TransferFailed reference _) =>
      ignore (Steps_of.transfer_failed reference)
  | InjectDaemonEvent (ProgramReceived program content_ref) =>
      ignore (Steps_of.program_received program content_ref)
  | CreateLot input => ignore (Steps_of.create_lot_endpoint auth input)
  | CreateSerial input => ignore (Steps_of.create_serial_endpoint auth input)
  | AddGenealogy input => ignore (Steps_of.add_genealogy_endpoint auth input)
  | IssueMaterial input => ignore (Steps_of.issue_material_endpoint auth input)
  | PlaceHold input => ignore (Steps_of.place_hold_endpoint auth input)
  | ReleaseHold id => ignore (Steps_of.release_hold_endpoint auth id)
  | CreatePlan input => ignore (Steps_of.create_plan_endpoint auth input)
  | CreateCharacteristic input =>
      ignore (Steps_of.create_characteristic_endpoint auth input)
  | RecordResult input => ignore (Steps_of.record_result_endpoint auth input)
  | DispositionNcr id d reason =>
      ignore (Steps_of.disposition_ncr_endpoint auth id d reason)
  | CreatePmSchedule input => ignore (Steps_of.create_pm_schedule_endpoint auth input)
  | CreateMaintenanceWo input =>
      ignore (Steps_of.create_maintenance_wo_endpoint auth input)
  | TransitionMaintenanceWo id input =>
      ignore (Steps_of.transition_maintenance_wo_endpoint auth id input)
  | CreateSparePart input => ignore (Steps_of.create_spare_part_endpoint auth input)
  | RecordSpareTxn input => ignore (Steps_of.record_spare_txn_endpoint auth input)
  | CreateProcurementRequest id qty =>
      ignore (Steps_of.create_procurement_request_endpoint auth id qty)
  end.

(** ** Alone, the programs are the handlers *)

(** The definitions a request unfolds to: those of the programs, of the writes that keep an
    invariant by an argument of their own, and of the handlers. *)
Create HintDb floor_steps.
Create HintDb floor_writes.
Create HintDb floor_handlers.
#[export] Hint Unfold Steps_of.create_order Steps_of.master_writer Steps_of.release_order
  Steps_of.cancel_order Steps_of.close_order Steps_of.start_op Steps_of.get_work_order
  Steps_of.record_count_endpoint Steps_of.complete_op Steps_of.complete_wo
  Steps_of.classify_downtime_endpoint Steps_of.classify_downtime
  Steps_of.split_downtime_endpoint Steps_of.publish_reason Steps_of.ingest_signals
  Steps_of.manual_transfer Steps_of.program_dispatch_info Steps_of.retry_transfer
  Steps_of.transition_revision Steps_of.set_revision_status Steps_of.program_received
  Steps_of.find_program_id_by_identifier Steps_of.create_draft_revision
  Steps_of.create_lot_endpoint Steps_of.create_lot Steps_of.create_serial_endpoint
  Steps_of.create_serial Steps_of.add_genealogy_endpoint Steps_of.add_genealogy
  Steps_of.issue_material_endpoint Steps_of.issue_material Steps_of.check_not_held
  Steps_of.is_held Steps_of.place_hold_endpoint Steps_of.place_hold
  Steps_of.release_hold_endpoint Steps_of.release_hold Steps_of.create_plan_endpoint
  Steps_of.create_plan Steps_of.require_quality Steps_of.create_characteristic_endpoint
  Steps_of.create_characteristic Steps_of.record_result_endpoint
  Steps_of.disposition_ncr_endpoint Steps_of.create_pm_schedule_endpoint
  Steps_of.create_pm_schedule Steps_of.require_maintenance
  Steps_of.create_maintenance_wo_endpoint Steps_of.create_maintenance_wo
  Steps_of.transition_maintenance_wo_endpoint Steps_of.create_spare_part_endpoint
  Steps_of.create_spare_part Steps_of.record_spare_txn_endpoint
  Steps_of.create_procurement_request_endpoint Steps_of.create_procurement_request
  Steps_of.transfer_completed Steps_of.transfer_failed Steps_of.find_open_transfer_by_ref
  Steps_of.set_transfer_status Steps_of.recompute
  Steps_of.recompute_states Steps_of.fetch_cycle_pulses Steps_of.fetch_planned_intervals :
  floor_steps.
#[export] Hint Unfold Steps_of.start_operation Steps_of.record_count Steps_of.complete_operation
  Steps_of.split_downtime Steps_of.record_result Steps_of.raise_ncr Steps_of.auto_hold
  Steps_of.disposition_ncr Steps_of.transition_maintenance_wo Steps_of.record_spare_txn Steps_of.replace_derived
  Steps_of.insert_state Steps_of.insert_downtime : floor_writes.
#[export] Hint Unfold create_order master_writer release_order cancel_order close_order start_op
  start_operation get_work_order get_operation parse_op_status record_count_endpoint
  record_count complete_op complete_operation complete_wo classify_downtime_endpoint
  classify_downtime split_downtime_endpoint split_downtime publish_reason get_downtime_event
  ingest_signals manual_transfer program_dispatch_info retry_transfer get_transfer
  transition_revision set_revision_status promote_revision get_revision reject_revision
  inject_daemon_event handle_daemon_event find_program_id_by_identifier create_draft_revision
  create_lot_endpoint create_lot create_serial_endpoint create_serial add_genealogy_endpoint
  add_genealogy issue_material_endpoint issue_material check_not_held is_held
  place_hold_endpoint place_hold release_hold_endpoint release_hold create_plan_endpoint
  create_plan require_quality create_characteristic_endpoint create_characteristic
  record_result_endpoint record_result raise_ncr auto_hold disposition_ncr_endpoint
  disposition_ncr create_pm_schedule_endpoint create_pm_schedule require_maintenance
  work_center_run_hours create_maintenance_wo_endpoint create_maintenance_wo
  transition_maintenance_wo_endpoint transition_maintenance_wo create_spare_part_endpoint
  create_spare_part record_spare_txn_endpoint record_spare_txn
  create_procurement_request_endpoint create_procurement_request find_open_transfer_by_ref
  set_transfer_status recompute recompute_states fetch_cycle_pulses fetch_planned_intervals
  replace_derived insert_state insert_downtime : floor_handlers.

Section alone_handlers.
Context {env : Env} {cmms : CmmsEnv}.

Lemma plays_create_work_order input :
  plays_in None (Steps_of.create_work_order input) (create_work_order input).
Proof.
  unfold Steps_of.create_work_order, create_work_order, Steps_of.insert_operation,
    insert_operation, Steps_of.enqueue, enqueue. play.
Qed.

Lemma plays_schedule_transfer a b c d :
  plays_in None (Steps_of.schedule_transfer a b c d) (schedule_transfer a b c d).
Proof.
  unfold Steps_of.schedule_transfer, schedule_transfer, Steps_of.dnc_send,
    Steps_of.create_transfer, create_transfer. play.
Qed.

Lemma plays_resolve_next_transfer op :
  plays (Steps_of.resolve_next_transfer op) (resolve_next_transfer op).
Proof.
  apply plays_outside. unfold Steps_of.resolve_next_transfer, resolve_next_transfer. play.
Qed.

Lemma plays_on_job_complete op :
  plays_in None (Steps_of.on_job_complete op) (on_job_complete op).
Proof.
  apply plays_outside. intros w. unfold Steps_of.on_job_complete, on_job_complete.
  cbn [alone]. destruct (w_pool w); cbn [negb alone]; [|done].
  rewrite alone_resume, plays_resolve_next_transfer.
  destruct (resolve_next_transfer op w) as [[[next|]|e] w']; [|done..].
  apply plays_outside, plays_best_effort, plays_schedule_transfer.
Qed.

Lemma plays_ingest_loop signals cache acc :
  plays_in None (Steps_of.ingest_loop signals cache acc) (ingest_loop signals cache acc).
Proof.
  revert cache acc. induction signals as [|sig rest IH]; intros cache acc; simpl; [play|].
  unfold Steps_of.cached_source, cached_source, Steps_of.resolve_source, resolve_source,
    Steps_of.store_signal, store_signal, Steps_of.insert_machine_event, insert_machine_event,
    Steps_of.insert_production_count, insert_production_count. play; apply IH.
Qed.

(** Identifiers drawn one after the other. *)
Lemma alone_draws {A B} (g : string → A → B) l : ∀ saved w,
  alone (mapM_list (λ x, id ← new_id; mret (g id x)) l : Prog RepoError (list B)) (saved, w) =
  (Ok (imap (λ k x, g (ulid (w_next w + k)%nat) x) l),
   (saved, w <| w_next := (w_next w + length l)%nat |>)).
Proof.
  induction l as [|x l IH]; intros saved w; simpl.
  - rewrite Nat.add_0_r. by destruct w.
  - unfold mbind, Prog_bind in *. rewrite alone_resume, IH. simpl.
    rewrite Nat.add_0_r, Nat.add_succ_r. do 3 f_equal.
    apply imap_ext. intros k y _. simpl. by rewrite Nat.add_succ_r.
Qed.

Lemma plays_draw_downtime states saved :
  plays_in saved (Steps_of.draw_downtime_events states) (draw_downtime_events states).
Proof.
  apply plays_exact. intros w. unfold Steps_of.draw_downtime_events, draw_downtime_events.
  rewrite alone_draws. unfold downtime_events. by rewrite length_imap.
Qed.

Hint Resolve plays_create_work_order plays_schedule_transfer plays_on_job_complete
  plays_ingest_loop plays_draw_downtime : plays.

Lemma plays_transition_wo actor id target :
  plays_in None (Steps_of.transition_wo actor id target) (transition_wo actor id target).
Proof.
  unfold Steps_of.transition_wo, transition_wo, Steps_of.get_work_order, get_work_order,
    Steps_of.set_work_order_status, set_work_order_status. play.
Qed.

Lemma plays_oee_snapshot wc :
  plays_in None (Steps_of.publish_oee_snapshot wc) (publish_oee_snapshot wc).
Proof.
  apply plays_outside. intros w. unfold Steps_of.publish_oee_snapshot, publish_oee_snapshot.
  cbn [alone]. destruct (w_pool w); cbn [negb alone]; [|done].
  assert (plays (Steps_of.oee_inputs wc (days (date_naive (w_now w))) (w_now w))
    (oee_inputs wc (days (date_naive (w_now w))) (w_now w))) as Ho.
  { apply plays_outside. unfold Steps_of.oee_inputs, oee_inputs. play. }
  rewrite alone_resume, Ho. by destruct (oee_inputs wc _ _ w) as [[]].
Qed.

Hint Resolve plays_transition_wo plays_oee_snapshot : plays.

(** A request that runs alone is served as its handler serves it. *)
Lemma steps_play auth r : plays (steps auth r) (handle auth r).
Proof.
  apply plays_outside.
  destruct r as [| | | | | | | | | | | | | | | |[]| | | | | | | | | | | | | | | |];
    cbn [steps handle]; unfold ignore, Sql.ignore;
    autounfold with floor_steps floor_writes floor_handlers; play.
Qed.
End alone_handlers.
