(* ===== verification/Interleaving.v ===== *)
(** * The shop floor under concurrent requests

    Any number of the programs of [Programs] run at the same time, over connections that may
    be lost: what they keep, and what they do not. *)

From Stdlib Require Import SpecFloat.
From S2P Require Import Prelude Schema Sql Integrity Lifecycle Numeric Oee Moves Ingest.
From S2P Require Import Metrics Orders Dnc Exec Trace Qms Cmms Concurrency Isolation System.
From S2P Require Import Programs Sample.
Import Steps.

(** ** What the shop floor keeps *)

(** The tables this says something about. *)
Definition watched : list table :=
  [Maintenance_work_orders; Ncrs; Wo_operations; Production_counts; Spare_txns].

(** A maintenance order is rewritten only together with a step of its lifecycle. *)
Definition mwo_stepwise : relation (list (row Maintenance_work_orders)) :=
  stepwise Maintenance_work_orders mw_status MaintenanceStatus.parse
    MaintenanceStatus.can_transition.

#[global] Instance mwo_stepwise_preorder : PreOrder mwo_stepwise.
Proof. exact (stepwise_preorder Maintenance_work_orders _ _ _). Qed.

(** An NCR that has been decided. *)
Definition disposed (r : row Ncrs) : Prop := nc_status r ≠ "open"%string.

(** Maintenance orders and NCRs follow their lifecycles, totals stay the sums of counts, the
    ledger of spare parts is only ever appended to, maintenance orders are rewritten only by
    moving, and decided NCRs not at all. *)
Record floor_kept (db db' : Db) : Prop := {
  fk_mwo : mwo_moves (db Maintenance_work_orders) (db' Maintenance_work_orders);
  fk_ncr : ncr_moves (db Ncrs) (db' Ncrs);
  fk_balanced : balanced db → balanced db';
  fk_ledger : db Spare_txns `prefix_of` db' Spare_txns;
  fk_mwo_rows : mwo_stepwise (db Maintenance_work_orders) (db' Maintenance_work_orders);
  fk_ncr_rows : frozen Ncrs disposed (db Ncrs) (db' Ncrs)
}.

#[global] Instance floor_kept_preorder : PreOrder floor_kept.
Proof.
  split; [by split|]. intros db1 db2 db3 [] []. split; solve [by etrans|auto].
Qed.

Lemma floor_kept_local db db' :
  (∀ t, t ∈ watched → db' t = db t) → floor_kept db db'.
Proof.
  intros H. split; try by rewrite H by in_tables.
  apply balanced_local. intros t Ht. apply H. set_solver.
Qed.

Lemma apply_writes_other ws t db :
  (∀ x, x ∈ ws → projT1 (written x) ≠ t) → apply_writes ws db t = db t.
Proof.
  revert db. induction ws as [|x ws IH]; intros db H; simpl; [done|].
  rewrite IH by (intros; apply H; by right).
  pose proof (H x ltac:(left)). by destruct x; simpl in *; rewrite set_table_ne.
Qed.

Lemma floor_kept_frame ws db :
  (∀ x, x ∈ ws → projT1 (written x) ∉ watched) → floor_kept db (apply_writes ws db).
Proof.
  intros H. apply floor_kept_local. intros t Ht. apply apply_writes_other.
  intros x Hx <-. by apply (H x).
Qed.

(** Writes that keep the guarantee whatever the tables hold: new rows at the beginning of
    their lifecycle, new entries of the ledger, operations that nothing is counted against
    yet, counts of no operation, anything in the other tables. *)
Definition benign (x : Write) : Prop :=
  match x with
  | Added t r =>
      match t return row t → Prop with
      | Ncrs => λ r, nc_status r = "open"%string
      | Maintenance_work_orders => λ r, mw_status r = "requested"%string
      | Spare_txns => λ _, True
      | Wo_operations => λ r, op_qty_good r = 0 ∧ op_qty_scrap r = 0
      | Production_counts => λ r, pc_wo_operation_id r = None
      | t => λ _, t ∉ watched
      end r
  | Changed t _ | Removed t _ => t ∉ watched
  end.

Lemma added_fresh t r db :
  keyed t → valid_write db (Added t r) →
  existsb (λ x, String.eqb (key t r) (key t x)) (db t) = false.
Proof.
  intros Hk (_ & Hc & _). apply (exists_row_false (λ x, String.eqb (key t r) (key t x))).
  intros x Hx. apply String.eqb_neq. intros E. apply (Hc (existT t x)); [done..|].
  apply conflicts_key; [done|]. unfold key_of. simpl. by rewrite E.
Qed.

(** A new operation has no counts yet. *)
Lemma balanced_new_operation r (db : Db) :
  existsb (λ x : row Wo_operations, String.eqb (op_id r) (op_id x)) (db Wo_operations) = false →
  op_qty_good r = 0 → op_qty_scrap r = 0 →
  balanced db → balanced (set_table Wo_operations (db Wo_operations ++ [r]) db).
Proof.
  intros Hnew Hg Hs (Hu & Hlink & Ht).
  assert (∀ o, o ∈ db Wo_operations → op_id o ≠ op_id r) as Hne.
  { intros o Ho E. pose proof (proj1 (exists_row_false (λ x : row Wo_operations,
      String.eqb (op_id r) (op_id x)) (db Wo_operations)) Hnew o Ho) as Hr.
    by apply String.eqb_neq in Hr. }
  split_and!; rewrite ?set_table_eq.
  - unfold keys_unique. rewrite map_app. apply list.NoDup_app. split_and!; [done| |].
    + intros k (o & -> & Ho)%list_elem_of_fmap Hk%list_elem_of_singleton. by apply (Hne o).
    + apply list.NoDup_singleton.
  - intros c id Hc Hid. destruct (Hlink c id Hc Hid) as (o & Ho & <-). exists o.
    rewrite set_table_eq. split; [apply elem_of_app; by left|done].
  - intros o Ho. rewrite set_table_eq in Ho. unfold counted. rewrite set_table_ne by done.
    apply elem_of_app in Ho as [Ho|Ho]; [by apply Ht|].
    apply list_elem_of_singleton in Ho as ->. rewrite Hg, Hs, select_none; [done|].
    intros c Hc. apply bool_decide_eq_false. intros Hid.
    destruct (Hlink c _ Hc Hid) as (o' & Ho' & E). by apply (Hne o').
Qed.

Lemma floor_kept_benign_write x db :
  valid_write db x → benign x → floor_kept db (apply_write db x).
Proof.
  intros Hv Hb.
  assert (projT1 (written x) ∉ watched → floor_kept db (apply_write db x)) as Hother.
  { intros H. apply (floor_kept_frame [x]). by intros y ->%list_elem_of_singleton. }
  destruct x as [t r|t r|t r]; [|by apply Hother..].
  assert (∀ t' : table, t' ≠ Wo_operations → t' ≠ Production_counts →
    ∀ l, balanced db → balanced (set_table t' l db)) as Hbal.
  { intros t' H1 H2 l. apply balanced_local.
    intros t'' [->| ->%list_elem_of_singleton]%elem_of_cons; by apply set_table_ne. }
  destruct t; try (by apply Hother); simpl in Hb; clear Hother.
  - split; [done|done| |done..]. apply balanced_unlinked; [|done]. exists [r].
    split; [apply set_table_eq|]. by intros c ->%list_elem_of_singleton.
  - split; [done|done| |done..]. apply balanced_new_operation; [|apply Hb..].
    apply (added_fresh Wo_operations r db); [left|done].
  - split; [done| |by apply Hbal|done|done|apply frozen_app].
    apply moves_insert; [|done]. apply (added_fresh Ncrs r db); [left|done].
  - split; [|done|by apply Hbal|done|apply stepwise_app|done].
    apply moves_insert; [|done]. apply (added_fresh Maintenance_work_orders r db); [left|done].
  - split; [done|done|by apply Hbal|by exists [r]|done|done].
Qed.

Lemma floor_kept_benign ws db :
  valid_writes db ws → Forall benign ws → floor_kept db (apply_writes ws db).
Proof.
  intros Hv Hb. revert db Hv. induction Hb as [|x ws Hx _ IH]; intros db Hv; [done|].
  destruct Hv as [Hv Hvs]. simpl. etrans; [by apply floor_kept_benign_write|by apply IH].
Qed.

Section quiet_requests.
Context {env : Env} {cmms : CmmsEnv}.
Abbreviation quiet := (quiet floor_kept).

Lemma quiet_insert_other t r : t ∉ watched → quiet (insert t r).
Proof.
  intros Ht. apply (quiet_insert floor_kept). intros db _ _. apply (floor_kept_frame [Added t r]).
  by intros x ->%list_elem_of_singleton.
Qed.

Lemma quiet_update_other t p f :
  t ∉ watched → keyed t → harmless t f → quiet (update t p f).
Proof.
  intros Ht Hk Hf. apply (quiet_update floor_kept); [done..|]. intros db _. apply floor_kept_local.
  intros t' Ht'. apply set_table_ne. by intros ->.
Qed.

Lemma quiet_get_by_id t id : quiet (get_by_id t id).
Proof. unfold get_by_id. hush. Qed.

Lemma quiet_audit {E} a b c d e : quiet (audit a b c d e : Prog E unit).
Proof. unfold audit, insert_audit. hush. by apply quiet_insert_other; not_in_tables. Qed.

Lemma quiet_record_count op wc good scrap reason ts :
  quiet (Steps_of.record_count op wc good scrap reason ts).
Proof.
  apply (quiet_transaction floor_kept). intros db0 t0 _. apply wp_bind. intros id. apply wp_bind. intros t _.
  apply wp_bind, wp_map_err, wp_insert; [done..|]. intros db1 _.
  apply wp_map_err, wp_bind, wp_update; [done|left|is_harmless|done|].
  intros db2 rows Hadm2 Hrows.
  assert (visible (grow (opened t0) [Added Production_counts
    (mkProductionCountRow id ts wc None good scrap (Some op) reason)] []) db2 Wo_operations =
    db2 Wo_operations) as Ev by done.
  rewrite Ev in Hrows.
  destruct (head (map _ rows)) as [r|] eqn:Eh; [|done]. intros db Hadm.
  assert (∃ old, first_where (by_id Wo_operations op) (db2 Wo_operations) = Some old)
    as [old Hold].
  { unfold first_where. rewrite <- Hrows. destruct rows; [done|eauto]. }
  pose proof (select_by_id Wo_operations _ _ _ (adm_ok _ _ _ _ Hadm2) ltac:(left) Hold) as Hone.
  rewrite Hone in Hrows. subst rows.
  destruct (update_locked Wo_operations op (add_counts good scrap t) old db2 db
    (apply_write db (Added Production_counts
      (mkProductionCountRow id ts wc None good scrap (Some op) reason)))
    _ ltac:(done) (adm_agree _ _ _ _ Hadm) ltac:(left) Hone eq_refl) as [Hnow E].
  change (visible _ db) with (apply_write (apply_write db (Added Production_counts
      (mkProductionCountRow id ts wc None good scrap (Some op) reason)))
      (Changed Wo_operations (add_counts good scrap t old))).
  rewrite E. split; [done|done| |done..].
  eapply (balanced_count op good scrap t); try done.
  unfold first_where. by rewrite Hnow.
Qed.

Lemma quiet_transition_maintenance_wo id next tech code :
  quiet (Steps_of.transition_maintenance_wo id next tech code).
Proof.
  unfold Steps_of.transition_maintenance_wo. apply (quiet_bind floor_kept); [apply (quiet_ok_or floor_kept)|].
  intros target. apply (quiet_transaction floor_kept). intros db0 t0 _.
  apply wp_bind, wp_map_err, wp_bind, wp_for_update; [done|left|done|].
  intros db1 rows Hadm1 Hrows. change (visible (opened t0) db1) with db1 in Hrows. wp_return.
  apply wp_bind, wp_ok_or; [|done]. intros old Eh.
  pose proof (select_by_id Maintenance_work_orders id old db1 (adm_ok _ _ _ _ Hadm1)
    ltac:(left) ltac:(unfold first_where; by rewrite <- Hrows)) as Hone.
  rewrite Hone in Hrows. subst rows.
  apply wp_bind, wp_ok_or; [|done]. intros cur Ecur.
  apply wp_bind, wp_throw_if; [|done]. intros Ecan%negb_false_iff. apply wp_bind. intros t _.
  apply wp_map_err, wp_bind, wp_update; [done|left|destruct target; is_harmless|done|].
  intros db2 rows Hadm2 ->. change (visible _ db2) with db2.
  assert (select (by_id Maintenance_work_orders id) (db2 Maintenance_work_orders) = [old])
    as Hone2.
  { etrans; [symmetry; apply (adm_agree _ _ _ _ Hadm2)|exact Hone].
    enough (mw_id old = id) as <- by left.
    apply String.eqb_eq, (elem_of_select (by_id Maintenance_work_orders id)
      (db1 Maintenance_work_orders)). rewrite Hone. left. }
  rewrite Hone2. intros db Hadm.
  destruct (update_locked Maintenance_work_orders id
    (Cmms.advance target tech code t) old db2 db db _ (advance_key _ _ _ _)
    (adm_agree _ _ _ _ Hadm) ltac:(left) Hone2 eq_refl) as [Hnow E].
  change (visible _ db) with
    (apply_write db (Changed Maintenance_work_orders (Cmms.advance target tech code t old))).
  rewrite E.
  assert (legal MaintenanceStatus.parse MaintenanceStatus.can_transition (mw_status old)
    (mw_status (Cmms.advance target tech code t old))) as Hl.
  { exists cur, target. rewrite advance_status. by destruct target. }
  split; [|done|done|done| |done].
  - apply (moves_guarded Maintenance_work_orders _ _ _ _ _ _ _ old);
      [unfold first_where; by rewrite Hnow|apply advance_key|done].
  - by apply (stepwise_guarded Maintenance_work_orders _ _ _ _ _ _ old); [|apply advance_key|].
Qed.

Lemma quiet_insert_benign t r : benign (Added t r) → quiet (insert t r).
Proof.
  intros Hb. apply (quiet_insert floor_kept). intros db _ Hc. apply floor_kept_benign_write; [|done].
  by apply check_row_valid.
Qed.

(** The body of a transaction that makes benign writes only. *)
Definition gentle {E A} (p : Prog E A) : Prop := ∀ tx db0 (Q : Result A E → Tx → Db → Prop),
  tx_open tx = true → Forall benign (tx_writes tx) → (∀ e tx db, Q (Err e) tx db) →
  (∀ a tx' db, tx_open tx' = true → Forall benign (tx_writes tx') → Q (Ok a) tx' db) →
  wp floor_kept p Q tx db0.

Lemma gentle_ret {E A} (a : A) : gentle (mret a : Prog E A).
Proof. intros tx db0 Q Ho Hb He Hq. by apply Hq. Qed.

Lemma gentle_bind {E A B} (p : Prog E A) (f : A → Prog E B) :
  gentle p → (∀ a, gentle (f a)) → gentle (p ≫= f).
Proof.
  intros Hp Hf tx db0 Q Ho Hb He Hq. apply wp_bind, Hp; [done..|].
  intros a tx' db Ho' Hb'. by apply Hf.
Qed.

Lemma gentle_map_err {E F A} (f : E → F) (p : Prog E A) : gentle p → gentle (map_err f p).
Proof. intros Hp tx db0 Q Ho Hb He Hq. by apply wp_map_err, Hp. Qed.

Lemma gentle_new_id {E} : gentle (new_id : Prog E string).
Proof. intros tx db0 Q Ho Hb He Hq id. by apply Hq. Qed.

Lemma gentle_now {E} : gentle (now : Prog E DateTime).
Proof. intros tx db0 Q Ho Hb He Hq t _. by apply Hq. Qed.

Lemma gentle_query {A} (f : Db → A) : gentle (query f).
Proof.
  intros tx db0 Q Ho Hb He Hq. apply wp_query; [done|done|]. intros db _.
  apply Hq; [done|]. by apply Forall_app.
Qed.

Lemma gentle_insert t r : benign (Added t r) → gentle (insert t r).
Proof.
  intros Hr tx db0 Q Ho Hb He Hq. apply wp_insert; [done|done|]. intros db _.
  apply Hq; [done|]. apply Forall_app. split; [done|]. by constructor.
Qed.

Lemma gentle_insert_or_ignore t c r : benign (Added t r) → gentle (insert_or_ignore t c r).
Proof.
  intros Hr tx db0 Q Ho Hb He Hq. apply wp_insert_or_ignore; [done|done|..]; intros db; intros;
    (apply Hq; [done|]); apply Forall_app; (split; [done|]); by repeat constructor.
Qed.

Lemma gentle_ok_or {E A} (o : option A) (e : E) : gentle (ok_or o e).
Proof. intros tx db0 Q Ho Hb He Hq. destruct o; [by apply Hq|apply He]. Qed.

Lemma gentle_throw_if {E} b (e : E) : gentle (throw_if b e).
Proof. intros tx db0 Q Ho Hb He Hq. destruct b; [apply He|by apply Hq]. Qed.

Lemma gentle_update t p f : t ∉ watched → keyed t → harmless t f → gentle (update t p f).
Proof.
  intros Ht Hk Hf tx db0 Q Ho Hb He Hq. apply wp_update; [done..|]. intros db rows _ _.
  apply Hq; [done|]. apply Forall_app. split; [done|]. apply Forall_map, Forall_forall. by intros.
Qed.

Lemma gentle_delete t p : t ∉ watched → keyed t → unreferenced t → gentle (delete t p).
Proof.
  intros Ht Hk Hu tx db0 Q Ho Hb He Hq. apply wp_delete; [done..|]. intros db rows _ _.
  apply Hq; [done|]. apply Forall_app. split; [done|]. apply Forall_map, Forall_forall. by intros.
Qed.

Lemma gentle_fetch_optional {A} (p : Prog SqlError (list A)) :
  gentle p → gentle (fetch_optional p).
Proof. intros. apply gentle_bind; [done|]. intros. apply gentle_ret. Qed.

Lemma gentle_forM {E A} (l : list A) (f : A → Prog E unit) :
  (∀ a, gentle (f a)) → gentle (forM_ l f).
Proof. intros Hf. induction l; simpl; [apply gentle_ret|by apply gentle_bind]. Qed.

Lemma gentle_mapM {E A B} (f : A → Prog E B) l :
  (∀ a, gentle (f a)) → gentle (mapM_list f l).
Proof.
  intros Hf. induction l; simpl; [apply gentle_ret|].
  apply gentle_bind; [done|intros]. apply gentle_bind; [done|intros]. apply gentle_ret.
Qed.

Lemma quiet_gentle {E A} (lift : SqlError → E) (p : Prog E A) :
  gentle p → quiet (transaction lift p).
Proof.
  intros Hp. apply (quiet_transaction floor_kept). intros db t _. apply Hp; [done|constructor|done|].
  intros a tx d _ Hb d' Hadm. apply floor_kept_benign; [apply Hadm|done].
Qed.

Ltac is_benign := solve [reflexivity|exact I|split; reflexivity|not_in_tables].

Ltac be_gentle :=
  repeat lazymatch goal with
  | |- ∀ _, gentle _ => intros
  | |- gentle (_ ≫= _) => apply gentle_bind
  | |- gentle (map_err _ _) => apply gentle_map_err
  | |- gentle (mret _) => apply gentle_ret
  | |- gentle new_id => apply gentle_new_id
  | |- gentle now => apply gentle_now
  | |- gentle (query _) => apply gentle_query
  | |- gentle (fetch _ _) => apply gentle_query
  | |- gentle (fetch_optional _) => apply gentle_fetch_optional
  | |- gentle (fetch_one _) => apply gentle_bind; [|intros; apply gentle_ok_or]
  | |- gentle (ok_or _ _) => apply gentle_ok_or
  | |- gentle (throw_if _ _) => apply gentle_throw_if
  | |- gentle (get_by_id _ _) => unfold get_by_id
  | |- gentle (forM_ _ _) => apply gentle_forM
  | |- gentle (mapM_list _ _) => apply gentle_mapM
  | |- gentle (update ?t ?p ?f) =>
      apply (gentle_update t p f); [not_in_tables|left|is_harmless]
  | |- gentle (delete ?t ?p) =>
      apply (gentle_delete t p); [not_in_tables|left|by is_unreferenced]
  | |- gentle (insert ?t ?r) => apply (gentle_insert t r); is_benign
  | |- gentle (insert_or_ignore ?t ?c ?r) => apply (gentle_insert_or_ignore t c r); is_benign
  | |- gentle (if ?b then _ else _) => destruct b
  | |- gentle (match ?x with _ => _ end) => destruct x
  end.

Lemma quiet_record_spare_txn sp wo ty qty user :
  quiet (Steps_of.record_spare_txn sp wo ty qty user).
Proof. unfold Steps_of.record_spare_txn. hush. apply quiet_gentle. be_gentle. Qed.

Lemma quiet_record_result c lot serial op v user :
  quiet (Steps_of.record_result c lot serial op v user).
Proof.
  unfold Steps_of.record_result. hush. apply quiet_gentle.
  unfold Steps_of.raise_ncr, Steps_of.auto_hold. be_gentle.
Qed.

Lemma quiet_disposition_ncr id d reason actor :
  quiet (Steps_of.disposition_ncr id d reason actor).
Proof.
  apply (quiet_transaction floor_kept). intros db0 t0 _. apply wp_bind. intros t _.
  apply wp_bind, wp_map_err, wp_bind, wp_update; [done|left|is_harmless|done|].
  intros db1 rows Hadm1 Hrows. change (visible (opened t0) db1) with db1 in Hrows. wp_return.
  apply wp_bind, wp_ok_or; [|done]. intros n Hn. subst rows.
  destruct (head_map_select _ _ _ _ Hn) as (old & Hold & ->). clear Hn.
  destruct (select_by_id_and Ncrs id _ old db1 (adm_ok _ _ _ _ Hadm1) ltac:(left)
    ltac:(by intros r [? _]%andb_true_iff) Hold) as [Hrows Hone].
  rewrite Hrows.
  assert (∀ db ls, agree ((Ncrs, nc_id old) :: ls) db1 db →
    floor_kept db (apply_write db (Changed Ncrs (dispose d reason actor t old)))) as Hkept.
  { intros db ls Ha.
    destruct (update_locked Ncrs id (dispose d reason actor t) old db1 db db _
      ltac:(done) Ha ltac:(left) Hone eq_refl) as [Hnow ->].
    apply first_where_Some in Hold as [[_ Hs]%andb_true_iff _]. apply String.eqb_eq in Hs.
    split; [done| |apply balanced_local; by intros t' [->| ->%list_elem_of_singleton]%elem_of_cons
      |done|done|].
    - apply (moves_guarded Ncrs _ _ _ _ _ _ _ old); [unfold first_where; by rewrite Hnow|done|].
      exists NcrStatus.Open, NcrStatus.Dispositioned. by rewrite Hs.
    - apply (frozen_guarded Ncrs disposed _ _ _ old); [done|]. by intros []. }
  apply wp_bind. destruct (Disposition.releases_hold d); wp_return.
  - apply wp_bind, wp_map_err, wp_update; [done|left|is_harmless|done|].
    intros db2 rows Hadm2 _ db Hadm. change (visible _ db) with
      (apply_writes (map (λ r, Changed Holds (released actor t r)) rows)
        (apply_write db (Changed Ncrs (dispose d reason actor t old)))).
    etrans; [eapply (Hkept db [])|].
    + etrans; [|by eapply (agree_sub _ _ _ _ (adm_agree _ _ _ _ Hadm)); set_solver]. apply (adm_agree _ _ _ _ Hadm2).
    + apply floor_kept_frame. intros x (r & -> & _)%list_elem_of_fmap. not_in_tables.
  - intros db Hadm. apply (Hkept db []). apply (adm_agree _ _ _ _ Hadm).
Qed.

Lemma quiet_update_by_id_other t id f :
  t ∉ watched → keyed t → harmless t f → quiet (update_by_id t id f).
Proof. intros. unfold update_by_id. hush. by apply quiet_update_other. Qed.

Local Hint Extern 1 (Isolation.quiet _ (get_by_id ?t ?i)) => exact (quiet_get_by_id t i) : quiet.
Local Hint Extern 1 (Isolation.quiet _ (update_by_id ?t ?i ?f)) =>
  apply (quiet_update_by_id_other t i f); [not_in_tables|left|is_harmless] : quiet.
Local Hint Extern 1 (Isolation.quiet _ (insert ?t ?r)) =>
  apply (quiet_insert_other t r); not_in_tables : quiet.
Local Hint Extern 1 (Isolation.quiet _ (update ?t ?p ?f)) =>
  apply (quiet_update_other t p f); [not_in_tables|left|is_harmless] : quiet.
Local Hint Resolve quiet_audit : quiet.

Lemma quiet_transition_wo actor id target : quiet (Steps_of.transition_wo actor id target).
Proof.
  unfold Steps_of.transition_wo, Steps_of.get_work_order, Steps_of.set_work_order_status.
  hush.
Qed.

Lemma quiet_start_operation op : quiet (Steps_of.start_operation op).
Proof.
  unfold Steps_of.start_operation, update_by_id. hush.
  apply (quiet_update floor_kept Wo_operations); [left|is_harmless|].
  intros db _. split; [done|done| |done..].
  eapply balanced_update; [|apply set_table_eq|done]; done.
Qed.

Lemma quiet_oee_snapshot wc : quiet (Steps_of.publish_oee_snapshot wc).
Proof.
  assert (∀ s e, quiet (Steps_of.oee_inputs wc s e)) as Ho.
  { intros. unfold Steps_of.oee_inputs. hush. }
  intros Q db0 HQ []; [intros t _|by apply HQ]. apply (quiet_resume floor_kept _ _ (Ho _ _)); [|done].
  intros [r|e]; hush.
Qed.

Lemma quiet_complete_operation op : quiet (Steps_of.complete_operation op).
Proof.
  unfold Steps_of.complete_operation, update_by_id. hush.
  apply (quiet_update floor_kept Wo_operations); [left|is_harmless|].
  intros db _. split; [done|done| |done..].
  eapply balanced_update; [|apply set_table_eq|done]; done.
Qed.

Lemma quiet_insert_or_ignore_benign t c r :
  benign (Added t r) → quiet (insert_or_ignore t c r).
Proof.
  intros Hb. apply (quiet_exec floor_kept); [done|]. intros db b ws ls _. simpl.
  destruct (exists_row _ _); [by intros [= <- <- <-]|].
  destruct (check_row _ _ _) eqn:Hc; [done|]. intros [= <- <- <-].
  apply floor_kept_benign_write; [by apply check_row_valid|done].
Qed.

Lemma quiet_create_work_order input : quiet (Steps_of.create_work_order input).
Proof.
  apply quiet_gentle. unfold Steps_of.insert_operation, Steps_of.enqueue. be_gentle.
Qed.

Lemma quiet_split_downtime id at_ first second by_ :
  quiet (Steps_of.split_downtime id at_ first second by_).
Proof. apply quiet_gentle. be_gentle. Qed.

Lemma quiet_replace_derived wc start end_ states downtime :
  quiet (Steps_of.replace_derived wc start end_ states downtime).
Proof.
  apply quiet_gentle. unfold Steps_of.insert_state, Steps_of.insert_downtime. be_gentle.
Qed.

Lemma quiet_draw_downtime states : quiet (Steps_of.draw_downtime_events states).
Proof. unfold Steps_of.draw_downtime_events. hush. Qed.

Lemma quiet_schedule_transfer a b c d : quiet (Steps_of.schedule_transfer a b c d).
Proof.
  unfold Steps_of.schedule_transfer, Steps_of.dnc_send, Steps_of.create_transfer. hush.
Qed.

Lemma quiet_on_job_complete op : quiet (Steps_of.on_job_complete op).
Proof.
  assert (quiet (Steps_of.resolve_next_transfer op)) as Hn.
  { unfold Steps_of.resolve_next_transfer. hush. }
  pose proof quiet_schedule_transfer.
  intros Q db0 HQ []; [|by apply HQ]. apply (quiet_resume floor_kept _ _ Hn); [|done].
  intros [[next|]|e]; hush.
Qed.

Lemma quiet_ingest_loop signals cache acc : quiet (Steps_of.ingest_loop signals cache acc).
Proof.
  revert cache acc. induction signals as [|sig rest IH]; intros cache acc; simpl; [hush|].
  unfold Steps_of.cached_source, Steps_of.resolve_source, Steps_of.store_signal,
    Steps_of.insert_machine_event, Steps_of.insert_production_count.
  hush; try apply (quiet_insert_benign Production_counts); done.
Qed.

Local Hint Extern 2 (Isolation.quiet _ (insert ?t ?r)) =>
  apply (quiet_insert_benign t r); is_benign : quiet.
Local Hint Extern 1 (Isolation.quiet _ (insert_or_ignore ?t ?c ?r)) =>
  apply (quiet_insert_or_ignore_benign t c r); is_benign : quiet.
Local Hint Resolve quiet_transition_wo quiet_create_work_order quiet_start_operation
  quiet_record_count quiet_oee_snapshot quiet_complete_operation quiet_on_job_complete
  quiet_split_downtime quiet_ingest_loop quiet_schedule_transfer quiet_record_result
  quiet_disposition_ncr quiet_transition_maintenance_wo quiet_record_spare_txn
  quiet_replace_derived quiet_draw_downtime : quiet.

(** Every request keeps the guarantee, whatever runs beside it. *)
Lemma steps_quiet auth r : quiet (steps auth r).
Proof.
  destruct r as [| | | | | | | | | | | | | | | |[]| | | | | | | | | | | | | | | |];
    cbn [steps]; unfold ignore; autounfold with floor_steps; hush.
Qed.
End quiet_requests.

(** The schema alone keeps automatic reorders apart. *)
Lemma schema_one_open db : schema_ok db → one_open_reorder db.
Proof.
  intros Hok id. unfold open_reorders.
  set (p := λ r : ProcRow, is_open_reorder r && String.eqb (pr_spare_part_id r) id).
  pose proof (pairs_filter _ (λ r, negb (p r)) _ (ok_unique _ Hok Procurement_requests)) as Hp.
  assert (delete_rows (λ r, negb (p r)) (db Procurement_requests) =
    select p (db Procurement_requests)) as Es
    by (apply (select_ext _ p); intros; apply negb_involutive).
  rewrite Es in Hp.
  destruct (select p (db Procurement_requests)) as [|x [|y l]] eqn:E; simpl; [lia..|].
  exfalso. inversion Hp as [|? ? Hx _]; subst. inversion Hx as [|? ? Hxy _]; subst. apply Hxy.
  assert (∀ z, z ∈ [x; y] → is_open_reorder z = true ∧ pr_spare_part_id z = id) as Hz.
  { intros z Hz. assert (z ∈ select p (db Procurement_requests)) as Hin
      by (rewrite E; set_solver).
    apply elem_of_select in Hin as [[? ?%String.eqb_eq]%andb_true_iff _]. done. }
  destruct (Hz x ltac:(set_solver)) as [Ox Sx]. destruct (Hz y ltac:(set_solver)) as [Oy Sy].
  exists open_reorder_conflict. split; [right; left|]. unfold open_reorder_conflict.
  rewrite Ox, Oy. simpl. apply bool_decide_eq_true. congruence.
Qed.

(** The programs a server of the shop floor may be asked to run. *)
Definition serving {env : Env} {cmms : CmmsEnv} (p : Prog ApiErr unit) : Prop :=
  ∃ auth r, p = steps auth r.

Section concurrent_properties.
Context {env : Env} {cmms : CmmsEnv}.

(** C5. Any number of shop-floor requests, of every kind, may run at the same time, their
    statements interleaved in any order the database allows, and any of them may lose its
    connection at any point, before or after the server has acted. What is committed keeps
    the schema, and between any moment of such a run and any later one: maintenance orders
    and NCRs appear at the beginning of their lifecycle and only ever move along it; a
    maintenance order is rewritten only by moving at least one step on, so that no step is
    taken twice and a verified one stays as it is; an NCR that has been disposed of is never
    touched again, so that none is disposed of twice; the totals of operations stay the sums
    of their counts; the ledger of spare parts is only appended to, and no spare part has two
    automatic reorders open. *)
Theorem concurrent_consistent w c c' :
  schema_ok (w_db w) → rtc (cstep serving) (mkCluster w []) c → rtc (cstep serving) c c' →
  let db := w_db (c_world c) in
  let db' := w_db (c_world c') in
  schema_ok db' ∧
  mwo_moves (db Maintenance_work_orders) (db' Maintenance_work_orders) ∧
  mwo_stepwise (db Maintenance_work_orders) (db' Maintenance_work_orders) ∧
  ncr_moves (db Ncrs) (db' Ncrs) ∧
  (∀ r, r ∈ db Ncrs → nc_status r ≠ "open"%string → r ∈ db' Ncrs) ∧
  (balanced db → balanced db') ∧
  db Spare_txns `prefix_of` db' Spare_txns ∧
  one_open_reorder db'.
Proof.
  intros Hok Hrun Hrun'.
  assert (∀ p : Prog ApiErr unit, serving p → ∀ db, wp floor_kept p (λ _ _ _, True) idle db) as Hsafe.
  { intros p (auth & r & ->) db. apply quiet_safe, steps_quiet. }
  destruct (cluster_sound (A := unit) floor_kept (λ _ _, True) serving)
    with (c := mkCluster (A := unit) w []) (c' := c) as [Hc _]; [done|by apply cluster_ok_empty|done|].
  destruct (cluster_sound (A := unit) floor_kept (λ _ _, True) serving)
    with (c := c) (c' := c') as [Hc' [Hm Hn Hb Hl Hmr Hnr]]; [done..|].
  pose proof (co_db _ _ _ Hc'). split_and!; [done..|]. by apply schema_one_open.
Qed.

(** A request that runs while no other does is served exactly as its handler says: the
    program reaches the handler's answer and leaves the handler's state. *)
Theorem undisturbed_as_handled auth r w :
  schema_ok (w_db w) → w_faults w = [] →
  rtc (cstep serving) (mkCluster w [mkSession (steps auth r) idle])
    (mkCluster (handle auth r w).2 [mkSession (Return (handle auth r w).1) idle]).
Proof.
  intros Hok Hh. pose proof (steps_play auth r w) as Hplay.
  destruct (solo_run floor_kept serving (steps auth r) idle w)
    as (res & tx & w' & Hrun & E & Hi); [done..|by apply quiet_safe, steps_quiet|].
  rewrite inside_idle, Hplay in E. destruct (handle auth r w) as [r0 w0]. simpl.
  apply pair_eq in E as [-> E]. destruct (tx_open tx) eqn:Ho.
  - unfold inside in E. by rewrite Ho in E.
  - rewrite Hi, inside_idle in E by done. injection E as ->. by rewrite Hi in Hrun.
Qed.
End concurrent_properties.

(** ** Runs *)

Definition shop_db : Db :=
  set_table Work_orders [mkWorkOrderRow "o1" "WO-1" "p1" None (5 * 10 ^ 28) 100 "in_progress" None
    None 0 0 None] (
  set_table Maintenance_work_orders [mkMwoRow "m1" "wc1" None "breakdown" "requested" None None
    None 0 None None None None 0 0] (
  set_table Spare_parts [mkSpareRow "sp1" "SP1" "Belt" "ea" (5 * 10 ^ 28) (10 * 10 ^ 28)] (
  set_table Spare_txns [mkSpareTxnRow "st0" "sp1" None "receive" (10 * 10 ^ 28) 0 None]
    plant_db))).

Definition shop : World := world_of shop_db.

(** The programs of requests by the sample administrator. *)
Definition programs (rs : list request) : list (Prog ApiErr unit) :=
  map (@steps sample_env sample_cmms admin) rs.

Lemma programs_serving rs : Forall (@serving sample_env sample_cmms) (programs rs).
Proof.
  apply Forall_map, Forall_forall. intros r _. by exists admin, r.
Qed.

Lemma shop_ok : schema_ok (w_db shop).
Proof. apply schema_ok_decide. vm_compute. reflexivity. Qed.

Definition shop_run rs schedule schedule' P `{∀ c c', Decision (P c c')} :=
  run_schedules (env := sample_env) (@serving sample_env sample_cmms) (programs rs) shop schedule schedule' P
    (programs_serving rs).

(** Work orders have no such protection: [transition_wo] reads the status, checks the move
    and then updates by id. Of two requests that both read [in_progress], one cancels the
    order and the other completes it after that; both are answered with success. *)
Theorem order_transitions_race :
  ∃ c c', rtc (@cstep sample_env _ (@serving sample_env sample_cmms)) (mkCluster shop []) c ∧
    rtc (@cstep sample_env _ (@serving sample_env sample_cmms)) c c' ∧
    (map wo_status (w_db (c_world c) Work_orders) = ["cancelled"%string] ∧
     map wo_status (w_db (c_world c') Work_orders) = ["completed"%string] ∧
     answers c' = [Some (Ok tt); Some (Ok tt)]).
Proof.
  apply (shop_run [CancelOrder "o1"; CompleteWo "o1"] [0;0;1;1;0;0;0;0;0;0]%nat
    [1;1;1;1;1;1]%nat (λ c c',
    map wo_status (w_db (c_world c) Work_orders) = ["cancelled"%string] ∧
    map wo_status (w_db (c_world c') Work_orders) = ["completed"%string] ∧
    answers c' = [Some (Ok tt); Some (Ok tt)])).
  vm_compute. reflexivity.
Qed.

(** Two issues that overlap each see their own movement and not the other's: the stock falls
    below the reorder point, and no reorder is raised. *)
Theorem overlapping_issues_miss_reorder :
  ∃ c c', rtc (@cstep sample_env _ (@serving sample_env sample_cmms)) (mkCluster shop []) c ∧
    rtc (@cstep sample_env _ (@serving sample_env sample_cmms)) c c' ∧
    (answers c' = [Some (Ok tt); Some (Ok tt)] ∧
     stock_of "sp1" (w_db (c_world c')) = 4 * 10 ^ 28 ∧
     map sp_reorder_point (w_db (c_world c') Spare_parts) = [5 * 10 ^ 28] ∧
     length (open_reorders "sp1" (w_db (c_world c'))) = 0%nat).
Proof.
  apply (shop_run [RecordSpareTxn (mkSpareTxnInput "sp1" None "issue" (3 * 10 ^ 28));
      RecordSpareTxn (mkSpareTxnInput "sp1" None "issue" (3 * 10 ^ 28))]
    [0;0;0;0;0;0;0;1;1;1;1;1;1;1]%nat [0;1]%nat (λ _ c',
    answers c' = [Some (Ok tt); Some (Ok tt)] ∧
    stock_of "sp1" (w_db (c_world c')) = 4 * 10 ^ 28 ∧
    map sp_reorder_point (w_db (c_world c') Spare_parts) = [5 * 10 ^ 28] ∧
    length (open_reorders "sp1" (w_db (c_world c'))) = 0%nat)).
  vm_compute. reflexivity.
Qed.

(** Two programs received at the same time are given the same revision number: the second
    draft is refused by the unique index, and what the machine sent is not recorded. *)
Theorem overlapping_drafts_lose_one :
  ∃ c c', rtc (@cstep sample_env _ (@serving sample_env sample_cmms)) (mkCluster shop []) c ∧
    rtc (@cstep sample_env _ (@serving sample_env sample_cmms)) c c' ∧
    (answers c' = [Some (Ok tt); Some (Err (err 409 "conflict" "constraint violated"))] ∧
     map rv_content_ref (w_db (c_world c') Program_revisions) = [Some "first"%string]).
Proof.
  apply (shop_run [InjectDaemonEvent (ProgramReceived "O2000" (Some "first"%string));
      InjectDaemonEvent (ProgramReceived "O2000" (Some "second"%string))]
    [0;0;0;0;0;1;1;1;1;1]%nat [0;0;1]%nat (λ _ c',
    answers c' = [Some (Ok tt); Some (Err (err 409 "conflict" "constraint violated"))] ∧
    map rv_content_ref (w_db (c_world c') Program_revisions) = [Some "first"%string])).
  vm_compute. reflexivity.
Qed.

(** Two derivations of the same window that overlap delete what was there before, and neither
    deletes what the other writes: every state and every downtime is stored twice. *)
Theorem overlapping_recomputes_double :
  ∃ c c', rtc (@cstep sample_env _ (@serving sample_env sample_cmms)) (mkCluster shop []) c ∧
    rtc (@cstep sample_env _ (@serving sample_env sample_cmms)) c c' ∧
    (answers c' = [Some (Ok tt); Some (Ok tt)] ∧
     map (λ r, (ms_state r, ms_start_ts r, ms_end_ts r)) (w_db (c_world c') Machine_states) =
       [("down"%string, 0, seconds 600); ("down"%string, 0, seconds 600)] ∧
     length (w_db (c_world c') Downtime_events) = 2%nat).
Proof.
  apply (shop_run [Recompute "wc1" 0 (seconds 600); Recompute "wc1" 0 (seconds 600)]
    [0;0;0;0;0;0;0;0;0;0;1;1;1;1;1;1;1;1;1;1]%nat [0;1]%nat (λ _ c',
    answers c' = [Some (Ok tt); Some (Ok tt)] ∧
    map (λ r, (ms_state r, ms_start_ts r, ms_end_ts r)) (w_db (c_world c') Machine_states) =
      [("down"%string, 0, seconds 600); ("down"%string, 0, seconds 600)] ∧
    length (w_db (c_world c') Downtime_events) = 2%nat)).
  vm_compute. reflexivity.
Qed.

(** Of two overlapping moves of a maintenance order, the second waits for the row, ... *)
Example second_transition_waits :
  let move := TransitionMaintenanceWo "m1" (mkMaintenanceTransitionInput "scheduled" None None) in
  @play_schedule sample_env _ [0;0;0;1;1;1]%nat (waiting (programs [move; move]) shop) = None.
Proof. vm_compute. reflexivity. Qed.

(** ... then finds it moved and is refused. *)
Lemma concurrent_consistent_witness :
  ∃ c c', rtc (@cstep sample_env _ (@serving sample_env sample_cmms)) (mkCluster shop []) c ∧
    rtc (@cstep sample_env _ (@serving sample_env sample_cmms)) c c' ∧
    (answers c' = [Some (Ok tt);
       Some (Err (err 409 "conflict" "cannot move scheduled -> scheduled"))] ∧
     map mw_status (w_db (c_world c') Maintenance_work_orders) = ["scheduled"%string]) ∧
    schema_ok (w_db (c_world c')) ∧
    mwo_moves (w_db (c_world c) Maintenance_work_orders)
      (w_db (c_world c') Maintenance_work_orders) ∧
    mwo_stepwise (w_db (c_world c) Maintenance_work_orders)
      (w_db (c_world c') Maintenance_work_orders).
Proof.
  destruct (shop_run [TransitionMaintenanceWo "m1"
      (mkMaintenanceTransitionInput "scheduled" None None);
    TransitionMaintenanceWo "m1" (mkMaintenanceTransitionInput "scheduled" None None)]
    [0;0;0;1;1]%nat [0;0;0;1;1;0;0;0]%nat (λ _ c',
    answers c' = [Some (Ok tt);
       Some (Err (err 409 "conflict" "cannot move scheduled -> scheduled"))] ∧
    map mw_status (w_db (c_world c') Maintenance_work_orders) = ["scheduled"%string]))
    as (c & c' & H1 & H2 & HP); [vm_compute; reflexivity|].
  exists c, c'. split; [exact H1|]. split; [exact H2|]. split; [exact HP|].
  destruct (@concurrent_consistent sample_env sample_cmms shop c c' shop_ok H1 H2)
    as (A & B & C & _).
  split; [exact A|split; [exact B|exact C]].
Defined.

Lemma undisturbed_as_handled_witness :
  rtc (@cstep sample_env _ (@serving sample_env sample_cmms))
    (mkCluster shop [mkSession (@steps sample_env sample_cmms admin (CancelOrder "o1")) idle])
    (mkCluster (@handle sample_env sample_cmms admin (CancelOrder "o1") shop).2
       [mkSession (Return (Ok tt)) idle]).
Proof.
  assert ((@handle sample_env sample_cmms admin (CancelOrder "o1") shop).1 = Ok tt) as E
    by (vm_compute; reflexivity).
  rewrite <- E.
  exact (@undisturbed_as_handled sample_env sample_cmms admin (CancelOrder "o1") shop
    shop_ok eq_refl).
Defined.
