(* ===== verification/Wire.v ===== *)
(** * The JSON form of requests

    The request types of [mes-client] as serde derives their JSON form: what a client writes
    and what a server reads. A server accepts more than clients write: a struct may come as
    an object with fields in any order and unknown ones among them, or as an array of its
    fields; a known field may not be repeated. *)

From S2P Require Import Prelude Schema Sql Ingest Orders Dnc Sync Protocol Exec Trace Qms Cmms.
From S2P Require Import Auth Master Mapping Erp.

(** ** Reading *)

(** A [serde_json::Value]: an object is a [BTreeMap], which keeps the last value of a key that
    is repeated. *)
Fixpoint as_value (v : Json) : Json :=
  match v with
  | JArr l => JArr (map as_value l)
  | JObj fields =>
      JObj (foldl (λ m f, bt_insert (fst f) (snd f) m) []
              (map (λ f, (fst f, as_value (snd f))) fields))
  | other => other
  end.

Fixpoint keys_in_order (ks : list string) : bool :=
  match ks with
  | k :: (k' :: _) as ks' =>
      match String.compare k k' with Lt => keys_in_order ks' | _ => false end
  | _ => true
  end.

(** The documents that are values as they stand. *)
Fixpoint is_value (v : Json) : bool :=
  match v with
  | JArr l => forallb is_value l
  | JObj fields => keys_in_order (map fst fields) && forallb (λ f, is_value (snd f)) fields
  | _ => true
  end.

Definition any_value (v : Json) : option Json := Some (as_value v).

Definition as_bool (v : Json) : option bool := match v with JBool b => Some b | _ => None end.

(** ** Structs the handlers take apart *)

Record ClassifyDowntimeInput := mkClassifyDowntimeInput { cdi_reason_id : string }.

Record RecomputeRequest := mkRecomputeRequest {
  rq_work_center_id : string; rq_start : DateTime; rq_end : DateTime
}.

Record DispositionInput := mkDispositionInput {
  dpi_disposition : string; dpi_reason : option string
}.

Record ProcurementRequestInput := mkProcurementRequestInput {
  pri_spare_part_id : string; pri_qty_requested : Decimal
}.

Record OrgInput := mkOrgInput { ori_code : string; ori_name : string }.
Record PlantInput := mkPlantInput { pli_code : string; pli_name : string }.
Record PushRequest := mkPushRequest { pq_plant_id : string; pq_entries : list SyncEntry }.
Record AckRequest := mkAckRequest { aq_plant_id : string; aq_ids : list string }.

Record RemoteWorkOrderInput := mkRemoteWorkOrderInput {
  rwi_wo_number : string; rwi_part_id : string; rwi_qty_ordered : Decimal;
  rwi_priority : option Z
}.

Record CopilotRequest := mkCopilotRequest { cq_message : string }.

Section wire.
Context {text : WireText}.

(** ** Work orders and execution *)

Definition wo_operation_input_to_json (i : WoOperationInput) : Json :=
  JObj [("op_no", JInt (oi_op_no i)); ("routing_op_id", JOpt JStr (oi_routing_op_id i));
        ("work_center_id", JOpt JStr (oi_work_center_id i))]%string.

Definition work_order_input_to_json (i : WorkOrderInput) : Json :=
  JObj [("wo_number", JStr (wi_wo_number i)); ("part_id", JStr (wi_part_id i));
        ("routing_id", JOpt JStr (wi_routing_id i));
        ("qty_ordered", JDecimal (wi_qty_ordered i)); ("priority", JOpt JInt (wi_priority i));
        ("planned_start", JOpt JTime (wi_planned_start i));
        ("planned_end", JOpt JTime (wi_planned_end i));
        ("operations", JArr (map wo_operation_input_to_json (wi_operations i)))]%string.

Definition count_input_to_json (i : CountInput) : Json :=
  JObj [("good", JInt (ci_good i)); ("scrap", JInt (ci_scrap i));
        ("scrap_reason_id", JOpt JStr (ci_scrap_reason_id i));
        ("ts", JOpt JTime (ci_ts i))]%string.

Definition count_input_of_json (v : Json) : option CountInput :=
  v ← as_struct ["good"; "scrap"; "scrap_reason_id"; "ts"]%string 4 v;
  good ← defaulted 0 as_i32 "good" v;
  scrap ← defaulted 0 as_i32 "scrap" v;
  scrap_reason_id ← optional as_text "scrap_reason_id" v;
  ts ← optional as_instant "ts" v;
  Some (mkCountInput good scrap scrap_reason_id ts).

Definition classify_input_to_json (i : ClassifyDowntimeInput) : Json :=
  JObj [("reason_id", JStr (cdi_reason_id i))]%string.

Definition classify_input_of_json (v : Json) : option ClassifyDowntimeInput :=
  v ← as_struct ["reason_id"]%string 1 v;
  reason_id ← required as_text "reason_id" v;
  Some (mkClassifyDowntimeInput reason_id).

Definition split_downtime_input_to_json (i : SplitDowntimeInput) : Json :=
  JObj [("at", JTime (si_at i)); ("first_reason_id", JOpt JStr (si_first_reason_id i));
        ("second_reason_id", JOpt JStr (si_second_reason_id i))]%string.

Definition split_downtime_input_of_json (v : Json) : option SplitDowntimeInput :=
  v ← as_struct ["at"; "first_reason_id"; "second_reason_id"]%string 3 v;
  at_ ← required as_instant "at" v;
  first_reason_id ← optional as_text "first_reason_id" v;
  second_reason_id ← optional as_text "second_reason_id" v;
  Some (mkSplitDowntimeInput at_ first_reason_id second_reason_id).

(** ** Signals and transfers *)

(** The event's fields lie flat among the signal's; such a struct is read from objects
    only. *)
Definition raw_signal_to_json (s : RawSignal) : Json :=
  JObj ([("source_key", JStr (source_key s)); ("ts", JTime (ts s));
         ("type", JStr (event_type (event s)))]%string ++
        match event s with
        | Count good scrap => [("good", JInt good); ("scrap", JInt scrap)]%string
        | _ => []
        end).

(** The tag among flattened fields, by name or by number. *)
Definition as_variant (names : list string) (v : Json) : option string :=
  match v with
  | JInt n => if 0 <=? n then names !! Z.to_nat n else None
  | _ => as_text v
  end.

Definition is_object (v : Json) : bool := match v with JObj _ => true | _ => false end.

Definition raw_signal_of_json (v : Json) : option RawSignal :=
  if negb (is_object v) then None else
  v ← as_struct ["source_key"; "ts"; "type"]%string 3 v;
  source_key ← required as_text "source_key" v;
  ts ← required as_instant "ts" v;
  tag ← required (as_variant ["cycle"; "heartbeat"; "count"]%string) "type" v;
  event ← (if String.eqb tag "cycle" then Some Cycle
           else if String.eqb tag "heartbeat" then Some Heartbeat
           else if String.eqb tag "count" then
             v ← as_struct ["good"; "scrap"]%string 2 v;
             good ← defaulted 0 as_i32 "good" v;
             scrap ← defaulted 0 as_i32 "scrap" v;
             Some (Count good scrap)
           else None);
  Some (mkRawSignal source_key ts event).

(** An event of the daemon, as an object with a tag among its fields or as an array with the
    tag first. *)
Definition as_tagged (name : string) (v : Json) : option (string * Json) :=
  match v with
  | JObj fields =>
      v ← as_struct [name] 1 v;
      tag ← required as_text name v;
      Some (tag, JObj (select (λ f, negb (String.eqb (fst f) name)) fields))
  | JArr (t :: vs) => tag ← as_text t; Some (tag, JArr vs)
  | _ => None
  end.

Definition daemon_event_of_json (v : Json) : option DncEvent :=
  '(tag, v) ← as_tagged "event" v;
  if String.eqb tag "transfer_completed" then
    v ← as_struct ["reference"]%string 1 v;
    reference ← required as_text "reference" v;
    Some (TransferCompleted reference)
  else if String.eqb tag "transfer_failed" then
    v ← as_struct ["reference"; "error"]%string 1 v;
    reference ← required as_text "reference" v;
    error ← defaulted ""%string as_text "error" v;
    Some (TransferFailed reference error)
  else if String.eqb tag "program_received" then
    v ← as_struct ["program"; "content_ref"]%string 1 v;
    program ← required as_text "program" v;
    content_ref ← optional as_text "content_ref" v;
    Some (ProgramReceived program content_ref)
  else None.

Definition recompute_request_to_json (i : RecomputeRequest) : Json :=
  JObj [("work_center_id", JStr (rq_work_center_id i)); ("start", JTime (rq_start i));
        ("end", JTime (rq_end i))]%string.

Definition recompute_request_of_json (v : Json) : option RecomputeRequest :=
  v ← as_struct ["work_center_id"; "start"; "end"]%string 3 v;
  work_center_id ← required as_text "work_center_id" v;
  start ← required as_instant "start" v;
  end_ ← required as_instant "end" v;
  Some (mkRecomputeRequest work_center_id start end_).

Definition manual_transfer_input_to_json (i : ManualTransferInput) : Json :=
  JObj [("program_id", JStr (mi_program_id i));
        ("wo_operation_id", JOpt JStr (mi_wo_operation_id i));
        ("machine", JOpt JStr (mi_machine i))]%string.

Definition manual_transfer_input_of_json (v : Json) : option ManualTransferInput :=
  v ← as_struct ["program_id"; "wo_operation_id"; "machine"]%string 3 v;
  program_id ← required as_text "program_id" v;
  wo_operation_id ← optional as_text "wo_operation_id" v;
  machine ← optional as_text "machine" v;
  Some (mkManualTransferInput program_id machine wo_operation_id).

(** ** Traceability and quality *)

Definition lot_input_to_json (i : LotInput) : Json :=
  JObj [("lot_no", JStr (li_lot_no i)); ("part_id", JStr (li_part_id i));
        ("qty", JOpt JDecimal (li_qty i)); ("uom", JOpt JStr (li_uom i))]%string.

Definition lot_input_of_json (v : Json) : option LotInput :=
  v ← as_struct ["lot_no"; "part_id"; "qty"; "uom"]%string 4 v;
  lot_no ← required as_text "lot_no" v;
  part_id ← required as_text "part_id" v;
  qty ← optional as_quantity "qty" v;
  uom ← optional as_text "uom" v;
  Some (mkLotInput lot_no part_id qty uom).

Definition serial_input_to_json (i : SerialInput) : Json :=
  JObj [("serial_no", JStr (sri_serial_no i)); ("part_id", JStr (sri_part_id i));
        ("lot_id", JOpt JStr (sri_lot_id i))]%string.

Definition serial_input_of_json (v : Json) : option SerialInput :=
  v ← as_struct ["serial_no"; "part_id"; "lot_id"]%string 3 v;
  serial_no ← required as_text "serial_no" v;
  part_id ← required as_text "part_id" v;
  lot_id ← optional as_text "lot_id" v;
  Some (mkSerialInput serial_no part_id lot_id).

Definition genealogy_edge_input_to_json (i : GenealogyEdgeInput) : Json :=
  JObj [("parent_type", JStr (gi_parent_type i)); ("parent_id", JStr (gi_parent_id i));
        ("child_type", JStr (gi_child_type i)); ("child_id", JStr (gi_child_id i));
        ("qty", JOpt JDecimal (gi_qty i))]%string.

Definition genealogy_edge_input_of_json (v : Json) : option GenealogyEdgeInput :=
  v ← as_struct ["parent_type"; "parent_id"; "child_type"; "child_id"; "qty"]%string 5 v;
  parent_type ← required as_text "parent_type" v;
  parent_id ← required as_text "parent_id" v;
  child_type ← required as_text "child_type" v;
  child_id ← required as_text "child_id" v;
  qty ← optional as_quantity "qty" v;
  Some (mkGenealogyEdgeInput parent_type parent_id child_type child_id qty).

Definition issue_material_input_to_json (i : IssueMaterialInput) : Json :=
  JObj [("lot_id", JOpt JStr (ii_lot_id i)); ("serial_id", JOpt JStr (ii_serial_id i));
        ("qty", JDecimal (ii_qty i));
        ("wo_operation_id", JOpt JStr (ii_wo_operation_id i))]%string.

Definition issue_material_input_of_json (v : Json) : option IssueMaterialInput :=
  v ← as_struct ["lot_id"; "serial_id"; "qty"; "wo_operation_id"]%string 4 v;
  lot_id ← optional as_text "lot_id" v;
  serial_id ← optional as_text "serial_id" v;
  qty ← required as_quantity "qty" v;
  wo_operation_id ← optional as_text "wo_operation_id" v;
  Some (mkIssueMaterialInput lot_id serial_id qty wo_operation_id).

Definition hold_input_to_json (i : HoldInput) : Json :=
  JObj [("entity_type", JStr (hi_entity_type i)); ("entity_id", JStr (hi_entity_id i));
        ("reason", JOpt JStr (hi_reason i))]%string.

Definition hold_input_of_json (v : Json) : option HoldInput :=
  v ← as_struct ["entity_type"; "entity_id"; "reason"]%string 3 v;
  entity_type ← required as_text "entity_type" v;
  entity_id ← required as_text "entity_id" v;
  reason ← optional as_text "reason" v;
  Some (mkHoldInput entity_type entity_id reason).

Definition plan_input_to_json (i : PlanInput) : Json :=
  JObj [("part_id", JStr (pi_part_id i)); ("code", JStr (pi_code i));
        ("name", JStr (pi_name i))]%string.

Definition plan_input_of_json (v : Json) : option PlanInput :=
  v ← as_struct ["part_id"; "code"; "name"]%string 3 v;
  part_id ← required as_text "part_id" v;
  code ← required as_text "code" v;
  name ← required as_text "name" v;
  Some (mkPlanInput part_id code name).

Definition characteristic_input_to_json (i : CharacteristicInput) : Json :=
  JObj [("plan_id", JStr (chi_plan_id i)); ("name", JStr (chi_name i));
        ("uom", JOpt JStr (chi_uom i)); ("nominal", JOpt JDecimal (chi_nominal i));
        ("lower_limit", JOpt JDecimal (chi_lower_limit i));
        ("upper_limit", JOpt JDecimal (chi_upper_limit i))]%string.

Definition characteristic_input_of_json (v : Json) : option CharacteristicInput :=
  v ← as_struct ["plan_id"; "name"; "uom"; "nominal"; "lower_limit"; "upper_limit"]%string 6 v;
  plan_id ← required as_text "plan_id" v;
  name ← required as_text "name" v;
  uom ← optional as_text "uom" v;
  nominal ← optional as_quantity "nominal" v;
  lower_limit ← optional as_quantity "lower_limit" v;
  upper_limit ← optional as_quantity "upper_limit" v;
  Some (mkCharacteristicInput plan_id name uom nominal lower_limit upper_limit).

Definition result_input_to_json (i : ResultInput) : Json :=
  JObj [("characteristic_id", JStr (ri_characteristic_id i));
        ("lot_id", JOpt JStr (ri_lot_id i)); ("serial_id", JOpt JStr (ri_serial_id i));
        ("wo_operation_id", JOpt JStr (ri_wo_operation_id i));
        ("measured_value", JDecimal (ri_measured_value i))]%string.

Definition result_input_of_json (v : Json) : option ResultInput :=
  v ← as_struct ["characteristic_id"; "lot_id"; "serial_id"; "wo_operation_id";
                 "measured_value"]%string 5 v;
  characteristic_id ← required as_text "characteristic_id" v;
  lot_id ← optional as_text "lot_id" v;
  serial_id ← optional as_text "serial_id" v;
  wo_operation_id ← optional as_text "wo_operation_id" v;
  measured_value ← required as_quantity "measured_value" v;
  Some (mkResultInput characteristic_id lot_id serial_id wo_operation_id measured_value).

Definition disposition_input_to_json (i : DispositionInput) : Json :=
  JObj [("disposition", JStr (dpi_disposition i)); ("reason", JOpt JStr (dpi_reason i))]%string.

Definition disposition_input_of_json (v : Json) : option DispositionInput :=
  v ← as_struct ["disposition"; "reason"]%string 2 v;
  disposition ← required as_text "disposition" v;
  reason ← optional as_text "reason" v;
  Some (mkDispositionInput disposition reason).

(** ** Maintenance *)

Definition pm_schedule_input_to_json (i : PmScheduleInput) : Json :=
  JObj [("work_center_id", JStr (psi_work_center_id i)); ("name", JStr (psi_name i));
        ("trigger_type", JStr (psi_trigger_type i));
        ("interval_value", JDecimal (psi_interval_value i));
        ("checklist_ref", JOpt JStr (psi_checklist_ref i))]%string.

Definition pm_schedule_input_of_json (v : Json) : option PmScheduleInput :=
  v ← as_struct ["work_center_id"; "name"; "trigger_type"; "interval_value";
                 "checklist_ref"]%string 5 v;
  work_center_id ← required as_text "work_center_id" v;
  name ← required as_text "name" v;
  trigger_type ← required as_text "trigger_type" v;
  interval_value ← required as_quantity "interval_value" v;
  checklist_ref ← optional as_text "checklist_ref" v;
  Some (mkPmScheduleInput work_center_id name trigger_type interval_value checklist_ref).

Definition maintenance_wo_input_to_json (i : MaintenanceWoInput) : Json :=
  JObj [("work_center_id", JStr (mwi_work_center_id i));
        ("pm_schedule_id", JOpt JStr (mwi_pm_schedule_id i));
        ("wo_type", JStr (mwi_wo_type i)); ("notes", JOpt JStr (mwi_notes i))]%string.

Definition maintenance_wo_input_of_json (v : Json) : option MaintenanceWoInput :=
  v ← as_struct ["work_center_id"; "pm_schedule_id"; "wo_type"; "notes"]%string 4 v;
  work_center_id ← required as_text "work_center_id" v;
  pm_schedule_id ← optional as_text "pm_schedule_id" v;
  wo_type ← required as_text "wo_type" v;
  notes ← optional as_text "notes" v;
  Some (mkMaintenanceWoInput work_center_id pm_schedule_id wo_type notes).

Definition maintenance_transition_input_to_json (i : MaintenanceTransitionInput) : Json :=
  JObj [("status", JStr (mti_status i)); ("technician_id", JOpt JStr (mti_technician_id i));
        ("failure_code", JOpt JStr (mti_failure_code i))]%string.

Definition maintenance_transition_input_of_json (v : Json) :
    option MaintenanceTransitionInput :=
  v ← as_struct ["status"; "technician_id"; "failure_code"]%string 3 v;
  status ← required as_text "status" v;
  technician_id ← optional as_text "technician_id" v;
  failure_code ← optional as_text "failure_code" v;
  Some (mkMaintenanceTransitionInput status technician_id failure_code).

Definition spare_part_input_to_json (i : SparePartInput) : Json :=
  JObj [("code", JStr (spi_code i)); ("name", JStr (spi_name i));
        ("uom", JOpt JStr (spi_uom i)); ("reorder_point", JOpt JDecimal (spi_reorder_point i));
        ("reorder_qty", JOpt JDecimal (spi_reorder_qty i))]%string.

Definition spare_part_input_of_json (v : Json) : option SparePartInput :=
  v ← as_struct ["code"; "name"; "uom"; "reorder_point"; "reorder_qty"]%string 5 v;
  code ← required as_text "code" v;
  name ← required as_text "name" v;
  uom ← optional as_text "uom" v;
  reorder_point ← optional as_quantity "reorder_point" v;
  reorder_qty ← optional as_quantity "reorder_qty" v;
  Some (mkSparePartInput code name uom reorder_point reorder_qty).

Definition spare_txn_input_to_json (i : SpareTxnInput) : Json :=
  JObj [("spare_part_id", JStr (sti_spare_part_id i));
        ("maintenance_wo_id", JOpt JStr (sti_maintenance_wo_id i));
        ("txn_type", JStr (sti_txn_type i)); ("qty", JDecimal (sti_qty i))]%string.

Definition spare_txn_input_of_json (v : Json) : option SpareTxnInput :=
  v ← as_struct ["spare_part_id"; "maintenance_wo_id"; "txn_type"; "qty"]%string 4 v;
  spare_part_id ← required as_text "spare_part_id" v;
  maintenance_wo_id ← optional as_text "maintenance_wo_id" v;
  txn_type ← required as_text "txn_type" v;
  qty ← required as_quantity "qty" v;
  Some (mkSpareTxnInput spare_part_id maintenance_wo_id txn_type qty).

Definition procurement_input_to_json (i : ProcurementRequestInput) : Json :=
  JObj [("spare_part_id", JStr (pri_spare_part_id i));
        ("qty_requested", JDecimal (pri_qty_requested i))]%string.

Definition procurement_input_of_json (v : Json) : option ProcurementRequestInput :=
  v ← as_struct ["spare_part_id"; "qty_requested"]%string 2 v;
  spare_part_id ← required as_text "spare_part_id" v;
  qty_requested ← required as_quantity "qty_requested" v;
  Some (mkProcurementRequestInput spare_part_id qty_requested).

(** ** Master data *)

Definition site_input_to_json (i : SiteInput) : Json :=
  JObj [("code", JStr (si_in_code i)); ("name", JStr (si_in_name i));
        ("timezone", JOpt JStr (si_in_timezone i))]%string.

Definition site_input_of_json (v : Json) : option SiteInput :=
  v ← as_struct ["code"; "name"; "timezone"]%string 3 v;
  code ← required as_text "code" v;
  name ← required as_text "name" v;
  timezone ← optional as_text "timezone" v;
  Some (mkSiteInput code name timezone).

Definition area_input_to_json (i : AreaInput) : Json :=
  JObj [("site_id", JStr (ar_in_site_id i)); ("code", JStr (ar_in_code i));
        ("name", JStr (ar_in_name i))]%string.

Definition area_input_of_json (v : Json) : option AreaInput :=
  v ← as_struct ["site_id"; "code"; "name"]%string 3 v;
  site_id ← required as_text "site_id" v;
  code ← required as_text "code" v;
  name ← required as_text "name" v;
  Some (mkAreaInput site_id code name).

Definition work_center_input_to_json (i : WorkCenterInput) : Json :=
  JObj [("area_id", JStr (wc_in_area_id i)); ("code", JStr (wc_in_code i));
        ("name", JStr (wc_in_name i));
        ("external_ref", JOpt JStr (wc_in_external_ref i))]%string.

Definition work_center_input_of_json (v : Json) : option WorkCenterInput :=
  v ← as_struct ["area_id"; "code"; "name"; "external_ref"]%string 4 v;
  area_id ← required as_text "area_id" v;
  code ← required as_text "code" v;
  name ← required as_text "name" v;
  external_ref ← optional as_text "external_ref" v;
  Some (mkWorkCenterInput area_id code name external_ref).

Definition part_input_to_json (i : PartInput) : Json :=
  JObj [("code", JStr (pt_in_code i)); ("name", JStr (pt_in_name i));
        ("uom", JOpt JStr (pt_in_uom i))]%string.

Definition part_input_of_json (v : Json) : option PartInput :=
  v ← as_struct ["code"; "name"; "uom"]%string 3 v;
  code ← required as_text "code" v;
  name ← required as_text "name" v;
  uom ← optional as_text "uom" v;
  Some (mkPartInput code name uom).

Definition user_input_to_json (i : UserInput) : Json :=
  JObj [("username", JStr (us_in_username i)); ("display_name", JStr (us_in_display_name i));
        ("role_code", JStr (us_in_role_code i)); ("password", JOpt JStr (us_in_password i));
        ("pin", JOpt JStr (us_in_pin i)); ("badge_id", JOpt JStr (us_in_badge_id i))]%string.

Definition user_input_of_json (v : Json) : option UserInput :=
  v ← as_struct ["username"; "display_name"; "role_code"; "password"; "pin";
                 "badge_id"]%string 6 v;
  username ← required as_text "username" v;
  display_name ← required as_text "display_name" v;
  role_code ← required as_text "role_code" v;
  password ← optional as_text "password" v;
  pin ← optional as_text "pin" v;
  badge_id ← optional as_text "badge_id" v;
  Some (mkUserInput username display_name role_code password pin badge_id).

Definition program_input_to_json (i : ProgramInput) : Json :=
  JObj [("routing_op_id", JOpt JStr (pgi_routing_op_id i));
        ("part_id", JOpt JStr (pgi_part_id i));
        ("program_identifier", JStr (pgi_program_identifier i));
        ("target_machine", JOpt JStr (pgi_target_machine i))]%string.

Definition program_input_of_json (v : Json) : option ProgramInput :=
  v ← as_struct ["routing_op_id"; "part_id"; "program_identifier"; "target_machine"]%string 4 v;
  routing_op_id ← optional as_text "routing_op_id" v;
  part_id ← optional as_text "part_id" v;
  program_identifier ← required as_text "program_identifier" v;
  target_machine ← optional as_text "target_machine" v;
  Some (mkProgramInput routing_op_id part_id program_identifier target_machine).

(** ** ERP connections and sign-in *)

Definition erp_connection_input_to_json (i : ErpConnectionInput) : Json :=
  JObj [("site_id", JOpt JStr (ci_site_id i)); ("name", JStr (ci_name i));
        ("endpoint_url", JStr (ci_endpoint_url i));
        ("auth_token", JOpt JStr (ci_auth_token i));
        ("field_mapping", ci_field_mapping i);
        ("direction", JOpt JStr (ci_direction i));
        ("enabled", JOpt JBool (ci_enabled i))]%string.

Definition erp_connection_input_of_json (v : Json) : option ErpConnectionInput :=
  v ← as_struct ["site_id"; "name"; "endpoint_url"; "auth_token"; "field_mapping"; "direction";
                 "enabled"]%string 7 v;
  site_id ← optional as_text "site_id" v;
  name ← required as_text "name" v;
  endpoint_url ← required as_text "endpoint_url" v;
  auth_token ← optional as_text "auth_token" v;
  field_mapping ← defaulted JNull any_value "field_mapping" v;
  direction ← optional as_text "direction" v;
  enabled ← optional as_bool "enabled" v;
  Some (mkErpConnectionInput site_id name endpoint_url auth_token field_mapping direction enabled).

Definition erp_import_request_to_json (i : ErpImportRequest) : Json :=
  JObj [("connection_id", JStr (iq_connection_id i)); ("entity", JStr (iq_entity i));
        ("records", JArr (iq_records i))]%string.

Definition erp_import_request_of_json (v : Json) : option ErpImportRequest :=
  v ← as_struct ["connection_id"; "entity"; "records"]%string 3 v;
  connection_id ← required as_text "connection_id" v;
  entity ← required as_text "entity" v;
  records ← required (as_array any_value) "records" v;
  Some (mkErpImportRequest connection_id entity records).

Definition erp_export_request_to_json (i : ErpExportRequest) : Json :=
  JObj [("connection_id", JStr (eq_connection_id i)); ("entity", JStr (eq_entity i))]%string.

Definition erp_export_request_of_json (v : Json) : option ErpExportRequest :=
  v ← as_struct ["connection_id"; "entity"]%string 2 v;
  connection_id ← required as_text "connection_id" v;
  entity ← required as_text "entity" v;
  Some (mkErpExportRequest connection_id entity).

Definition login_request_to_json (i : LoginRequest) : Json :=
  JObj [("username", JStr (lq_username i)); ("password", JStr (lq_password i))]%string.

Definition login_request_of_json (v : Json) : option LoginRequest :=
  v ← as_struct ["username"; "password"]%string 2 v;
  username ← required as_text "username" v;
  password ← required as_text "password" v;
  Some (mkLoginRequest username password).

Definition pin_login_request_to_json (i : PinLoginRequest) : Json :=
  JObj [("username", JOpt JStr (plq_username i)); ("pin", JOpt JStr (plq_pin i));
        ("badge_id", JOpt JStr (plq_badge_id i))]%string.

Definition pin_login_request_of_json (v : Json) : option PinLoginRequest :=
  v ← as_struct ["username"; "pin"; "badge_id"]%string 3 v;
  username ← optional as_text "username" v;
  pin ← optional as_text "pin" v;
  badge_id ← optional as_text "badge_id" v;
  Some (mkPinLoginRequest username pin badge_id).

(** ** The cloud's requests *)

Definition org_input_to_json (i : OrgInput) : Json :=
  JObj [("code", JStr (ori_code i)); ("name", JStr (ori_name i))]%string.

Definition org_input_of_json (v : Json) : option OrgInput :=
  v ← as_struct ["code"; "name"]%string 2 v;
  code ← required as_text "code" v;
  name ← required as_text "name" v;
  Some (mkOrgInput code name).

Definition plant_input_to_json (i : PlantInput) : Json :=
  JObj [("code", JStr (pli_code i)); ("name", JStr (pli_name i))]%string.

Definition plant_input_of_json (v : Json) : option PlantInput :=
  v ← as_struct ["code"; "name"]%string 2 v;
  code ← required as_text "code" v;
  name ← required as_text "name" v;
  Some (mkPlantInput code name).

Definition sync_entry_to_json (e : SyncEntry) : Json :=
  JObj [("id", JStr (se_id e)); ("aggregate", JStr (se_aggregate e));
        ("entity_id", JStr (se_entity_id e)); ("op", JStr (se_op e));
        ("payload", se_payload e)]%string.

Definition sync_entry_of_json (v : Json) : option SyncEntry :=
  v ← as_struct ["id"; "aggregate"; "entity_id"; "op"; "payload"]%string 5 v;
  id ← required as_text "id" v;
  aggregate ← required as_text "aggregate" v;
  entity_id ← required as_text "entity_id" v;
  op ← required as_text "op" v;
  payload ← required any_value "payload" v;
  Some (mkSyncEntry id aggregate entity_id op payload).

Definition push_request_to_json (i : PushRequest) : Json :=
  JObj [("plant_id", JStr (pq_plant_id i));
        ("entries", JArr (map sync_entry_to_json (pq_entries i)))]%string.

Definition push_request_of_json (v : Json) : option PushRequest :=
  v ← as_struct ["plant_id"; "entries"]%string 2 v;
  plant_id ← required as_text "plant_id" v;
  entries ← required (as_array sync_entry_of_json) "entries" v;
  Some (mkPushRequest plant_id entries).

Definition ack_request_to_json (i : AckRequest) : Json :=
  JObj [("plant_id", JStr (aq_plant_id i)); ("ids", JArr (map JStr (aq_ids i)))]%string.

Definition ack_request_of_json (v : Json) : option AckRequest :=
  v ← as_struct ["plant_id"; "ids"]%string 2 v;
  plant_id ← required as_text "plant_id" v;
  ids ← required (as_array as_text) "ids" v;
  Some (mkAckRequest plant_id ids).

Definition remote_work_order_input_to_json (i : RemoteWorkOrderInput) : Json :=
  JObj [("wo_number", JStr (rwi_wo_number i)); ("part_id", JStr (rwi_part_id i));
        ("qty_ordered", JDecimal (rwi_qty_ordered i));
        ("priority", JOpt JInt (rwi_priority i))]%string.

Definition remote_work_order_input_of_json (v : Json) : option RemoteWorkOrderInput :=
  v ← as_struct ["wo_number"; "part_id"; "qty_ordered"; "priority"]%string 4 v;
  wo_number ← required as_text "wo_number" v;
  part_id ← required as_text "part_id" v;
  qty_ordered ← required as_quantity "qty_ordered" v;
  priority ← optional as_i32 "priority" v;
  Some (mkRemoteWorkOrderInput wo_number part_id qty_ordered priority).

Definition copilot_request_to_json (i : CopilotRequest) : Json :=
  JObj [("message", JStr (cq_message i))]%string.

Definition copilot_request_of_json (v : Json) : option CopilotRequest :=
  v ← as_struct ["message"]%string 1 v;
  message ← required as_text "message" v;
  Some (mkCopilotRequest message).

(** The body of a request for diagnostics. *)
Definition send_input_of_json (v : Json) : option (option string) :=
  v ← as_struct ["note"]%string 1 v;
  optional as_text "note" v.

(** ** What clients write, servers read *)

Lemma keys_in_order_sorted ks : keys_in_order ks = true → StronglySorted before ks.
Proof.
  intros H. apply Sorted_StronglySorted; [exact before_trans|].
  induction ks as [|k [|k' ks] IH]; [constructor|repeat constructor|].
  cbn [keys_in_order] in H. destruct (String.compare k k') eqn:E; try done.
  constructor; [by apply IH|]. by constructor.
Qed.

Lemma bt_insert_last {A} k (v : A) l :
  Forall (λ x, before x k) (map fst l) → bt_insert k v l = l ++ [(k, v)].
Proof.
  induction l as [|[k' v'] l IH]; simpl; [done|]. intros [Hk Hl]%list.Forall_cons.
  unfold before in Hk. rewrite String.compare_antisym, Hk. simpl. by rewrite IH.
Qed.

Lemma bt_inserts_sorted {A} (l m : list (string * A)) :
  StronglySorted before (map fst (m ++ l)) →
  foldl (λ m f, bt_insert (fst f) (snd f) m) m l = m ++ l.
Proof.
  revert m. induction l as [|[k v] l IH]; intros m H; simpl; [by rewrite app_nil_r|].
  rewrite bt_insert_last.
  - rewrite IH; by rewrite <- (assoc_L (++)).
  - rewrite map_app in H. revert H. induction (map fst m) as [|x xs IHm]; [constructor|].
    intros [Hs Hf]%StronglySorted_inv. constructor; [|by apply IHm].
    apply Forall_app in Hf as [_ Hf]. by inversion Hf.
Qed.

Lemma as_value_id v : is_value v = true → as_value v = v.
Proof.
  induction v as [| | | | | | |l IH|fields IH] using json_induction; try done; simpl.
  - intros H. f_equal. rewrite <- (map_id l) at 2. apply map_ext_in. intros x Hx.
    rewrite Forall_forall in IH. rewrite forallb_forall in H. auto.
  - intros [Hk Hv]%andb_true_iff. f_equal.
    assert (map (λ f, (fst f, as_value (snd f))) fields = fields) as ->.
    { rewrite <- (map_id fields) at 2. apply map_ext_in. intros [k x] Hx. simpl. f_equal.
      rewrite Forall_forall in IH. rewrite forallb_forall in Hv. by apply (IH _ Hx), (Hv _ Hx). }
    by apply (bt_inserts_sorted fields []), keys_in_order_sorted.
Qed.

(** A request type with its JSON form. What [fits] holds of (integers within the width of
    their Rust type) is read back as it was written. *)
Class Wire (A : Type) := {
  to_json : A → Json;
  of_json : Json → option A;
  fits : A → bool;
  wire_read a : fits a = true → of_json (to_json a) = Some a
}.

Definition opt_i32 (o : option Z) : bool := match o with Some n => in_i32 n | None => true end.

Lemma as_i32_fits n : in_i32 n = true → as_i32 (JInt n) = Some n.
Proof. intros H. simpl. by rewrite H. Qed.

Lemma as_array_fits {A} (enc : A → Json) dec l :
  (∀ a, a ∈ l → dec (enc a) = Some a) → as_array dec (JArr (map enc l)) = Some l.
Proof.
  intros H. simpl. apply mapM_Some. induction l as [|a l IH]; simpl; [constructor|].
  constructor; [apply H; left|]. apply IH. intros b Hb. apply H. by right.
Qed.

Ltac options := repeat match goal with o : option _ |- _ => destruct o end.

(** Reads a record back from its fields. *)
Ltac reads := intros [] _; options; reflexivity.

Lemma wo_operation_read a :
  in_i32 (oi_op_no a) = true →
  wo_operation_input_of_json (wo_operation_input_to_json a) = Some a.
Proof.
  destruct a as [n r w]. simpl. intros H. unfold wo_operation_input_of_json. simpl.
  unfold required. simpl. rewrite H. by destruct r, w.
Qed.

#[global] Program Instance work_order_wire : Wire WorkOrderInput := {|
  to_json := work_order_input_to_json;
  of_json := work_order_input_of_json;
  fits i := opt_i32 (wi_priority i) && forallb (λ o, in_i32 (oi_op_no o)) (wi_operations i)
|}.
Next Obligation.
  intros [number part routing qty priority start end_ ops] [Hp Ho]%andb_true_iff. simpl in *.
  assert (as_array wo_operation_input_of_json (JArr (map wo_operation_input_to_json ops)) = Some ops)
    as Hops.
  { apply as_array_fits. intros o Hin. apply wo_operation_read.
    rewrite forallb_forall in Ho. by apply Ho, list_elem_of_In. }
  unfold work_order_input_of_json, required, optional, defaulted. simpl. simpl in Hops.
  rewrite Hops. destruct priority; simpl in Hp; options; simpl; by rewrite ?Hp.
Qed.

#[global] Program Instance count_wire : Wire CountInput := {|
  to_json := count_input_to_json;
  of_json := count_input_of_json;
  fits i := in_i32 (ci_good i) && in_i32 (ci_scrap i)
|}.
Next Obligation.
  intros [good scrap reason ts] [Hg Hs]%andb_true_iff. simpl in *.
  unfold count_input_of_json, defaulted. simpl. rewrite Hg, Hs. options; reflexivity.
Qed.

Definition signal_fits (s : RawSignal) : bool :=
  match event s with Count good scrap => in_i32 good && in_i32 scrap | _ => true end.

#[global] Program Instance raw_signal_wire : Wire RawSignal := {|
  to_json := raw_signal_to_json;
  of_json := raw_signal_of_json;
  fits := signal_fits
|}.
Next Obligation.
  intros [key ts [| |good scrap]]; simpl; [reflexivity..|]. intros [Hg Hs]%andb_true_iff.
  unfold raw_signal_of_json, defaulted. simpl. unfold defaulted. simpl. by rewrite Hg, Hs.
Qed.

#[global] Program Instance dnc_event_wire : Wire DncEvent := {|
  to_json := event_to_json;
  of_json := daemon_event_of_json;
  fits _ := true
|}.
Next Obligation. intros [| |program [content|]] _; reflexivity. Qed.

#[global] Program Instance list_wire {A} `{!Wire A} : Wire (list A) := {|
  to_json l := JArr (map to_json l);
  of_json := as_array of_json;
  fits := forallb fits
|}.
Next Obligation.
  intros A W l Hl. apply as_array_fits. intros a Ha. apply wire_read.
  rewrite forallb_forall in Hl. by apply Hl, list_elem_of_In.
Qed.

#[global] Program Instance import_wire : Wire ErpImportRequest := {|
  to_json := erp_import_request_to_json;
  of_json := erp_import_request_of_json;
  fits i := forallb is_value (iq_records i)
|}.
Next Obligation.
  intros [c e records] Hv. simpl in Hv. rewrite forallb_forall in Hv.
  pose proof (as_array_fits id any_value records) as H. rewrite map_id in H.
  unfold erp_import_request_of_json, required. simpl in *. rewrite H; [done|].
  intros v Hin%list_elem_of_In. unfold any_value. by rewrite as_value_id by auto.
Qed.

#[global] Program Instance classify_wire : Wire ClassifyDowntimeInput := {|
  to_json := classify_input_to_json; of_json := classify_input_of_json; fits _ := true
|}.
Next Obligation. reads. Qed.

#[global] Program Instance split_downtime_wire : Wire SplitDowntimeInput := {|
  to_json := split_downtime_input_to_json; of_json := split_downtime_input_of_json; fits _ := true
|}.
Next Obligation. reads. Qed.

#[global] Program Instance recompute_wire : Wire RecomputeRequest := {|
  to_json := recompute_request_to_json; of_json := recompute_request_of_json; fits _ := true
|}.
Next Obligation. reads. Qed.

#[global] Program Instance manual_transfer_wire : Wire ManualTransferInput := {|
  to_json := manual_transfer_input_to_json; of_json := manual_transfer_input_of_json; fits _ := true
|}.
Next Obligation. reads. Qed.

#[global] Program Instance lot_wire : Wire LotInput := {|
  to_json := lot_input_to_json; of_json := lot_input_of_json; fits _ := true
|}.
Next Obligation. reads. Qed.

#[global] Program Instance serial_wire : Wire SerialInput := {|
  to_json := serial_input_to_json; of_json := serial_input_of_json; fits _ := true
|}.
Next Obligation. reads. Qed.

#[global] Program Instance genealogy_edge_wire : Wire GenealogyEdgeInput := {|
  to_json := genealogy_edge_input_to_json; of_json := genealogy_edge_input_of_json; fits _ := true
|}.
Next Obligation. reads. Qed.

#[global] Program Instance issue_material_wire : Wire IssueMaterialInput := {|
  to_json := issue_material_input_to_json; of_json := issue_material_input_of_json; fits _ := true
|}.
Next Obligation. reads. Qed.

#[global] Program Instance hold_wire : Wire HoldInput := {|
  to_json := hold_input_to_json; of_json := hold_input_of_json; fits _ := true
|}.
Next Obligation. reads. Qed.

#[global] Program Instance plan_wire : Wire PlanInput := {|
  to_json := plan_input_to_json; of_json := plan_input_of_json; fits _ := true
|}.
Next Obligation. reads. Qed.

#[global] Program Instance characteristic_wire : Wire CharacteristicInput := {|
  to_json := characteristic_input_to_json; of_json := characteristic_input_of_json; fits _ := true
|}.
Next Obligation. reads. Qed.

#[global] Program Instance result_wire : Wire ResultInput := {|
  to_json := result_input_to_json; of_json := result_input_of_json; fits _ := true
|}.
Next Obligation. reads. Qed.

#[global] Program Instance disposition_wire : Wire DispositionInput := {|
  to_json := disposition_input_to_json; of_json := disposition_input_of_json; fits _ := true
|}.
Next Obligation. reads. Qed.

#[global] Program Instance pm_schedule_wire : Wire PmScheduleInput := {|
  to_json := pm_schedule_input_to_json; of_json := pm_schedule_input_of_json; fits _ := true
|}.
Next Obligation. reads. Qed.

#[global] Program Instance maintenance_wo_wire : Wire MaintenanceWoInput := {|
  to_json := maintenance_wo_input_to_json; of_json := maintenance_wo_input_of_json; fits _ := true
|}.
Next Obligation. reads. Qed.

#[global] Program Instance maintenance_transition_wire : Wire MaintenanceTransitionInput := {|
  to_json := maintenance_transition_input_to_json; of_json := maintenance_transition_input_of_json; fits _ := true
|}.
Next Obligation. reads. Qed.

#[global] Program Instance spare_part_wire : Wire SparePartInput := {|
  to_json := spare_part_input_to_json; of_json := spare_part_input_of_json; fits _ := true
|}.
Next Obligation. reads. Qed.

#[global] Program Instance spare_txn_wire : Wire SpareTxnInput := {|
  to_json := spare_txn_input_to_json; of_json := spare_txn_input_of_json; fits _ := true
|}.
Next Obligation. reads. Qed.

#[global] Program Instance procurement_wire : Wire ProcurementRequestInput := {|
  to_json := procurement_input_to_json; of_json := procurement_input_of_json; fits _ := true
|}.
Next Obligation. reads. Qed.

#[global] Program Instance site_wire : Wire SiteInput := {|
  to_json := site_input_to_json; of_json := site_input_of_json; fits _ := true
|}.
Next Obligation. reads. Qed.

#[global] Program Instance area_wire : Wire AreaInput := {|
  to_json := area_input_to_json; of_json := area_input_of_json; fits _ := true
|}.
Next Obligation. reads. Qed.

#[global] Program Instance work_center_wire : Wire WorkCenterInput := {|
  to_json := work_center_input_to_json; of_json := work_center_input_of_json; fits _ := true
|}.
Next Obligation. reads. Qed.

#[global] Program Instance part_wire : Wire PartInput := {|
  to_json := part_input_to_json; of_json := part_input_of_json; fits _ := true
|}.
Next Obligation. reads. Qed.

#[global] Program Instance user_wire : Wire UserInput := {|
  to_json := user_input_to_json; of_json := user_input_of_json; fits _ := true
|}.
Next Obligation. reads. Qed.

#[global] Program Instance program_wire : Wire ProgramInput := {|
  to_json := program_input_to_json; of_json := program_input_of_json; fits _ := true
|}.
Next Obligation. reads. Qed.

#[global] Program Instance erp_connection_wire : Wire ErpConnectionInput := {|
  to_json := erp_connection_input_to_json; of_json := erp_connection_input_of_json;
  fits i := is_value (ci_field_mapping i)
|}.
Next Obligation.
  intros [] Hv. simpl in Hv. options; unfold erp_connection_input_of_json, defaulted, any_value;
    simpl; by rewrite as_value_id.
Qed.

#[global] Program Instance erp_export_wire : Wire ErpExportRequest := {|
  to_json := erp_export_request_to_json; of_json := erp_export_request_of_json; fits _ := true
|}.
Next Obligation. reads. Qed.

#[global] Program Instance login_wire : Wire LoginRequest := {|
  to_json := login_request_to_json; of_json := login_request_of_json; fits _ := true
|}.
Next Obligation. reads. Qed.

#[global] Program Instance pin_login_wire : Wire PinLoginRequest := {|
  to_json := pin_login_request_to_json; of_json := pin_login_request_of_json; fits _ := true
|}.
Next Obligation. reads. Qed.

#[global] Program Instance org_wire : Wire OrgInput := {|
  to_json := org_input_to_json; of_json := org_input_of_json; fits _ := true
|}.
Next Obligation. reads. Qed.

#[global] Program Instance plant_wire : Wire PlantInput := {|
  to_json := plant_input_to_json; of_json := plant_input_of_json; fits _ := true
|}.
Next Obligation. reads. Qed.

Lemma sync_entry_read e :
  is_value (se_payload e) = true → sync_entry_of_json (sync_entry_to_json e) = Some e.
Proof.
  destruct e. intros Hv. simpl in Hv. unfold sync_entry_of_json, required, any_value. simpl.
  by rewrite as_value_id.
Qed.

#[global] Program Instance sync_entry_wire : Wire SyncEntry := {|
  to_json := sync_entry_to_json; of_json := sync_entry_of_json;
  fits e := is_value (se_payload e)
|}.
Next Obligation. exact sync_entry_read. Qed.

#[global] Program Instance push_wire : Wire PushRequest := {|
  to_json := push_request_to_json; of_json := push_request_of_json;
  fits i := forallb (λ e, is_value (se_payload e)) (pq_entries i)
|}.
Next Obligation.
  intros [plant entries] Hv. simpl in Hv. rewrite forallb_forall in Hv.
  pose proof (as_array_fits sync_entry_to_json sync_entry_of_json entries) as H.
  unfold push_request_of_json, required. simpl in *. rewrite H; [done|].
  intros e Hin%list_elem_of_In. by apply sync_entry_read, Hv.
Qed.

#[global] Program Instance ack_wire : Wire AckRequest := {|
  to_json := ack_request_to_json; of_json := ack_request_of_json; fits _ := true
|}.
Next Obligation.
  intros [plant ids] _. pose proof (as_array_fits JStr as_text ids ltac:(done)) as H.
  unfold ack_request_of_json, required. simpl in *. by rewrite H.
Qed.

#[global] Program Instance remote_work_order_wire : Wire RemoteWorkOrderInput := {|
  to_json := remote_work_order_input_to_json;
  of_json := remote_work_order_input_of_json;
  fits i := opt_i32 (rwi_priority i)
|}.
Next Obligation.
  intros [number part qty [priority|]] Hp; simpl in Hp; [|done].
  unfold remote_work_order_input_of_json, required, optional. simpl. by rewrite Hp.
Qed.

#[global] Program Instance copilot_wire : Wire CopilotRequest := {|
  to_json := copilot_request_to_json; of_json := copilot_request_of_json; fits _ := true
|}.
Next Obligation. reads. Qed.

(** A body that is any JSON value. *)
#[global] Program Instance json_wire : Wire Json := {|
  to_json v := v; of_json := any_value; fits := is_value
|}.
Next Obligation. intros v Hv. unfold any_value. by rewrite as_value_id. Qed.
End wire.

