(* ===== verification/Reply.v ===== *)
(** * The JSON form of answers and of live events

    The answers of [mes-client] (and the few of [mes-core] and of [json!] in the handlers) as
    serde writes them: a struct is an object with its fields in the order of their
    declaration, [Option] is null or the value, a float that is no number is null. A row of
    the database has columns its answer leaves out. *)

From Stdlib Require Import SpecFloat.
From S2P Require Import Prelude Numeric Oee Analytics Schema Sql Ingest Metrics Orders Dnc Sync.
From S2P Require Import Protocol Exec Trace Qms Cmms Auth Master Mapping Erp Process Agent Wire.

(** A type of answers with its JSON form. *)
Class Reply (A : Type) := reply_json : A → Json.

#[global] Instance list_reply {A} `{!Reply A} : Reply (list A) := λ l, JArr (map reply_json l).
#[global] Instance option_reply {A} `{!Reply A} : Reply (option A) := λ o, JOpt reply_json o.

(** ** Scalars *)

(** serde_json writes what is infinite or no number as null. *)
Definition json_f64 (x : spec_float) : Json :=
  match x with S754_zero _ | S754_finite _ _ _ => JFloat x | _ => JNull end.

Definition json_usize (n : nat) : Json := JInt (Z.of_nat n).

(** ** Master data *)

Definition site_to_json (r : SiteRow) : Json :=
  JObj [("id", JStr (si_id r)); ("code", JStr (si_code r)); ("name", JStr (si_name r));
        ("timezone", JStr (si_timezone r)); ("created_at", JTime (si_created_at r));
        ("updated_at", JTime (si_updated_at r))]%string.
#[global] Instance site_reply : Reply SiteRow := site_to_json.

Definition area_to_json (r : AreaRow) : Json :=
  JObj [("id", JStr (ar_id r)); ("site_id", JStr (ar_site_id r)); ("code", JStr (ar_code r));
        ("name", JStr (ar_name r)); ("created_at", JTime (ar_created_at r));
        ("updated_at", JTime (ar_updated_at r))]%string.
#[global] Instance area_reply : Reply AreaRow := area_to_json.

Definition work_center_to_json (r : WorkCenterRow) : Json :=
  JObj [("id", JStr (wc_id r)); ("area_id", JStr (wc_area_id r)); ("code", JStr (wc_code r));
        ("name", JStr (wc_name r)); ("external_ref", JOpt JStr (wc_external_ref r));
        ("created_at", JTime (wc_created_at r)); ("updated_at", JTime (wc_updated_at r))]%string.
#[global] Instance work_center_reply : Reply WorkCenterRow := work_center_to_json.

Definition part_to_json (r : PartRow) : Json :=
  JObj [("id", JStr (pt_id r)); ("code", JStr (pt_code r)); ("name", JStr (pt_name r));
        ("uom", JStr (pt_uom r)); ("created_at", JTime (pt_created_at r));
        ("updated_at", JTime (pt_updated_at r))]%string.
#[global] Instance part_reply : Reply PartRow := part_to_json.

Definition user_to_json (u : User) : Json :=
  JObj [("id", JStr (u_id u)); ("username", JStr (u_username u));
        ("display_name", JStr (u_display_name u)); ("role_code", JStr (u_role_code u));
        ("active", JBool (u_active u)); ("created_at", JTime (u_created_at u));
        ("updated_at", JTime (u_updated_at u))]%string.
#[global] Instance user_reply : Reply User := user_to_json.

Definition program_to_json (r : ProgramRow) : Json :=
  JObj [("id", JStr (pg_id r)); ("routing_op_id", JOpt JStr (pg_routing_op_id r));
        ("part_id", JOpt JStr (pg_part_id r));
        ("program_identifier", JStr (pg_program_identifier r));
        ("target_machine", JOpt JStr (pg_target_machine r));
        ("created_at", JTime (pg_created_at r)); ("updated_at", JTime (pg_updated_at r))]%string.
#[global] Instance program_reply : Reply ProgramRow := program_to_json.

(** ** Work orders and execution *)

Definition work_order_fields (r : WorkOrderRow) : list (string * Json) :=
  [("id", JStr (wo_id r)); ("wo_number", JStr (wo_wo_number r));
   ("part_id", JStr (wo_part_id r)); ("routing_id", JOpt JStr (wo_routing_id r));
   ("qty_ordered", JDecimal (wo_qty_ordered r)); ("priority", JInt (wo_priority r));
   ("status", JStr (wo_status r)); ("planned_start", JOpt JTime (wo_planned_start r));
   ("planned_end", JOpt JTime (wo_planned_end r)); ("created_at", JTime (wo_created_at r));
   ("updated_at", JTime (wo_updated_at r))]%string.

Definition work_order_to_json (r : WorkOrderRow) : Json := JObj (work_order_fields r).
#[global] Instance work_order_reply : Reply WorkOrderRow := work_order_to_json.

Definition wo_operation_to_json (r : WoOperationRow) : Json :=
  JObj [("id", JStr (op_id r)); ("work_order_id", JStr (op_work_order_id r));
        ("routing_op_id", JOpt JStr (op_routing_op_id r)); ("op_no", JInt (op_op_no r));
        ("work_center_id", JOpt JStr (op_work_center_id r)); ("status", JStr (op_status r));
        ("qty_good", JInt (op_qty_good r)); ("qty_scrap", JInt (op_qty_scrap r));
        ("started_at", JOpt JTime (op_started_at r));
        ("completed_at", JOpt JTime (op_completed_at r));
        ("created_at", JTime (op_created_at r)); ("updated_at", JTime (op_updated_at r))]%string.
#[global] Instance wo_operation_reply : Reply WoOperationRow := wo_operation_to_json.

(** The order is flattened into the detail. *)
Definition work_order_detail_to_json (d : WorkOrderDetail) : Json :=
  JObj (work_order_fields (work_order d) ++ [("operations"%string, reply_json (operations d))]).
#[global] Instance work_order_detail_reply : Reply WorkOrderDetail := work_order_detail_to_json.

Definition downtime_event_to_json (r : DowntimeRow) : Json :=
  JObj [("id", JStr (de_id r)); ("work_center_id", JStr (de_work_center_id r));
        ("state", JStr (de_state r)); ("start_ts", JTime (de_start_ts r));
        ("end_ts", JTime (de_end_ts r)); ("reason_id", JOpt JStr (de_reason_id r))]%string.
#[global] Instance downtime_event_reply : Reply DowntimeRow := downtime_event_to_json.

Definition ingest_result_to_json (r : IngestResult) : Json :=
  JObj [("accepted", json_usize (accepted r)); ("dropped", json_usize (dropped r))]%string.
#[global] Instance ingest_result_reply : Reply IngestResult := ingest_result_to_json.

Definition recompute_result_to_json (r : RecomputeResult) : Json :=
  JObj [("states", json_usize (states r)); ("downtime", json_usize (downtime r))]%string.
#[global] Instance recompute_result_reply : Reply RecomputeResult := recompute_result_to_json.

(** ** Reporting *)

Definition oee_fields (r : OeeResult spec_float) : list (string * Json) :=
  [("availability", json_f64 (availability r)); ("performance", json_f64 (performance r));
   ("quality", json_f64 (quality r)); ("oee", json_f64 (oee r))]%string.

Definition oee_result_to_json (r : OeeResult spec_float) : Json := JObj (oee_fields r).
#[global] Instance oee_result_reply : Reply (OeeResult spec_float) := oee_result_to_json.

Definition shift_oee_to_json (r : ShiftOee spec_float) : Json :=
  JObj ([("shift_name", JStr (shift_name r)); ("start", JTime (so_start r));
         ("end", JTime (so_end r))]%string ++ oee_fields (so_result r)).
#[global] Instance shift_oee_reply : Reply (ShiftOee spec_float) := shift_oee_to_json.

Definition pareto_row_to_json (r : ParetoRow spec_float) : Json :=
  JObj [("key", JStr (pr_key r)); ("label", JStr (pr_label r));
        ("seconds", JInt (pr_seconds r)); ("pct", json_f64 (pct r));
        ("cumulative_pct", json_f64 (cumulative_pct r))]%string.
#[global] Instance pareto_row_reply : Reply (ParetoRow spec_float) := pareto_row_to_json.

(** [TrendPoint], a day and its seconds. *)
Definition trend_point_to_json (p : DateTime * Z) : Json :=
  JObj [("day", JTime (fst p)); ("seconds", JInt (snd p))]%string.

(** ** DNC *)

Definition transfer_event_to_json (r : TransferRow) : Json :=
  JObj [("id", JStr (tr_id r)); ("wo_operation_id", JOpt JStr (tr_wo_operation_id r));
        ("program_id", JStr (tr_program_id r)); ("direction", JStr (tr_direction r));
        ("status", JStr (tr_status r)); ("dnc_daemon_ref", JOpt JStr (tr_dnc_daemon_ref r));
        ("triggered_at", JTime (tr_triggered_at r));
        ("completed_at", JOpt JTime (tr_completed_at r));
        ("created_at", JTime (tr_created_at r)); ("updated_at", JTime (tr_updated_at r))]%string.
#[global] Instance transfer_event_reply : Reply TransferRow := transfer_event_to_json.

Definition program_revision_to_json (r : RevisionRow) : Json :=
  JObj [("id", JStr (rv_id r)); ("program_id", JStr (rv_program_id r));
        ("revision_no", JInt (rv_revision_no r)); ("source", JStr (rv_source r));
        ("content_ref", JOpt JStr (rv_content_ref r)); ("status", JStr (rv_status r));
        ("submitted_by", JOpt JStr (rv_submitted_by r));
        ("submitted_at", JTime (rv_submitted_at r));
        ("promoted_by", JOpt JStr (rv_promoted_by r));
        ("promoted_at", JOpt JTime (rv_promoted_at r));
        ("created_at", JTime (rv_created_at r)); ("updated_at", JTime (rv_updated_at r))]%string.
#[global] Instance program_revision_reply : Reply RevisionRow := program_revision_to_json.

(** ** Traceability *)

Definition lot_to_json (r : LotRow) : Json :=
  JObj [("id", JStr (lt_id r)); ("lot_no", JStr (lt_lot_no r)); ("part_id", JStr (lt_part_id r));
        ("qty", JDecimal (lt_qty r)); ("uom", JStr (lt_uom r));
        ("created_at", JTime (lt_created_at r)); ("updated_at", JTime (lt_updated_at r))]%string.
#[global] Instance lot_reply : Reply LotRow := lot_to_json.

Definition serial_to_json (r : SerialRow) : Json :=
  JObj [("id", JStr (sl_id r)); ("serial_no", JStr (sl_serial_no r));
        ("part_id", JStr (sl_part_id r)); ("lot_id", JOpt JStr (sl_lot_id r));
        ("created_at", JTime (sl_created_at r)); ("updated_at", JTime (sl_updated_at r))]%string.
#[global] Instance serial_reply : Reply SerialRow := serial_to_json.

Definition trace_node_to_json (n : TraceNode) : Json :=
  JObj [("entity_type", JStr (tn_entity_type n)); ("entity_id", JStr (tn_entity_id n));
        ("ref_no", JOpt JStr (tn_ref_no n)); ("depth", JInt (tn_depth n))]%string.
#[global] Instance trace_node_reply : Reply TraceNode := trace_node_to_json.

(** [BarcodeParsed]. *)
Definition barcode_to_json (b : string * string) : Json :=
  JObj [("type_code", JStr (fst b)); ("id", JStr (snd b))]%string.

Definition txn_answer (txn_id : string) : Json := JObj [("txn_id"%string, JStr txn_id)].
Definition hold_answer (id : string) : Json := JObj [("hold_id"%string, JStr id)].

(** ** Quality *)

Definition plan_to_json (r : PlanRow) : Json :=
  JObj [("id", JStr (pl_id r)); ("part_id", JStr (pl_part_id r)); ("code", JStr (pl_code r));
        ("name", JStr (pl_name r)); ("created_at", JTime (pl_created_at r));
        ("updated_at", JTime (pl_updated_at r))]%string.
#[global] Instance plan_reply : Reply PlanRow := plan_to_json.

Definition characteristic_to_json (r : CharRow) : Json :=
  JObj [("id", JStr (ch_id r)); ("plan_id", JStr (ch_plan_id r)); ("name", JStr (ch_name r));
        ("uom", JOpt JStr (ch_uom r)); ("lower_limit", JOpt JDecimal (ch_lower_limit r));
        ("upper_limit", JOpt JDecimal (ch_upper_limit r))]%string.
#[global] Instance characteristic_reply : Reply CharRow := characteristic_to_json.

Definition inspection_result_to_json (r : InspectionResult) : Json :=
  JObj [("id", JStr (ir_id r)); ("characteristic_id", JStr (ir_characteristic_id r));
        ("lot_id", JOpt JStr (ir_lot_id r)); ("serial_id", JOpt JStr (ir_serial_id r));
        ("measured_value", JDecimal (ir_measured_value r)); ("result", JStr (ir_result r));
        ("created_at", JTime (ir_created_at r))]%string.
#[global] Instance inspection_result_reply : Reply InspectionResult := inspection_result_to_json.

Definition ncr_to_json (r : NcrRow) : Json :=
  JObj [("id", JStr (nc_id r)); ("ncr_no", JStr (nc_ncr_no r));
        ("inspection_result_id", JOpt JStr (nc_inspection_result_id r));
        ("lot_id", JOpt JStr (nc_lot_id r)); ("serial_id", JOpt JStr (nc_serial_id r));
        ("part_id", JOpt JStr (nc_part_id r)); ("status", JStr (nc_status r));
        ("disposition", JOpt JStr (nc_disposition r)); ("reason", JOpt JStr (nc_reason r));
        ("created_at", JTime (nc_created_at r)); ("updated_at", JTime (nc_updated_at r))]%string.
#[global] Instance ncr_reply : Reply NcrRow := ncr_to_json.

(** [RecordResultResponse]. *)
Definition record_result_answer (r : InspectionResult * option NcrRow) : Json :=
  JObj [("result", reply_json (fst r)); ("ncr", reply_json (snd r))]%string.

(** ** Maintenance *)

Definition pm_schedule_to_json (r : PmRow) : Json :=
  JObj [("id", JStr (pm_id r)); ("work_center_id", JStr (pm_work_center_id r));
        ("name", JStr (pm_name r)); ("trigger_type", JStr (pm_trigger_type r));
        ("interval_value", JDecimal (pm_interval_value r));
        ("last_done_at", JOpt JTime (pm_last_done_at r));
        ("next_due_at", JOpt JTime (pm_next_due_at r));
        ("last_done_usage_h", JOpt JDecimal (pm_last_done_usage_h r));
        ("next_due_usage_h", JOpt JDecimal (pm_next_due_usage_h r));
        ("checklist_ref", JOpt JStr (pm_checklist_ref r)); ("enabled", JBool (pm_enabled r));
        ("created_at", JTime (pm_created_at r)); ("updated_at", JTime (pm_updated_at r))]%string.
#[global] Instance pm_schedule_reply : Reply PmRow := pm_schedule_to_json.

Definition pm_due_to_json (d : PmDue) : Json :=
  JObj [("schedule", reply_json (pd_schedule d));
        ("current_usage_h", JDecimal (pd_current_usage_h d))]%string.
#[global] Instance pm_due_reply : Reply PmDue := pm_due_to_json.

Definition maintenance_wo_to_json (r : MwoRow) : Json :=
  JObj [("id", JStr (mw_id r)); ("work_center_id", JStr (mw_work_center_id r));
        ("pm_schedule_id", JOpt JStr (mw_pm_schedule_id r)); ("wo_type", JStr (mw_wo_type r));
        ("status", JStr (mw_status r)); ("technician_id", JOpt JStr (mw_technician_id r));
        ("failure_code", JOpt JStr (mw_failure_code r)); ("notes", JOpt JStr (mw_notes r));
        ("opened_at", JTime (mw_opened_at r)); ("closed_at", JOpt JTime (mw_closed_at r));
        ("created_at", JTime (mw_created_at r)); ("updated_at", JTime (mw_updated_at r))]%string.
#[global] Instance maintenance_wo_reply : Reply MwoRow := maintenance_wo_to_json.

Definition spare_part_to_json (s : SparePart) : Json :=
  let r := spare_row s in
  JObj [("id", JStr (sp_id r)); ("code", JStr (sp_code r)); ("name", JStr (sp_name r));
        ("uom", JStr (sp_uom r)); ("reorder_point", JDecimal (sp_reorder_point r));
        ("reorder_qty", JDecimal (sp_reorder_qty r)); ("stock", JDecimal (stock s))]%string.
#[global] Instance spare_part_reply : Reply SparePart := spare_part_to_json.

Definition procurement_request_to_json (r : ProcRow) : Json :=
  JObj [("id", JStr (pr_id r)); ("spare_part_id", JStr (pr_spare_part_id r));
        ("qty_requested", JDecimal (pr_qty_requested r)); ("reason", JStr (pr_reason r));
        ("status", JStr (pr_status r)); ("erp_reference", JOpt JStr (pr_erp_reference r));
        ("pushed_at", JOpt JTime (pr_pushed_at r)); ("created_at", JTime (pr_created_at r));
        ("updated_at", JTime (pr_updated_at r))]%string.
#[global] Instance procurement_request_reply : Reply ProcRow := procurement_request_to_json.

Definition spare_txn_to_json (r : SpareTxnResponse) : Json :=
  JObj [("txn_id", JStr (str_txn_id r)); ("stock", JDecimal (str_stock r));
        ("procurement_request", reply_json (str_procurement_request r))]%string.
#[global] Instance spare_txn_reply : Reply SpareTxnResponse := spare_txn_to_json.

(** ** ERP *)

Definition erp_connection_to_json (c : ErpConnection) : Json :=
  JObj [("id", JStr (cn_id c)); ("site_id", JOpt JStr (cn_site_id c)); ("name", JStr (cn_name c));
        ("endpoint_url", JStr (cn_endpoint_url c)); ("has_token", JBool (cn_has_token c));
        ("field_mapping", cn_field_mapping c); ("direction", JStr (cn_direction c));
        ("enabled", JBool (cn_enabled c)); ("created_at", JTime (cn_created_at c));
        ("updated_at", JTime (cn_updated_at c))]%string.
#[global] Instance erp_connection_reply : Reply ErpConnection := erp_connection_to_json.

Definition erp_sync_log_to_json (r : ErpLogRow) : Json :=
  JObj [("id", JStr (el_id r)); ("connection_id", JOpt JStr (el_connection_id r));
        ("direction", JStr (el_direction r)); ("entity", JStr (el_entity r));
        ("record_count", JInt (el_record_count r)); ("status", JStr (el_status r));
        ("detail", JOpt JStr (el_detail r)); ("ts", JTime (el_ts r))]%string.
#[global] Instance erp_sync_log_reply : Reply ErpLogRow := erp_sync_log_to_json.

Definition erp_import_to_json (r : ErpImportResult) : Json :=
  JObj [("entity", JStr (ir_entity r)); ("imported", json_usize (ir_imported r));
        ("ids", JArr (map JStr (ir_ids r))); ("sync_log_id", JStr (ir_sync_log_id r))]%string.
#[global] Instance erp_import_reply : Reply ErpImportResult := erp_import_to_json.

Definition erp_export_to_json (r : ErpExportResult) : Json :=
  JObj [("entity", JStr (er_entity r)); ("record_count", json_usize (er_record_count r));
        ("pushed", JBool (er_pushed r)); ("payload", JArr (er_payload r));
        ("sync_log_id", JStr (er_sync_log_id r))]%string.
#[global] Instance erp_export_reply : Reply ErpExportResult := erp_export_to_json.

(** ** Authentication, probes and errors *)

Definition login_to_json (r : LoginResponse) : Json :=
  JObj [("token", JStr (lr_token r)); ("user_id", JStr (lr_user_id r));
        ("username", JStr (lr_username r)); ("role_code", JStr (lr_role_code r));
        ("expires_at", JInt (lr_expires_at r))]%string.
#[global] Instance login_reply : Reply LoginResponse := login_to_json.

Definition health_to_json (r : HealthResponse) : Json :=
  JObj [("service", JStr (hr_service r)); ("status", JStr (hr_status r));
        ("version", JStr (hr_version r))]%string.
#[global] Instance health_reply : Reply HealthResponse := health_to_json.

(** [ApiError]: the status is not part of the body. *)
Definition api_error_to_json (e : ApiErr) : Json :=
  JObj [("error", JStr (code e)); ("message", JStr (message e))]%string.
#[global] Instance api_error_reply : Reply ApiErr := api_error_to_json.

(** A [serde_json::Value] is its own form. *)
#[global] Instance value_reply : Reply Json := λ v, v.

(** ** The cloud *)

Definition org_to_json (r : OrgRow) : Json :=
  JObj [("id", JStr (og_id r)); ("code", JStr (og_code r)); ("name", JStr (og_name r));
        ("created_at", JTime (og_created_at r))]%string.
#[global] Instance org_reply : Reply OrgRow := org_to_json.

(** [PlantEnrollment]: what the request named, with the plant's identifier and its token. *)
Definition plant_enrollment (org_id code name : string) (r : string * string) : Json :=
  JObj [("id", JStr (fst r)); ("org_id", JStr org_id); ("code", JStr code); ("name", JStr name);
        ("token", JStr (snd r))]%string.

Definition plant_summary_to_json (p : PlantSummary) : Json :=
  JObj [("id", JStr (psum_id p)); ("org_id", JStr (psum_org_id p));
        ("code", JStr (psum_code p)); ("name", JStr (psum_name p));
        ("enrolled", JBool (psum_enrolled p));
        ("last_sync_at", JOpt JTime (psum_last_sync_at p))]%string.
#[global] Instance plant_summary_reply : Reply PlantSummary := plant_summary_to_json.

Definition order_answer (wo_id : string) : Json := JObj [("work_order_id"%string, JStr wo_id)].

(** [PushResponse]: how many entries were applied, and how many skipped. *)
Definition push_answer (r : nat * nat) : Json :=
  JObj [("applied", json_usize (fst r)); ("skipped", json_usize (snd r))]%string.

(** [PullResponse]. *)
Definition pull_answer (entries : list SyncEntry) : Json :=
  JObj [("entries"%string, JArr (map sync_entry_to_json entries))].

Definition copilot_to_json (r : CopilotResponse) : Json :=
  JObj [("reply", JStr (cr_reply r));
        ("tool_calls", JArr (map (λ c, JObj [("name", JStr (ct_name c));
           ("arguments", ct_arguments c)]) (cr_tool_calls r)))]%string.
#[global] Instance copilot_reply : Reply CopilotResponse := copilot_to_json.

(** ** The live stream *)

(** [WsEvent]: the name of the event beside its fields. *)
Definition ws_event_to_json (ev : WsEvent) : Json :=
  match ev with
  | WorkOrderStatusChanged wo status =>
      JObj [("event", JStr "work_order_status_changed"); ("work_order_id", JStr wo);
            ("status", JStr status)]%string
  | OperationStarted wo op =>
      JObj [("event", JStr "operation_started"); ("work_order_id", JStr wo);
            ("wo_operation_id", JStr op)]%string
  | OperationCompleted wo op =>
      JObj [("event", JStr "operation_completed"); ("work_order_id", JStr wo);
            ("wo_operation_id", JStr op)]%string
  | CountRecorded op good scrap =>
      JObj [("event", JStr "count_recorded"); ("wo_operation_id", JStr op);
            ("good", JInt good); ("scrap", JInt scrap)]%string
  | DowntimeClassified id reason =>
      JObj [("event", JStr "downtime_classified"); ("downtime_event_id", JStr id);
            ("reason_id", JStr reason)]%string
  | DncTransferScheduled id program identifier op =>
      JObj [("event", JStr "dnc_transfer_scheduled"); ("transfer_id", JStr id);
            ("program_id", JStr program); ("program_identifier", JStr identifier);
            ("wo_operation_id", JOpt JStr op)]%string
  | DncTransferCompleted id =>
      JObj [("event", JStr "dnc_transfer_completed"); ("transfer_id", JStr id)]%string
  | ProgramRevisionDrafted id program =>
      JObj [("event", JStr "program_revision_drafted"); ("revision_id", JStr id);
            ("program_id", JStr program)]%string
  | OeeSnapshot wc a p q o =>
      JObj [("event", JStr "oee_snapshot"); ("work_center_id", JStr wc);
            ("availability", json_f64 a); ("performance", json_f64 p);
            ("quality", json_f64 q); ("oee", json_f64 o)]%string
  | NcrRaised id no lot =>
      JObj [("event", JStr "ncr_raised"); ("ncr_id", JStr id); ("ncr_no", JStr no);
            ("lot_id", JOpt JStr lot)]%string
  end.
#[global] Instance ws_event_reply : Reply WsEvent := ws_event_to_json.

Definition is_number (x : spec_float) : bool :=
  match x with S754_zero _ | S754_finite _ _ _ => true | _ => false end.

(** The figures of an event are numbers. *)
Definition ws_event_fits (ev : WsEvent) : bool :=
  match ev with OeeSnapshot _ a p q o => forallb is_number [a; p; q; o] | _ => true end.

Lemma JOpt_JStr_inj (a b : option string) : JOpt JStr a = JOpt JStr b → a = b.
Proof. destruct a, b; simpl; congruence. Qed.

Lemma json_f64_inj x y : is_number x = true → json_f64 x = json_f64 y → x = y.
Proof. destruct x, y; simpl; congruence. Qed.

(** A client tells any two events apart by their frames. *)
Theorem ws_event_to_json_inj a b :
  ws_event_fits a = true → ws_event_to_json a = ws_event_to_json b → a = b.
Proof.
  destruct a, b; simpl; intros Hf [=]; bool_to_prop; f_equal;
    auto using JOpt_JStr_inj, json_f64_inj.
Qed.
