(* ===== verification/Routing.v ===== *)
(** * Routes

    The route tables of both servers ([router] in [mes-edge/src/http.rs] and
    [mes-cloud/src/http.rs], [routes] in the modules they nest) are written as in the
    sources: paths with [:name] for a segment that is captured, each with its handlers by
    method. Matching a request against a table is axum's, an interface here with the
    documented behaviour as laws; that it leaves no choice is a property of the tables. *)

From Stdlib Require Import Ascii.
From S2P Require Import Prelude Schema Sql.

Inductive Method := GET | HEAD | POST | PUT | DELETE | OtherMethod.

#[global] Instance Method_eq_dec : EqDecision Method.
Proof. solve_decision. Defined.

(** ** Patterns *)

Inductive Seg := Lit (s : string) | Var (name : string).

#[global] Instance Seg_eq_dec : EqDecision Seg.
Proof. solve_decision. Defined.

(** The text between the slashes. *)
Fixpoint split_slash (s : string) : list string :=
  match s with
  | EmptyString => [EmptyString]
  | String a s' =>
      if Ascii.eqb a "/"%char then EmptyString :: split_slash s'
      else match split_slash s' with
           | seg :: segs => String a seg :: segs
           | [] => [String a EmptyString]
           end
  end.

Definition seg_of (s : string) : Seg :=
  match s with
  | String a name => if Ascii.eqb a ":"%char then Var name else Lit s
  | EmptyString => Lit s
  end.

(** [/v1/orders/:id] and the like; the text before the first slash is empty. *)
Definition pattern (path : string) : list Seg := map seg_of (tail (split_slash path)).

(** A captured segment is not empty. *)
Fixpoint matches (p : list Seg) (path : list string) : bool :=
  match p, path with
  | [], [] => true
  | Lit s :: p', x :: path' => String.eqb s x && matches p' path'
  | Var _ :: p', x :: path' => negb (String.eqb x "") && matches p' path'
  | _, _ => false
  end.

Fixpoint captures (p : list Seg) (path : list string) : list string :=
  match p, path with
  | Lit _ :: p', _ :: path' => captures p' path'
  | Var _ :: p', x :: path' => x :: captures p' path'
  | _, _ => []
  end.

(** The path a client asks for, given the captured segments. *)
Fixpoint fill (p : list Seg) (args : list string) : list string :=
  match p, args with
  | [], _ => []
  | Lit s :: p', _ => s :: fill p' args
  | Var _ :: p', x :: args' => x :: fill p' args'
  | Var _ :: p', [] => "" :: fill p' []
  end.

Definition arity (p : list Seg) : nat :=
  length (select (λ s, match s with Var _ => true | Lit _ => false end) p).

(** ** Tables *)

(** Paths with their handlers by method. *)
Abbreviation Router H := (list (string * list (Method * H))).

(** [Router::nest]: the nested path [/] is the prefix itself. *)
Definition nest {H} (prefix : string) (sub : Router H) : Router H :=
  map (λ '(path, hs), (if String.eqb path "/" then prefix else String.append prefix path, hs))
    sub.

(** axum's choice of a route, and the percent-encoding of segments. *)
Class Axum := {
  pick : list (list Seg) → list string → option nat;
  percent_encode : string → string;
  percent_decode : string → option string
}.

(** A route is chosen among those that match, and there is one when any does. A segment that
    was encoded decodes to what it was. *)
Class AxumLaws (axum : Axum) : Prop := {
  pick_some ps path i : pick ps path = Some i → ∃ p, ps !! i = Some p ∧ matches p path = true;
  pick_none ps path p : pick ps path = None → p ∈ ps → matches p path = false;
  percent_decodes s : percent_decode (percent_encode s) = Some s;
  percent_nonempty s : percent_encode s = "" → s = ""
}.

Inductive Dispatched (H : Type) :=
  | Found (h : H) (captured : list string)
  | NotAllowed
  | Nowhere.
Arguments Found {H} h captured.
Arguments NotAllowed {H}.
Arguments Nowhere {H}.

(** A handler for GET also answers HEAD. *)
Definition handler_for {H} (m : Method) (hs : list (Method * H)) : option H :=
  let find m := snd <$> first_where (λ h, bool_decide (fst h = m)) hs in
  match find m with
  | Some h => Some h
  | None => if bool_decide (m = HEAD) then find GET else None
  end.

Definition route_to {axum : Axum} {H} (r : Router H) (m : Method) (path : list string) :
    Dispatched H :=
  match pick (map (λ x, pattern (fst x)) r) path with
  | None => Nowhere
  | Some i =>
      match r !! i with
      | None => Nowhere
      | Some (p, hs) =>
          match handler_for m hs with
          | Some h => Found h (captures (pattern p) path)
          | None => NotAllowed
          end
      end
  end.

(** ** Lemmas *)

Lemma captures_fill p args :
  length args = arity p → captures p (fill p args) = args.
Proof.
  revert args. induction p as [|[s|n] p IH]; intros args; simpl.
  - by destruct args.
  - apply IH.
  - destruct args as [|x args]; [done|]. simpl. intros [= H]. f_equal. by apply IH.
Qed.

Lemma matches_fill p args :
  length args = arity p → Forall (λ x, x ≠ ""%string) args → matches p (fill p args) = true.
Proof.
  revert args. induction p as [|[s|n] p IH]; intros args; simpl; [done|..].
  - rewrite String.eqb_refl. apply IH.
  - destruct args as [|x args]; [done|]. simpl. intros [= H] [Hx Hargs]%list.Forall_cons.
    apply String.eqb_neq in Hx. rewrite Hx. by apply IH.
Qed.

(** Whether some path matches both. *)
Fixpoint overlap (p q : list Seg) : bool :=
  match p, q with
  | [], [] => true
  | Lit s :: p', Lit s' :: q' => String.eqb s s' && overlap p' q'
  | Lit s :: p', Var _ :: q' | Var _ :: p', Lit s :: q' =>
      negb (String.eqb s "") && overlap p' q'
  | Var _ :: p', Var _ :: q' => overlap p' q'
  | _, _ => false
  end.

Lemma matches_overlap p q path :
  matches p path = true → matches q path = true → overlap p q = true.
Proof.
  revert q path. induction p as [|[s|n] p IH]; intros [|[s'|n'] q] [|x path]; simpl; try done;
    intros [Hp Hp']%andb_true_iff [Hq Hq']%andb_true_iff; rewrite (IH q path) by done;
    rewrite ?andb_true_r; try done.
  - rewrite String.eqb_eq in *. congruence.
  - by rewrite String.eqb_eq in Hp; subst.
  - by rewrite String.eqb_eq in Hq; subst.
Qed.

Fixpoint apart (ps : list (list Seg)) : bool :=
  match ps with
  | [] => true
  | p :: ps' => forallb (λ q, negb (overlap p q)) ps' && apart ps'
  end.

Lemma apart_unique ps i j p q path :
  apart ps = true → ps !! i = Some p → ps !! j = Some q →
  matches p path = true → matches q path = true → i = j.
Proof.
  revert i j. induction ps as [|p0 ps IH]; intros i j; [done|]. simpl.
  intros [Hf Ha]%andb_true_iff. rewrite forallb_forall in Hf.
  assert (∀ k r, ps !! k = Some r → matches p0 path = true → matches r path = true → False)
    as Hno.
  { intros k r Hk H0 H1. pose proof (matches_overlap _ _ _ H0 H1) as Ho.
    specialize (Hf r). rewrite Ho in Hf. 
    apply list_elem_of_lookup_2, list_elem_of_In in Hk. by apply Hf in Hk. }
  destruct i as [|i], j as [|j]; simpl; intros Hi Hj Hp Hq; simplify_eq; [done|..].
  - by destruct (Hno j q).
  - by destruct (Hno i p).
  - f_equal. by eapply IH.
Qed.

Section route_to.
Context `{Laws : !AxumLaws axum} {H : Type} (r : Router H).
Hypothesis Hapart : apart (map (λ x, pattern (fst x)) r) = true.

(** The route that matches is the one that is taken, whatever the others are. *)
Lemma route_to_at path m p hs :
  (p, hs) ∈ r → matches (pattern p) path = true →
  route_to r m path = match handler_for m hs with
                      | Some h => Found h (captures (pattern p) path)
                      | None => NotAllowed
                      end.
Proof.
  intros (j & Hj)%list_elem_of_lookup Hm. unfold route_to.
  assert (map (λ x, pattern (fst x)) r !! j = Some (pattern p)) as Hpj
    by (by rewrite list_lookup_fmap, Hj).
  destruct (pick _ path) as [i|] eqn:Ep.
  - destruct (pick_some _ _ _ Ep) as (q & Hq & Hmq).
    assert (i = j) as -> by (by eapply apart_unique). by rewrite Hj.
  - apply (pick_none _ _ (pattern p)) in Ep; [congruence|]. by eapply list_elem_of_lookup_2.
Qed.

Lemma route_to_found path m h args :
  route_to r m path = Found h args →
  ∃ p hs, (p, hs) ∈ r ∧ matches (pattern p) path = true ∧ handler_for m hs = Some h ∧
    args = captures (pattern p) path.
Proof.
  unfold route_to. destruct (pick _ path) as [i|] eqn:Ep; [|done].
  destruct (pick_some _ _ _ Ep) as (q & Hq & Hmq).
  rewrite list_lookup_fmap in Hq. destruct (r !! i) as [[p hs]|] eqn:Ei; [|done].
  injection Hq as <-. destruct (handler_for m hs) as [h'|] eqn:Eh; [|done].
  intros [= <- <-]. exists p, hs. split; [by eapply list_elem_of_lookup_2|done].
Qed.

Lemma route_to_fill m p hs h args :
  (p, hs) ∈ r → handler_for m hs = Some h → length args = arity (pattern p) →
  Forall (λ x, x ≠ ""%string) args → route_to r m (fill (pattern p) args) = Found h args.
Proof.
  intros Hin Hh Hl Hne. rewrite (route_to_at _ m p hs Hin) by by apply matches_fill.
  by rewrite Hh, captures_fill.
Qed.
End route_to.

(** ** Addresses *)

Lemma handler_for_elem {H} m (hs : list (Method * H)) h :
  handler_for m hs = Some h → ∃ m', (m', h) ∈ hs ∧ (m' = m ∨ m = HEAD ∧ m' = GET).
Proof.
  unfold handler_for. intros Hh.
  assert (∀ m', snd <$> first_where (λ h, bool_decide (fst h = m')) hs = Some h →
    (m', h) ∈ hs) as Hf.
  { intros m' ([m0 h0] & Hw & E)%fmap_Some. apply first_where_Some in Hw as [Hm Hin].
    apply bool_decide_eq_true in Hm. simpl in *. by subst. }
  destruct (first_where _ hs) as [x|] eqn:E; simpl in Hh.
  - exists m. split; [|by left]. apply Hf. by rewrite E.
  - case_bool_decide; [|done]. exists GET. split; [by apply Hf|by right].
Qed.

Lemma matches_literal ss path : matches (map Lit ss) path = true → path = ss.
Proof.
  revert path. induction ss as [|s ss IH]; intros [|x path]; simpl; try done.
  intros [->%String.eqb_eq H]%andb_true_iff. f_equal. by apply IH.
Qed.

Section address.
Context `{!EqDecision H} (r : Router H).

(** The endpoint is what the table has for the method at the path. *)
Definition serves_at (ep : H) (at_ : Method * string) : bool :=
  existsb (λ '(p, hs), String.eqb (snd at_) p && bool_decide (handler_for (fst at_) hs = Some ep))
    r.

(** A property of the entries of the table, as a test, holds of the one that is taken. *)
Definition throughout (f : list Seg → Method → H → bool) : bool :=
  forallb (λ x, forallb (λ h, f (pattern (fst x)) (fst h) (snd h)) (snd x)) r.

Lemma throughout_found `{!AxumLaws axum} f m path ep captured :
  throughout f = true → route_to r m path = Found ep captured →
  ∃ p m', matches p path = true ∧ f p m' ep = true ∧ (m' = m ∨ m = HEAD ∧ m' = GET).
Proof.
  intros Hf (p & hs & Hin & Hm & Hh & _)%route_to_found.
  apply handler_for_elem in Hh as (m' & Hh & Hm'). exists (pattern p), m'.
  split; [done|]. split; [|done].
  pose proof (proj1 (forallb_forall _ _) Hf (p, hs) (proj1 (list_elem_of_In _ _) Hin)) as Hp.
  exact (proj1 (forallb_forall _ _) Hp (m', ep) (proj1 (list_elem_of_In _ _) Hh)).
Qed.

Lemma serves_at_route `{!AxumLaws axum} ep m p args :
  apart (map (λ x, pattern (fst x)) r) = true → serves_at ep (m, p) = true →
  length args = arity (pattern p) → Forall (λ x, x ≠ ""%string) args →
  route_to r m (fill (pattern p) args) = Found ep args.
Proof.
  intros Hap ([p' hs] & Hin & [Hp Hh]%andb_true_iff)%existsb_exists Hl Hne. simpl in *.
  apply String.eqb_eq in Hp as <-. apply bool_decide_eq_true in Hh.
  apply (route_to_fill _ Hap m p hs); [by apply list_elem_of_In|done..].
Qed.
End address.

(** ** Matching as a first-match search *)

Fixpoint pick_first (ps : list (list Seg)) (path : list string) : option nat :=
  match ps with
  | [] => None
  | p :: ps' => if matches p path then Some 0%nat else S <$> pick_first ps' path
  end.

(** Segments of plain characters need no encoding; here none is done. *)
Definition sample_axum : Axum := {|
  pick := pick_first; percent_encode := λ s, s; percent_decode := Some
|}.

Lemma sample_axum_laws : AxumLaws sample_axum.
Proof.
  split; [| |done|done].
  - intros ps path. induction ps as [|p ps IH]; simpl; intros i; [done|].
    destruct (matches p path) eqn:Em; [intros [= <-]; by exists p|].
    destruct (pick_first ps path) as [j|] eqn:Ej; simpl; [|done]. intros [= <-].
    by apply IH.
  - intros ps path p. induction ps as [|q ps IH]; simpl; [by intros _ ?%elem_of_nil|].
    destruct (matches q path) eqn:Em; [done|]. destruct (pick_first ps path) eqn:Ep; [done|].
    intros _ [->|Hin]%elem_of_cons; [done|by apply IH].
Qed.
