(* ===== verification/Extract.v ===== *)
(** * Requests, extractors and answers

    What both servers share of the way from a request as it arrives to a handler and back:
    axum's [Path], [Query] and [Json] extractors, and the answer of a handler that ends in a
    value or in an error. *)

From S2P Require Import Prelude Schema Sql Sync Moves System Erp Wire Reply Routing.

(** ** Requests and answers *)

(** The body as the [Json] extractor sees it: refused for its content type, its size or its
    syntax, or a JSON value. *)
Inductive Body := BadBody (status : Z) | JsonBody (v : Json).

Record HttpRequest := mkHttpRequest {
  http_method : Method;
  http_path : list string;                  (** the segments between the slashes *)
  http_query : list (string * string);      (** the pairs of the query, decoded *)
  http_authorization : option string;
  http_body : Body;
  http_upgrade : option Z                   (** why it is no WebSocket upgrade, if so *)
}.

(** A refusal by a handler or by the caller's extractor, with a code and a message, or by
    axum itself. *)
Inductive Refusal := Problem (e : ApiErr) | Bare (status : Z).

(** What a handler answers: a status and, unless the answer is nothing but a status, a JSON
    body. *)
Record Answer := mkAnswer { an_status : Z; an_body : option Json }.

(** The response a client gets. The body of a refusal by axum is plain text, which is left
    out. *)
Definition response (r : Result Answer Refusal) : Answer :=
  match r with
  | Ok a => a
  | Err (Problem e) => mkAnswer (Sql.status e) (Some (reply_json e))
  | Err (Bare status) => mkAnswer status None
  end.

(** ** Extractors *)

Section extract.
Context {text : WireText} {axum : Axum}.
Abbreviation Http := (M World Refusal).
Abbreviation Api := (M World ApiErr).

(** [Path]: a segment that does not decode is refused, a wrong number of them is an error of
    the program. *)
Definition path_params (captured : list string) : Http (list string) :=
  ok_or (mapM percent_decode captured) (Bare 400).

Definition path_id (captured : list string) : Http string :=
  params ← path_params captured;
  match params with [id] => mret id | _ => throw (Bare 500) end.

Definition path_pair (captured : list string) : Http (string * string) :=
  params ← path_params captured;
  match params with [a; b] => mret (a, b) | _ => throw (Bare 500) end.

(** [Json]. *)
Definition json {A} `{!Wire A} (rq : HttpRequest) : Http A :=
  match http_body rq with
  | BadBody status => throw (Bare status)
  | JsonBody v => ok_or (of_json v) (Bare 422)
  end.

(** [Query]: a field may be absent, once there or repeated. *)
Definition query_field (name : string) (rq : HttpRequest) : Http (option string) :=
  match select (λ q, String.eqb (fst q) name) (http_query rq) with
  | [] => mret None
  | [(_, v)] => mret (Some v)
  | _ => throw (Bare 400)
  end.

Definition query_text (name : string) (rq : HttpRequest) : Http string :=
  v ← query_field name rq; ok_or v (Bare 400).

Definition query_time (name : string) (rq : HttpRequest) : Http DateTime :=
  v ← query_text name rq; ok_or (time_of_text v) (Bare 400).

(** [Json], as an answer: the value a handler ends in, in the form given. *)
Definition answer_with {A} (form : A → option Json) (status : Z) (m : Api A) : Http Answer :=
  a ← map_err Problem m; mret (mkAnswer status (form a)).

Definition answer {A} `{!Reply A} : Z → Api A → Http Answer :=
  answer_with (λ a, Some (reply_json a)).

Definition answer_as {A} (form : A → Json) : Z → Api A → Http Answer :=
  answer_with (λ a, Some (form a)).

(** Nothing but a status. *)
Definition answer_empty : Z → Api unit → Http Answer := answer_with (λ _, None).

(** ** Clients *)

Inductive Sent := Nothing | Send {A : Type} `{!Wire A} (a : A).

Definition body_of (s : Sent) : Body :=
  match s with Nothing => BadBody 415 | Send a => JsonBody (to_json a) end.

Definition sent_fits (s : Sent) : bool := match s with Nothing => true | Send a => fits a end.

(** The requests of clients, each with the program that handles it. *)
Context {R : Type} (run : R → Api unit).

(** The request a server makes out of a call: the segments captured from the path, decoded,
    and the body. *)
Definition with_id (captured : list string) (f : string → option R) : option R :=
  match mapM percent_decode captured with Some [id] => f id | _ => None end.

Definition with_json {A} `{!Wire A} (b : Body) (f : A → R) : option R :=
  match b with JsonBody v => f <$> of_json v | BadBody _ => None end.

(** The answer over HTTP is the handler's, and a success has a status that says so. *)
Definition served (a : Result Answer Refusal * World) (b : Result unit ApiErr * World) : Prop :=
  a.2 = b.2 ∧
  match a.1, b.1 with
  | Ok (mkAnswer status _), Ok _ => is_success status = true
  | Err r, Err e => r = Problem e
  | _, _ => False
  end.

(** A call either makes a request, and is served as the request is, or is refused. *)
Definition answered (w : World) (r : option R) (a : Result Answer Refusal * World) : Prop :=
  match r with
  | Some r => served a (run r w)
  | None => ∃ e, a = (Err e, w)
  end.

(** ** Lemmas *)

Lemma answer_with_served {A} (form : A → option Json) status (m : Api A) w :
  is_success status = true → served (answer_with form status m w) (ignore m w).
Proof.
  intros Hs. unfold answer_with, ignore, mbind, M_bind, map_err.
  destruct (m w) as [[a|e] w']; by split.
Qed.

Lemma answer_with_served_unit (form : unit → option Json) status (m : Api unit) w :
  is_success status = true → served (answer_with form status m w) (m w).
Proof.
  intros Hs. unfold answer_with, mbind, M_bind, map_err. destruct (m w) as [[a|e] w']; by split.
Qed.

Lemma reads_answer_with {A} (form : A → option Json) status (m : Api A) :
  reads m → reads (answer_with form status m).
Proof. intros. unfold answer_with. evolve. Qed.

Lemma answered_json {A} `{!Wire A} w rq (k : A → Http Answer) f :
  (∀ i, served (k i w) (run (f i) w)) →
  answered w (with_json (http_body rq) f) ((json rq ≫= k) w).
Proof.
  intros Hk. unfold with_json, json, mbind, M_bind. destruct (http_body rq) as [status|v]; simpl.
  - by eexists.
  - destruct (of_json v) as [i|]; simpl; [apply Hk|by eexists].
Qed.

Lemma answered_id w c (k : string → Http Answer) f :
  (∀ id, answered w (f id) (k id w)) → answered w (with_id c f) ((path_id c ≫= k) w).
Proof.
  intros Hk. unfold with_id, path_id, path_params, mbind, M_bind.
  destruct (mapM percent_decode c) as [[|x [|]]|]; simpl; try by eexists. apply Hk.
Qed.

Lemma json_then {A} `{!Wire A} rq (k : A → Http Answer) w :
  w_db ((json rq ≫= k) w).2 = w_db w ∨ ∃ i, (json rq ≫= k) w = k i w.
Proof.
  unfold json, mbind, M_bind. destruct (http_body rq); simpl; [by left|].
  destruct (of_json _) as [i|]; simpl; [right; by exists i|by left].
Qed.

Lemma encoded_nonempty `{!AxumLaws axum} args :
  forallb (λ x, negb (String.eqb x "")) args = true →
  Forall (λ x, x ≠ ""%string) (map percent_encode args).
Proof.
  intros H. apply list.Forall_fmap, list.Forall_forall. intros x Hx E%percent_nonempty. subst.
  apply list_elem_of_In in Hx. rewrite forallb_forall in H. by apply H in Hx.
Qed.
End extract.

(** One step of a program whose first call is known. *)
Lemma bind_step {E A B} (m : M World E A) (k : A → M World E B) w a w' :
  m w = (Ok a, w') → (m ≫= k) w = k a w'.
Proof. intros H. unfold mbind, M_bind. by rewrite H. Qed.

Lemma bind_stop {E A B} (m : M World E A) (k : A → M World E B) w e w' :
  m w = (Err e, w') → (m ≫= k) w = (Err e, w').
Proof. intros H. unfold mbind, M_bind. by rewrite H. Qed.

(** Follows the extractors of a call to its handler. *)
Ltac serve :=
  repeat first [apply answered_id; intros ?|apply answered_json; intros ?];
  unfold answer, answer_as, answer_empty;
  first [by apply answer_with_served|by apply answer_with_served_unit].
