(* ===== verification/Http.v ===== *)
(** * The edge over HTTP

    The edge server as its clients see it: the route tables of [mes-edge], the extractors
    each handler asks for in the order axum runs them (the caller's token, the path, the
    query, the body), and the answer. Together with the component files this is the whole
    way from a request as it arrives to the database. *)

From Stdlib Require Import SpecFloat.
From S2P Require Import Prelude Lifecycle Schema Sql Cascade Integrity Moves Ingest Orders.
From S2P Require Import Metrics Dnc Sync Protocol Exec Trace Qms Cmms Auth Master Mapping Erp.
From S2P Require Import Process Diagnostics Agent System Server Wire Reply Routing Extract Sample.

(** ** Routes *)

(** The handlers, by the names of their functions. *)
Module Ep.
Inductive t :=
  (** [http.rs] *)
  | healthz | readyz | openapi_json | ws_handler
  (** [auth_routes.rs] *)
  | login | pin_login
  (** [master.rs] *)
  | list_sites | create_site | get_site | update_site | delete_site
  | list_areas | create_area | get_area | update_area | delete_area
  | list_work_centers | create_work_center | get_work_center | update_work_center
  | delete_work_center
  | list_parts | create_part | get_part | update_part | delete_part
  | list_users | create_user | list_programs | create_program
  (** [ingest.rs] *)
  | ingest_signals | recompute
  (** [orders.rs] *)
  | list_orders | create_order | get_order | release_order | cancel_order | close_order
  (** [exec.rs] *)
  | start_op | record_count | complete_op | complete_wo | classify_downtime | split_downtime
  (** [dnc.rs] *)
  | list_transfers | manual_transfer | retry_transfer | list_revisions | promote_revision
  | reject_revision | inject_daemon_event
  (** [analytics.rs] *)
  | downtime_pareto | six_big_losses | downtime_trend | oee | oee_by_shift
  (** [trace.rs] *)
  | create_lot | create_serial | add_genealogy | issue_material | place_hold | release_hold
  | trace_backward | trace_forward | parse_barcode
  (** [qms.rs] *)
  | create_plan | create_characteristic | record_result | list_ncrs | get_ncr
  | disposition_ncr
  (** [cmms.rs] *)
  | create_pm_schedule | list_pm_due | list_maintenance_wos | create_maintenance_wo
  | get_maintenance_wo | transition_maintenance_wo | list_spare_parts | create_spare_part
  | record_spare_txn | list_procurement_requests | create_procurement_request
  (** [erp.rs] *)
  | list_connections | create_connection | get_connection | update_connection
  | delete_connection | import | export | list_sync_log
  (** [diagnostics.rs] *)
  | send.
End Ep.

#[global] Instance Ep_eq_dec : EqDecision Ep.t.
Proof. solve_decision. Defined.

Module Routes.
Import Ep.

Definition auth_routes : Router Ep.t := [
  ("/login", [(POST, login)]);
  ("/pin-login", [(POST, pin_login)])]%string.

Definition master_routes : Router Ep.t := [
  ("/sites", [(GET, list_sites); (POST, create_site)]);
  ("/sites/:id", [(GET, get_site); (PUT, update_site); (DELETE, delete_site)]);
  ("/areas", [(GET, list_areas); (POST, create_area)]);
  ("/areas/:id", [(GET, get_area); (PUT, update_area); (DELETE, delete_area)]);
  ("/work-centers", [(GET, list_work_centers); (POST, create_work_center)]);
  ("/work-centers/:id",
    [(GET, get_work_center); (PUT, update_work_center); (DELETE, delete_work_center)]);
  ("/parts", [(GET, list_parts); (POST, create_part)]);
  ("/parts/:id", [(GET, get_part); (PUT, update_part); (DELETE, delete_part)]);
  ("/users", [(GET, list_users); (POST, create_user)]);
  ("/programs", [(GET, list_programs); (POST, create_program)])]%string.

Definition ingest_routes : Router Ep.t := [
  ("/signals", [(POST, ingest_signals)]);
  ("/recompute", [(POST, recompute)])]%string.

Definition orders_routes : Router Ep.t := [
  ("/", [(GET, list_orders); (POST, create_order)]);
  ("/:id", [(GET, get_order)]);
  ("/:id/release", [(POST, release_order)]);
  ("/:id/cancel", [(POST, cancel_order)]);
  ("/:id/close", [(POST, close_order)])]%string.

Definition exec_routes : Router Ep.t := [
  ("/operations/:op_id/start", [(POST, start_op)]);
  ("/operations/:op_id/count", [(POST, record_count)]);
  ("/operations/:op_id/complete", [(POST, complete_op)]);
  ("/work-orders/:id/complete", [(POST, complete_wo)]);
  ("/downtime/:id/classify", [(POST, classify_downtime)]);
  ("/downtime/:id/split", [(POST, split_downtime)])]%string.

Definition dnc_routes : Router Ep.t := [
  ("/transfers", [(GET, list_transfers); (POST, manual_transfer)]);
  ("/transfers/:id/retry", [(POST, retry_transfer)]);
  ("/revisions", [(GET, list_revisions)]);
  ("/revisions/:id/promote", [(POST, promote_revision)]);
  ("/revisions/:id/reject", [(POST, reject_revision)]);
  ("/daemon-events", [(POST, inject_daemon_event)])]%string.

Definition analytics_routes : Router Ep.t := [
  ("/downtime/pareto", [(GET, downtime_pareto)]);
  ("/downtime/six-big-losses", [(GET, six_big_losses)]);
  ("/downtime/trend", [(GET, downtime_trend)]);
  ("/oee", [(GET, oee)]);
  ("/oee/by-shift", [(GET, oee_by_shift)])]%string.

Definition trace_routes : Router Ep.t := [
  ("/lots", [(POST, create_lot)]);
  ("/serials", [(POST, create_serial)]);
  ("/genealogy", [(POST, add_genealogy)]);
  ("/material/issue", [(POST, issue_material)]);
  ("/holds", [(POST, place_hold)]);
  ("/holds/:id/release", [(POST, release_hold)]);
  ("/backward/:entity_type/:entity_id", [(GET, trace_backward)]);
  ("/forward/:entity_type/:entity_id", [(GET, trace_forward)]);
  ("/barcode", [(GET, parse_barcode)])]%string.

Definition qms_routes : Router Ep.t := [
  ("/plans", [(POST, create_plan)]);
  ("/characteristics", [(POST, create_characteristic)]);
  ("/results", [(POST, record_result)]);
  ("/ncrs", [(GET, list_ncrs)]);
  ("/ncrs/:id", [(GET, get_ncr)]);
  ("/ncrs/:id/disposition", [(POST, disposition_ncr)])]%string.

Definition cmms_routes : Router Ep.t := [
  ("/pm-schedules", [(POST, create_pm_schedule)]);
  ("/pm-schedules/due", [(GET, list_pm_due)]);
  ("/work-orders", [(GET, list_maintenance_wos); (POST, create_maintenance_wo)]);
  ("/work-orders/:id", [(GET, get_maintenance_wo)]);
  ("/work-orders/:id/transition", [(POST, transition_maintenance_wo)]);
  ("/spares", [(GET, list_spare_parts); (POST, create_spare_part)]);
  ("/spares/txns", [(POST, record_spare_txn)]);
  ("/procurement", [(GET, list_procurement_requests); (POST, create_procurement_request)])
  ]%string.

Definition erp_routes : Router Ep.t := [
  ("/connections", [(GET, list_connections); (POST, create_connection)]);
  ("/connections/:id",
    [(GET, get_connection); (PUT, update_connection); (DELETE, delete_connection)]);
  ("/import", [(POST, import)]);
  ("/export", [(POST, export)]);
  ("/sync-log", [(GET, list_sync_log)])]%string.

Definition diagnostics_routes : Router Ep.t := [("/send", [(POST, send)])]%string.

(** [router]. *)
Definition edge_router : Router Ep.t :=
  [("/healthz", [(GET, healthz)]);
   ("/readyz", [(GET, readyz)]);
   ("/api-doc/openapi.json", [(GET, openapi_json)]);
   ("/ws", [(GET, ws_handler)])]%string ++
  nest "/v1/auth" auth_routes ++ nest "/v1/master" master_routes ++
  nest "/v1/ingest" ingest_routes ++ nest "/v1/orders" orders_routes ++
  nest "/v1/exec" exec_routes ++ nest "/v1/dnc" dnc_routes ++
  nest "/v1/analytics" analytics_routes ++ nest "/v1/trace" trace_routes ++
  nest "/v1/qms" qms_routes ++ nest "/v1/cmms" cmms_routes ++ nest "/v1/erp" erp_routes ++
  nest "/v1/diagnostics" diagnostics_routes.
End Routes.

(** No path matches two routes, so that the table can be built and says which handler
    runs. *)
Lemma edge_apart : apart (map (λ x, pattern (fst x)) Routes.edge_router) = true.
Proof. vm_compute. reflexivity. Qed.

(** ** Extractors *)

Section edge.
Context {env : Env} {cmms : CmmsEnv} {crypto : Crypto} {senv : SyncEnv} {erp : ErpEnv}.
Context {proc : ProcessEnv} {diag : DiagEnv} {axum : Axum}.
Context (state : AppState).

Abbreviation Http := (M World Refusal).
Abbreviation Api := (M World ApiErr).

(** [AuthUser] and [MasterWriter]. *)
Definition authenticated (rq : HttpRequest) : Http AuthUser :=
  map_err Problem (from_request_parts (as_auth state) (http_authorization rq)).

Definition writer (rq : HttpRequest) : Http AuthUser :=
  map_err Problem (master_writer_from_request (as_auth state) (http_authorization rq)).

(** [Option<Json>]: whatever is wrong with the body, there is none. *)
Definition optional_note (rq : HttpRequest) : option string :=
  match http_body rq with
  | BadBody _ => None
  | JsonBody v => default None (send_input_of_json v)
  end.

(** [TimeRange] and [OeeQuery]. *)
Definition time_range (rq : HttpRequest) : Http (DateTime * DateTime) :=
  start ← query_time "start" rq; end_ ← query_time "end" rq; mret (start, end_).

Definition oee_query (rq : HttpRequest) : Http (string * DateTime * DateTime) :=
  wc ← query_text "work_center_id" rq;
  start ← query_time "start" rq; end_ ← query_time "end" rq; mret (wc, start, end_).

(** ** Handlers *)

(** What each endpoint extracts, in order, and the handler it runs, module by module. The gate
    of [MasterWriter] is part of the handlers of the component files too; here it comes
    before the rest of the request is looked at. *)
Definition http_handlers (ep : Ep.t) (captured : list string) (rq : HttpRequest) :
    option (Http Answer) :=
  match ep with
  | Ep.healthz => Some (answer 200 (mret (healthz EDGE_SERVICE)))
  | Ep.readyz => Some (
      '(status, body) ← readyz EDGE_SERVICE; answer status (mret body))
  | Ep.openapi_json => Some (answer 200 (mret openapi))
  | Ep.ws_handler => Some (
      match http_upgrade rq with
      | Some status => throw (Bare status)
      | None => answer_empty 101 (mret tt)
      end)
  | _ => None
  end.

Definition auth_routes_handlers (ep : Ep.t) (captured : list string) (rq : HttpRequest) :
    option (Http Answer) :=
  match ep with
  | Ep.login => Some (body ← json rq; answer 200 (login (as_auth state) body))
  | Ep.pin_login => Some (body ← json rq; answer 200 (pin_login (as_auth state) body))
  | _ => None
  end.

Definition master_handlers (ep : Ep.t) (captured : list string) (rq : HttpRequest) :
    option (Http Answer) :=
  match ep with
  | Ep.list_sites => Some (u ← authenticated rq; answer 200 (list_sites_endpoint u))
  | Ep.create_site => Some (u ← writer rq; i ← json rq; answer 201 (create_site_endpoint u i))
  | Ep.get_site => Some (
      u ← authenticated rq; id ← path_id captured; answer 200 (get_site_endpoint u id))
  | Ep.update_site => Some (
      u ← writer rq; id ← path_id captured; i ← json rq;
      answer 200 (update_site_endpoint u id i))
  | Ep.delete_site => Some (
      u ← writer rq; id ← path_id captured; answer_empty 204 (delete_site_endpoint u id))
  | Ep.list_areas => Some (u ← authenticated rq; answer 200 (list_areas_endpoint u))
  | Ep.create_area => Some (u ← writer rq; i ← json rq; answer 201 (create_area_endpoint u i))
  | Ep.get_area => Some (
      u ← authenticated rq; id ← path_id captured; answer 200 (get_area_endpoint u id))
  | Ep.update_area => Some (
      u ← writer rq; id ← path_id captured; i ← json rq;
      answer 200 (update_area_endpoint u id i))
  | Ep.delete_area => Some (
      u ← writer rq; id ← path_id captured; answer_empty 204 (delete_area_endpoint u id))
  | Ep.list_work_centers => Some (
      u ← authenticated rq; answer 200 (list_work_centers_endpoint u))
  | Ep.create_work_center => Some (
      u ← writer rq; i ← json rq; answer 201 (create_work_center_endpoint u i))
  | Ep.get_work_center => Some (
      u ← authenticated rq; id ← path_id captured; answer 200 (get_work_center_endpoint u id))
  | Ep.update_work_center => Some (
      u ← writer rq; id ← path_id captured; i ← json rq;
      answer 200 (update_work_center_endpoint u id i))
  | Ep.delete_work_center => Some (
      u ← writer rq; id ← path_id captured; answer_empty 204 (delete_work_center_endpoint u id))
  | Ep.list_parts => Some (u ← authenticated rq; answer 200 (list_parts_endpoint u))
  | Ep.create_part => Some (u ← writer rq; i ← json rq; answer 201 (create_part_endpoint u i))
  | Ep.get_part => Some (
      u ← authenticated rq; id ← path_id captured; answer 200 (get_part_endpoint u id))
  | Ep.update_part => Some (
      u ← writer rq; id ← path_id captured; i ← json rq;
      answer 200 (update_part_endpoint u id i))
  | Ep.delete_part => Some (
      u ← writer rq; id ← path_id captured; answer_empty 204 (delete_part_endpoint u id))
  | Ep.list_users => Some (u ← writer rq; answer 200 (list_users_endpoint u))
  | Ep.create_user => Some (u ← writer rq; i ← json rq; answer 201 (create_user_endpoint u i))
  | Ep.list_programs => Some (u ← authenticated rq; answer 200 (list_programs_endpoint u))
  | Ep.create_program => Some (
      u ← writer rq; i ← json rq; answer 201 (create_program_endpoint u i))
  | _ => None
  end.

Definition ingest_handlers (ep : Ep.t) (captured : list string) (rq : HttpRequest) :
    option (Http Answer) :=
  match ep with
  | Ep.ingest_signals => Some (
      u ← authenticated rq; i ← json rq; answer 200 (ingest_signals u i))
  | Ep.recompute => Some (
      u ← authenticated rq; i ← json rq;
      answer 200 (recompute u (rq_work_center_id i) (rq_start i) (rq_end i)))
  | _ => None
  end.

Definition orders_handlers (ep : Ep.t) (captured : list string) (rq : HttpRequest) :
    option (Http Answer) :=
  match ep with
  | Ep.list_orders => Some (u ← authenticated rq; answer 200 (list_orders u))
  | Ep.create_order => Some (u ← writer rq; i ← json rq; answer 201 (create_order u i))
  | Ep.get_order => Some (
      u ← authenticated rq; id ← path_id captured; answer 200 (get_order u id))
  | Ep.release_order => Some (
      u ← writer rq; id ← path_id captured; answer 200 (release_order u id))
  | Ep.cancel_order => Some (
      u ← writer rq; id ← path_id captured; answer 200 (cancel_order u id))
  | Ep.close_order => Some (u ← writer rq; id ← path_id captured; answer 200 (close_order u id))
  | _ => None
  end.

Definition exec_handlers (ep : Ep.t) (captured : list string) (rq : HttpRequest) :
    option (Http Answer) :=
  match ep with
  | Ep.start_op => Some (
      u ← authenticated rq; id ← path_id captured; answer 200 (start_op u id))
  | Ep.record_count => Some (
      u ← authenticated rq; id ← path_id captured; i ← json rq;
      answer 200 (record_count_endpoint u id i))
  | Ep.complete_op => Some (
      u ← authenticated rq; id ← path_id captured; answer 200 (complete_op u id))
  | Ep.complete_wo => Some (
      u ← authenticated rq; id ← path_id captured; answer 200 (complete_wo u id))
  | Ep.classify_downtime => Some (
      u ← authenticated rq; id ← path_id captured; i ← json rq;
      answer 200 (classify_downtime_endpoint u id (cdi_reason_id i)))
  | Ep.split_downtime => Some (
      u ← authenticated rq; id ← path_id captured; i ← json rq;
      answer 200 (split_downtime_endpoint u id i))
  | _ => None
  end.

Definition dnc_handlers (ep : Ep.t) (captured : list string) (rq : HttpRequest) :
    option (Http Answer) :=
  match ep with
  | Ep.list_transfers => Some (u ← authenticated rq; answer 200 (get_transfers u))
  | Ep.manual_transfer => Some (
      u ← authenticated rq; i ← json rq; answer 201 (manual_transfer u i))
  | Ep.retry_transfer => Some (
      u ← authenticated rq; id ← path_id captured; answer 201 (retry_transfer u id))
  | Ep.list_revisions => Some (u ← authenticated rq; answer 200 (get_revisions u))
  | Ep.promote_revision => Some (
      u ← authenticated rq; id ← path_id captured; answer 200 (promote_revision u id))
  | Ep.reject_revision => Some (
      u ← authenticated rq; id ← path_id captured; answer 200 (reject_revision u id))
  | Ep.inject_daemon_event => Some (
      u ← authenticated rq; i ← json rq; answer_empty 202 (inject_daemon_event u i))
  | _ => None
  end.

Definition analytics_handlers (ep : Ep.t) (captured : list string) (rq : HttpRequest) :
    option (Http Answer) :=
  match ep with
  | Ep.downtime_pareto => Some (
      u ← authenticated rq; '(s, e) ← time_range rq;
      answer 200 (Metrics.get_downtime_pareto u s e))
  | Ep.six_big_losses => Some (
      u ← authenticated rq; '(s, e) ← time_range rq; answer 200 (six_big_losses u s e))
  | Ep.downtime_trend => Some (
      u ← authenticated rq; '(s, e) ← time_range rq; answer_as (λ l, JArr (map trend_point_to_json l)) 200 (get_downtime_trend u s e))
  | Ep.oee => Some (
      u ← authenticated rq; '(wc, s, e) ← oee_query rq; answer 200 (Metrics.get_oee u wc s e))
  | Ep.oee_by_shift => Some (
      u ← authenticated rq; '(wc, s, e) ← oee_query rq; answer 200 (get_oee_by_shift u wc s e))
  | _ => None
  end.

Definition trace_handlers (ep : Ep.t) (captured : list string) (rq : HttpRequest) :
    option (Http Answer) :=
  match ep with
  | Ep.create_lot => Some (
      u ← authenticated rq; i ← json rq; answer 201 (create_lot_endpoint u i))
  | Ep.create_serial => Some (
      u ← authenticated rq; i ← json rq; answer 201 (create_serial_endpoint u i))
  | Ep.add_genealogy => Some (
      u ← authenticated rq; i ← json rq; answer_empty 201 (add_genealogy_endpoint u i))
  | Ep.issue_material => Some (
      u ← authenticated rq; i ← json rq; answer_as txn_answer 201 (issue_material_endpoint u i))
  | Ep.place_hold => Some (
      u ← authenticated rq; i ← json rq; answer_as hold_answer 201 (place_hold_endpoint u i))
  | Ep.release_hold => Some (
      u ← authenticated rq; id ← path_id captured; answer_empty 204 (release_hold_endpoint u id))
  | Ep.trace_backward => Some (
      u ← authenticated rq; '(ty, id) ← path_pair captured;
      answer 200 (trace_backward_endpoint u ty id))
  | Ep.trace_forward => Some (
      u ← authenticated rq; '(ty, id) ← path_pair captured;
      answer 200 (trace_forward_endpoint u ty id))
  | Ep.parse_barcode => Some (
      u ← authenticated rq; code ← query_text "code" rq; answer_as barcode_to_json 200 (parse_barcode u code))
  | _ => None
  end.

Definition qms_handlers (ep : Ep.t) (captured : list string) (rq : HttpRequest) :
    option (Http Answer) :=
  match ep with
  | Ep.create_plan => Some (
      u ← authenticated rq; i ← json rq; answer 201 (create_plan_endpoint u i))
  | Ep.create_characteristic => Some (
      u ← authenticated rq; i ← json rq; answer 201 (create_characteristic_endpoint u i))
  | Ep.record_result => Some (
      u ← authenticated rq; i ← json rq; answer_as record_result_answer 201 (record_result_endpoint u i))
  | Ep.list_ncrs => Some (u ← authenticated rq; answer 200 (list_ncrs_endpoint u))
  | Ep.get_ncr => Some (
      u ← authenticated rq; id ← path_id captured; answer 200 (get_ncr_endpoint u id))
  | Ep.disposition_ncr => Some (
      u ← authenticated rq; id ← path_id captured; i ← json rq;
      answer 200 (disposition_ncr_endpoint u id (dpi_disposition i) (dpi_reason i)))
  | _ => None
  end.

Definition cmms_handlers (ep : Ep.t) (captured : list string) (rq : HttpRequest) :
    option (Http Answer) :=
  match ep with
  | Ep.create_pm_schedule => Some (
      u ← authenticated rq; i ← json rq; answer 201 (create_pm_schedule_endpoint u i))
  | Ep.list_pm_due => Some (u ← authenticated rq; answer 200 (list_pm_due_endpoint u))
  | Ep.list_maintenance_wos => Some (
      u ← authenticated rq; answer 200 (list_maintenance_wos_endpoint u))
  | Ep.create_maintenance_wo => Some (
      u ← authenticated rq; i ← json rq; answer 201 (create_maintenance_wo_endpoint u i))
  | Ep.get_maintenance_wo => Some (
      u ← authenticated rq; id ← path_id captured;
      answer 200 (get_maintenance_wo_endpoint u id))
  | Ep.transition_maintenance_wo => Some (
      u ← authenticated rq; id ← path_id captured; i ← json rq;
      answer 200 (transition_maintenance_wo_endpoint u id i))
  | Ep.list_spare_parts => Some (u ← authenticated rq; answer 200 (list_spare_parts_endpoint u))
  | Ep.create_spare_part => Some (
      u ← authenticated rq; i ← json rq; answer 201 (create_spare_part_endpoint u i))
  | Ep.record_spare_txn => Some (
      u ← authenticated rq; i ← json rq; answer 201 (record_spare_txn_endpoint u i))
  | Ep.list_procurement_requests => Some (
      u ← authenticated rq; answer 200 (list_procurement_requests_endpoint u))
  | Ep.create_procurement_request => Some (
      u ← authenticated rq; i ← json rq;
      answer 201 (create_procurement_request_endpoint u (pri_spare_part_id i)
        (pri_qty_requested i)))
  | _ => None
  end.

Definition erp_handlers (ep : Ep.t) (captured : list string) (rq : HttpRequest) :
    option (Http Answer) :=
  match ep with
  | Ep.list_connections => Some (u ← writer rq; answer 200 (list_connections_endpoint u))
  | Ep.create_connection => Some (
      u ← writer rq; i ← json rq;
      answer 201 (create_connection_endpoint (as_erp_key state) u i))
  | Ep.get_connection => Some (
      u ← writer rq; id ← path_id captured; answer 200 (get_connection_endpoint u id))
  | Ep.update_connection => Some (
      u ← writer rq; id ← path_id captured; i ← json rq;
      answer 200 (update_connection_endpoint (as_erp_key state) u id i))
  | Ep.delete_connection => Some (
      u ← writer rq; id ← path_id captured; answer_empty 204 (delete_connection_endpoint u id))
  | Ep.import => Some (u ← writer rq; i ← json rq; answer 201 (import u i))
  | Ep.export => Some (u ← writer rq; i ← json rq; answer 200 (export (as_erp_key state) u i))
  | Ep.list_sync_log => Some (
      u ← writer rq; c ← query_field "connection_id" rq;
      answer 200 (list_sync_log_endpoint u c))
  | _ => None
  end.

Definition diagnostics_handlers (ep : Ep.t) (captured : list string) (rq : HttpRequest) :
    option (Http Answer) :=
  match ep with
  | Ep.send => Some (u ← writer rq; answer 200 (send u (optional_note rq)))
  | _ => None
  end.

Definition edge_handlers : list (Ep.t → list string → HttpRequest → option (Http Answer)) :=
  [http_handlers; auth_routes_handlers; master_handlers; ingest_handlers;
   orders_handlers; exec_handlers; dnc_handlers; analytics_handlers;
   trace_handlers; qms_handlers; cmms_handlers; erp_handlers; diagnostics_handlers].

(** The handler of an endpoint; there is one ([edge_call_total]). *)
Definition edge_call (ep : Ep.t) (captured : list string) (rq : HttpRequest) : Http Answer :=
  default (throw (Bare 404)) (head (omap (λ f, f ep captured rq) edge_handlers)).

(** A request as it arrives. *)
Definition edge_http (rq : HttpRequest) : Http Answer :=
  match route_to Routes.edge_router (http_method rq) (http_path rq) with
  | Found ep captured => edge_call ep captured rq
  | NotAllowed => throw (Bare 405)
  | Nowhere => throw (Bare 404)
  end.
End edge.

(** The reading endpoints, to be unfolded. *)
Create HintDb reports.
#[export] Hint Unfold list_sites_endpoint get_site_endpoint list_areas_endpoint
  get_area_endpoint list_work_centers_endpoint get_work_center_endpoint list_parts_endpoint
  get_part_endpoint list_users_endpoint list_programs_endpoint list_orders get_order
  get_work_order_detail get_transfers get_revisions Metrics.get_downtime_pareto six_big_losses
  get_downtime_trend Metrics.get_oee get_oee_by_shift Metrics.oee_by_shift shift_oee
  trace_backward_endpoint trace_forward_endpoint list_ncrs_endpoint get_ncr_endpoint
  list_pm_due_endpoint list_pm_due list_maintenance_wos_endpoint get_maintenance_wo_endpoint
  list_spare_parts_endpoint list_procurement_requests_endpoint list_connections_endpoint
  get_connection_endpoint list_sync_log_endpoint reading readyz is_ready get_site get_area
  get_work_center get_part get_work_order get_ncr get_maintenance_wo
  answer answer_as answer_empty answer_with : reports.

(** ** Who is let in *)

Inductive Gate := Open | ByToken | ByRole.

#[global] Instance Gate_eq_dec : EqDecision Gate.
Proof. solve_decision. Defined.

(** What a handler's signature asks of the caller: nothing, an [AuthUser] or a
    [MasterWriter]. *)
Definition gate (ep : Ep.t) : Gate :=
  match ep with
  | Ep.healthz | Ep.readyz | Ep.openapi_json | Ep.ws_handler | Ep.login | Ep.pin_login => Open
  | Ep.create_site | Ep.update_site | Ep.delete_site | Ep.create_area | Ep.update_area
  | Ep.delete_area | Ep.create_work_center | Ep.update_work_center | Ep.delete_work_center
  | Ep.create_part | Ep.update_part | Ep.delete_part | Ep.list_users | Ep.create_user
  | Ep.create_program | Ep.create_order | Ep.release_order | Ep.cancel_order | Ep.close_order
  | Ep.list_connections | Ep.create_connection | Ep.get_connection | Ep.update_connection
  | Ep.delete_connection | Ep.import | Ep.export | Ep.list_sync_log | Ep.send => ByRole
  | _ => ByToken
  end.

(** Computes the handler of a given endpoint. *)
Ltac unfold_call :=
  cbn [edge_call edge_handlers head omap list_omap default from_option option_bind id
       http_handlers auth_routes_handlers master_handlers ingest_handlers
       orders_handlers exec_handlers dnc_handlers analytics_handlers
       trace_handlers qms_handlers cmms_handlers erp_handlers diagnostics_handlers].

Lemma edge_call_total {env : Env} {cmms : CmmsEnv} {crypto : Crypto} {senv : SyncEnv}
    {erp : ErpEnv} {proc : ProcessEnv} {diag : DiagEnv} {axum : Axum} state ep
    captured rq :
  omap (λ f, f ep captured rq) (edge_handlers state) = [edge_call state ep captured rq].
Proof. by destruct ep. Qed.

Section gates.
Context {env : Env} {cmms : CmmsEnv} {crypto : Crypto} {senv : SyncEnv} {erp : ErpEnv}.
Context {proc : ProcessEnv} {diag : DiagEnv} {axum : Axum}.
Context (state : AppState).

(** The caller a request's token names, if it is a valid one. *)
Definition caller (rq : HttpRequest) (w : World) : option AuthUser :=
  header ← http_authorization rq;
  token ← strip_prefix "Bearer " header;
  claims ← jwt_decode (ac_secret (as_auth state)) (timestamp (w_now w)) token;
  Some (mkAuthUser (cl_sub claims) (cl_role claims)).

Lemma authenticated_caller rq w :
  match caller rq w with
  | Some u => authenticated state rq w = (Ok u, w)
  | None => ∃ m, authenticated state rq w = (Err (Problem (err 401 "unauthorized" m)), w)
  end.
Proof.
  unfold caller, authenticated, from_request_parts, decode_token.
  generalize (strip_prefix "Bearer ") as strip. intros strip.
  unfold map_err, gets, ok_or, mbind, M_bind, option_bind, mret, M_ret.
  destruct (http_authorization rq) as [h|]; [|by eexists]. cbv beta iota zeta.
  destruct (strip h) as [token|]; [|by eexists]. cbv beta iota zeta.
  by destruct (jwt_decode _ _ _); [|eexists].
Qed.

Lemma writer_caller rq w :
  writer state rq w =
  match authenticated state rq w with
  | (Ok u, w') =>
      if can_write_master (role u) then (Ok u, w')
      else (Err (Problem (err 403 "forbidden" "role may not modify master data")), w')
  | (Err r, w') => (Err r, w')
  end.
Proof.
  unfold writer, authenticated, master_writer_from_request, map_err, mbind, M_bind.
  destruct (from_request_parts _ _ _) as [[u|e] w']; [|done]. unfold master_writer.
  by destruct (can_write_master _).
Qed.

Lemma edge_call_gate ep captured rq :
  match gate ep with
  | Open => True
  | ByToken => ∃ k, edge_call state ep captured rq = authenticated state rq ≫= k
  | ByRole => ∃ k, edge_call state ep captured rq = writer state rq ≫= k
  end.
Proof. destruct ep; unfold_call; cbn [gate]; try done; by eexists. Qed.

(** A test of the entries below [/v1], by the name that follows. *)
Definition under_v1 (f : string → Method → Ep.t → bool) (p : list Seg) (m : Method)
    (ep : Ep.t) : bool :=
  match p with
  | Lit v :: rest =>
      negb (String.eqb v "v1") || match rest with Lit s :: _ => f s m ep | _ => false end
  | _ => false
  end.

Lemma under_v1_found `{!AxumLaws axum} f m s rest ep captured :
  throughout Routes.edge_router (under_v1 f) = true →
  route_to Routes.edge_router m ("v1" :: s :: rest)%string = Found ep captured →
  ∃ m', f s m' ep = true ∧ (m' = m ∨ m = HEAD ∧ m' = GET).
Proof.
  intros Hf (p & m' & Hm & Hp & Hm')%(throughout_found _ _ _ _ _ _ Hf). exists m'. split; [|done].
  destruct p as [|[v|v] [|[s'|s'] p']]; try done; simpl in Hm, Hp.
  - by rewrite andb_false_r in Hm.
  - apply andb_true_iff in Hm as [Hv [Hs _]%andb_true_iff].
    apply String.eqb_eq in Hv as ->. by apply String.eqb_eq in Hs as ->.
  - apply andb_true_iff in Hm as [->%String.eqb_eq _]. done.
Qed.

(** Only the endpoints outside [/v1] and those of [/v1/auth] let strangers in. *)
Lemma guarded_gate `{!AxumLaws axum} m s rest ep captured :
  route_to Routes.edge_router m ("v1" :: s :: rest)%string = Found ep captured →
  s ≠ "auth"%string → gate ep ≠ Open.
Proof.
  intros Hd Hs. apply (under_v1_found (λ s _ ep, String.eqb s "auth" ||
    match gate ep with Open => false | _ => true end)) in Hd as (m' & Hg & _).
  - apply String.eqb_neq in Hs. rewrite Hs in Hg. simpl in Hg. by intros E; rewrite E in Hg.
  - vm_compute. reflexivity.
Qed.

(** Master data, orders, connectors and diagnostics are changed by role. *)
Definition by_role (s : string) : bool :=
  existsb (String.eqb s) ["master"; "orders"; "erp"; "diagnostics"]%string.

Lemma by_role_gate `{!AxumLaws axum} m s rest ep captured :
  route_to Routes.edge_router m ("v1" :: s :: rest)%string = Found ep captured →
  by_role s = true → m ≠ GET → m ≠ HEAD → gate ep = ByRole.
Proof.
  intros Hd Hs Hm Hh. apply (under_v1_found (λ s m ep, negb (by_role s) ||
    bool_decide (m = GET) || bool_decide (gate ep = ByRole))) in Hd as (m' & Hg & [->|[? _]]).
  - rewrite Hs, bool_decide_eq_false_2 in Hg by done. by apply bool_decide_eq_true in Hg.
  - done.
  - vm_compute. reflexivity.
Qed.

(** A request stops where there is no such endpoint or at the gate: the token below [/v1],
    the role where data is changed by role. *)
Lemma edge_admits `{!AxumLaws axum} rq w s rest :
  http_path rq = ("v1" :: s :: rest)%string → s ≠ "auth"%string →
  match caller rq w with
  | None => ∃ r, edge_http state rq w = (Err r, w) ∧
      (r = Bare 404 ∨ r = Bare 405 ∨ ∃ m, r = Problem (err 401 "unauthorized" m))
  | Some u => by_role s = true → http_method rq ≠ GET → http_method rq ≠ HEAD →
      can_write_master (role u) = false →
      ∃ r, edge_http state rq w = (Err r, w) ∧
      (r = Bare 404 ∨ r = Bare 405 ∨
       r = Problem (err 403 "forbidden" "role may not modify master data"))
  end.
Proof.
  intros Hp Hs. unfold edge_http. rewrite Hp.
  destruct (route_to _ _ _) as [ep captured| |] eqn:Hd;
    [|by destruct (caller rq w); eauto..].
  pose proof (authenticated_caller rq w) as Ha.
  pose proof (writer_caller rq w) as Hw. pose proof (edge_call_gate ep captured rq) as Hk.
  destruct (caller rq w) as [u|].
  - intros Hb H1 H2 Hr. rewrite Ha, Hr in Hw.
    rewrite (by_role_gate _ _ _ _ _ Hd Hb H1 H2) in Hk. destruct Hk as [k ->].
    rewrite (bind_stop _ _ _ _ _ Hw). eauto.
  - destruct Ha as [m Ha]. rewrite Ha in Hw. pose proof (guarded_gate _ _ _ _ _ Hd Hs) as Hg.
    destruct (gate ep); [done|..]; destruct Hk as [k ->];
      [rewrite (bind_stop _ _ _ _ _ Ha)|rewrite (bind_stop _ _ _ _ _ Hw)]; eauto 10.
Qed.
End gates.

(** ** Clients *)

(** The API as its clients know it: the method and the path of each endpoint. *)
Definition api (ep : Ep.t) : Method * string :=
  match ep with
  | Ep.healthz => (GET, "/healthz")
  | Ep.readyz => (GET, "/readyz")
  | Ep.openapi_json => (GET, "/api-doc/openapi.json")
  | Ep.ws_handler => (GET, "/ws")
  | Ep.login => (POST, "/v1/auth/login")
  | Ep.pin_login => (POST, "/v1/auth/pin-login")
  | Ep.list_sites => (GET, "/v1/master/sites")
  | Ep.create_site => (POST, "/v1/master/sites")
  | Ep.get_site => (GET, "/v1/master/sites/:id")
  | Ep.update_site => (PUT, "/v1/master/sites/:id")
  | Ep.delete_site => (DELETE, "/v1/master/sites/:id")
  | Ep.list_areas => (GET, "/v1/master/areas")
  | Ep.create_area => (POST, "/v1/master/areas")
  | Ep.get_area => (GET, "/v1/master/areas/:id")
  | Ep.update_area => (PUT, "/v1/master/areas/:id")
  | Ep.delete_area => (DELETE, "/v1/master/areas/:id")
  | Ep.list_work_centers => (GET, "/v1/master/work-centers")
  | Ep.create_work_center => (POST, "/v1/master/work-centers")
  | Ep.get_work_center => (GET, "/v1/master/work-centers/:id")
  | Ep.update_work_center => (PUT, "/v1/master/work-centers/:id")
  | Ep.delete_work_center => (DELETE, "/v1/master/work-centers/:id")
  | Ep.list_parts => (GET, "/v1/master/parts")
  | Ep.create_part => (POST, "/v1/master/parts")
  | Ep.get_part => (GET, "/v1/master/parts/:id")
  | Ep.update_part => (PUT, "/v1/master/parts/:id")
  | Ep.delete_part => (DELETE, "/v1/master/parts/:id")
  | Ep.list_users => (GET, "/v1/master/users")
  | Ep.create_user => (POST, "/v1/master/users")
  | Ep.list_programs => (GET, "/v1/master/programs")
  | Ep.create_program => (POST, "/v1/master/programs")
  | Ep.ingest_signals => (POST, "/v1/ingest/signals")
  | Ep.recompute => (POST, "/v1/ingest/recompute")
  | Ep.list_orders => (GET, "/v1/orders")
  | Ep.create_order => (POST, "/v1/orders")
  | Ep.get_order => (GET, "/v1/orders/:id")
  | Ep.release_order => (POST, "/v1/orders/:id/release")
  | Ep.cancel_order => (POST, "/v1/orders/:id/cancel")
  | Ep.close_order => (POST, "/v1/orders/:id/close")
  | Ep.start_op => (POST, "/v1/exec/operations/:op_id/start")
  | Ep.record_count => (POST, "/v1/exec/operations/:op_id/count")
  | Ep.complete_op => (POST, "/v1/exec/operations/:op_id/complete")
  | Ep.complete_wo => (POST, "/v1/exec/work-orders/:id/complete")
  | Ep.classify_downtime => (POST, "/v1/exec/downtime/:id/classify")
  | Ep.split_downtime => (POST, "/v1/exec/downtime/:id/split")
  | Ep.list_transfers => (GET, "/v1/dnc/transfers")
  | Ep.manual_transfer => (POST, "/v1/dnc/transfers")
  | Ep.retry_transfer => (POST, "/v1/dnc/transfers/:id/retry")
  | Ep.list_revisions => (GET, "/v1/dnc/revisions")
  | Ep.promote_revision => (POST, "/v1/dnc/revisions/:id/promote")
  | Ep.reject_revision => (POST, "/v1/dnc/revisions/:id/reject")
  | Ep.inject_daemon_event => (POST, "/v1/dnc/daemon-events")
  | Ep.downtime_pareto => (GET, "/v1/analytics/downtime/pareto")
  | Ep.six_big_losses => (GET, "/v1/analytics/downtime/six-big-losses")
  | Ep.downtime_trend => (GET, "/v1/analytics/downtime/trend")
  | Ep.oee => (GET, "/v1/analytics/oee")
  | Ep.oee_by_shift => (GET, "/v1/analytics/oee/by-shift")
  | Ep.create_lot => (POST, "/v1/trace/lots")
  | Ep.create_serial => (POST, "/v1/trace/serials")
  | Ep.add_genealogy => (POST, "/v1/trace/genealogy")
  | Ep.issue_material => (POST, "/v1/trace/material/issue")
  | Ep.place_hold => (POST, "/v1/trace/holds")
  | Ep.release_hold => (POST, "/v1/trace/holds/:id/release")
  | Ep.trace_backward => (GET, "/v1/trace/backward/:entity_type/:entity_id")
  | Ep.trace_forward => (GET, "/v1/trace/forward/:entity_type/:entity_id")
  | Ep.parse_barcode => (GET, "/v1/trace/barcode")
  | Ep.create_plan => (POST, "/v1/qms/plans")
  | Ep.create_characteristic => (POST, "/v1/qms/characteristics")
  | Ep.record_result => (POST, "/v1/qms/results")
  | Ep.list_ncrs => (GET, "/v1/qms/ncrs")
  | Ep.get_ncr => (GET, "/v1/qms/ncrs/:id")
  | Ep.disposition_ncr => (POST, "/v1/qms/ncrs/:id/disposition")
  | Ep.create_pm_schedule => (POST, "/v1/cmms/pm-schedules")
  | Ep.list_pm_due => (GET, "/v1/cmms/pm-schedules/due")
  | Ep.list_maintenance_wos => (GET, "/v1/cmms/work-orders")
  | Ep.create_maintenance_wo => (POST, "/v1/cmms/work-orders")
  | Ep.get_maintenance_wo => (GET, "/v1/cmms/work-orders/:id")
  | Ep.transition_maintenance_wo => (POST, "/v1/cmms/work-orders/:id/transition")
  | Ep.list_spare_parts => (GET, "/v1/cmms/spares")
  | Ep.create_spare_part => (POST, "/v1/cmms/spares")
  | Ep.record_spare_txn => (POST, "/v1/cmms/spares/txns")
  | Ep.list_procurement_requests => (GET, "/v1/cmms/procurement")
  | Ep.create_procurement_request => (POST, "/v1/cmms/procurement")
  | Ep.list_connections => (GET, "/v1/erp/connections")
  | Ep.create_connection => (POST, "/v1/erp/connections")
  | Ep.get_connection => (GET, "/v1/erp/connections/:id")
  | Ep.update_connection => (PUT, "/v1/erp/connections/:id")
  | Ep.delete_connection => (DELETE, "/v1/erp/connections/:id")
  | Ep.import => (POST, "/v1/erp/import")
  | Ep.export => (POST, "/v1/erp/export")
  | Ep.list_sync_log => (GET, "/v1/erp/sync-log")
  | Ep.send => (POST, "/v1/diagnostics/send")
  end%string.

Lemma edge_serves_api ep : serves_at Routes.edge_router ep (api ep) = true.
Proof. destruct ep; vm_compute; reflexivity. Qed.

Section client.
Context {env : Env} {cmms : CmmsEnv} {crypto : Crypto} {senv : SyncEnv} {erp : ErpEnv}.
Context {proc : ProcessEnv} {diag : DiagEnv} {axum : Axum}.
Context {serde : SerdeJson} {agent : AgentEnv} {backend : LlmBackend}.
Context (state : AppState).

(** The endpoint a client calls, the segments of the path it fills in, and what it sends. *)
Definition floor_call (r : request) : Ep.t * list string * Sent :=
  match r with
  | CreateOrder i => (Ep.create_order, [], Send i)
  | ReleaseOrder id => (Ep.release_order, [id], Nothing)
  | CancelOrder id => (Ep.cancel_order, [id], Nothing)
  | CloseOrder id => (Ep.close_order, [id], Nothing)
  | StartOp id => (Ep.start_op, [id], Nothing)
  | RecordCount id i => (Ep.record_count, [id], Send i)
  | CompleteOp id => (Ep.complete_op, [id], Nothing)
  | CompleteWo id => (Ep.complete_wo, [id], Nothing)
  | ClassifyDowntime id reason =>
      (Ep.classify_downtime, [id], Send (mkClassifyDowntimeInput reason))
  | SplitDowntime id i => (Ep.split_downtime, [id], Send i)
  | IngestSignals signals => (Ep.ingest_signals, [], Send signals)
  | Recompute wc s e => (Ep.recompute, [], Send (mkRecomputeRequest wc s e))
  | ManualTransfer i => (Ep.manual_transfer, [], Send i)
  | RetryTransfer id => (Ep.retry_transfer, [id], Nothing)
  | PromoteRevision id => (Ep.promote_revision, [id], Nothing)
  | RejectRevision id => (Ep.reject_revision, [id], Nothing)
  | InjectDaemonEvent ev => (Ep.inject_daemon_event, [], Send ev)
  | CreateLot i => (Ep.create_lot, [], Send i)
  | CreateSerial i => (Ep.create_serial, [], Send i)
  | AddGenealogy i => (Ep.add_genealogy, [], Send i)
  | IssueMaterial i => (Ep.issue_material, [], Send i)
  | PlaceHold i => (Ep.place_hold, [], Send i)
  | ReleaseHold id => (Ep.release_hold, [id], Nothing)
  | CreatePlan i => (Ep.create_plan, [], Send i)
  | CreateCharacteristic i => (Ep.create_characteristic, [], Send i)
  | RecordResult i => (Ep.record_result, [], Send i)
  | DispositionNcr id d reason => (Ep.disposition_ncr, [id], Send (mkDispositionInput d reason))
  | CreatePmSchedule i => (Ep.create_pm_schedule, [], Send i)
  | CreateMaintenanceWo i => (Ep.create_maintenance_wo, [], Send i)
  | TransitionMaintenanceWo id i => (Ep.transition_maintenance_wo, [id], Send i)
  | CreateSparePart i => (Ep.create_spare_part, [], Send i)
  | RecordSpareTxn i => (Ep.record_spare_txn, [], Send i)
  | CreateProcurementRequest id qty =>
      (Ep.create_procurement_request, [], Send (mkProcurementRequestInput id qty))
  end.

Definition master_call (r : master_request) : Ep.t * list string * Sent :=
  match r with
  | CreateSite i => (Ep.create_site, [], Send i)
  | UpdateSite id i => (Ep.update_site, [id], Send i)
  | DeleteSite id => (Ep.delete_site, [id], Nothing)
  | CreateArea i => (Ep.create_area, [], Send i)
  | UpdateArea id i => (Ep.update_area, [id], Send i)
  | DeleteArea id => (Ep.delete_area, [id], Nothing)
  | CreateWorkCenter i => (Ep.create_work_center, [], Send i)
  | UpdateWorkCenter id i => (Ep.update_work_center, [id], Send i)
  | DeleteWorkCenter id => (Ep.delete_work_center, [id], Nothing)
  | CreatePart i => (Ep.create_part, [], Send i)
  | UpdatePart id i => (Ep.update_part, [id], Send i)
  | DeletePart id => (Ep.delete_part, [id], Nothing)
  | CreateUser i => (Ep.create_user, [], Send i)
  | CreateProgram i => (Ep.create_program, [], Send i)
  end.

Definition erp_call (r : erp_request) : Ep.t * list string * Sent :=
  match r with
  | CreateConnection i => (Ep.create_connection, [], Send i)
  | UpdateConnection id i => (Ep.update_connection, [id], Send i)
  | DeleteConnection id => (Ep.delete_connection, [id], Nothing)
  | Import i => (Ep.import, [], Send i)
  | Export i => (Ep.export, [], Send i)
  end.

(** Requests of signed-in users. *)
Inductive edge_request :=
  | OnFloor (r : request)
  | InMaster (r : master_request)
  | ToErp (r : erp_request).

Definition edge_call_of (r : edge_request) : Ep.t * list string * Sent :=
  match r with
  | OnFloor r => floor_call r
  | InMaster r => master_call r
  | ToErp r => erp_call r
  end.

Definition edge_handle (auth : AuthUser) (r : edge_request) : M World ApiErr unit :=
  match r with
  | OnFloor r => handle auth r
  | InMaster r => master_handle auth r
  | ToErp r => erp_handle (as_erp_key state) auth r
  end.

(** The request as a client sends it. *)
Definition http_of (authorization : option string) (r : edge_request) : HttpRequest :=
  let '(ep, args, sent) := edge_call_of r in
  mkHttpRequest (fst (api ep)) (fill (pattern (snd (api ep))) (map percent_encode args)) []
    authorization (body_of sent) None.

(** Identifiers in paths are not empty, integers fit their width. *)
Definition sendable (r : edge_request) : bool :=
  let '(_, args, sent) := edge_call_of r in
  forallb (λ x, negb (String.eqb x "")) args && sent_fits sent.

(** The request the server makes out of a call. *)
Definition decoded (ep : Ep.t) (c : list string) (b : Body) : option edge_request :=
  match ep with
  | Ep.create_order => with_json b (λ i, OnFloor (CreateOrder i))
  | Ep.release_order => with_id c (λ id, Some (OnFloor (ReleaseOrder id)))
  | Ep.cancel_order => with_id c (λ id, Some (OnFloor (CancelOrder id)))
  | Ep.close_order => with_id c (λ id, Some (OnFloor (CloseOrder id)))
  | Ep.start_op => with_id c (λ id, Some (OnFloor (StartOp id)))
  | Ep.record_count => with_id c (λ id, with_json b (λ i, OnFloor (RecordCount id i)))
  | Ep.complete_op => with_id c (λ id, Some (OnFloor (CompleteOp id)))
  | Ep.complete_wo => with_id c (λ id, Some (OnFloor (CompleteWo id)))
  | Ep.classify_downtime =>
      with_id c (λ id, with_json b (λ i, OnFloor (ClassifyDowntime id (cdi_reason_id i))))
  | Ep.split_downtime => with_id c (λ id, with_json b (λ i, OnFloor (SplitDowntime id i)))
  | Ep.ingest_signals => with_json b (λ i, OnFloor (IngestSignals i))
  | Ep.recompute =>
      with_json b (λ i, OnFloor (Recompute (rq_work_center_id i) (rq_start i) (rq_end i)))
  | Ep.manual_transfer => with_json b (λ i, OnFloor (ManualTransfer i))
  | Ep.retry_transfer => with_id c (λ id, Some (OnFloor (RetryTransfer id)))
  | Ep.promote_revision => with_id c (λ id, Some (OnFloor (PromoteRevision id)))
  | Ep.reject_revision => with_id c (λ id, Some (OnFloor (RejectRevision id)))
  | Ep.inject_daemon_event => with_json b (λ i, OnFloor (InjectDaemonEvent i))
  | Ep.create_lot => with_json b (λ i, OnFloor (CreateLot i))
  | Ep.create_serial => with_json b (λ i, OnFloor (CreateSerial i))
  | Ep.add_genealogy => with_json b (λ i, OnFloor (AddGenealogy i))
  | Ep.issue_material => with_json b (λ i, OnFloor (IssueMaterial i))
  | Ep.place_hold => with_json b (λ i, OnFloor (PlaceHold i))
  | Ep.release_hold => with_id c (λ id, Some (OnFloor (ReleaseHold id)))
  | Ep.create_plan => with_json b (λ i, OnFloor (CreatePlan i))
  | Ep.create_characteristic => with_json b (λ i, OnFloor (CreateCharacteristic i))
  | Ep.record_result => with_json b (λ i, OnFloor (RecordResult i))
  | Ep.disposition_ncr =>
      with_id c (λ id, with_json b (λ i,
        OnFloor (DispositionNcr id (dpi_disposition i) (dpi_reason i))))
  | Ep.create_pm_schedule => with_json b (λ i, OnFloor (CreatePmSchedule i))
  | Ep.create_maintenance_wo => with_json b (λ i, OnFloor (CreateMaintenanceWo i))
  | Ep.transition_maintenance_wo =>
      with_id c (λ id, with_json b (λ i, OnFloor (TransitionMaintenanceWo id i)))
  | Ep.create_spare_part => with_json b (λ i, OnFloor (CreateSparePart i))
  | Ep.record_spare_txn => with_json b (λ i, OnFloor (RecordSpareTxn i))
  | Ep.create_procurement_request =>
      with_json b (λ i,
        OnFloor (CreateProcurementRequest (pri_spare_part_id i) (pri_qty_requested i)))
  | Ep.create_site => with_json b (λ i, InMaster (CreateSite i))
  | Ep.update_site => with_id c (λ id, with_json b (λ i, InMaster (UpdateSite id i)))
  | Ep.delete_site => with_id c (λ id, Some (InMaster (DeleteSite id)))
  | Ep.create_area => with_json b (λ i, InMaster (CreateArea i))
  | Ep.update_area => with_id c (λ id, with_json b (λ i, InMaster (UpdateArea id i)))
  | Ep.delete_area => with_id c (λ id, Some (InMaster (DeleteArea id)))
  | Ep.create_work_center => with_json b (λ i, InMaster (CreateWorkCenter i))
  | Ep.update_work_center =>
      with_id c (λ id, with_json b (λ i, InMaster (UpdateWorkCenter id i)))
  | Ep.delete_work_center => with_id c (λ id, Some (InMaster (DeleteWorkCenter id)))
  | Ep.create_part => with_json b (λ i, InMaster (CreatePart i))
  | Ep.update_part => with_id c (λ id, with_json b (λ i, InMaster (UpdatePart id i)))
  | Ep.delete_part => with_id c (λ id, Some (InMaster (DeletePart id)))
  | Ep.create_user => with_json b (λ i, InMaster (CreateUser i))
  | Ep.create_program => with_json b (λ i, InMaster (CreateProgram i))
  | Ep.create_connection => with_json b (λ i, ToErp (CreateConnection i))
  | Ep.update_connection => with_id c (λ id, with_json b (λ i, ToErp (UpdateConnection id i)))
  | Ep.delete_connection => with_id c (λ id, Some (ToErp (DeleteConnection id)))
  | Ep.import => with_json b (λ i, ToErp (Import i))
  | Ep.export => with_json b (λ i, ToErp (Export i))
  | _ => None
  end.

(** The endpoints of these requests. *)
Definition writes (ep : Ep.t) : bool :=
  match ep with
  | Ep.healthz | Ep.readyz | Ep.openapi_json | Ep.ws_handler | Ep.login | Ep.pin_login
  | Ep.list_sites | Ep.get_site | Ep.list_areas | Ep.get_area | Ep.list_work_centers
  | Ep.get_work_center | Ep.list_parts | Ep.get_part | Ep.list_users | Ep.list_programs
  | Ep.list_orders | Ep.get_order | Ep.list_transfers | Ep.list_revisions
  | Ep.downtime_pareto | Ep.six_big_losses | Ep.downtime_trend | Ep.oee | Ep.oee_by_shift
  | Ep.trace_backward | Ep.trace_forward | Ep.parse_barcode | Ep.list_ncrs | Ep.get_ncr
  | Ep.list_pm_due | Ep.list_maintenance_wos | Ep.get_maintenance_wo | Ep.list_spare_parts
  | Ep.list_procurement_requests | Ep.list_connections | Ep.get_connection
  | Ep.list_sync_log | Ep.send => false
  | _ => true
  end.

End client.

Section serves.
Context {env : Env} {cmms : CmmsEnv} {crypto : Crypto} {senv : SyncEnv} {erp : ErpEnv}.
Context {proc : ProcessEnv} {diag : DiagEnv} {axum : Axum}.
Context {serde : SerdeJson} {agent : AgentEnv} {backend : LlmBackend}.
Context (state : AppState) `{!AxumLaws axum}.

(** The gate of the handlers is the one of the extractor. *)
Lemma role_refused auth r w :
  gate (edge_call_of r).1.1 = ByRole → can_write_master (role auth) = false →
  edge_handle state auth r w =
    (Err (err 403 "forbidden" "role may not modify master data"), w).
Proof.
  intros Hg Hr. assert (master_writer auth w =
    (Err (err 403 "forbidden" "role may not modify master data"), w)) as Hm
    by (unfold master_writer; by rewrite Hr).
  destruct r as [r|r|r]; [|by apply master_refusal|].
  - destruct r; try done; apply bind_stop; by apply bind_stop.
  - destruct r; simpl; unfold ignore, create_connection_endpoint, update_connection_endpoint,
      delete_connection_endpoint; repeat first [done|apply bind_stop].
Qed.

Lemma decoded_endpoint ep c b r : decoded ep c b = Some r → (edge_call_of r).1.1 = ep.
Proof.
  unfold decoded, with_id, with_json. destruct ep; try done; intros H;
    repeat case_match; simplify_eq; try done;
    repeat match goal with H : _ <$> _ = Some _ |- _ => apply fmap_Some in H as (? & _ & ->) end;
    done.
Qed.

Lemma edge_call_decoded ep c rq w u :
  writes ep = true → authenticated state rq w = (Ok u, w) →
  answered (edge_handle state u) w (decoded ep c (http_body rq)) (edge_call state ep c rq w).
Proof.
  intros Hw Ha. pose proof (writer_caller state rq w) as Hwr. rewrite Ha in Hwr.
  destruct (can_write_master (role u)) eqn:Hr.
  - destruct ep; try done; unfold_call; cbn [decoded];
      first [rewrite (bind_step _ _ _ _ _ Ha)|rewrite (bind_step _ _ _ _ _ Hwr)]; serve.
  - destruct (gate ep) eqn:Hg.
    + by destruct ep.
    + destruct ep; try done; unfold_call; cbn [decoded]; rewrite (bind_step _ _ _ _ _ Ha); serve.
    + pose proof (edge_call_gate state ep c rq) as Hk. rewrite Hg in Hk. destruct Hk as [k ->].
      rewrite (bind_stop _ _ _ _ _ Hwr). destruct (decoded ep c _) as [r|] eqn:Er; [|by eexists].
      unfold answered. rewrite role_refused; [by split| |done].
      by rewrite (decoded_endpoint _ _ _ _ Er).
Qed.

Lemma decoded_sent r :
  sendable r = true →
  decoded (edge_call_of r).1.1 (map percent_encode (edge_call_of r).1.2)
    (body_of (edge_call_of r).2) = Some r.
Proof.
  unfold sendable.
  destruct r as [[]|[]|[]]; cbn [edge_call_of floor_call master_call erp_call fst snd map
    decoded body_of sent_fits]; intros [_ Hf]%andb_true_iff;
    unfold with_id, with_json; simpl mapM; rewrite ?percent_decodes; simpl option_bind;
    try done; by rewrite wire_read.
Qed.

(** The listings and reports, and what is served without a database. *)
Lemma reads_extractors rq c :
  reads (authenticated state rq) ∧ reads (writer state rq) ∧ reads (path_id c) ∧
  reads (path_pair c) ∧ reads (time_range rq) ∧ reads (oee_query rq) ∧
  (∀ n, reads (query_text n rq)) ∧ (∀ n, reads (query_field n rq)).
Proof.
  assert (reads (authenticated state rq)) as Ha.
  { intros w. unfold same_db, state_after. pose proof (authenticated_caller state rq w) as H.
    destruct (caller state rq w); [by rewrite H|]. destruct H as [m H]. by rewrite H. }
  assert (reads (writer state rq)) as Hw.
  { intros w. unfold same_db, state_after. rewrite writer_caller. specialize (Ha w).
    unfold same_db, state_after in Ha. destruct (authenticated state rq w) as [[u|e] w']; [|done].
    by destruct (can_write_master _). }
  split_and!; try done; intros; unfold path_id, path_pair, path_params, oee_query, time_range,
    query_time, query_text, query_field; frame.
Qed.

Lemma reads_send u note : reads (send u note).
Proof.
  assert (∀ c t b, reads (ship c t b)) by done.
  unfold send, master_writer, send_diagnostics. cbv zeta. frame.
Qed.

Lemma reads_edge_call ep c rq :
  writes ep = false → ep ≠ Ep.login → ep ≠ Ep.pin_login → reads (edge_call state ep c rq).
Proof.
  destruct (reads_extractors rq c) as (Ha & Hw & Hi & Hp & Ht & Ho & Hq & Hf).
  pose proof reads_send. pose proof @reads_query_limit.
  pose proof @reads_oee_inputs. pose proof @reads_master_writer.
  pose proof @reads_oee_sql.
  intros Hwr Hl Hpl. destruct ep; try done; unfold_call;
  repeat (apply evolves_bind; [typeclasses eauto|solve [eauto 3 with evolves]|intros ?]).
  all: autounfold with reports; unfold get_connection; frame.
  all: match goal with |- evolves _ (get_by_id ?t ?id) => exact (reads_get_by_id t id) end.
Qed.

Lemma edge_call_arity r :
  length (edge_call_of r).1.2 = arity (pattern (snd (api (edge_call_of r).1.1))).
Proof. by destruct r as [[]|[]|[]]. Qed.

Lemma call_writes r : writes (edge_call_of r).1.1 = true.
Proof. by destruct r as [[]|[]|[]]. Qed.

Lemma authenticated_ok rq w u : caller state rq w = Some u → authenticated state rq w = (Ok u, w).
Proof. intros Hc. pose proof (authenticated_caller state rq w) as Ha. by rewrite Hc in Ha. Qed.

(** C8. The way from a client to a handler and back: every request that writes, sent as the
    client library sends it (the method and path of its endpoint, identifiers in the path
    encoded, the rest as JSON), is routed to the handler of that request, read back as what
    was sent, and answered with the handler's outcome, in any state of the server and by
    anyone whose token is valid. *)
Theorem edge_serves_clients authorization r w u :
  sendable r = true → caller state (http_of authorization r) w = Some u →
  served (edge_http state (http_of authorization r) w) (edge_handle state u r w).
Proof.
  intros Hs Hc%authenticated_ok. pose proof (edge_call_arity r) as Hl.
  pose proof (decoded_sent r Hs) as Hd. pose proof (call_writes r) as Hw.
  unfold http_of, sendable in *. destruct (edge_call_of r) as [[ep args] sent]. simpl in *.
  apply andb_true_iff in Hs as [Hargs _]. unfold edge_http. simpl.
  pose proof (edge_serves_api ep) as Hat. destruct (api ep) as [m p]. simpl in *.
  rewrite (serves_at_route _ ep m p _ edge_apart Hat);
    [|by rewrite length_map|by apply encoded_nonempty].
  pose proof (edge_call_decoded ep (map percent_encode args) _ w u Hw Hc) as H. simpl in H.
  by rewrite Hd in H.
Qed.

(** *** What a request can do *)

Lemma login_path m path ep captured :
  route_to Routes.edge_router m path = Found ep captured →
  (ep = Ep.login → path = ["v1"; "auth"; "login"]%string) ∧
  (ep = Ep.pin_login → path = ["v1"; "auth"; "pin-login"]%string).
Proof.
  intros Hd. apply (throughout_found Routes.edge_router (λ p _ ep,
    match ep with
    | Ep.login => bool_decide (p = map Lit ["v1"; "auth"; "login"]%string)
    | Ep.pin_login => bool_decide (p = map Lit ["v1"; "auth"; "pin-login"]%string)
    | _ => true
    end)) in Hd as (p & m' & Hm & Hp & _); [|vm_compute; reflexivity].
  split; intros ->; apply bool_decide_eq_true in Hp as ->; by apply matches_literal in Hm.
Qed.

(** A request with no caller stops at the gate. *)
Lemma no_caller ep c rq w :
  gate ep ≠ Open → caller state rq w = None → ∃ e, edge_call state ep c rq w = (Err e, w).
Proof.
  intros Hg Hc. pose proof (authenticated_caller state rq w) as Ha. rewrite Hc in Ha.
  destruct Ha as [m Ha]. pose proof (writer_caller state rq w) as Hw. rewrite Ha in Hw.
  pose proof (edge_call_gate state ep c rq) as Hk.
  destruct (gate ep); [done|..]; destruct Hk as [k ->]; eexists;
    [by apply (bind_stop _ _ _ _ _ Ha)|by apply (bind_stop _ _ _ _ _ Hw)].
Qed.

(** What the server did is one of the requests of the model, by the request's caller, or
    signing in, or nothing to the database. *)
Definition acted (rq : HttpRequest) (w : World) (a : Result Answer Refusal * World) : Prop :=
  w_db a.2 = w_db w ∨
  (∃ u r, caller state rq w = Some u ∧ served a (edge_handle state u r w)) ∨
  (∃ body, http_path rq = ["v1"; "auth"; "login"]%string ∧
     served a (ignore (login (as_auth state) body) w)) ∨
  (∃ body, http_path rq = ["v1"; "auth"; "pin-login"]%string ∧
     served a (ignore (pin_login (as_auth state) body) w)).

Lemma edge_http_acted rq w : acted rq w (edge_http state rq w).
Proof.
  unfold edge_http. destruct (route_to _ _ _) as [ep c| |] eqn:Hd; [|by left..].
  destruct (writes ep) eqn:Hw.
  - destruct (caller state rq w) as [u|] eqn:Hc.
    + pose proof (edge_call_decoded ep c rq w u Hw (authenticated_ok _ _ _ Hc)) as H.
      destruct (decoded _ _ _) as [r|]; [right; left; by exists u, r|].
      destruct H as [e ->]. by left.
    + assert (gate ep ≠ Open) as Hg by by destruct ep.
      destruct (no_caller ep c rq w Hg Hc) as [e ->]. by left.
  - apply login_path in Hd as [Hl Hp].
    destruct (decide (ep = Ep.login)) as [->|Hl'].
    { unfold_call. edestruct @json_then as [H|[i ->]]; [left; exact H|].
      do 2 right; left. exists i. split; [by apply Hl|by apply answer_with_served]. }
    destruct (decide (ep = Ep.pin_login)) as [->|Hp'].
    { unfold_call. edestruct @json_then as [H|[i ->]]; [left; exact H|].
      do 3 right. exists i. split; [by apply Hp|by apply answer_with_served]. }
    left. by apply (reads_edge_call ep c rq).
Qed.

(** *** What a role may do *)

(** What is changed by the roles that may write master data only: everything the master
    data, the connectors and the order book consist of. *)
Definition administered : list table :=
  [Roles; Users; Sites; Areas; Work_centers; Shifts; Planned_stops; Parts; Routings;
   Routing_ops; Programs; Signal_sources; Downtime_reasons; Scrap_reasons; Outbox;
   Applied_entries; Orgs; Plants; Erp_connections; Erp_sync_log; Copilot_messages].

(** The moves of an order that running it takes, on the shop floor. *)
Definition runs : list (string * string) :=
  [("released", "in_progress"); ("in_progress", "completed")]%string.

(** What a caller who may not write master data can do to that data and to the orders: to
    the former nothing; of the orders at most one moves on, by being started or completed,
    and nothing but its status and its time of update change. *)
Definition unprivileged (w w' : World) : Prop :=
  (∀ t, t ∈ administered → w_db w' t = w_db w t) ∧
  (w_db w' Work_orders = w_db w Work_orders ∨
   ∃ id old status, first_where (by_id Work_orders id) (w_db w Work_orders) = Some old ∧
     (wo_status old, status) ∈ runs ∧
     w_db w' Work_orders =
       update_rows (by_id Work_orders id) (with_status status (w_now w)) (w_db w Work_orders)).

Lemma unprivileged_same w w' : w_db w' = w_db w → unprivileged w w'.
Proof. intros E. unfold unprivileged. rewrite E. auto. Qed.

Lemma complete_wo_runs auth id w :
  w_db (complete_wo auth id w).2 Work_orders = w_db w Work_orders ∨
  ∃ old, first_where (by_id Work_orders id) (w_db w Work_orders) = Some old ∧
    wo_status old = "in_progress"%string ∧
    w_db (complete_wo auth id w).2 Work_orders =
      update_rows (by_id Work_orders id) (with_status "completed" (w_now w)) (w_db w Work_orders).
Proof.
  unfold complete_wo. destruct (transition_wo _ _ _ w) as [[r|e] w'] eqn:E; simpl.
  - apply transition_wo_Ok in E as ((old & cur & Hold & Hp & Hc & _) & E & _). right. exists old.
    split_and!; [done| |done]. apply as_str_parse in Hp as <-. by destruct cur.
  - apply atomic_transition_wo in E. left. by rewrite E.
Qed.

Lemma start_op_runs auth op w :
  w_db (start_op auth op w).2 Work_orders = w_db w Work_orders ∨
  ∃ id old, first_where (by_id Work_orders id) (w_db w Work_orders) = Some old ∧
    wo_status old = "released"%string ∧
    w_db (start_op auth op w).2 Work_orders =
      update_rows (by_id Work_orders id) (with_status "in_progress" (w_now w)) (w_db w Work_orders).
Proof.
  rewrite start_op_split. destruct (start_op_core op w) as [[[o updated]|e] w1] eqn:E.
  2: { apply atomic_start_op_core in E. left. simpl. by rewrite E. }
  apply start_op_core_Ok in E as (_ & _ & _ & Hn & _ & F).
  destruct (start_op_order _ _ _ _ w1) as [[r|e] w2] eqn:E2; simpl.
  - apply start_op_order_Ok in E2 as (_ & (wo & Hwo & ->) & _). rewrite !F, Hn in * by done.
    destruct (String.eqb_spec (wo_status wo) "released"); [right; by eauto|by left].
  - apply atomic_start_op_order in E2. left. rewrite E2. by apply (F Work_orders).
Qed.

Lemma floor_unprivileged auth r w :
  can_write_master (role auth) = false → unprivileged w (handle auth r w).2.
Proof.
  intros Hr. destruct (decide (gate (edge_call_of (OnFloor r)).1.1 = ByRole)) as [Hg|Hg].
  { pose proof (role_refused auth (OnFloor r) w Hg Hr) as E. simpl in E. rewrite E.
    by apply unprivileged_same. }
  pose proof (handle_within auth r w) as F. unfold outside, state_after in F.
  split.
  - intros t Ht. apply F. clear F. intros Hf. destruct r; try (by destruct Hg);
      repeat (apply elem_of_cons in Hf as [->|Hf]; [revert Ht; not_in_tables|]);
      by apply elem_of_nil in Hf.
  - destruct (decide (Work_orders ∈ footprint r)) as [Hin|Hin]; [|left; by apply F].
    destruct r; try (by destruct Hg); try (exfalso; revert Hin; not_in_tables); clear Hin F;
      cbn [handle]; rewrite ignore_state.
    + destruct (start_op_runs auth op_id w) as [E|(id & old & H1 & H2 & E)]; [by left|].
      right. exists id, old, "in_progress"%string. rewrite H2. split_and!; [done|left|done].
    + destruct (complete_wo_runs auth id w) as [E|(old & H1 & H2 & E)]; [by left|].
      right. exists id, old, "completed"%string. rewrite H2. split_and!; [done|right; left|done].
Qed.

Lemma edge_unprivileged auth r w :
  can_write_master (role auth) = false → unprivileged w (edge_handle state auth r w).2.
Proof.
  intros Hr. destruct r as [r|r|r]; [by apply floor_unprivileged|..];
    (rewrite role_refused by (by destruct r); by apply unprivileged_same).
Qed.

(** C7. Who may do what, over HTTP. Below [/v1], except for the two ways to sign in, a
    request with no valid token is answered 401 (or 404 or 405 where there is no such
    endpoint) and does nothing: not only the database but the whole state of the server is as
    it was. A caller whose role may not write master data is answered 403 (or 404 or 405), and
    nothing happens, to every request that is not a read below [/v1/master], [/v1/orders],
    [/v1/erp] and [/v1/diagnostics]. Whatever else such a caller sends there, to whatever path
    and with whatever method, the master data, the users, the connectors, the sync tables and
    the outbox stay as they are, no order is created, released, cancelled or closed, and at
    most one is moved on by being started or completed on the shop floor, in its status and
    time of update only. *)
Theorem edge_admission rq w s rest :
  http_path rq = ("v1" :: s :: rest)%string → s ≠ "auth"%string →
  match caller state rq w with
  | None => ∃ r, edge_http state rq w = (Err r, w) ∧
      (r = Bare 404 ∨ r = Bare 405 ∨ ∃ m, r = Problem (err 401 "unauthorized" m))
  | Some u => can_write_master (role u) = false →
      unprivileged w (edge_http state rq w).2 ∧
      (by_role s = true → http_method rq ≠ GET → http_method rq ≠ HEAD →
       ∃ r, edge_http state rq w = (Err r, w) ∧
       (r = Bare 404 ∨ r = Bare 405 ∨
        r = Problem (err 403 "forbidden" "role may not modify master data")))
  end.
Proof.
  intros Hp Hs. pose proof (edge_admits state rq w s rest Hp Hs) as H.
  pose proof (edge_http_acted rq w) as Ha. unfold acted in Ha.
  destruct (caller state rq w) as [u|]; [|exact H]. intros Hr. split; [|by eauto].
  destruct Ha as [E|[(u' & r & [= <-] & [E _])|[(b & E & _)|(b & E & _)]]].
  - by apply unprivileged_same.
  - rewrite E. by apply edge_unprivileged.
  - rewrite Hp in E. by injection E as -> _.
  - rewrite Hp in E. by injection E as -> _.
Qed.

(** Requests over HTTP, one after the other; between them the clock and the connection may
    change. *)
Inductive http_step : relation World :=
  | http_step_request rq w w1 : w_db w1 = w_db w → http_step w (edge_http state rq w1).2.

Definition http_all (rqs : list HttpRequest) (w : World) : World :=
  foldl (λ w rq, (edge_http state rq w).2) w rqs.

Lemma http_all_reachable rqs w : rtc http_step w (http_all rqs w).
Proof.
  revert w. induction rqs as [|rq rqs IH]; intros w; simpl; [reflexivity|].
  eapply rtc_l; [by apply (http_step_request rq w w)|apply IH].
Qed.

(** Only the database matters to what can be reached. *)
Lemma any_reach_same w1 w2 v :
  w_db w1 = w_db w2 → rtc any_step w2 v → ∃ v', rtc any_step w1 v' ∧ w_db v' = w_db v.
Proof.
  intros E H. destruct H as [|w2 w3 v H23 H3]; [by exists w1|]. destruct H23 as [r w2 u Eu].
  exists v. split; [|done]. eapply rtc_l; [|exact H3]. apply any_step_request. congruence.
Qed.

(** One request over HTTP is at most one of the model's. *)
Lemma http_any_step w w' : http_step w w' → ∃ v, rtc any_step w v ∧ w_db v = w_db w'.
Proof.
  intros [rq u u1 E]. pose proof (edge_http_acted rq u1) as Ha.
  assert (∀ r, (edge_http state rq u1).2 = (serve_any r u1).2 →
    ∃ v, rtc any_step u v ∧ w_db v = w_db (edge_http state rq u1).2) as Hone.
  { intros r Hr. eexists. split; [apply rtc_once, (any_step_request r u u1 E)|]. by rewrite Hr. }
  destruct Ha as [H|[(by_ & r & _ & H & _)|[(body & _ & H & _)|(body & _ & H & _)]]].
  - exists u. split; [reflexivity|]. by rewrite H.
  - destruct r as [r|r|r];
      [apply (Hone (Floor by_ r))|apply (Hone (Administer by_ r))
      |apply (Hone (Connect (as_erp_key state) by_ r))]; exact H.
  - apply (Hone (SignIn (as_auth state) body)). exact H.
  - apply (Hone (SignInPin (as_auth state) body)). exact H.
Qed.

Lemma http_reaches w w' : rtc http_step w w' → ∃ v, rtc any_step w v ∧ w_db v = w_db w'.
Proof.
  induction 1 as [w|w w1 w' H1 _ (v & Hv & E)]; [by exists w|].
  destruct (http_any_step _ _ H1) as (v1 & Hv1 & E1).
  destruct (any_reach_same v1 w1 v E1 Hv) as (v' & Hv' & E').
  exists v'. split; [by etransitivity|congruence].
Qed.

(** C10. What arrives at the edge's port, whatever its method, path, query, headers and body
    are, leaves the database as it was, or does what the handler of one of the requests that
    write does on behalf of the user its token names, or is a sign-in at one of the two
    endpoints for that. So any sequence of such requests takes the database only to states
    the requests of the model take it to, and what is proved of those holds behind the
    port. *)
Theorem http_refines :
  (∀ rq w, acted rq w (edge_http state rq w)) ∧
  (∀ w w', rtc http_step w w' → ∃ v, rtc any_step w v ∧ w_db v = w_db w').
Proof. split; [exact edge_http_acted|exact http_reaches]. Qed.
End serves.

(** ** The properties on concrete requests *)

#[local] Existing Instances sample_env sample_cmms sample_crypto sample_sync sample_erp.
#[local] Existing Instances sample_process sample_diag sample_serde sample_agent.
#[local] Existing Instances sample_backend sample_axum.

#[local] Existing Instances sample_axum_laws.

Definition sample_state : AppState := mkAppState true sample_auth DisconnectedDaemon sample_key.

(** A header with a token for a user and a role. *)
Definition bearing (user role : string) : option string :=
  String.append "Bearer " <$> jwt_encode "s3cret" (mkClaims user role 0 3600).

Definition new_site (authorization : option string) (path : list string) : HttpRequest :=
  mkHttpRequest POST path [] authorization
    (JsonBody (JObj [("name", JStr "Annex"); ("code", JStr "S9")]%string)) None.

Definition at_sites : list string := ["v1"; "master"; "sites"]%string.

(** An operator, and nobody in particular, ask for a new site. *)
Lemma edge_admission_witness :
  (∃ r, edge_http sample_state (new_site (bearing "u7" "Operator") at_sites) yard = (Err r, yard)) ∧
  (∃ r, edge_http sample_state (new_site None at_sites) yard = (Err r, yard)) ∧
  is_ok (edge_http sample_state (new_site (bearing "u1" "Admin") at_sites) yard).1 = true.
Proof.
  assert ("master" ≠ "auth")%string as Hs by discriminate.
  pose proof (edge_admission sample_state (new_site (bearing "u7" "Operator") at_sites) yard
    "master" ["sites"]%string eq_refl Hs) as H1.
  pose proof (edge_admission sample_state (new_site None at_sites) yard
    "master" ["sites"]%string eq_refl Hs) as H2.
  split; [|split].
  - assert (caller sample_state (new_site (bearing "u7" "Operator") at_sites) yard
      = Some (mkAuthUser "u7" "Operator")) as E by (vm_compute; reflexivity).
    rewrite E in H1. destruct (proj2 (H1 eq_refl) eq_refl ltac:(discriminate) ltac:(discriminate))
      as [r [H _]]. exists r. exact H.
  - destruct H2 as [r [H _]]. exists r. exact H.
  - vm_compute. reflexivity.
Defined.

Definition annex : edge_request := InMaster (UpdateSite "s2" (mkSiteInput "S2" "Annex" None)).

Definition renaming : HttpRequest := http_of (bearing "u1" "Admin") annex.

(** A site is renamed by its identifier. *)
Lemma edge_serves_clients_witness :
  http_path renaming = ["v1"; "master"; "sites"; "s2"]%string ∧
  served (edge_http sample_state renaming yard)
    (edge_handle sample_state admin annex yard) ∧
  map si_name (w_db (edge_http sample_state renaming yard).2 Sites) ≠
  map si_name (w_db yard Sites).
Proof.
  split; [vm_compute; reflexivity|]. split.
  - apply (edge_serves_clients sample_state (bearing "u1" "Admin") annex yard admin);
      vm_compute; reflexivity.
  - vm_compute. discriminate.
Defined.

(** A stranger's attempt, the administrator's, a request to nowhere and a sign-in. *)
Definition traffic : list HttpRequest :=
  [new_site None at_sites; new_site (bearing "u1" "Admin") at_sites;
   new_site (bearing "u1" "Admin") ["v1"; "nowhere"]%string; renaming;
   mkHttpRequest POST ["v1"; "auth"; "login"]%string [] None
     (JsonBody (JArr [JStr "bob"; JStr "hunter2"]%string)) None].

Lemma http_refines_witness :
  ∃ v, rtc any_step yard v ∧ w_db v = w_db (http_all sample_state traffic yard) ∧
    map si_code (w_db v Sites) = ["S1"; "S2"; "S9"]%string.
Proof.
  destruct (proj2 (http_refines sample_state) yard _ (http_all_reachable sample_state traffic yard))
    as (v & Hv & E).
  exists v. split; [exact Hv|]. split; [exact E|]. rewrite E. vm_compute. reflexivity.
Defined.

(** The list of users is for those who may write master data. *)
Example users_listed_by_role :
  (edge_http sample_state (mkHttpRequest GET ["v1"; "master"; "users"]%string []
     (bearing "u7" "Operator") (BadBody 415) None) yard).1 =
  Err (Problem (err 403 "forbidden" "role may not modify master data")).
Proof. vm_compute. reflexivity. Qed.
