(* ===== verification/CloudHttp.v ===== *)
(** * The cloud over HTTP

    The cloud server as plants, administrators and agents see it: the route tables of
    [mes-cloud], the extractors of each handler, and the answer. Whom a request comes from is
    checked by the handlers, once the path, the query and the body have been read. *)

From S2P Require Import Prelude Schema Sql Integrity Moves Ingest Orders Metrics Dnc Sync.
From S2P Require Import Protocol Exec Trace Qms Cmms Auth Master Mapping Erp Process Diagnostics.
From S2P Require Import Agent System Server Wire Reply Routing Extract Sample.

(** ** Routes *)

Module CloudEp.
Inductive t :=
  (** [http.rs] *)
  | healthz | readyz | openapi_json
  (** [sync.rs] *)
  | create_org | enroll_plant | list_plants | remote_work_order | push | pull | ack
  (** [agent.rs] *)
  | copilot | mcp.
End CloudEp.

#[global] Instance CloudEp_eq_dec : EqDecision CloudEp.t.
Proof. solve_decision. Defined.

Module CloudRoutes.
Import CloudEp.

Definition sync_routes : Router CloudEp.t := [
  ("/orgs", [(POST, create_org)]);
  ("/orgs/:id/plants", [(POST, enroll_plant)]);
  ("/plants", [(GET, list_plants)]);
  ("/plants/:id/work-orders", [(POST, remote_work_order)]);
  ("/push", [(POST, push)]);
  ("/pull", [(GET, pull)]);
  ("/ack", [(POST, ack)])]%string.

Definition agent_routes : Router CloudEp.t := [
  ("/v1/copilot", [(POST, copilot)]);
  ("/mcp", [(POST, mcp)])]%string.

(** [router]. *)
Definition cloud_router : Router CloudEp.t :=
  [("/healthz", [(GET, healthz)]);
   ("/readyz", [(GET, readyz)]);
   ("/api-doc/openapi.json", [(GET, openapi_json)])]%string ++
  nest "/v1/sync" sync_routes ++ agent_routes.
End CloudRoutes.

Lemma cloud_apart : apart (map (λ x, pattern (fst x)) CloudRoutes.cloud_router) = true.
Proof. vm_compute. reflexivity. Qed.

(** The API as its clients know it. *)
Definition cloud_api (ep : CloudEp.t) : Method * string :=
  match ep with
  | CloudEp.healthz => (GET, "/healthz")
  | CloudEp.readyz => (GET, "/readyz")
  | CloudEp.openapi_json => (GET, "/api-doc/openapi.json")
  | CloudEp.create_org => (POST, "/v1/sync/orgs")
  | CloudEp.enroll_plant => (POST, "/v1/sync/orgs/:id/plants")
  | CloudEp.list_plants => (GET, "/v1/sync/plants")
  | CloudEp.remote_work_order => (POST, "/v1/sync/plants/:id/work-orders")
  | CloudEp.push => (POST, "/v1/sync/push")
  | CloudEp.pull => (GET, "/v1/sync/pull")
  | CloudEp.ack => (POST, "/v1/sync/ack")
  | CloudEp.copilot => (POST, "/v1/copilot")
  | CloudEp.mcp => (POST, "/mcp")
  end%string.

Lemma cloud_serves_api ep : serves_at CloudRoutes.cloud_router ep (cloud_api ep) = true.
Proof. destruct ep; vm_compute; reflexivity. Qed.

(** ** Boot *)

(** [AppState] of the cloud. *)
Record CloudState := mkCloudState {
  cs_pool : bool; cs_admin_token : option string; cs_backend : LlmBackend
}.

Section boot.
Context {env : Env} {senv : SyncEnv} {serde : SerdeJson} {proc : ProcessEnv} {agent : AgentEnv}.
Context {dbenv : DatabaseEnv}.

(** [run] of the cloud up to the listener. *)
Definition cloud_boot : M World BootError (string * CloudState) :=
  let cfg := cloud_config_from_env in
  pool ← open_pool (cc_database_url cfg) (cc_db_max_connections cfg);
  mret (cc_bind cfg, mkCloudState pool (cc_admin_token cfg) backend_from_env).

(** What a booted cloud serves: a database that is connected and migrated when one is
    configured, none otherwise; provisioning guarded by the configured token and open when
    there is none; the copilot on the model only with an API key. *)
Lemma cloud_boot_outcome w :
  match cloud_boot w with
  | (Ok (_, state), w') =>
      w' = w ∧ cs_pool state = bool_decide (is_Some (nonempty (env_var "DATABASE_URL"))) ∧
      (∀ url, nonempty (env_var "DATABASE_URL") = Some url → run_migrations url = None) ∧
      cs_admin_token state = nonempty (env_var "MES_CLOUD_ADMIN_TOKEN") ∧
      (nonempty (env_var "ANTHROPIC_API_KEY") = None → cs_backend state = NullBackend)
  | (Err e, w') =>
      w' = w ∧ ∃ url, nonempty (env_var "DATABASE_URL") = Some url ∧
        ((∃ m n, connect url n = Some m ∧ e = ConnectError m) ∨
         (∃ m, run_migrations url = Some m ∧ e = MigrateError m))
  end.
Proof.
  unfold cloud_boot, cloud_config_from_env, open_pool, backend_from_env, throw, mbind, M_bind,
    mret, M_ret. simpl.
  destruct (nonempty (env_var "DATABASE_URL")) as [url|]; simpl;
    [destruct (connect url _) as [m|] eqn:Ec; [by eauto 10|];
     destruct (run_migrations url) as [m|] eqn:Em; [by eauto 10|]|];
    destruct (nonempty (env_var "ANTHROPIC_API_KEY")); naive_solver.
Qed.
End boot.

(** ** Handlers *)

Section cloud.
Context {env : Env} {senv : SyncEnv} {proc : ProcessEnv} {axum : Axum}.
Context {serde : SerdeJson} {agent : AgentEnv} {backend : LlmBackend}.
Context (admin_token : option string).

Abbreviation Http := (M World Refusal).

(** [PullQuery]. *)
Definition query_limit_field (rq : HttpRequest) : Http (option Z) :=
  v ← query_field "limit" rq;
  match v with
  | None => mret None
  | Some s => n ← ok_or (parse_i64 s) (Bare 400); mret (Some n)
  end.

(** What each endpoint extracts, in order, and the handler it runs, module by module. *)
Definition probe_handlers (ep : CloudEp.t) (captured : list string) (rq : HttpRequest) :
    option (Http Answer) :=
  match ep with
  | CloudEp.healthz => Some (answer 200 (mret (healthz CLOUD_SERVICE)))
  | CloudEp.readyz =>
      Some ('(status, body) ← readyz CLOUD_SERVICE; answer status (mret body))
  | CloudEp.openapi_json => Some (answer 200 (mret openapi))
  | _ => None
  end.

Definition sync_handlers (ep : CloudEp.t) (captured : list string) (rq : HttpRequest) :
    option (Http Answer) :=
  let authorization := http_authorization rq in
  match ep with
  | CloudEp.create_org => Some (
      i ← json rq; answer 201 (post_org admin_token authorization (ori_code i) (ori_name i)))
  | CloudEp.enroll_plant => Some (
      org_id ← path_id captured; i ← json rq;
      answer_as (plant_enrollment org_id (pli_code i) (pli_name i)) 201
        (post_plant admin_token authorization org_id (pli_code i) (pli_name i)))
  | CloudEp.list_plants => Some (answer 200 get_plants)
  | CloudEp.remote_work_order => Some (
      plant_id ← path_id captured; i ← json rq;
      answer_as order_answer 201
        (remote_work_order admin_token authorization plant_id (rwi_wo_number i)
        (rwi_part_id i) (rwi_qty_ordered i) (rwi_priority i)))
  | CloudEp.push => Some (
      i ← json rq; answer_as push_answer 200 (push authorization (pq_plant_id i) (pq_entries i)))
  | CloudEp.pull => Some (
      plant_id ← query_text "plant_id" rq; limit ← query_limit_field rq;
      answer_as pull_answer 200 (pull authorization plant_id limit))
  | CloudEp.ack => Some (
      i ← json rq; answer_empty 204 (ack authorization (aq_plant_id i) (aq_ids i)))
  | _ => None
  end.

Definition agent_handlers (ep : CloudEp.t) (captured : list string) (rq : HttpRequest) :
    option (Http Answer) :=
  let authorization := http_authorization rq in
  match ep with
  | CloudEp.copilot => Some (
      i ← json rq; answer 200 (copilot authorization (cq_message i)))
  | CloudEp.mcp => Some (v ← json rq; answer 200 (mcp authorization v))
  | _ => None
  end.

Definition cloud_handlers :
    list (CloudEp.t → list string → HttpRequest → option (Http Answer)) :=
  [probe_handlers; sync_handlers; agent_handlers].

(** The handler of an endpoint; there is one ([cloud_call_total]). *)
Definition cloud_call (ep : CloudEp.t) (captured : list string) (rq : HttpRequest) :
    Http Answer :=
  default (throw (Bare 404)) (head (omap (λ f, f ep captured rq) cloud_handlers)).

(** A request as it arrives. *)
Definition cloud_http (rq : HttpRequest) : Http Answer :=
  match route_to CloudRoutes.cloud_router (http_method rq) (http_path rq) with
  | Found ep captured => cloud_call ep captured rq
  | NotAllowed => throw (Bare 405)
  | Nowhere => throw (Bare 404)
  end.

(** ** Clients *)

(** The endpoint of a request, the segments of the path that are filled in, and the body. *)
Definition cloud_call_of (r : cloud_request) : CloudEp.t * list string * Sent :=
  match r with
  | PostOrg code name => (CloudEp.create_org, [], Send (mkOrgInput code name))
  | PostPlant org code name => (CloudEp.enroll_plant, [org], Send (mkPlantInput code name))
  | RemoteWorkOrder plant number part qty priority =>
      (CloudEp.remote_work_order, [plant],
       Send (mkRemoteWorkOrderInput number part qty priority))
  | Push plant entries => (CloudEp.push, [], Send (mkPushRequest plant entries))
  | Ack plant ids => (CloudEp.ack, [], Send (mkAckRequest plant ids))
  | Ask message => (CloudEp.copilot, [], Send (mkCopilotRequest message))
  end.

Definition cloud_http_of (authorization : option string) (r : cloud_request) : HttpRequest :=
  let '(ep, args, sent) := cloud_call_of r in
  mkHttpRequest (fst (cloud_api ep)) (fill (pattern (snd (cloud_api ep)))
    (map percent_encode args)) [] authorization (body_of sent) None.

Definition cloud_sendable (r : cloud_request) : bool :=
  let '(_, args, sent) := cloud_call_of r in
  forallb (λ x, negb (String.eqb x "")) args && sent_fits sent.

(** The request a call makes. *)
Definition cloud_decoded (ep : CloudEp.t) (c : list string) (b : Body) : option cloud_request :=
  match ep with
  | CloudEp.create_org => with_json b (λ i, PostOrg (ori_code i) (ori_name i))
  | CloudEp.enroll_plant =>
      with_id c (λ id, with_json b (λ i, PostPlant id (pli_code i) (pli_name i)))
  | CloudEp.remote_work_order =>
      with_id c (λ id, with_json b (λ i,
        RemoteWorkOrder id (rwi_wo_number i) (rwi_part_id i) (rwi_qty_ordered i)
          (rwi_priority i)))
  | CloudEp.push => with_json b (λ i, Push (pq_plant_id i) (pq_entries i))
  | CloudEp.ack => with_json b (λ i, Ack (aq_plant_id i) (aq_ids i))
  | CloudEp.copilot => with_json b (λ i, Ask (cq_message i))
  | _ => None
  end.

Definition cloud_writes (ep : CloudEp.t) : bool :=
  match ep with
  | CloudEp.healthz | CloudEp.readyz | CloudEp.openapi_json | CloudEp.list_plants
  | CloudEp.pull | CloudEp.mcp => false
  | _ => true
  end.

(** ** Lemmas *)

Lemma cloud_call_total ep captured rq :
  omap (λ f, f ep captured rq) cloud_handlers = [cloud_call ep captured rq].
Proof. by destruct ep. Qed.

(** Computes the handler of a given endpoint. *)
Ltac unfold_cloud_call :=
  cbn [cloud_call cloud_handlers head omap list_omap default from_option option_bind id
       probe_handlers sync_handlers agent_handlers].

Lemma cloud_call_decoded ep c rq w :
  cloud_writes ep = true →
  answered (cloud_handle admin_token (http_authorization rq)) w
    (cloud_decoded ep c (http_body rq)) (cloud_call ep c rq w).
Proof. destruct ep; try done; intros _; unfold_cloud_call; cbn [cloud_decoded]; serve. Qed.

Lemma reads_require_plant authorization plant : reads (require_plant authorization plant).
Proof. unfold require_plant, verify_plant_token. evolve. Qed.

Lemma reads_cloud_call ep c rq :
  cloud_writes ep = false → reads (cloud_call ep c rq).
Proof.
  pose proof reads_require_plant. pose proof reads_resolve_scope.
  pose proof reads_answer_request. pose proof @reads_query_limit.
  intros Hw. destruct ep; try done; unfold_cloud_call;
    unfold readyz, is_ready, answer, answer_as, answer_empty, answer_with, get_plants, query_text, query_limit_field, query_field, json,
      pull, mcp, pull_for_plant, list_plants; frame.
Qed.

Lemma cloud_acted `{!AxumLaws axum} rq w :
  w_db (cloud_http rq w).2 = w_db w ∨
  ∃ r, served (cloud_http rq w) (cloud_handle admin_token (http_authorization rq) r w).
Proof.
  unfold cloud_http. destruct (route_to _ _ _) as [ep c| |] eqn:Hd; [|by left..].
  destruct (cloud_writes ep) eqn:Hw; [|left; by apply (reads_cloud_call ep c rq Hw)].
  pose proof (cloud_call_decoded ep c rq w Hw) as H.
  destruct (cloud_decoded _ _ _) as [r|]; [right; by exists r|]. destruct H as [e ->]. by left.
Qed.

Lemma cloud_decoded_sent `{!AxumLaws axum} r :
  cloud_sendable r = true →
  cloud_decoded (cloud_call_of r).1.1 (map percent_encode (cloud_call_of r).1.2)
    (body_of (cloud_call_of r).2) = Some r.
Proof.
  unfold cloud_sendable.
  destruct r; cbn [cloud_call_of fst snd map cloud_decoded body_of sent_fits];
    intros [_ Hf]%andb_true_iff; unfold with_id, with_json; simpl mapM;
    rewrite ?percent_decodes; simpl option_bind; by rewrite wire_read.
Qed.

Lemma cloud_call_arity r :
  length (cloud_call_of r).1.2 = arity (pattern (snd (cloud_api (cloud_call_of r).1.1))).
Proof. by destruct r. Qed.

Lemma cloud_call_writes r : cloud_writes (cloud_call_of r).1.1 = true.
Proof. by destruct r. Qed.

(** C11. The cloud behind its port: a request that writes, sent as a client sends it, is
    routed to its handler, read back as what was sent and answered with the handler's
    outcome; and whatever else arrives leaves the database as it was, or does what the
    handler of one of those requests does with the same authorization. *)
Theorem cloud_http_refines `{!AxumLaws axum} :
  (∀ authorization r w, cloud_sendable r = true →
     served (cloud_http (cloud_http_of authorization r) w)
       (cloud_handle admin_token authorization r w)) ∧
  (∀ rq w, w_db (cloud_http rq w).2 = w_db w ∨
     ∃ r, served (cloud_http rq w) (cloud_handle admin_token (http_authorization rq) r w)).
Proof.
  split; [|apply cloud_acted]. intros authorization r w Hs.
  pose proof (cloud_call_arity r) as Hl. pose proof (cloud_decoded_sent r Hs) as Hd.
  pose proof (cloud_call_writes r) as Hw. unfold cloud_http_of, cloud_sendable in *.
  destruct (cloud_call_of r) as [[ep args] sent]. simpl in *.
  apply andb_true_iff in Hs as [Hargs _]. unfold cloud_http. simpl.
  pose proof (cloud_serves_api ep) as Hat. destruct (cloud_api ep) as [m p]. simpl in *.
  rewrite (serves_at_route _ ep m p _ cloud_apart Hat);
    [|by rewrite length_map|by apply encoded_nonempty].
  pose proof (cloud_call_decoded ep (map percent_encode args) (mkHttpRequest m
    (fill (pattern p) (map percent_encode args)) [] authorization (body_of sent) None) w Hw) as H.
  simpl in H. by rewrite Hd in H.
Qed.

(** *** Strangers *)

(** A plant was enrolled with the token. *)
Definition enrolled_token (authorization : option string) (db : Db) : Prop :=
  ∃ token row, bearer authorization = Some token ∧ row ∈ db Plants ∧
    pn_enrollment_token_hash row = Some (hash_token token).

(** The program ends in an error and leaves the database alone. *)
Definition refused {E A} (m : M World E A) (w : World) : Prop :=
  ∃ e w', m w = (Err e, w') ∧ w_db w' = w_db w.

Lemma refused_bind {E A B} (m : M World E A) (k : A → M World E B) w :
  refused m w → refused (m ≫= k) w.
Proof. intros (e & w' & H & Hdb). exists e, w'. by rewrite (bind_stop _ _ _ _ _ H). Qed.

(** Extractors only look at the request. *)
Lemma refused_after {E A B} (m : M World E A) (k : A → M World E B) w :
  (m w).2 = w → (∀ a, refused (k a) w) → refused (m ≫= k) w.
Proof.
  intros Hm Hk. unfold refused, mbind, M_bind. destruct (m w) as [[a|e] w']; simpl in Hm; subst.
  - apply Hk.
  - by exists e, w.
Qed.

Lemma refused_answer {A} (form : A → option Json) status (m : M World ApiErr A) w :
  refused m w → refused (answer_with form status m) w.
Proof.
  intros (e & w' & H & Hdb). apply refused_bind. exists (Problem e), w'. unfold map_err.
  by rewrite H.
Qed.

Lemma json_keeps {A} `{!Wire A} rq w : (json (A := A) rq w).2 = w.
Proof. unfold json. destruct (http_body rq); [done|]. by destruct (of_json _). Qed.

Lemma path_id_keeps c w : (path_id c w).2 = w.
Proof.
  unfold path_id, path_params, mbind, M_bind.
  by destruct (mapM percent_decode c) as [[|x [|]]|].
Qed.

Lemma query_keeps name rq w :
  (query_field name rq w).2 = w ∧ (query_text name rq w).2 = w ∧ (query_limit_field rq w).2 = w.
Proof.
  assert (∀ n, (query_field n rq w).2 = w) as Hf
    by (intros n; unfold query_field; by repeat case_match).
  split; [done|]. unfold query_text, query_limit_field, mbind, M_bind. split.
  - specialize (Hf name). destruct (query_field name rq w) as [[[v|]|] w']; simpl in *; by subst.
  - specialize (Hf "limit"%string). destruct (query_field "limit" rq w) as [[[v|]|] w'];
      simpl in *; subst; try done. by destruct (parse_i64 v).
Qed.

Lemma require_admin_refuses expected authorization w :
  admin_token = Some expected → bearer authorization ≠ Some expected →
  refused (require_admin admin_token authorization) w.
Proof.
  intros -> H. unfold require_admin. rewrite bool_decide_eq_false_2 by done. by eexists _, w.
Qed.

Lemma require_plant_refuses authorization plant w :
  ¬ enrolled_token authorization (w_db w) → refused (require_plant authorization plant) w.
Proof.
  intros Hn. pose proof (reads_require_plant authorization plant w) as Hr.
  unfold same_db, state_after in Hr. unfold refused.
  destruct (require_plant authorization plant w) as [[u|e] w'] eqn:E; [|by exists e, w'].
  apply require_plant_Ok in E as (_ & _ & token & row & Ht & Hin & _ & Hh).
  destruct Hn. by exists token, row.
Qed.

Lemma resolve_scope_refuses authorization w :
  ¬ enrolled_token authorization (w_db w) → refused (resolve_scope authorization) w.
Proof.
  intros Hn. pose proof (reads_resolve_scope authorization w) as Hr.
  unfold same_db, state_after in Hr. unfold refused.
  destruct (resolve_scope authorization w) as [[u|e] w'] eqn:E; [|by exists e, w'].
  destruct Hn. unfold resolve_scope, resolve_tenant_by_token in E. minv.
  destruct (head _) as [p|] eqn:Ep; [|by minv].
  apply (first_where_Some (λ p, bool_decide (pn_enrollment_token_hash p = Some (hash_token _))))
    in Ep as [Hh%bool_decide_eq_true Hin].
  eexists _, p. eauto.
Qed.

(** The endpoints open to all: the probes, the description of the API, the list of plants. *)
Definition public_paths : list (list string) :=
  [["healthz"]; ["readyz"]; ["api-doc"; "openapi.json"]; ["v1"; "sync"; "plants"]]%string.

Lemma public_found `{!AxumLaws axum} m path ep c :
  route_to CloudRoutes.cloud_router m path = Found ep c → path ∉ public_paths →
  ep ≠ CloudEp.healthz ∧ ep ≠ CloudEp.readyz ∧ ep ≠ CloudEp.openapi_json ∧
  ep ≠ CloudEp.list_plants.
Proof.
  intros Hd Hpub. apply (throughout_found CloudRoutes.cloud_router (λ p _ ep,
    match ep with
    | CloudEp.healthz | CloudEp.readyz | CloudEp.openapi_json | CloudEp.list_plants =>
        existsb (λ l, bool_decide (p = map Lit l)) public_paths
    | _ => true
    end)) in Hd as (p & m' & Hm & Hp & _); [|vm_compute; reflexivity].
  assert (existsb (λ l, bool_decide (p = map Lit l)) public_paths = true → False) as Hno.
  { intros (l & Hl & ->%bool_decide_eq_true)%existsb_exists. apply matches_literal in Hm as ->.
    by apply Hpub, list_elem_of_In. }
  split_and!; intros ->; by apply Hno.
Qed.

(** C12. Whom the cloud listens to: when an administrator's token is set, a request that
    brings neither it nor the token of an enrolled plant is refused everywhere but at the
    probes, the description of the API and the list of plants, and changes nothing
    anywhere. *)
Theorem cloud_admission `{!AxumLaws axum} expected rq w :
  admin_token = Some expected → bearer (http_authorization rq) ≠ Some expected →
  ¬ enrolled_token (http_authorization rq) (w_db w) →
  w_db (cloud_http rq w).2 = w_db w ∧
  (http_path rq ∉ public_paths → is_ok (cloud_http rq w).1 = false).
Proof.
  intros Hadm Hb Hn.
  assert (∀ ep c, ep ≠ CloudEp.healthz ∧ ep ≠ CloudEp.readyz ∧ ep ≠ CloudEp.openapi_json ∧
    ep ≠ CloudEp.list_plants → refused (cloud_call ep c rq) w) as Href.
  { intros ep c (H1 & H2 & H3 & H4).
    pose proof (λ p, require_plant_refuses _ p w Hn). pose proof (resolve_scope_refuses _ _ Hn).
    pose proof (require_admin_refuses _ _ w Hadm Hb).
    destruct ep; try done; unfold_cloud_call;
      repeat (apply refused_after; [first [apply json_keeps|apply path_id_keeps
        |by apply query_keeps|by apply (query_keeps "")]|intros ?]);
      apply refused_answer, refused_bind; auto. }
  unfold cloud_http. destruct (route_to _ _ _) as [ep c| |] eqn:Hd; [|done..].
  split.
  - destruct (cloud_writes ep) eqn:Hw; [|by apply (reads_cloud_call ep c rq Hw)].
    destruct (Href ep c) as (e & w' & -> & Hdb); [by destruct ep|done].
  - intros Hpub. apply public_found in Hd; [|done].
    by destruct (Href ep c Hd) as (e & w' & -> & _).
Qed.
End cloud.

(** ** The properties on a concrete cloud *)

#[local] Existing Instances sample_env sample_sync sample_process sample_serde sample_agent.
#[local] Existing Instances sample_backend sample_axum sample_axum_laws.

Definition plant_a : option string := Some "Bearer tokA"%string.

Definition a_push : cloud_request := Push "pA" good_batch.

Definition push_http : HttpRequest := cloud_http_of plant_a a_push.

(** A push arrives, and something that is none. *)
Lemma cloud_http_refines_witness :
  http_path push_http = ["v1"; "sync"; "push"]%string ∧
  served (cloud_http None push_http cloud) (cloud_handle None plant_a a_push cloud) ∧
  is_ok (cloud_http None push_http cloud).1 = true ∧
  is_ok (cloud_http None (mkHttpRequest GET ["v1"; "sync"; "push"]%string [] plant_a
    (BadBody 415) None) cloud).1 = false.
Proof.
  split; [vm_compute; reflexivity|]. split; [|split; vm_compute; reflexivity].
  exact (proj1 (cloud_http_refines None) plant_a a_push cloud eq_refl).
Defined.

(** The same push with a token no plant was given; the list of plants is there for all. *)
Definition forged (m : Method) (path : list string) : HttpRequest :=
  mkHttpRequest m path [] (Some "Bearer tokC"%string) (http_body push_http) None.

Lemma cloud_admission_witness :
  is_ok (cloud_http (Some "root"%string) (forged POST ["v1"; "sync"; "push"]%string) cloud).1
    = false ∧
  is_ok (cloud_http (Some "root"%string) (forged GET ["v1"; "sync"; "plants"]%string) cloud).1
    = true.
Proof.
  split; [|vm_compute; reflexivity].
  refine (proj2 (cloud_admission (Some "root"%string) "root"
    (forged POST ["v1"; "sync"; "push"]%string) cloud eq_refl _ _) _).
  - vm_compute. discriminate.
  - intros (token & row & Ht & Hin & Hh).
    assert (token = "tokC"%string) as -> by (vm_compute in Ht; congruence).
    vm_compute in Hin. apply elem_of_cons in Hin as [->|Hin]; [vm_compute in Hh; discriminate|].
    apply elem_of_cons in Hin as [->|Hin]; [vm_compute in Hh; discriminate|].
    by apply elem_of_nil in Hin.
  - apply (bool_decide_unpack _). vm_compute. reflexivity.
Defined.
