(* ===== verification/Secrecy.v ===== *)
(** * What answers do not tell

    Passwords and PINs are stored as hashes, badges and the tokens of ERP connections as
    they are or sealed; no answer to a reading request is meant to carry them. Here two
    databases that differ in nothing but these columns are shown to be indistinguishable by
    any number of GET requests to the edge. *)

From Stdlib Require Import FunctionalExtensionality.
From S2P Require Import Prelude Lifecycle Schema Sql Cascade Integrity Moves Ingest Orders.
From S2P Require Import Metrics Dnc Sync Protocol Exec Trace Qms Cmms Auth Master Mapping Erp.
From S2P Require Import Process Diagnostics Agent System Server Wire Reply Routing Extract Http.
From S2P Require Import Sample.

(** ** Databases that look alike *)

(** A user without the hashes and the badge; a connection with nothing but whether it has a
    token. *)
Definition hide_user (u : UserRow) : UserRow :=
  mkUserRow (us_id u) (us_username u) (us_display_name u) (us_role_code u) None None None
    (us_active u) (us_created_at u) (us_updated_at u).

Definition hide_token (c : ErpConnRow) : ErpConnRow :=
  mkErpConnRow (ec_id c) (ec_site_id c) (ec_name c) (ec_endpoint_url c)
    ((λ _, ""%string) <$> ec_auth_token_enc c) (ec_field_mapping c) (ec_direction c)
    (ec_enabled c) (ec_created_at c) (ec_updated_at c).

Record alike (db1 db2 : Db) : Prop := {
  alike_users : map hide_user (db1 Users) = map hide_user (db2 Users);
  alike_connections :
    map hide_token (db1 Erp_connections) = map hide_token (db2 Erp_connections);
  alike_rest t : t ≠ Users → t ≠ Erp_connections → db1 t = db2 t
}.

(** Worlds that differ in their databases, which look alike. *)
Definition indistinguishable (w1 w2 : World) : Prop :=
  alike (w_db w1) (w_db w2) ∧ w2 = w1 <| w_db := w_db w2 |>.
Infix "≈" := indistinguishable (at level 70).

#[global] Instance alike_equiv : Equivalence alike.
Proof.
  split.
  - intros db. by split.
  - intros db1 db2 [Hu Hc Hr]. split; [done|done|]. intros t H1 H2. symmetry. by apply Hr.
  - intros db1 db2 db3 [Hu Hc Hr] [Hu' Hc' Hr']. split; [congruence|congruence|].
    intros t H1 H2. rewrite Hr by done. by apply Hr'.
Qed.

#[global] Instance indistinguishable_equiv : Equivalence indistinguishable.
Proof.
  split.
  - intros w. split; [done|]. by destruct w.
  - intros w1 w2 [Ha ->]. split; [by symmetry|]. by destruct w1.
  - intros w1 w2 w3 [Ha E] [Ha' E']. split; [by etransitivity|]. rewrite E', E. by destruct w1.
Qed.

(** A query that looks elsewhere sees no difference. *)
Lemma alike_eq {A} (q : Db → A) db1 db2 :
  (∀ us cs db, q (set_table Users us (set_table Erp_connections cs db)) = q db) →
  alike db1 db2 → q db1 = q db2.
Proof.
  intros Hq [_ _ Hr].
  rewrite <- (Hq (db1 Users) (db1 Erp_connections) db2). f_equal.
  apply functional_extensionality_dep. intros t.
  destruct (decide (t = Users)) as [->|Hu]; [by rewrite set_table_eq|].
  rewrite set_table_ne by done.
  destruct (decide (t = Erp_connections)) as [->|Hc]; [by rewrite set_table_eq|].
  rewrite set_table_ne by done. by apply Hr.
Qed.

(** ** Programs that cannot tell *)

Definition discreet {E A} (m : M World E A) : Prop :=
  ∀ w1 w2, w1 ≈ w2 → (m w1).1 = (m w2).1 ∧ (m w1).2 ≈ (m w2).2.

Lemma discreet_pure {E A} (r : Result A E) : discreet (λ w, (r, w)).
Proof. by intros w1 w2 H. Qed.

Lemma discreet_bind {E A B} (m : M World E A) (k : A → M World E B) :
  discreet m → (∀ a, discreet (k a)) → discreet (m ≫= k).
Proof.
  intros Hm Hk w1 w2 H. destruct (Hm w1 w2 H) as [Hr Hw]. unfold mbind, M_bind.
  destruct (m w1) as [[a|e] w1'], (m w2) as [[a2|e2] w2']; simplify_eq/=; [|done].
  by apply Hk.
Qed.

Lemma discreet_map_err {E F A} (f : E → F) (m : M World E A) :
  discreet m → discreet (map_err f m).
Proof.
  intros Hm w1 w2 H. destruct (Hm w1 w2 H) as [Hr Hw]. unfold map_err.
  destruct (m w1) as [[a|e] w1'], (m w2) as [[a2|e2] w2']; by simplify_eq/=.
Qed.

Lemma discreet_attempt {E F A} (m : M World E A) : discreet m → discreet (attempt m : M World F _).
Proof. intros Hm w1 w2 H. destruct (Hm w1 w2 H) as [Hr Hw]. unfold attempt. by rewrite Hr. Qed.

Lemma discreet_statement {A} (f : Db → Result (A * Db) SqlError) (q : Db → Result A SqlError) :
  (∀ db, f db = match q db with Ok a => Ok (a, db) | Err e => Err e end) →
  (∀ db1 db2, alike db1 db2 → q db1 = q db2) → discreet (statement f).
Proof.
  intros Hf Hq w1 w2 [Ha E]. unfold statement. rewrite E, !Hf. simpl. rewrite (Hq _ _ Ha).
  case_match; [done|].
  destruct (q (w_db w2)); (split; [done|]); split; try done; by destruct w1.
Qed.

Lemma discreet_query {A} (q : Db → A) :
  (∀ db1 db2, alike db1 db2 → q db1 = q db2) → discreet (query q).
Proof.
  intros Hq. apply (discreet_statement _ (λ db, Ok (q db))); [done|]. intros. f_equal. by apply Hq.
Qed.

Lemma discreet_query_limit {A} n (q : Db → list A) :
  (∀ db1 db2, alike db1 db2 → q db1 = q db2) → discreet (query_limit n q).
Proof.
  intros Hq. apply (discreet_statement _ (λ db,
    if n <? 0 then Err InvalidLimit else Ok (take (Z.to_nat n) (q db)))).
  - intros db. by case_match.
  - intros db1 db2 H. by rewrite (Hq _ _ H).
Qed.

(** What a request looks at besides the database. *)
Lemma discreet_local {E A} (m : M World E A) :
  (∀ w db, m (w <| w_db := db |>) = ((m w).1, (m w).2 <| w_db := db |>)) →
  (∀ w, w_db (m w).2 = w_db w) → discreet m.
Proof.
  intros Hm Hk w1 w2 [Ha Ew]. rewrite Ew, Hm. simpl. split; [done|]. split; simpl.
  - by rewrite Hk.
  - done.
Qed.

Lemma discreet_mapM {E A B} (f : A → M World E B) l :
  (∀ a, discreet (f a)) → discreet (mapM_list f l).
Proof.
  intros Hf. induction l as [|a l IH]; simpl; [apply discreet_pure|].
  apply discreet_bind; [done|]. intros b. apply discreet_bind; [done|]. intros bs.
  apply discreet_pure.
Qed.

(** A query of other tables. *)
Lemma discreet_elsewhere {A} (q : Db → A) :
  (∀ us cs db, q (set_table Users us (set_table Erp_connections cs db)) = q db) →
  discreet (query q).
Proof. intros Hq. apply discreet_query. intros. by apply alike_eq. Qed.

Lemma discreet_limit_elsewhere {A} n (q : Db → list A) :
  (∀ us cs db, q (set_table Users us (set_table Erp_connections cs db)) = q db) →
  discreet (query_limit n q).
Proof. intros Hq. apply discreet_query_limit. intros. by apply alike_eq. Qed.

Lemma discreet_ok_or {E A} (o : option A) (e : E) : discreet (ok_or o e).
Proof. destruct o; apply discreet_pure. Qed.

Lemma discreet_require_pool : discreet require_pool.
Proof.
  apply discreet_local; unfold require_pool.
  - intros [] db. simpl. by case_match.
  - intros w. by destruct (w_pool w).
Qed.

(** What is known of the world besides its database. *)
Lemma discreet_gets {E A} (f : World → A) :
  (∀ w db, f (w <| w_db := db |>) = f w) → discreet (gets f : M World E A).
Proof. intros Hf. apply discreet_local; [|done]. intros w db. unfold gets. by rewrite Hf. Qed.

#[local] Hint Resolve discreet_ok_or discreet_require_pool : discreet.

Ltac discreet_step :=
  lazymatch goal with
  | |- ∀ _, _ => intros ?
  | |- discreet (mbind _ _) => apply discreet_bind
  | |- discreet (map_err _ _) => apply discreet_map_err
  | |- discreet (attempt _) => apply discreet_attempt
  | |- discreet (mapM_list _ _) => apply discreet_mapM
  | |- discreet (query _) => apply discreet_elsewhere; intros; reflexivity
  | |- discreet (query_limit _ _) => apply discreet_limit_elsewhere; intros; reflexivity
  | |- discreet (gets _) => apply discreet_gets; intros [] ?; reflexivity
  | |- discreet (mret _) => apply discreet_pure
  | |- discreet (throw _) => apply discreet_pure
  | |- discreet (match ?x with _ => _ end) => destruct x
  | |- _ => solve [eauto 2 with discreet]
  end.
Ltac discreetly := repeat discreet_step.

Lemma discreet_get_by_id {env : Env} t id :
  t ≠ Users → t ≠ Erp_connections → discreet (get_by_id t id).
Proof.
  intros Hu Hc. unfold get_by_id, fetch_optional, fetch. discreetly.
  apply discreet_query. intros db1 db2 H. by rewrite (alike_rest _ _ H t).
Qed.

(** The result of a statement. *)
Definition outcome_of {A} (r : Result (A * Db) SqlError) : Result A SqlError :=
  match r with Ok (a, _) => Ok a | Err e => Err e end.

Lemma discreet_report {A} (f : Db → Result (A * Db) SqlError) :
  (∀ db, match f db with Ok (_, db') => db' = db | Err _ => True end) →
  (∀ us cs db, outcome_of (f (set_table Users us (set_table Erp_connections cs db))) =
     outcome_of (f db)) →
  discreet (statement f).
Proof.
  intros Hk Hq. apply (discreet_statement _ (λ db, outcome_of (f db))).
  - intros db. specialize (Hk db). unfold outcome_of. by destruct (f db) as [[a db']|]; subst.
  - intros. by apply (alike_eq (λ db, outcome_of (f db))).
Qed.

(** ** The two tables *)

(** What is shown of a user, and of a connection, is there when the rest is hidden. *)
Lemma shown_users us :
  map user_of_row (order_by_text us_username us) =
  map user_of_row (order_by_text us_username (map hide_user us)).
Proof. unfold order_by_text. rewrite sort_by_map, map_map. by apply map_ext. Qed.

Lemma shown_connection c : into_public (hide_token c) = into_public c.
Proof. destruct c as [? ? ? ? [t|]]; reflexivity. Qed.

Lemma shown_connections cs :
  map into_public (order_by ec_created_at cs) =
  map into_public (order_by ec_created_at (map hide_token cs)).
Proof.
  unfold order_by. rewrite sort_by_map, map_map. apply map_ext. intros c.
  by rewrite shown_connection.
Qed.

Lemma shown_by_id id cs :
  into_public <$> head (select (by_id Erp_connections id) cs) =
  into_public <$> head (select (by_id Erp_connections id) (map hide_token cs)).
Proof.
  induction cs as [|c cs IH]; simpl; [done|]. unfold by_id in *. simpl in *.
  destruct (String.eqb (ec_id c) id); simpl; [by rewrite shown_connection|done].
Qed.

Section secrecy.
Context {env : Env} {cmms : CmmsEnv} {crypto : Crypto} {senv : SyncEnv} {erp : ErpEnv}.
Context {proc : ProcessEnv} {diag : DiagEnv} {axum : Axum}.
Context {serde : SerdeJson} {agent : AgentEnv} {backend : LlmBackend}.
Context (state : AppState).

Lemma discreet_list_users : discreet list_users.
Proof.
  apply discreet_map_err, discreet_query. intros db1 db2 [Hu _ _].
  by rewrite shown_users, Hu, <- shown_users.
Qed.

Lemma discreet_list_connections : discreet list_connections.
Proof.
  apply discreet_map_err, discreet_query. intros db1 db2 [_ Hc _].
  by rewrite shown_connections, Hc, <- shown_connections.
Qed.

(** The row is fetched and then shown; it is the same to show what is fetched. *)
Lemma get_connection_shown id :
  ∀ w, get_connection id w =
    (row ← map_err map_sqlx (query (λ db,
       into_public <$> head (select (by_id Erp_connections id) (db Erp_connections))));
     ok_or row NotFound) w.
Proof.
  intros w. unfold get_connection, get_by_id, fetch_optional, fetch, query, statement, map_err,
    mbind, M_bind, ok_or, mret, M_ret, throw. destruct (default false _); simpl; [done|].
  by destruct (head (select _ _)).
Qed.

Lemma discreet_get_connection id : discreet (get_connection id).
Proof.
  intros w1 w2 H. rewrite !get_connection_shown. revert w1 w2 H. change (discreet
    (row ← map_err map_sqlx (query (λ db,
       into_public <$> head (select (by_id Erp_connections id) (db Erp_connections))));
     ok_or row NotFound)).
  apply discreet_bind; [|intros; apply discreet_ok_or]. apply discreet_map_err, discreet_query.
  intros db1 db2 [_ Hc _]. by rewrite shown_by_id, Hc, <- shown_by_id.
Qed.

Lemma discreet_oee wc s e :
  discreet (oee_inputs (F := SpecFloat.spec_float) wc s e) ∧
  discreet (oee_sql (F := SpecFloat.spec_float) wc s e).
Proof.
  assert (∀ us cs db, count_sums wc s e (set_table Users us (set_table Erp_connections cs db)) =
    count_sums wc s e db) as Hc by reflexivity.
  split; unfold oee_inputs, oee_sql, fetch_optional, fetch_one, fetch; discreetly;
    apply discreet_report; intros; rewrite ?Hc; by destruct (count_sums wc s e db) as [[]|].
Qed.

Lemma discreet_extractors rq c :
  discreet (authenticated state rq) ∧ discreet (writer state rq) ∧ discreet (path_id c) ∧
  discreet (path_pair c) ∧ discreet (time_range rq) ∧ discreet (oee_query rq) ∧
  (∀ n, discreet (query_text n rq)) ∧ (∀ n, discreet (query_field n rq)).
Proof.
  split_and!; unfold writer, authenticated, master_writer_from_request, from_request_parts,
    decode_token, master_writer, path_id, path_pair, path_params, time_range, oee_query,
    query_time, query_text, query_field; discreetly.
Qed.

#[local] Hint Unfold list_sites list_areas list_work_centers list_parts list_programs
  list_work_orders list_transfers list_revisions downtime_pareto downtime_by_loss downtime_trend
  trace_backward trace_forward list_ncrs list_maintenance_wos list_spare_parts
  list_procurement_requests list_sync_log master_writer parse_barcode : reports.
#[local] Hint Resolve discreet_list_users discreet_list_connections discreet_get_connection
  : discreet.

Lemma discreet_edge_call ep c rq : fst (api ep) = GET → discreet (edge_call state ep c rq).
Proof.
  destruct (discreet_extractors rq c) as (Ha & Hw & Hi & Hp & Ht & Ho & Hq & Hf).
  pose proof (λ wc s e, proj1 (discreet_oee wc s e)).
  pose proof (λ wc s e, proj2 (discreet_oee wc s e)).
  intros Hg. destruct ep; try done; unfold_call; autounfold with reports; discreetly;
    match goal with |- discreet (get_by_id ?t ?id) => by apply (discreet_get_by_id t id) end.
Qed.

Lemma edge_methods :
  throughout Routes.edge_router (λ _ m ep, bool_decide (m = fst (api ep))) = true.
Proof. vm_compute. reflexivity. Qed.

(** A request that only asks. *)
Definition asking (rq : HttpRequest) : bool :=
  match http_method rq with GET | HEAD => true | _ => false end.

Lemma discreet_asking `{!AxumLaws axum} rq : asking rq = true → discreet (edge_http state rq).
Proof.
  intros Hm. unfold edge_http. destruct (route_to _ _ _) as [ep c| |] eqn:Hd;
    [|apply discreet_pure..].
  apply (throughout_found _ _ _ _ _ _ edge_methods) in Hd as (p & m' & _ & E & Hd).
  apply bool_decide_eq_true in E. apply discreet_edge_call. rewrite <- E.
  destruct Hd as [->|[_ ->]]; [|done]. unfold asking in Hm.
  destruct (http_method rq); try done. by destruct ep.
Qed.

(** The answers to a sequence of requests. *)
Fixpoint answers_to (rqs : list HttpRequest) (w : World) : list (Result Answer Refusal) :=
  match rqs with
  | [] => []
  | rq :: rqs' => (edge_http state rq w).1 :: answers_to rqs' (edge_http state rq w).2
  end.

(** C13. Nothing a client can ask for tells it a secret: in two plants that differ in nothing
    but the hashes of passwords and PINs, the badges and the stored tokens of ERP
    connections, every sequence of GET and HEAD requests, whatever their paths, queries and
    credentials, and however the connection to the database fares, is answered alike. *)
Theorem answers_hide_secrets `{!AxumLaws axum} rqs w1 w2 :
  w1 ≈ w2 → forallb asking rqs = true → answers_to rqs w1 = answers_to rqs w2.
Proof.
  revert w1 w2. induction rqs as [|rq rqs IH]; intros w1 w2 H; simpl; [done|].
  intros [Hm Hrqs]%andb_true_iff. destruct (discreet_asking rq Hm w1 w2 H) as [-> Hw].
  f_equal. by apply IH.
Qed.
End secrecy.

(** ** The property on a concrete plant *)

#[local] Existing Instances sample_env sample_cmms sample_crypto sample_sync sample_erp.
#[local] Existing Instances sample_process sample_diag sample_serde sample_agent.
#[local] Existing Instances sample_backend sample_axum sample_axum_laws.

(** The staff, after everyone has changed their password and one badge was replaced. *)
Definition staff_later : World := world_of
  (set_table Users [mkUserRow "u1" "ada" "Ada" "Admin" (Some "$argon2id$other"%string)
                      (Some "$argon2id$1234"%string) None false 0 0;
                    mkUserRow "u2" "bob" "Bob" "Admin" None None (Some "B-8"%string) true 0 0]
     plant_db).

Definition asked : list HttpRequest :=
  map (λ path, mkHttpRequest GET path [] (bearing "u1" "Admin") (BadBody 415) None)
    [["v1"; "master"; "users"]; ["v1"; "erp"; "connections"]; ["v1"; "orders"]]%string.

Lemma answers_hide_secrets_witness :
  answers_to sample_state asked staff = answers_to sample_state asked staff_later ∧
  map is_ok (answers_to sample_state asked staff) = [true; true; true] ∧
  w_db staff Users ≠ w_db staff_later Users.
Proof.
  split; [|split; [vm_compute; reflexivity|vm_compute; discriminate]].
  apply (answers_hide_secrets sample_state asked staff staff_later); [|reflexivity].
  split; [|reflexivity]. split; [reflexivity|reflexivity|].
  intros [] H1 H2; solve [reflexivity|contradiction].
Defined.
