(* ===== verification/Readback.v ===== *)
(** * What a client wrote is what it reads

    The answer to a request that creates, changes or deletes a resource, and the answer to a
    later request for that resource, over HTTP and down to the JSON body. *)

From S2P Require Import Prelude Lifecycle Schema Sql Cascade Integrity Moves Ingest Orders.
From S2P Require Import Metrics Dnc Sync Protocol Exec Trace Qms Cmms Auth Master Mapping Erp.
From S2P Require Import Process Diagnostics Agent System Server Wire Reply Routing Extract Http.
From S2P Require Import Sample.

(** ** Resources *)

(** What there is to see of a resource, by the endpoint that shows it. *)
Definition row_view (t : table) `{!Reply A} (f : row t → A) (id : string) (db : Db) :
    option Json :=
  (λ r, reply_json (f r)) <$> first_where (by_id t id) (db t).

Definition detail_of (wo : WorkOrderRow) (db : Db) : WorkOrderDetail :=
  mkWorkOrderDetail wo (order_by op_op_no
    (select (λ o, String.eqb (op_work_order_id o) (wo_id wo)) (db Wo_operations))).

Definition view (get : Ep.t) (id : string) (db : Db) : option Json :=
  match get with
  | Ep.get_site => row_view Sites (λ r, r) id db
  | Ep.get_area => row_view Areas (λ r, r) id db
  | Ep.get_work_center => row_view Work_centers (λ r, r) id db
  | Ep.get_part => row_view Parts (λ r, r) id db
  | Ep.get_order => row_view Work_orders (λ wo, detail_of wo db) id db
  | Ep.get_ncr => row_view Ncrs (λ r, r) id db
  | Ep.get_maintenance_wo => row_view Maintenance_work_orders (λ r, r) id db
  | Ep.get_connection => row_view Erp_connections into_public id db
  | _ => None
  end.

(** The tables a view is made of. *)
Definition shown_tables (get : Ep.t) : list table :=
  match get with
  | Ep.get_site => [Sites]
  | Ep.get_area => [Areas]
  | Ep.get_work_center => [Work_centers]
  | Ep.get_part => [Parts]
  | Ep.get_order => [Work_orders; Wo_operations]
  | Ep.get_ncr => [Ncrs]
  | Ep.get_maintenance_wo => [Maintenance_work_orders]
  | Ep.get_connection => [Erp_connections]
  | _ => []
  end.

(** The endpoint that shows what another writes, when that one answers with the whole
    resource or deletes it. *)
Definition shows (ep : Ep.t) : option Ep.t :=
  match ep with
  | Ep.create_site | Ep.update_site | Ep.delete_site => Some Ep.get_site
  | Ep.create_area | Ep.update_area | Ep.delete_area => Some Ep.get_area
  | Ep.create_work_center | Ep.update_work_center | Ep.delete_work_center =>
      Some Ep.get_work_center
  | Ep.create_part | Ep.update_part | Ep.delete_part => Some Ep.get_part
  | Ep.create_order => Some Ep.get_order
  | Ep.disposition_ncr => Some Ep.get_ncr
  | Ep.create_maintenance_wo | Ep.transition_maintenance_wo => Some Ep.get_maintenance_wo
  | Ep.create_connection | Ep.update_connection | Ep.delete_connection =>
      Some Ep.get_connection
  | _ => None
  end.

(** The answer to a request for a resource. *)
Definition got (seen : option Json) : Answer :=
  match seen with
  | Some body => mkAnswer 200 (Some body)
  | None => mkAnswer 404 (Some (reply_json (repo_err NotFound)))
  end.

(** The request for one resource. *)
Definition get_request (get : Ep.t) {axum : Axum} (authorization : option string)
    (id : string) : HttpRequest :=
  mkHttpRequest GET (fill (pattern (snd (api get))) [percent_encode id]) [] authorization
    (BadBody 415) None.

(** An order is shown with its operations by number; it is answered when created with its
    operations as they were sent. *)
Fixpoint ascending (l : list Z) : bool :=
  match l with
  | x :: (y :: _) as l' => (x <=? y) && ascending l'
  | _ => true
  end.

Definition numbered_in_order {text : WireText} (b : Body) : bool :=
  match b with
  | JsonBody v =>
      match work_order_input_of_json v with
      | Some i => ascending (map oi_op_no (wi_operations i))
      | None => true
      end
  | BadBody _ => true
  end.

(** ** Rows that are found again *)

Lemma view_untouched get id db1 db2 :
  (∀ t, t ∈ shown_tables get → db2 t = db1 t) → view get id db2 = view get id db1.
Proof.
  destruct get; try done; simpl; intros H; unfold row_view, detail_of;
    repeat rewrite H by set_solver; done.
Qed.

(** The row is the one its identifier finds. *)
Definition found (t : table) (r : row t) (db : Db) : Prop :=
  first_where (by_id t (key t r)) (db t) = Some r.

Lemma found_view t {A} `{!Reply A} (f : row t → A) r db :
  found t r db → row_view t f (key t r) db = Some (reply_json (f r)).
Proof. unfold found, row_view. by intros ->. Qed.

Lemma insert_found t r a w w' :
  keyed t → insert t r w = (Ok a, w') → a = r ∧ found t r (w_db w').
Proof.
  intros Hk (-> & Hc & ->)%insert_Ok. split; [done|]. unfold found, first_where. simpl.
  rewrite set_table_eq, (select_fresh t r); [done|]. by apply (check_row_fresh t r (w_db w)).
Qed.

Lemma first_where_updated {A} (p q : A → bool) f l old :
  (∀ x, p (f x) = p x) → first_where p l = Some old → q old = true →
  first_where p (update_rows q f l) = Some (f old).
Proof.
  intros Hf Hold Hq. unfold first_where in *. induction l as [|x l IH]; simpl in *; [done|].
  destruct (p x) eqn:Hp.
  - injection Hold as ->. by rewrite Hq, Hf, Hp.
  - destruct (q x); rewrite ?Hf, Hp; by apply IH.
Qed.

Lemma updated_found t id q f old db :
  (∀ x, key t (f x) = key t x) → first_where (by_id t id) (db t) = Some old → q old = true →
  found t (f old) (set_table t (update_rows q f (db t)) db).
Proof.
  intros Hf Hold Hq. unfold found. rewrite set_table_eq, Hf.
  pose proof Hold as [->%String.eqb_eq _]%first_where_Some.
  apply first_where_updated; [|done|done]. intros x. unfold by_id. by rewrite Hf.
Qed.

Section found.
Context {env : Env}.

Lemma update_by_id_found t id f r w w' :
  (∀ x, key t (f x) = key t x) → update_by_id t id f w = (Ok r, w') → found t r (w_db w').
Proof.
  intros Hf ((old & Hold & ->) & _ & ->)%update_by_id_Ok. simpl.
  apply (updated_found t id); [done..|]. by apply first_where_Some in Hold as [].
Qed.

Lemma update_unique_by_id_found t id f r w w' :
  (∀ x, key t (f x) = key t x) → update_unique_by_id t id f w = (Ok r, w') →
  found t r (w_db w').
Proof.
  intros Hf (old & Hold & -> & _ & ->)%update_unique_by_id_Ok. simpl.
  apply (updated_found t id); [done..|]. by apply first_where_Some in Hold as [].
Qed.

(** Any update of a table with a primary key. *)
Lemma update_found t q f r db :
  keyed t → schema_ok db → (∀ x, key t (f x) = key t x) →
  head (map f (select q (db t))) = Some r → found t r (set_table t (update_rows q f (db t)) db).
Proof.
  intros Hk Hok Hf Hr. destruct (select q _) as [|x l] eqn:Es; [done|]. injection Hr as <-.
  assert (x ∈ select q (db t)) as [Hq Hx]%elem_of_select by (rewrite Es; left).
  apply (updated_found t (key t x)); [done| |done].
  destruct (first_where_exists (by_id t (key t x)) (db t) x Hx) as [y Hy].
  { apply String.eqb_refl. }
  rewrite Hy. f_equal. apply first_where_Some in Hy as [Hid Hy].
  apply (keyed_eq t db); [done..|]. by apply String.eqb_eq in Hid.
Qed.

Lemma delete_by_id_gone t {A} `{!Reply A} (f : row t → A) id u w w' :
  delete_by_id t id w = (Ok u, w') → row_view t f id (w_db w') = None.
Proof.
  intros H%delete_key_Ok. unfold row_view. destruct (first_where _ _) as [r|] eqn:E; [|done].
  apply first_where_Some in E as [Hid Hr]. apply not_true_iff_false in H. destruct H.
  apply key_exists_true. exists r. split; [done|]. by apply String.eqb_eq in Hid.
Qed.

(** An audit entry does not change what there is to see. *)
Lemma audit_view get a b c d e id w :
  view get id (w_db (insert_audit a b c d e w).2) = view get id (w_db w).
Proof.
  destruct (insert_audit_frame a b c d e w) as (F & _). apply view_untouched.
  intros t Ht. apply F. intros ->. revert Ht. destruct get; simpl; set_solver.
Qed.

End found.

(** The body of an answer is what there is to see of the resource it names. *)
Definition settled (get : Ep.t) (body : Json) (db : Db) : Prop :=
  ∃ id, field "id" body = Some (JStr id) ∧ view get id db = Some body.

Lemma found_settled get t {A} `{!Reply A} (f : row t → A) r db :
  (∀ id, view get id db = row_view t f id db) →
  field "id" (reply_json (f r)) = Some (JStr (key t r)) → found t r db →
  settled get (reply_json (f r)) db.
Proof.
  intros Hv Hid Hr. exists (key t r). split; [done|]. rewrite Hv. by apply found_view.
Qed.

Section endpoints.
Context {env : Env} {senv : SyncEnv} {erp : ErpEnv}.

Lemma settled_audit get body a b c d e w :
  settled get body (w_db w) → settled get body (w_db (insert_audit a b c d e w).2).
Proof. intros (id & Hid & Hv). exists id. by rewrite audit_view. Qed.

(** Drops the calls before the last. *)
Ltac last_call H := repeat apply bind_Ok in H as (? & ? & _ & H).

Ltac audited_last H :=
  let w := fresh "w" in
  apply audited_Ok in H as (_ & _ & w & H & ->); apply settled_audit; apply map_err_Ok in H.

(** The row that is written is the one that is answered. *)
Ltac inserted get t H :=
  last_call H; apply map_err_Ok in H; apply (insert_found t) in H as [-> H]; [|by left];
  by apply (found_settled get t (λ r, r)).

Ltac updated get t H :=
  apply bind_Ok in H as (? & ? & _ & H); apply (update_unique_by_id_found t) in H; [|done];
  by apply (found_settled get t (λ r, r)).

Lemma create_site_settled auth i r w w' :
  create_site_endpoint auth i w = (Ok r, w') →
  settled Ep.get_site (reply_json r) (w_db w').
Proof. intros H. audited_last H. inserted Ep.get_site Sites H. Qed.

Lemma update_site_settled auth id i r w w' :
  update_site_endpoint auth id i w = (Ok r, w') →
  settled Ep.get_site (reply_json r) (w_db w').
Proof. intros H. audited_last H. updated Ep.get_site Sites H. Qed.

Lemma create_area_settled auth i r w w' :
  create_area_endpoint auth i w = (Ok r, w') →
  settled Ep.get_area (reply_json r) (w_db w').
Proof. intros H. audited_last H. inserted Ep.get_area Areas H. Qed.

Lemma update_area_settled auth id i r w w' :
  update_area_endpoint auth id i w = (Ok r, w') →
  settled Ep.get_area (reply_json r) (w_db w').
Proof. intros H. audited_last H. updated Ep.get_area Areas H. Qed.

Lemma create_work_center_settled auth i r w w' :
  create_work_center_endpoint auth i w = (Ok r, w') →
  settled Ep.get_work_center (reply_json r) (w_db w').
Proof. intros H. audited_last H. inserted Ep.get_work_center Work_centers H. Qed.

Lemma update_work_center_settled auth id i r w w' :
  update_work_center_endpoint auth id i w = (Ok r, w') →
  settled Ep.get_work_center (reply_json r) (w_db w').
Proof. intros H. audited_last H. updated Ep.get_work_center Work_centers H. Qed.

Lemma create_part_settled auth i r w w' :
  create_part_endpoint auth i w = (Ok r, w') →
  settled Ep.get_part (reply_json r) (w_db w').
Proof. intros H. audited_last H. inserted Ep.get_part Parts H. Qed.

Lemma update_part_settled auth id i r w w' :
  update_part_endpoint auth id i w = (Ok r, w') →
  settled Ep.get_part (reply_json r) (w_db w').
Proof. intros H. audited_last H. updated Ep.get_part Parts H. Qed.

Lemma create_maintenance_wo_settled auth i r w w' :
  create_maintenance_wo_endpoint auth i w = (Ok r, w') →
  settled Ep.get_maintenance_wo (reply_json r) (w_db w').
Proof.
  unfold create_maintenance_wo_endpoint, create_maintenance_wo, audit. intros H.
  apply bind_Ok in H as (? & ? & _ & H). apply bind_Ok in H as (? & ? & _ & H).
  apply bind_Ok in H as (wo & w1 & Hm%map_err_Ok & H).
  apply bind_Ok in H as (? & ? & ->%best_effort_Ok & [-> ->]%ret_Ok). apply settled_audit.
  inserted Ep.get_maintenance_wo Maintenance_work_orders Hm.
Qed.

Lemma transition_maintenance_wo_settled auth id i r w w' :
  schema_ok (w_db w) → transition_maintenance_wo_endpoint auth id i w = (Ok r, w') →
  settled Ep.get_maintenance_wo (reply_json r) (w_db w').
Proof.
  intros Hok. unfold transition_maintenance_wo_endpoint, transition_maintenance_wo, audit,
    require_maintenance. intros H. minv. apply settled_audit. simpl.
  apply (found_settled Ep.get_maintenance_wo Maintenance_work_orders (λ r, r)); [done..|].
  apply update_found; [by left|done|intros; apply advance_key|done].
Qed.

Lemma disposition_ncr_settled auth id d reason r w w' :
  schema_ok (w_db w) → disposition_ncr_endpoint auth id d reason w = (Ok r, w') →
  settled Ep.get_ncr (reply_json r) (w_db w').
Proof.
  intros Hok. unfold disposition_ncr_endpoint, disposition_ncr, audit, require_quality.
  intros H. minv. apply settled_audit. simpl.
  apply (found_settled Ep.get_ncr Ncrs (λ r, r)); [done..|].
  match goal with H : (if _ then _ else _) ?v = _ |- _ =>
    assert (w_db w6 Ncrs = w_db v Ncrs) as E end.
  { destruct (Disposition.releases_hold a1); minv; [|done]. by rewrite set_table_ne. }
  unfold found. rewrite E. by apply (update_found Ncrs); [left|..].
Qed.

Lemma create_connection_settled key auth i r w w' :
  create_connection_endpoint key auth i w = (Ok r, w') →
  settled Ep.get_connection (reply_json r) (w_db w').
Proof.
  intros H. apply audited_Ok in H as (_ & _ & w1 & H & ->). apply settled_audit.
  do 2 apply bind_Ok in H as (? & ? & _ & H). apply map_err_Ok in H.
  do 2 apply bind_Ok in H as (? & ? & _ & H).
  apply bind_Ok in H as (row & w2 & H%map_err_Ok & [-> ->]%ret_Ok).
  apply (insert_found Erp_connections) in H as [-> H]; [|by left].
  by apply (found_settled Ep.get_connection Erp_connections into_public).
Qed.

Lemma update_connection_settled key auth id i r w w' :
  update_connection_endpoint key auth id i w = (Ok r, w') →
  settled Ep.get_connection (reply_json r) (w_db w').
Proof.
  intros H. apply audited_Ok in H as (_ & _ & w1 & H & ->). apply settled_audit.
  do 2 apply bind_Ok in H as (? & ? & _ & H). apply map_err_Ok in H.
  apply bind_Ok in H as (? & ? & _ & H).
  apply bind_Ok in H as (row & w2 & H & [-> ->]%ret_Ok).
  apply (update_by_id_found Erp_connections) in H; [|done].
  by apply (found_settled Ep.get_connection Erp_connections into_public).
Qed.

Lemma deleted_gone get t {A} `{!Reply A} (f : row t → A) auth entity id u w w' :
  (∀ db, view get id db = row_view t f id db) →
  audited auth "delete" entity (λ _, id) (map_err repo_err (delete_by_id t id)) w = (Ok u, w') →
  view get id (w_db w') = None.
Proof.
  intros Hv (_ & _ & w1 & H%map_err_Ok & ->)%audited_Ok. rewrite audit_view, Hv.
  by apply (delete_by_id_gone t f) in H.
Qed.

(** *** Orders *)

Lemma order_by_ascending {A} (key : A → Z) l :
  ascending (map key l) = true → order_by key l = l.
Proof.
  unfold order_by. induction l as [|x [|y l] IH]; [done|done|].
  cbn [ascending map]. intros [Hle H]%andb_true_iff. change (sort_by ?le (x :: ?k)) with
    (insert_sorted le x (sort_by le k)). rewrite IH by done. simpl. by rewrite Hle.
Qed.

Lemma create_work_order_fresh input d w w' :
  create_work_order input w = (Ok d, w') →
  ∀ x, x ∈ w_db w Work_orders → by_id Work_orders (wo_id (work_order d)) x = false.
Proof.
  unfold create_work_order, enqueue. intros H. minv.
  match goal with H : check_row Work_orders ?r _ = None |- _ =>
    apply (check_row_fresh Work_orders r); [done|by left] end.
Qed.

(** No operation names an order that is not there yet. *)
Lemma no_operations_yet db id :
  schema_ok db → (∀ x, x ∈ db Work_orders → by_id Work_orders id x = false) →
  select (λ o, String.eqb (op_work_order_id o) id) (db Wo_operations) = [].
Proof.
  intros Hok Hfr. apply select_none. intros o Ho. apply String.eqb_neq. intros <-.
  destruct (proj1 (key_exists_true db Work_orders (op_work_order_id o))) as (x & Hx & Hk).
  - apply (ok_refs _ Hok Wo_operations o (Work_orders, op_work_order_id o) Ho). by left.
  - specialize (Hfr x Hx). unfold by_id in Hfr. by rewrite Hk, String.eqb_refl in Hfr.
Qed.

Lemma created_operations wo_id ops l :
  map op_content ops = map (op_input_content wo_id) l →
  (∀ o, o ∈ ops → String.eqb (op_work_order_id o) wo_id = true) ∧
  map op_op_no ops = map oi_op_no l.
Proof.
  revert l. induction ops as [|o ops IH]; intros [|i l] H; try done.
  - split; [by intros ? ?%elem_of_nil|done].
  - cbn [map] in H. injection H as H1 H2 H3 H4 H5 H6 H7 H8 H9 [IH1 IH2]%IH. split.
    + intros o' [->|Ho]%elem_of_cons; [by apply String.eqb_eq|auto].
    + simpl. congruence.
Qed.

Lemma create_order_settled auth input d w w' :
  schema_ok (w_db w) → ascending (map oi_op_no (wi_operations input)) = true →
  create_order auth input w = (Ok d, w') → settled Ep.get_order (reply_json d) (w_db w').
Proof.
  intros Hok Hasc. unfold create_order, audit, master_writer.
  destruct (can_write_master _); [|done]. intros H. apply bind_Ok in H as (? & ? & [_ ->]%ret_Ok & H).
  apply bind_Ok in H as (? & ? & [_ ->]%require_pool_Ok & H).
  apply bind_Ok in H as (d' & w1 & Hm%map_err_Ok & H).
  apply bind_Ok in H as (? & ? & ->%best_effort_Ok & [-> ->]%ret_Ok). apply settled_audit.
  pose proof (create_work_order_fresh _ _ _ _ Hm) as Hfr.
  apply create_work_order_Ok in Hm as (Ewo & Eop & _ & _ & _ & Hops).
  destruct (created_operations _ _ _ Hops) as [Hof Hno].
  exists (wo_id (work_order d')). split; [done|].
  assert (found Work_orders (work_order d') (w_db w1)) as Hf.
  { unfold found, first_where. by rewrite Ewo, (select_fresh Work_orders (work_order d')). }
  assert (detail_of (work_order d') (w_db w1) = d') as Hd.
  { unfold detail_of. rewrite Eop, select_app, (no_operations_yet (w_db w)), select_all by done.
    simpl. rewrite order_by_ascending by (by rewrite Hno). by destruct d'. }
  simpl. rewrite (found_view Work_orders _ _ _ Hf). by rewrite Hd.
Qed.
End endpoints.

Create HintDb settled.
#[export] Hint Resolve create_site_settled update_site_settled create_area_settled
  update_area_settled create_work_center_settled update_work_center_settled create_part_settled
  update_part_settled create_maintenance_wo_settled transition_maintenance_wo_settled
  disposition_ncr_settled create_connection_settled update_connection_settled : settled.

(** ** Over HTTP *)

(** The resource an answer is about: the body names it, or the path does. *)
Definition names {axum : Axum} (captured : list string) (body : option Json) (id : string) :
    Prop :=
  match body with
  | Some b => field "id" b = Some (JStr id)
  | None => mapM percent_decode captured = Some [id]
  end.

Section readback.
Context {env : Env} {cmms : CmmsEnv} {crypto : Crypto} {senv : SyncEnv} {erp : ErpEnv}.
Context {proc : ProcessEnv} {diag : DiagEnv} {axum : Axum}.
Context (state : AppState).

Lemma authenticated_Ok rq u w w' :
  authenticated state rq w = (Ok u, w') → caller state rq w = Some u ∧ w' = w.
Proof.
  intros H. pose proof (authenticated_caller state rq w) as Hc.
  destruct (caller state rq w); [|destruct Hc as [m Hc]]; rewrite Hc in H; by simplify_eq.
Qed.

Lemma writer_Ok rq u w w' :
  writer state rq w = (Ok u, w') →
  caller state rq w = Some u ∧ can_write_master (role u) = true ∧ w' = w.
Proof.
  rewrite writer_caller. destruct (authenticated state rq w) as [[v|e] w1] eqn:Ha; [|done].
  destruct (can_write_master _) eqn:Hr; [|done]. intros [= <- <-].
  by apply authenticated_Ok in Ha as [? ->].
Qed.

Lemma path_id_Ok c id (w w' : World) :
  path_id c w = (Ok id, w') → mapM percent_decode c = Some [id] ∧ w' = w.
Proof.
  unfold path_id, path_params, mbind, M_bind.
  destruct (mapM percent_decode c) as [[|x [|]]|]; simpl; by intros [= <- <-].
Qed.

Lemma json_Ok {A} `{!Wire A} rq (i : A) (w w' : World) :
  json rq w = (Ok i, w') → (∃ v, http_body rq = JsonBody v ∧ of_json v = Some i) ∧ w' = w.
Proof.
  unfold json. destruct (http_body rq) as [|v]; [done|].
  intros [E ->]%ok_or_Ok. split; [by exists v|done].
Qed.

Lemma answer_with_Ok {A} (form : A → option Json) status (m : M World ApiErr A) a w w' :
  answer_with form status m w = (Ok a, w') →
  ∃ x, m w = (Ok x, w') ∧ a = mkAnswer status (form x).
Proof. intros (x & w1 & H%map_err_Ok & [-> ->]%ret_Ok)%bind_Ok. eauto. Qed.

(** Follows a call that was answered to its handler. *)
Ltac answered_by H :=
  repeat (apply bind_Ok in H as (? & ? & ?E & H);
    match goal with
    | E : authenticated _ _ _ = _ |- _ => apply authenticated_Ok in E as [_ ->]
    | E : writer _ _ _ = _ |- _ => apply writer_Ok in E as (_ & _ & ->)
    | E : path_id _ _ = _ |- _ => apply path_id_Ok in E as [? ->]
    | E : json _ _ = _ |- _ => apply json_Ok in E as [(? & ? & ?) ->]
    end);
  apply answer_with_Ok in H as (? & H & ->).

Lemma edge_call_settled ep c rq w a w1 get :
  schema_ok (w_db w) → (ep = Ep.create_order → numbered_in_order (http_body rq) = true) →
  shows ep = Some get → edge_call state ep c rq w = (Ok a, w1) →
  ∃ id, names c (an_body a) id ∧ view get id (w_db w1) = an_body a.
Proof.
  intros Hok Hno Hs. destruct ep; try done; injection Hs as <-; unfold_call; intros H;
    answered_by H; cbn [an_body];
    lazymatch goal with
    | |- ∃ id, names _ (Some ?b) id ∧ view ?g id ?db = _ =>
        change (settled g b db); try solve [eauto 3 with settled]
    | |- _ => eexists; split; [eassumption|]; by eapply deleted_gone in H; [exact H|done]
    end.
  apply (create_order_settled x x0 _ w); [done| |done].
  specialize (Hno eq_refl). unfold numbered_in_order in Hno. match goal with
    Hb : http_body rq = _, Hi : of_json _ = Some _ |- _ =>
      rewrite Hb in Hno; simpl in Hi; by rewrite Hi in Hno end.
Qed.

(** What there is to see is what is answered. *)
Lemma get_by_id_runs t id w :
  healthy w →
  get_by_id t id w =
    (match first_where (by_id t id) (w_db w t) with Some r => Ok r | None => Err NotFound end, w).
Proof.
  intros Hh. unfold get_by_id, fetch_optional, fetch, mbind, M_bind, map_err, first_where.
  rewrite query_run by done. simpl. by destruct (head _).
Qed.

Lemma reading_seen {A} `{!Reply A} (m : M World RepoError A) (o : option A) w :
  w_pool w = true → m w = (match o with Some a => Ok a | None => Err NotFound end, w) →
  response (answer 200 (require_pool ;; map_err repo_err m) w).1 = got (reply_json <$> o).
Proof.
  intros Hp Hm. unfold answer, answer_with, mbind, M_bind, map_err, require_pool.
  rewrite Hp, Hm. by destruct o.
Qed.

Lemma answer_ext {A} `{!Reply A} status (m m' : M World ApiErr A) w :
  m w = m' w → answer status m w = answer status m' w.
Proof. intros E. unfold answer, answer_with, mbind, M_bind, map_err. by rewrite E. Qed.

Lemma row_seen t `{!Reply (row t)} id w :
  healthy w → w_pool w = true →
  response (answer 200 (require_pool ;; map_err repo_err (get_by_id t id)) w).1 =
  got (row_view t (λ r, r) id (w_db w)).
Proof. intros Hh Hp. by apply reading_seen, get_by_id_runs. Qed.

Lemma connection_seen u id w :
  healthy w → w_pool w = true → can_write_master (role u) = true →
  response (answer 200 (get_connection_endpoint u id) w).1 =
  got (row_view Erp_connections into_public id (w_db w)).
Proof.
  intros Hh Hp Hr.
  rewrite (answer_ext _ _ (reading (get_connection id))).
  - etransitivity.
    + apply (reading_seen _ (into_public <$>
        first_where (by_id Erp_connections id) (w_db w Erp_connections)) w Hp).
      unfold get_connection, mbind, M_bind. rewrite get_by_id_runs by done.
      by destruct (first_where _ _).
    + unfold row_view. by destruct (first_where _ _).
  - unfold get_connection_endpoint, master_writer. by rewrite Hr.
Qed.

Lemma order_seen u id w :
  healthy w → w_pool w = true →
  response (answer 200 (get_order u id) w).1 = got (view Ep.get_order id (w_db w)).
Proof.
  intros Hh Hp. cbn [view]. unfold row_view. etransitivity.
  - apply (reading_seen _ ((λ wo, detail_of wo (w_db w)) <$>
      first_where (by_id Work_orders id) (w_db w Work_orders)) w Hp).
    unfold get_work_order_detail, get_work_order, mbind, M_bind, map_err.
    rewrite get_by_id_runs by done.
    destruct (first_where _ _) as [wo|] eqn:E; [|done]. rewrite query_run by done. simpl.
    unfold detail_of. apply first_where_Some in E as [E%String.eqb_eq _]. simpl in E.
    by rewrite E.
  - by destruct (first_where _ _).
Qed.

(** The endpoints that show a resource. *)
Definition single (get : Ep.t) : bool := negb (bool_decide (shown_tables get = [])).

Lemma edge_get `{!AxumLaws axum} get authorization id u w :
  single get = true → id ≠ ""%string → healthy w → w_pool w = true →
  caller state (get_request get authorization id) w = Some u →
  (gate get = ByRole → can_write_master (role u) = true) →
  response (edge_http state (get_request get authorization id) w).1 = got (view get id (w_db w)).
Proof.
  intros Hs Hid Hh Hp Hc Hr.
  assert (route_to Routes.edge_router GET (fill (pattern (snd (api get))) [percent_encode id]) =
    Found get [percent_encode id]) as Hroute.
  { apply serves_at_route; [done|exact edge_apart| |by destruct get|].
    - pose proof (edge_serves_api get) as H. by destruct get.
    - repeat constructor. by intros E%percent_nonempty. }
  assert (authenticated state (get_request get authorization id) w = (Ok u, w)) as Ha.
  { by apply authenticated_ok. }
  unfold edge_http, get_request in *. cbn [http_method http_path]. rewrite Hroute.
  assert (path_id [percent_encode id] w = (Ok id, w)) as Hpath.
  { unfold path_id, path_params. simpl. by rewrite percent_decodes. }
  pose proof (writer_caller state (mkHttpRequest GET (fill (pattern (snd (api get)))
    [percent_encode id]) [] authorization (BadBody 415) None) w) as Hw. rewrite Ha in Hw.
  destruct get; try done; unfold_call;
    try rewrite (Hr eq_refl) in Hw;
    first [rewrite (bind_step _ _ _ _ _ Ha)|rewrite (bind_step _ _ _ _ _ Hw)];
    rewrite (bind_step _ _ _ _ _ Hpath).
  - exact (@row_seen Sites _ id w Hh Hp).
  - exact (@row_seen Areas _ id w Hh Hp).
  - exact (@row_seen Work_centers _ id w Hh Hp).
  - exact (@row_seen Parts _ id w Hh Hp).
  - by apply order_seen.
  - exact (@row_seen Ncrs _ id w Hh Hp).
  - exact (@row_seen Maintenance_work_orders _ id w Hh Hp).
  - apply connection_seen; auto.
Qed.

(** C9. What a client wrote is what it reads, over HTTP and to the last field: when the edge
    answers a request that creates or changes a site, an area, a work center, a part, an ERP
    connection, a maintenance order or a non-conformance, or creates a work order, the body
    names the resource by its [id], and a later GET of that [id], by anyone entitled to it and
    as long as nobody touched the tables it is read from, is answered 200 with the same body;
    after a DELETE it is answered 404. (A work order is created with its operations numbered
    in order: they are answered as sent and shown by number.) *)
Theorem read_your_writes `{!AxumLaws axum} rq ep captured get w a w1 :
  schema_ok (w_db w) →
  route_to Routes.edge_router (http_method rq) (http_path rq) = Found ep captured →
  shows ep = Some get → (ep = Ep.create_order → numbered_in_order (http_body rq) = true) →
  edge_http state rq w = (Ok a, w1) →
  ∃ id, names captured (an_body a) id ∧
    (id ≠ ""%string → ∀ w2 authorization u,
       (∀ t, t ∈ shown_tables get → w_db w2 t = w_db w1 t) →
       healthy w2 → w_pool w2 = true →
       caller state (get_request get authorization id) w2 = Some u →
       (gate get = ByRole → can_write_master (role u) = true) →
       response (edge_http state (get_request get authorization id) w2).1 = got (an_body a)).
Proof.
  intros Hok Hroute Hs Hno H. unfold edge_http in H. rewrite Hroute in H.
  destruct (edge_call_settled ep captured rq w a w1 get Hok Hno Hs H) as (id & Hid & Hv).
  exists id. split; [done|]. intros Hne w2 authorization u Ht Hh Hp Hc Hr.
  assert (single get = true) by (destruct ep; try done; by injection Hs as <-).
  rewrite (edge_get get authorization id u w2) by done.
  by rewrite (view_untouched get id (w_db w1)), Hv.
Qed.
End readback.

(** ** The property on a concrete plant *)

#[local] Existing Instances sample_env sample_cmms sample_crypto sample_sync sample_erp.
#[local] Existing Instances sample_process sample_diag sample_axum sample_axum_laws.

Definition new_order : HttpRequest :=
  mkHttpRequest POST ["v1"; "orders"]%string [] (bearing "u1" "Admin") (JsonBody (to_json
    (mkWorkOrderInput "WO-77" "p1" None (5 * 10 ^ 28) None None None
       [mkWoOperationInput 10 None None; mkWoOperationInput 20 None None]))) None.

Definition no_site : HttpRequest :=
  mkHttpRequest DELETE ["v1"; "master"; "sites"; "s2"]%string [] (bearing "u1" "Admin")
    (BadBody 415) None.

(** The answer to a request, and the state it leaves. *)
Definition told (rq : HttpRequest) (w : World) : Answer := response (edge_http sample_state rq w).1.
Definition later (rq : HttpRequest) (w : World) : World := (edge_http sample_state rq w).2.

(** The administrator creates an order and an operator asks for it; a site is deleted and the
    operator asks for it. *)
Lemma read_your_writes_witness :
  an_status (told new_order yard) = 201 ∧
  told (get_request Ep.get_order (bearing "u7" "Operator") "01J8ZQ4K7MABCDEFGHJKM0")
    (later new_order yard) = mkAnswer 200 (an_body (told new_order yard)) ∧
  an_status (told (get_request Ep.get_site (bearing "u7" "Operator") "s2") yard) = 200 ∧
  an_status (told (get_request Ep.get_site (bearing "u7" "Operator") "s2")
    (later no_site yard)) = 404.
Proof.
  assert (schema_ok (w_db yard)) as Hok by (apply schema_ok_decide; vm_compute; reflexivity).
  split; [vm_compute; reflexivity|]. split; [|split; [vm_compute; reflexivity|]].
  - destruct (read_your_writes sample_state new_order Ep.create_order [] Ep.get_order yard
      (told new_order yard) (later new_order yard)) as (id & Hid & H);
      [exact Hok|vm_compute; reflexivity|reflexivity|vm_compute; reflexivity|vm_compute; reflexivity|].
    vm_compute in Hid. injection Hid as <-.
    etransitivity; [apply (H ltac:(discriminate) _ _ (mkAuthUser "u7" "Operator"));
      [done|reflexivity|reflexivity|vm_compute; reflexivity|discriminate]|vm_compute; reflexivity].
  - destruct (read_your_writes sample_state no_site Ep.delete_site ["s2"]%string Ep.get_site yard
      (told no_site yard) (later no_site yard)) as (id & Hid & H);
      [exact Hok|vm_compute; reflexivity|reflexivity|discriminate|vm_compute; reflexivity|].
    vm_compute in Hid. injection Hid as <-. unfold told at 1.
    rewrite (H ltac:(discriminate) _ _ (mkAuthUser "u7" "Operator"));
      [vm_compute; reflexivity|done|reflexivity|reflexivity|vm_compute; reflexivity|discriminate].
Defined.
